(** * A shallow embedding of the Turing-machine simulator (mono- and multi-tape)

    The C++ classes [Tape], [Transition], [TuringMachine], [Configuration],
    [Simulator], [MultiTape], [MultiTransition], [MultiTuringMachine],
    [MultiConfiguration], [MultiSimulator], the [Parser] (its multi-tape
    half in the module [MultiParser]) and the per-word loop of [main] are
    translated into Rocq definitions, one module per class, and the
    properties of the specification, then further properties of the code,
    are stated and settled against them.

    Modelling conventions.
    - [char] is [ascii], [std::string] is [string].
    - [std::unordered_map<K,V>] is [gmap K V] and [std::unordered_set<K>] is
      [gset K]; wherever the code iterates over such a container the result
      does not depend on the order of iteration.
    - [int] (head positions, cell indices) is [Z], a value between
      [INT_MIN] and [INT_MAX]. Where the head moves, the wrap-around of
      the 32-bit register is written out ([int_wrap]): that is what the
      compiled program does at the two ends of the range. Where the source
      counts through a window of cells in [int] ([Tape::get_content],
      [Tape::to_string]), the statements say for which tapes the counters
      stay inside [int]; outside, a signed overflow is undefined behaviour.
    - [size_t] step counters are [N] with the wrap-around at [2^64] written
      out; tape indices and tape counts are [nat].
    - A thrown exception is a value of type [exn]; a member function that
      mutates its object before throwing returns the mutated object together
      with the exception.
    - [std::vector::reserve(n)] throws [std::length_error] when [n] exceeds
      [max_size()], a bound the implementation chooses, at most
      [PTRDIFF_MAX]. The model throws above [PTRDIFF_MAX], and the
      statements on running a multi-tape machine are made for a number of
      tapes within the bound [reservable], which every implementation
      accepts. Running out of memory is not modelled.
    - [while (true)] loops take a fuel argument and return [None] when the
      fuel runs out. *)

From Stdlib Require Import ZArith NArith String Ascii List DecimalString DecimalZ Lia.
From stdpp Require Import base option gmap sets list strings.

Local Open Scope Z_scope.
Local Open Scope string_scope.

(** ** Exceptions and outcomes *)

(** The messages of the exceptions the program throws, one constructor per
    message template; a line number is kept where the message carries one. *)
Inductive error_msg : Type :=
  | EmptyStateName            (* El nombre del estado no puede estar vacio *)
  | BlankInInputAlphabet      (* El simbolo blanco no puede estar en el alfabeto de entrada *)
  | UndeclaredFromState (q : string)
  | UndeclaredToState (q : string)
  | DuplicateTransition (q : string)
  | ZeroTapes                 (* El numero de cintas debe ser mayor que 0 *)
  | TapeCountMismatch         (* El numero de cintas de la transicion no coincide *)
  | MalformedMultiTransition
  | InvalidTapeIndex (i : nat)
  | TapeIndexOutOfRange
  | InvalidMovement (c : ascii)
  | EmptySymbol
  | InvalidSymbol (tok : string)
  | TransitionTokenCount (line : Z)
  | NoStates (line : Z)
  | InitialStateTokenCount (line : Z)
  | BlankTokenCount (line : Z)
  | AtLine (line : Z) (inner : error_msg)
  | IncompleteFile            (* Archivo incompleto: faltan secciones obligatorias *)
  | InvalidMachine            (* La maquina de Turing resultante no es valida *)
  | VectorReserve.            (* the text the library gives to the exception of reserve *)

Inductive exn : Type :=
  | invalid_argument (what : error_msg)
  | out_of_range (what : error_msg)
  | length_error (what : error_msg).

Definition what (e : exn) : error_msg :=
  match e with invalid_argument w => w | out_of_range w => w | length_error w => w end.

(** The outcome of a call that may throw. [Undefined] stands for what the
    C++ standard leaves undefined: an unchecked [operator[]] past the end
    of a vector, or the overflow of a signed [int]. *)
Inductive outcome (A : Type) : Type :=
  | Ok (a : A)
  | Throw (e : exn)
  | Undefined.
Arguments Ok {A} a.
Arguments Throw {A} e.
Arguments Undefined {A}.

Definition obind {A B : Type} (x : outcome A) (f : A -> outcome B) : outcome B :=
  match x with
  | Ok a => f a
  | Throw e => Throw e
  | Undefined => Undefined
  end.

(** The outcome of a mutating member function: the object after the call,
    and the exception when the call threw (the mutations made before the
    throw persist). *)
Inductive mutated (S : Type) : Type :=
  | Done (s : S)
  | Thrown (e : exn) (s : S)
  | Corrupt.
Arguments Done {S} s.
Arguments Thrown {S} e s.
Arguments Corrupt {S}.

(** The object a caller holds after the call, given the object [s0] it held
    before (kept only where the call was undefined). *)
Definition object_after {S : Type} (s0 : S) (r : mutated S) : S :=
  match r with Done s => s | Thrown _ s => s | Corrupt => s0 end.

Definition and_then {S : Type} (r : mutated S) (f : S -> mutated S) : mutated S :=
  match r with
  | Done s => f s
  | Thrown e s => Thrown e s
  | Corrupt => Corrupt
  end.

Infix "&>" := and_then (at level 50, left associativity).

(** A value computed by a call that may throw, then used to mutate the
    object [s]: when the call throws, the object is as it was. *)
Definition with_value {A S : Type} (x : outcome A) (f : A -> S -> mutated S) (s : S) : mutated S :=
  match x with
  | Ok a => f a s
  | Throw e => Thrown e s
  | Undefined => Corrupt
  end.

(** [oss << n] for an [int]: the decimal numeral, with a leading minus sign
    for a negative number. *)
Definition string_of_Z (z : Z) : string := NilZero.string_of_int (Z.to_int z).

(** ** The type [int] *)

Definition INT_MIN : Z := - 2 ^ 31.
Definition INT_MAX : Z := 2 ^ 31 - 1.

(** The value of type [int] that the 32-bit two's-complement register
    holds for the number [z]: [z] itself between [INT_MIN] and [INT_MAX],
    [INT_MIN] for [INT_MAX + 1] and [INT_MAX] for [INT_MIN - 1]. *)
Definition int_wrap (z : Z) : Z := (z + 2 ^ 31) mod 2 ^ 32 - 2 ^ 31.

(** The greatest value of [ptrdiff_t], with [size_t] 64 bits wide. *)
Definition PTRDIFF_MAX : Z := 2 ^ 63 - 1.

(** ** Movement and Tape (Transition.hpp, Tape.cpp) *)

Inductive Movement : Type := LEFT | RIGHT | STAY.

Module Tape.

Record t : Type := mk {
  cells_ : gmap Z ascii;
  head_position_ : Z;
  blank_symbol_ : ascii
}.

(** [Tape::Tape(char blank_symbol)] *)
Definition new (blank_symbol : ascii) : t := mk ∅ 0 blank_symbol.

(** [Tape::read] *)
Definition read (tp : t) : ascii :=
  match cells_ tp !! head_position_ tp with
  | Some c => c
  | None => blank_symbol_ tp
  end.

(** [Tape::write] *)
Definition write (symbol : ascii) (tp : t) : t :=
  if decide (symbol = blank_symbol_ tp)
  then mk (delete (head_position_ tp) (cells_ tp)) (head_position_ tp) (blank_symbol_ tp)
  else mk (<[head_position_ tp := symbol]> (cells_ tp)) (head_position_ tp) (blank_symbol_ tp).

(** [Tape::move_left]: [head_position_--] on an [int]. *)
Definition move_left (tp : t) : t :=
  mk (cells_ tp) (int_wrap (head_position_ tp - 1)) (blank_symbol_ tp).

(** [Tape::move_right]: [head_position_++] on an [int]. *)
Definition move_right (tp : t) : t :=
  mk (cells_ tp) (int_wrap (head_position_ tp + 1)) (blank_symbol_ tp).

(** The [switch (movement)] of [Simulator::step] and [MultiTape::move]. *)
Definition moved (movement : Movement) (tp : t) : t :=
  match movement with
  | LEFT => move_left tp
  | RIGHT => move_right tp
  | STAY => tp
  end.

Definition get_head_position (tp : t) : Z := head_position_ tp.

Definition set_head_position (position : Z) (tp : t) : t :=
  mk (cells_ tp) position (blank_symbol_ tp).

Definition get_blank_symbol (tp : t) : ascii := blank_symbol_ tp.

(** The loop of [Tape::reset]: the characters of the input from index [i]
    on, each stored at its index unless it is the blank symbol. *)
Fixpoint reset_loop (blank : ascii) (input : string) (i : Z)
    (cells : gmap Z ascii) : gmap Z ascii :=
  match input with
  | EmptyString => cells
  | String c rest =>
      reset_loop blank rest (i + 1)
        (if decide (c = blank) then cells else <[i := c]> cells)
  end.

(** [Tape::reset] *)
Definition reset (input_string : string) (tp : t) : t :=
  mk (reset_loop (blank_symbol_ tp) input_string 0 ∅) 0 (blank_symbol_ tp).

(** [Tape::Tape(const std::string&, char)] *)
Definition new_with (input_string : string) (blank_symbol : ascii) : t :=
  reset input_string (mk ∅ 0 blank_symbol).

(** [std::minmax_element] over the keys of [cells_]: the least and the
    greatest key, [None] on an empty map. *)
Definition keys (cells : gmap Z ascii) : list Z := (map_to_list cells).*1.

Definition min_pos (cells : gmap Z ascii) : option Z :=
  match keys cells with
  | [] => None
  | k :: ks => Some (foldr Z.min k ks)
  end.

Definition max_pos (cells : gmap Z ascii) : option Z :=
  match keys cells with
  | [] => None
  | k :: ks => Some (foldr Z.max k ks)
  end.

(** The loop [for (pos = min_pos; pos <= max_pos; ++pos)] of
    [get_content], run for [n] positions starting at [pos]. *)
Fixpoint content_loop (cells : gmap Z ascii) (blank : ascii) (pos : Z)
    (n : nat) : string :=
  match n with
  | O => EmptyString
  | S n' =>
      String (match cells !! pos with Some c => c | None => blank end)
             (content_loop cells blank (pos + 1) n')
  end.

(** [Tape::get_content], the string it builds: the cells from [min_pos]
    to [max_pos]. The positions are counted in [Z] here; the source counts
    them in [int], see [get_content_int]. *)
Definition get_content (tp : t) : string :=
  match min_pos (cells_ tp), max_pos (cells_ tp) with
  | Some lo, Some hi =>
      content_loop (cells_ tp) (blank_symbol_ tp) lo (Z.to_nat (hi - lo + 1))
  | _, _ => EmptyString
  end.

(** The [int] arithmetic of [get_content] for the window from [lo] to
    [hi]: the argument [max_pos - min_pos + 1] of [reserve], and the
    counter [pos] of the loop, which the last [++pos] takes to
    [max_pos + 1]. *)
Definition window_in_int (lo hi : Z) : bool :=
  (hi - lo + 1 <=? INT_MAX)%Z && (hi + 1 <=? INT_MAX)%Z.

(** [Tape::get_content] with its [int] arithmetic: undefined when that
    overflows, otherwise the string of [get_content]. *)
Definition get_content_int (tp : t) : outcome string :=
  match min_pos (cells_ tp), max_pos (cells_ tp) with
  | Some lo, Some hi =>
      if window_in_int lo hi
      then Ok (content_loop (cells_ tp) (blank_symbol_ tp) lo (Z.to_nat (hi - lo + 1)))
      else Undefined
  | _, _ => Ok EmptyString
  end.

(** [Tape::is_empty] *)
Definition is_empty (tp : t) : bool := bool_decide (cells_ tp = ∅).

(** The symbol the tape shows at position [p]: what [read] returns once
    the head stands there. *)
Definition symbol_at (tp : t) (p : Z) : ascii :=
  read (set_head_position p tp).

(** Invariant I5: no stored cell holds the blank symbol. *)
Definition compact (tp : t) : Prop :=
  forall p c, cells_ tp !! p = Some c -> c <> blank_symbol_ tp.

(** The loop of [Tape::to_string], run for [count] positions from [pos]:
    each cell between two spaces, the cell under the head between
    brackets. *)
Fixpoint to_string_loop (tp : t) (pos : Z) (count : nat) : string :=
  match count with
  | O => EmptyString
  | S count' =>
      (if decide (pos = head_position_ tp) then "[" else " ")
      +:+ String (match cells_ tp !! pos with Some c => c | None => blank_symbol_ tp end)
                 EmptyString
      +:+ (if decide (pos = head_position_ tp) then "]" else " ")
      +:+ to_string_loop tp (pos + 1) count'
  end.

(** [Tape::to_string(int window_size)]. The bounds [start] and [end] and
    the counter [pos] are of type [int]: the call is undefined when
    [head_position_ - window_size] or [head_position_ + window_size]
    leaves the range of [int], or when the loop runs up to [INT_MAX], so
    that its last [++pos] overflows. *)
Definition to_string (window_size : Z) (tp : t) : outcome string :=
  let start := head_position_ tp - window_size in
  let end_ := head_position_ tp + window_size in
  if negb ((INT_MIN <=? start)%Z && (start <=? INT_MAX)%Z
           && (INT_MIN <=? end_)%Z && (end_ <=? INT_MAX)%Z) then Undefined
  else if (start <=? end_)%Z && (INT_MAX <=? end_)%Z then Undefined
  else Ok (to_string_loop tp start (Z.to_nat (end_ - start + 1))).

End Tape.

(** ** Transition (Transition.cpp) *)

Module Transition.

Record t : Type := mk {
  from_state_ : string;
  read_symbol_ : ascii;
  to_state_ : string;
  write_symbol_ : ascii;
  movement_ : Movement
}.

(** [Transition::char_to_movement] *)
Definition char_to_movement (c : ascii) : outcome Movement :=
  if decide (c = "L"%char) then Ok LEFT
  else if decide (c = "l"%char) then Ok LEFT
  else if decide (c = "R"%char) then Ok RIGHT
  else if decide (c = "r"%char) then Ok RIGHT
  else if decide (c = "S"%char) then Ok STAY
  else if decide (c = "s"%char) then Ok STAY
  else Throw (invalid_argument (InvalidMovement c)).

(** [Transition::is_applicable] *)
Definition is_applicable (tr : t) (current_state : string) (current_symbol : ascii) : bool :=
  bool_decide (from_state_ tr = current_state) && bool_decide (read_symbol_ tr = current_symbol).

(** [Transition::movement_to_char] *)
Definition movement_to_char (tr : t) : ascii :=
  match movement_ tr with
  | LEFT => "L"%char
  | RIGHT => "R"%char
  | STAY => "S"%char
  end.

(** [Transition::to_string] *)
Definition to_string (tr : t) : string :=
  from_state_ tr +:+ " " +:+ String (read_symbol_ tr) EmptyString +:+ " "
  +:+ to_state_ tr +:+ " " +:+ String (write_symbol_ tr) EmptyString +:+ " "
  +:+ String (movement_to_char tr) EmptyString.

End Transition.

(** ** TuringMachine (TuringMachine.cpp) *)

Module TuringMachine.

Record t : Type := mk {
  states_ : gset string;
  input_alphabet_ : gset ascii;
  tape_alphabet_ : gset ascii;
  initial_state_ : string;
  accept_states_ : gset string;
  blank_symbol_ : ascii;
  transitions_ : gmap (string * ascii) Transition.t
}.

Definition with_states (Q : gset string) (m : t) : t :=
  mk Q (input_alphabet_ m) (tape_alphabet_ m) (initial_state_ m)
     (accept_states_ m) (blank_symbol_ m) (transitions_ m).
Definition with_input_alphabet (A : gset ascii) (m : t) : t :=
  mk (states_ m) A (tape_alphabet_ m) (initial_state_ m)
     (accept_states_ m) (blank_symbol_ m) (transitions_ m).
Definition with_tape_alphabet (G : gset ascii) (m : t) : t :=
  mk (states_ m) (input_alphabet_ m) G (initial_state_ m)
     (accept_states_ m) (blank_symbol_ m) (transitions_ m).
Definition with_initial_state (q : string) (m : t) : t :=
  mk (states_ m) (input_alphabet_ m) (tape_alphabet_ m) q
     (accept_states_ m) (blank_symbol_ m) (transitions_ m).
Definition with_accept_states (F : gset string) (m : t) : t :=
  mk (states_ m) (input_alphabet_ m) (tape_alphabet_ m) (initial_state_ m)
     F (blank_symbol_ m) (transitions_ m).
Definition with_blank_symbol (b : ascii) (m : t) : t :=
  mk (states_ m) (input_alphabet_ m) (tape_alphabet_ m) (initial_state_ m)
     (accept_states_ m) b (transitions_ m).
Definition with_transitions (d : gmap (string * ascii) Transition.t) (m : t) : t :=
  mk (states_ m) (input_alphabet_ m) (tape_alphabet_ m) (initial_state_ m)
     (accept_states_ m) (blank_symbol_ m) d.

(** [TuringMachine::TuringMachine(char blank_symbol = '.')] *)
Definition new (blank_symbol : ascii) : t :=
  mk ∅ ∅ {[ blank_symbol ]} "" ∅ blank_symbol ∅.

(** [TuringMachine::add_state] *)
Definition add_state (state : string) (m : t) : mutated t :=
  if decide (state = "") then Thrown (invalid_argument EmptyStateName) m
  else Done (with_states ({[ state ]} ∪ states_ m) m).

(** [TuringMachine::add_input_symbol] *)
Definition add_input_symbol (symbol : ascii) (m : t) : mutated t :=
  if decide (symbol = blank_symbol_ m)
  then Thrown (invalid_argument BlankInInputAlphabet) m
  else Done (with_tape_alphabet ({[ symbol ]} ∪ tape_alphabet_ m)
               (with_input_alphabet ({[ symbol ]} ∪ input_alphabet_ m) m)).

(** [TuringMachine::add_tape_symbol] *)
Definition add_tape_symbol (symbol : ascii) (m : t) : mutated t :=
  Done (with_tape_alphabet ({[ symbol ]} ∪ tape_alphabet_ m) m).

(** [TuringMachine::set_initial_state] *)
Definition set_initial_state (state : string) (m : t) : mutated t :=
  add_state state (with_initial_state state m).

(** [TuringMachine::add_accept_state] *)
Definition add_accept_state (state : string) (m : t) : mutated t :=
  add_state state (with_accept_states ({[ state ]} ∪ accept_states_ m) m).

(** [TuringMachine::set_blank_symbol] *)
Definition set_blank_symbol (symbol : ascii) (m : t) : mutated t :=
  if decide (blank_symbol_ m <> symbol)
  then Done (with_tape_alphabet ({[ symbol ]} ∪ tape_alphabet_ m)
               (with_blank_symbol symbol m))
  else Done m.

(** [TuringMachine::add_transition(const Transition&)] *)
Definition add_transition (transition : Transition.t) (m : t) : mutated t :=
  if decide (Transition.from_state_ transition ∉ states_ m)
  then Thrown (invalid_argument (UndeclaredFromState (Transition.from_state_ transition))) m
  else if decide (Transition.to_state_ transition ∉ states_ m)
  then Thrown (invalid_argument (UndeclaredToState (Transition.to_state_ transition))) m
  else
    add_tape_symbol (Transition.read_symbol_ transition) m
    &> add_tape_symbol (Transition.write_symbol_ transition)
    &> (fun m1 =>
          let key := (Transition.from_state_ transition, Transition.read_symbol_ transition) in
          match transitions_ m1 !! key with
          | Some _ =>
              Thrown (invalid_argument (DuplicateTransition (Transition.from_state_ transition))) m1
          | None => Done (with_transitions (<[key := transition]> (transitions_ m1)) m1)
          end).

(** [TuringMachine::get_transition]; [None] is the null pointer. *)
Definition get_transition (m : t) (state : string) (symbol : ascii) : option Transition.t :=
  transitions_ m !! (state, symbol).

(** [TuringMachine::is_valid] *)
Definition is_valid (m : t) : bool :=
  if bool_decide (states_ m = ∅) then false
  else if bool_decide (initial_state_ m = "")
          || bool_decide (initial_state_ m ∉ states_ m) then false
  else if negb (forallb (fun q => bool_decide (q ∈ states_ m))
                        (elements (accept_states_ m))) then false
  else if bool_decide (blank_symbol_ m ∉ tape_alphabet_ m) then false
  else if negb (forallb (fun c => bool_decide (c ∈ tape_alphabet_ m)
                                  && negb (bool_decide (c = blank_symbol_ m)))
                        (elements (input_alphabet_ m))) then false
  else forallb (fun kv : string * ascii * Transition.t =>
                  let trans := kv.2 in
                  bool_decide (Transition.from_state_ trans ∈ states_ m)
                  && bool_decide (Transition.to_state_ trans ∈ states_ m)
                  && bool_decide (Transition.read_symbol_ trans ∈ tape_alphabet_ m)
                  && bool_decide (Transition.write_symbol_ trans ∈ tape_alphabet_ m))
               (map_to_list (transitions_ m)).

Definition is_accept_state (m : t) (state : string) : bool :=
  bool_decide (state ∈ accept_states_ m).

Definition is_input_symbol (m : t) (symbol : ascii) : bool :=
  bool_decide (symbol ∈ input_alphabet_ m).

Definition is_tape_symbol (m : t) (symbol : ascii) : bool :=
  bool_decide (symbol ∈ tape_alphabet_ m).

(** [TuringMachine::is_valid_input_word] *)
Fixpoint is_valid_input_word (m : t) (word : string) : bool :=
  match word with
  | EmptyString => true
  | String symbol rest =>
      if negb (is_input_symbol m symbol) then false
      else is_valid_input_word m rest
  end.

(** [TuringMachine::clear] *)
Definition clear (m : t) : t :=
  mk ∅ ∅ {[ blank_symbol_ m ]} "" ∅ (blank_symbol_ m) ∅.

(** The builder interface as data: one constructor per mutating member
    function, so that arbitrary call sequences can be quantified over. *)
Inductive builder_op : Type :=
  | AddState (state : string)
  | AddInputSymbol (symbol : ascii)
  | AddTapeSymbol (symbol : ascii)
  | SetInitialState (state : string)
  | AddAcceptState (state : string)
  | SetBlankSymbol (symbol : ascii)
  | AddTransition (transition : Transition.t)
  | Clear.

Definition apply_op (op : builder_op) (m : t) : mutated t :=
  match op with
  | AddState q => add_state q m
  | AddInputSymbol c => add_input_symbol c m
  | AddTapeSymbol c => add_tape_symbol c m
  | SetInitialState q => set_initial_state q m
  | AddAcceptState q => add_accept_state q m
  | SetBlankSymbol c => set_blank_symbol c m
  | AddTransition tr => add_transition tr m
  | Clear => Done (clear m)
  end.

(** A caller that issues the operations one after the other, going on
    after an operation that threw (the object stays usable). *)
Definition apply_ops (ops : list builder_op) (m : t) : t :=
  foldl (fun acc op => object_after acc (apply_op op acc)) m ops.

(** [TuringMachine::get_all_transitions]: the transitions stored, in the
    order of iteration over the map. *)
Definition get_all_transitions (m : t) : list Transition.t :=
  (map_to_list (transitions_ m)).*2.

End TuringMachine.

(** ** Parser for single-tape machine files (Parser.cpp) *)

Module Parser.

Definition TAB : ascii := ascii_of_nat 9.
Definition LF : ascii := ascii_of_nat 10.
Definition VT : ascii := ascii_of_nat 11.
Definition FF : ascii := ascii_of_nat 12.
Definition CR : ascii := ascii_of_nat 13.
Definition SP : ascii := ascii_of_nat 32.

(** The characters of the set [" \t\r\n"] used by [trim]. *)
Definition is_trim_char (c : ascii) : bool :=
  bool_decide (c = SP) || bool_decide (c = TAB)
  || bool_decide (c = CR) || bool_decide (c = LF).

(** [std::isspace] in the C locale: what [operator>>] skips. *)
Definition isspace (c : ascii) : bool :=
  bool_decide (c = SP) || bool_decide (c = TAB) || bool_decide (c = LF)
  || bool_decide (c = VT) || bool_decide (c = FF) || bool_decide (c = CR).

Fixpoint drop_leading (s : string) : string :=
  match s with
  | EmptyString => EmptyString
  | String c rest => if is_trim_char c then drop_leading rest else s
  end.

Fixpoint drop_trailing (s : string) : string :=
  match s with
  | EmptyString => EmptyString
  | String c rest =>
      match drop_trailing rest with
      | EmptyString => if is_trim_char c then EmptyString else String c EmptyString
      | rest' => String c rest'
      end
  end.

(** [Parser::trim]: the substring from the first to the last character
    outside [" \t\r\n"], empty when there is none. *)
Definition trim (str : string) : string := drop_trailing (drop_leading str).

(** [Parser::split]: the loop [while (iss >> token)]; [token] is the
    token being read, empty between tokens. *)
Fixpoint split_loop (s : string) (token : string) : list string :=
  match s with
  | EmptyString => if decide (token = "") then [] else [token]
  | String c rest =>
      if isspace c
      then (if decide (token = "") then split_loop rest ""
            else token :: split_loop rest "")
      else split_loop rest (token +:+ String c EmptyString)
  end.

Definition split (str : string) : list string := split_loop str "".

(** [Parser::is_comment] *)
Definition is_comment (line : string) : bool :=
  match trim line with
  | String c _ => bool_decide (c = "#"%char)
  | EmptyString => false
  end.

(** [Parser::is_empty_line] *)
Definition is_empty_line (line : string) : bool :=
  bool_decide (trim line = "").

(** [Parser::string_to_char] *)
Definition string_to_char (str : string) : outcome ascii :=
  match str with
  | EmptyString => Throw (invalid_argument EmptySymbol)
  | String c EmptyString => Ok c
  | _ =>
      if bool_decide (str = "espacio") || bool_decide (str = "space") then Ok SP
      else Throw (invalid_argument (InvalidSymbol str))
  end.

(** The [try]/[catch] of [parse_transition] around the movement: any
    exception is thrown again as [invalid_argument] with the line number
    put in front of its message. *)
Definition at_line {A : Type} (line_number : Z) (x : outcome A) : outcome A :=
  match x with
  | Throw e => Throw (invalid_argument (AtLine line_number (what e)))
  | other => other
  end.

(** [Parser::parse_transition] *)
Definition parse_transition (line : string) (line_number : Z) : outcome Transition.t :=
  match split line with
  | [t0; t1; t2; t3; t4] =>
      obind (string_to_char t1) (fun read_symbol =>
      obind (string_to_char t3) (fun write_symbol =>
      obind (at_line line_number
               (obind (string_to_char t4) Transition.char_to_movement))
            (fun movement =>
      Ok (Transition.mk t0 read_symbol t2 write_symbol movement))))
  | _ => Throw (invalid_argument (TransitionTokenCount line_number))
  end.

(** [for (x : xs) body(x);] over a mutated object, stopping at the first
    exception. *)
Definition for_each {A S : Type} (body : A -> S -> mutated S) (xs : list A) (s : S) : mutated S :=
  foldl (fun acc x => acc &> body x) (Done s) xs.

(** The [catch] of section 6 throws the exception again as
    [invalid_argument] with the same message. *)
Definition rethrow {S : Type} (r : mutated S) : mutated S :=
  match r with
  | Thrown e s => Thrown (invalid_argument (what e)) s
  | other => other
  end.

(** The [switch (section)] of [load_from_stream] for one trimmed line that
    is neither a comment nor empty; returns the next section. *)
Definition parse_section (section : Z) (line : string) (line_number : Z)
    (machine : TuringMachine.t) : mutated TuringMachine.t * Z :=
  if decide (section = 0) then
    match split line with
    | [] => (Thrown (invalid_argument (NoStates line_number)) machine, section)
    | states => (for_each TuringMachine.add_state states machine, section + 1)
    end
  else if decide (section = 1) then
    (for_each (fun symbol_str => with_value (string_to_char symbol_str) TuringMachine.add_input_symbol)
              (split line) machine, section + 1)
  else if decide (section = 2) then
    (for_each (fun symbol_str => with_value (string_to_char symbol_str) TuringMachine.add_tape_symbol)
              (split line) machine, section + 1)
  else if decide (section = 3) then
    match split line with
    | [tok] => (TuringMachine.set_initial_state tok machine, section + 1)
    | _ => (Thrown (invalid_argument (InitialStateTokenCount line_number)) machine, section)
    end
  else if decide (section = 4) then
    match split line with
    | [tok] => (with_value (string_to_char tok) TuringMachine.set_blank_symbol machine, section + 1)
    | _ => (Thrown (invalid_argument (BlankTokenCount line_number)) machine, section)
    end
  else if decide (section = 5) then
    (for_each TuringMachine.add_accept_state (split line) machine, section + 1)
  else if decide (section = 6) then
    (rethrow (with_value (parse_transition line line_number) TuringMachine.add_transition machine),
     section)
  else if decide (6 < section) then
    (rethrow (with_value (parse_transition line line_number) TuringMachine.add_transition machine),
     section)
  else (Done machine, section).

(** The [while (std::getline(input, line))] loop; the stream is the list
    of the lines [getline] yields. *)
Fixpoint parse_lines (input : list string) (line_number : Z) (section : Z)
    (machine : TuringMachine.t) : mutated TuringMachine.t * Z :=
  match input with
  | [] => (Done machine, section)
  | line :: rest =>
      let line_number := line_number + 1 in
      if is_comment line || is_empty_line line
      then parse_lines rest line_number section machine
      else
        match parse_section section (trim line) line_number machine with
        | (Done machine', section') => parse_lines rest line_number section' machine'
        | stopped => stopped
        end
  end.

Record load_result : Type := mk_load_result {
  loaded : bool;                       (* the value returned *)
  machine_after : TuringMachine.t;     (* the [machine] argument after the call *)
  last_error_ : option error_msg       (* [None] is the empty string *)
}.

(** [Parser::load_from_stream] *)
Definition load_from_stream (input : list string) (machine : TuringMachine.t) : load_result :=
  match parse_lines input 0 0 (TuringMachine.clear machine) with
  | (Thrown e machine', _) => mk_load_result false machine' (Some (what e))
  | (Corrupt, _) => mk_load_result false machine None
  | (Done machine', section) =>
      if decide (section < 6)
      then mk_load_result false machine' (Some IncompleteFile)
      else if negb (TuringMachine.is_valid machine')
      then mk_load_result false machine' (Some InvalidMachine)
      else mk_load_result true machine' None
  end.

(** [std::getline(stream, piece, delim)] called until the stream is at its
    end: the pieces of a text between the delimiters, nothing after a
    final delimiter; [piece] is the piece being read. *)
Fixpoint getline_loop (delim : ascii) (text piece : string) : list string :=
  match text with
  | EmptyString => if decide (piece = "") then [] else [piece]
  | String c rest =>
      if decide (c = delim) then piece :: getline_loop delim rest ""
      else getline_loop delim rest (piece +:+ String c EmptyString)
  end.

(** The lines of a text. *)
Definition getlines (text : string) : list string := getline_loop LF text "".

(** The order in which a range-based [for] visits an unordered container
    is unspecified, and [save_to_file] writes the elements in that order:
    the orders are given as lists. *)
Record visit : Type := mk_visit {
  states_seen : list string;
  input_alphabet_seen : list ascii;
  tape_alphabet_seen : list ascii;
  accept_states_seen : list string;
  transitions_seen : list Transition.t
}.

(** [file << symbol] for a [char]. *)
Definition put (symbol : ascii) : string := String symbol EmptyString.

(** The loops [if (!first) file << " "; file << x; first = false;]. *)
Fixpoint separated (items : list string) : string :=
  match items with
  | [] => ""
  | [x] => x
  | x :: rest => x +:+ " " +:+ separated rest
  end.

(** The lines [save_to_file] writes, each one followed by a newline. *)
Definition saved_lines (order : visit) (machine : TuringMachine.t) : list string :=
  [ "# Definición de Máquina de Turing";
    "# Estados";
    separated (states_seen order);
    "# Alfabeto de entrada";
    separated (put <$> input_alphabet_seen order);
    "# Alfabeto de cinta";
    separated (put <$> tape_alphabet_seen order);
    "# Estado inicial";
    TuringMachine.initial_state_ machine;
    "# Símbolo blanco";
    put (TuringMachine.blank_symbol_ machine);
    "# Estados de aceptación";
    separated (accept_states_seen order);
    "# Transiciones" ]
  ++ (Transition.to_string <$> transitions_seen order).

(** [Parser::save_to_file], once the file is open: the text written. *)
Definition save_to_file (order : visit) (machine : TuringMachine.t) : string :=
  foldr (fun line text => line +:+ String LF text) "" (saved_lines order machine).

End Parser.

(** ** Configuration (Configuration.cpp) *)

(** [size_t] is 64 bits wide: [step_count_++] wraps around at [2^64]. *)
Definition SIZE_MAX_plus_1 : N := (2 ^ 64)%N.

Definition size_t_succ (n : N) : N := ((n + 1) mod SIZE_MAX_plus_1)%N.

Module Configuration.

Record t : Type := mk {
  current_state_ : string;
  tape_ : Tape.t;
  step_count_ : N
}.

(** [Configuration::Configuration(initial_state, input_string, blank_symbol)] *)
Definition new (initial_state input_string : string) (blank_symbol : ascii) : t :=
  mk initial_state (Tape.new_with input_string blank_symbol) 0%N.

Definition set_current_state (state : string) (c : t) : t :=
  mk state (tape_ c) (step_count_ c).

Definition set_tape (tp : Tape.t) (c : t) : t :=
  mk (current_state_ c) tp (step_count_ c).

Definition increment_step_count (c : t) : t :=
  mk (current_state_ c) (tape_ c) (size_t_succ (step_count_ c)).

(** [Configuration::to_compact_string] *)
Definition to_compact_string (c : t) : string :=
  current_state_ c +:+ "|" +:+ string_of_Z (Tape.get_head_position (tape_ c))
    +:+ "|" +:+ Tape.get_content (tape_ c).

(** [Configuration::is_equivalent] *)
Definition is_equivalent (c other : t) : bool :=
  if negb (bool_decide (current_state_ c = current_state_ other)) then false
  else if negb (bool_decide (Tape.get_head_position (tape_ c)
                             = Tape.get_head_position (tape_ other))) then false
  else bool_decide (Tape.get_content (tape_ c) = Tape.get_content (tape_ other)).

(** [Configuration::reset] *)
Definition reset (initial_state input_string : string) (c : t) : t :=
  mk initial_state (Tape.reset input_string (tape_ c)) 0%N.

End Configuration.

(** ** Simulator (Simulator.cpp) *)

Inductive SimulationResult : Type := ACCEPTED | REJECTED | INFINITE | ERROR.

(** The texts [last_error_] of a simulator can hold. *)
Inductive sim_error : Type :=
  | NullMachine          (* La maquina de Turing no puede ser nullptr *)
  | NoMachineAssigned    (* No hay maquina de Turing asignada *)
  | MachineNotValid      (* La maquina de Turing no es valida *)
  | InvalidInputWord     (* La palabra de entrada contiene simbolos no validos *)
  | StepFailed.          (* Error al ejecutar paso de simulacion *)

(** [Simulator::result_to_string] *)
Definition result_to_string (result : SimulationResult) : string :=
  match result with
  | ACCEPTED => "ACCEPT"
  | REJECTED => "REJECT"
  | INFINITE => "INFINITE"
  | ERROR => "ERROR"
  end.

Module Simulator.

Record t : Type := mk {
  machine_ : option TuringMachine.t;         (* [None] is [nullptr] *)
  current_config_ : Configuration.t;
  trace_ : list Configuration.t;
  trace_enabled_ : bool;
  max_steps_ : N;
  last_error_ : option sim_error;            (* [None] is the empty string *)
  visited_configurations_ : gset string
}.

Definition with_config (c : Configuration.t) (s : t) : t :=
  mk (machine_ s) c (trace_ s) (trace_enabled_ s) (max_steps_ s)
     (last_error_ s) (visited_configurations_ s).
Definition with_last_error (e : option sim_error) (s : t) : t :=
  mk (machine_ s) (current_config_ s) (trace_ s) (trace_enabled_ s) (max_steps_ s)
     e (visited_configurations_ s).

(** The constructor of [Simulator]: the configuration is built with the
    blank symbol '.', whatever the blank symbol of the machine is. *)
Definition new (machine : option TuringMachine.t) : t :=
  mk machine (Configuration.new "" "" ".") [] false 1000%N
     (match machine with None => Some NullMachine | Some _ => None end) ∅.

(** [Simulator::step] *)
Definition step (s : t) : bool * t :=
  match machine_ s with
  | None => (false, s)
  | Some machine =>
      let current_state := Configuration.current_state_ (current_config_ s) in
      let current_symbol := Tape.read (Configuration.tape_ (current_config_ s)) in
      match TuringMachine.get_transition machine current_state current_symbol with
      | None => (false, s)
      | Some transition =>
          let tp := Tape.write (Transition.write_symbol_ transition)
                      (Configuration.tape_ (current_config_ s)) in
          let tp := Tape.moved (Transition.movement_ transition) tp in
          let c := Configuration.set_tape tp (current_config_ s) in
          let c := Configuration.set_current_state (Transition.to_state_ transition) c in
          let c := Configuration.increment_step_count c in
          (true, with_config c s)
      end
  end.

(** [Simulator::reset] *)
Definition reset (input_word : string) (s : t) : t :=
  let c := match machine_ s with
           | Some machine =>
               let c := Configuration.reset (TuringMachine.initial_state_ machine)
                          input_word (current_config_ s) in
               Configuration.set_tape (Tape.set_head_position 0 (Configuration.tape_ c)) c
           | None => current_config_ s
           end in
  mk (machine_ s) c [] (trace_enabled_ s) (max_steps_ s) None ∅.

(** [Simulator::is_accepting_state] *)
Definition is_accepting_state (s : t) : bool :=
  match machine_ s with
  | None => false
  | Some machine =>
      TuringMachine.is_accept_state machine
        (Configuration.current_state_ (current_config_ s))
  end.

(** [Simulator::has_applicable_transition] *)
Definition has_applicable_transition (s : t) : bool :=
  match machine_ s with
  | None => false
  | Some machine =>
      let current_state := Configuration.current_state_ (current_config_ s) in
      let current_symbol := Tape.read (Configuration.tape_ (current_config_ s)) in
      bool_decide (is_Some (TuringMachine.get_transition machine current_state current_symbol))
  end.

Definition get_step_count (s : t) : N :=
  Configuration.step_count_ (current_config_ s).

(** [Simulator::add_to_trace] *)
Definition add_to_trace (s : t) : t :=
  if trace_enabled_ s
  then mk (machine_ s) (current_config_ s) (trace_ s ++ [current_config_ s])
          (trace_enabled_ s) (max_steps_ s) (last_error_ s) (visited_configurations_ s)
  else s.

Definition get_configuration_key (s : t) : string :=
  Configuration.to_compact_string (current_config_ s).

(** [Simulator::is_configuration_visited] *)
Definition is_configuration_visited (s : t) : bool :=
  bool_decide (get_configuration_key s ∈ visited_configurations_ s).

(** [Simulator::mark_configuration_as_visited] *)
Definition mark_configuration_as_visited (s : t) : t :=
  mk (machine_ s) (current_config_ s) (trace_ s) (trace_enabled_ s) (max_steps_ s)
     (last_error_ s) ({[ get_configuration_key s ]} ∪ visited_configurations_ s).

(** [Simulator::is_infinite_loop_detected] *)
Definition is_infinite_loop_detected (s : t) : bool := is_configuration_visited s.

(** The first check of the main loop: the step budget. *)
Definition budget_exhausted (s : t) : bool :=
  (0 <? max_steps_ s)%N && (max_steps_ s <=? get_step_count s)%N.

(** One pass through the body of [while (true)] in [simulate]: [inl r]
    when the pass executes [return r], [inr s'] when it reaches the end of
    the body with the simulator in state [s']. The first component of
    [inl] is the simulator at the [return]. *)
Definition loop_body (s : t) : (SimulationResult * t) + t :=
  if budget_exhausted s then inl (INFINITE, s)
  else if is_accepting_state s then inl (ACCEPTED, s)
  else if negb (has_applicable_transition s) then inl (REJECTED, s)
  else
    match step s with
    | (false, s1) => inl (ERROR, with_last_error (Some StepFailed) s1)
    | (true, s1) =>
        if is_configuration_visited s1 then inl (INFINITE, s1)
        else inr (add_to_trace (mark_configuration_as_visited s1))
    end.

(** The [while (true)] loop, at most [fuel] passes. *)
Fixpoint main_loop (fuel : nat) (s : t) : option (SimulationResult * t) :=
  match fuel with
  | O => None
  | S fuel' =>
      match loop_body s with
      | inl r => Some r
      | inr s' => main_loop fuel' s'
      end
  end.

(** The part of [simulate] before the loop, when the three checks pass. *)
Definition setup (input_word : string) (enable_trace : bool) (max_steps : N) (s : t) : t :=
  let s := mk (machine_ s) (current_config_ s) (trace_ s) enable_trace max_steps
              (last_error_ s) (visited_configurations_ s) in
  let s := reset input_word s in
  let s := add_to_trace s in
  mark_configuration_as_visited s.

(** [Simulator::simulate] *)
Definition simulate (fuel : nat) (input_word : string) (enable_trace : bool)
    (max_steps : N) (s : t) : option (SimulationResult * t) :=
  match machine_ s with
  | None => Some (ERROR, with_last_error (Some NoMachineAssigned) s)
  | Some machine =>
      if negb (TuringMachine.is_valid machine)
      then Some (ERROR, with_last_error (Some MachineNotValid) s)
      else if negb (TuringMachine.is_valid_input_word machine input_word)
      then Some (ERROR, with_last_error (Some InvalidInputWord) s)
      else main_loop fuel (setup input_word enable_trace max_steps s)
  end.

End Simulator.

(** ** MultiTransition (MultiTransition.cpp) *)

Global Instance outcome_ret : MRet outcome := fun _ a => Ok a.
Global Instance outcome_bind : MBind outcome := fun _ _ f x => obind x f.

(** Unchecked [v[i]] on a [std::vector]: undefined past the end. *)
Definition at_index {A : Type} (v : list A) (i : nat) : outcome A :=
  match v !! i with
  | Some a => Ok a
  | None => Undefined
  end.

(** [for (size_t i = 0; i < n; ++i) body(i);] over a mutated object. *)
Definition for_index {S : Type} (n : nat) (body : nat -> S -> mutated S) (s : S) : mutated S :=
  foldl (fun acc i => acc &> body i) (Done s) (seq 0 n).

Module MultiTransition.

Record t : Type := mk {
  from_state_ : string;
  read_symbols_ : list ascii;
  to_state_ : string;
  write_symbols_ : list ascii;
  movements_ : list Movement
}.

(** [MultiTransition::is_well_formed] *)
Definition is_well_formed (tr : t) : bool :=
  let num_tapes := length (read_symbols_ tr) in
  bool_decide (length (write_symbols_ tr) = num_tapes)
  && bool_decide (length (movements_ tr) = num_tapes)
  && bool_decide (0 < num_tapes)%nat.

(** The five-argument constructor. *)
Definition new (from_state : string) (read_symbols : list ascii) (to_state : string)
    (write_symbols : list ascii) (movements : list Movement) : outcome t :=
  let tr := mk from_state read_symbols to_state write_symbols movements in
  if negb (is_well_formed tr) then Throw (invalid_argument MalformedMultiTransition)
  else Ok tr.

(** The default constructor. *)
Definition empty : t := mk "" [] "" [] [].

Definition get_read_symbol (tr : t) (tape_index : nat) : outcome ascii :=
  match read_symbols_ tr !! tape_index with
  | None => Throw (out_of_range TapeIndexOutOfRange)
  | Some c => Ok c
  end.

Definition get_write_symbol (tr : t) (tape_index : nat) : outcome ascii :=
  match write_symbols_ tr !! tape_index with
  | None => Throw (out_of_range TapeIndexOutOfRange)
  | Some c => Ok c
  end.

Definition get_num_tapes (tr : t) : nat := length (read_symbols_ tr).

(** [MultiTransition::is_applicable]: the state, the sizes, then the
    symbols one index after the other. *)
Definition is_applicable (tr : t) (current_state : string) (current_symbols : list ascii)
    : bool :=
  if negb (bool_decide (from_state_ tr = current_state)) then false
  else if negb (bool_decide (length current_symbols = length (read_symbols_ tr))) then false
  else forallb (fun i => bool_decide (current_symbols !! i = read_symbols_ tr !! i))
               (seq 0 (length (read_symbols_ tr))).

(** The loops of [to_string]: the items, a comma in front of each but the
    first. *)
Fixpoint comma_separated (items : list ascii) (i : nat) : string :=
  match items with
  | [] => EmptyString
  | x :: rest =>
      (if decide (0 < i)%nat then "," else "") +:+ String x (comma_separated rest (S i))
  end.

Definition movement_letter (mov : Movement) : ascii :=
  match mov with
  | LEFT => "L"%char
  | RIGHT => "R"%char
  | STAY => "S"%char
  end.

(** [MultiTransition::to_string] *)
Definition to_string (tr : t) : string :=
  from_state_ tr +:+ " " +:+ comma_separated (read_symbols_ tr) 0
  +:+ " " +:+ to_state_ tr +:+ " " +:+ comma_separated (write_symbols_ tr) 0
  +:+ " " +:+ comma_separated (movement_letter <$> movements_ tr) 0.

(** [MultiTransition::chars_to_movements]: stops at the first character
    that is no movement. *)
Fixpoint chars_to_movements (movement_chars : list ascii) : outcome (list Movement) :=
  match movement_chars with
  | [] => Ok []
  | c :: rest =>
      mov ← Transition.char_to_movement c;
      movs ← chars_to_movements rest;
      Ok (mov :: movs)
  end.

(** [MultiTransition::movements_to_chars] *)
Definition movements_to_chars (movements : list Movement) : list ascii :=
  movement_letter <$> movements.

End MultiTransition.

(** ** MultiTuringMachine (MultiTuringMachine.cpp) *)

Module MultiTuringMachine.

Record t : Type := mk {
  states_ : gset string;
  input_alphabet_ : gset ascii;
  tape_alphabet_ : gset ascii;
  initial_state_ : string;
  accept_states_ : gset string;
  blank_symbol_ : ascii;
  num_tapes_ : nat;
  transitions_ : gmap (string * list ascii) MultiTransition.t
}.

Definition with_states (Q : gset string) (m : t) : t :=
  mk Q (input_alphabet_ m) (tape_alphabet_ m) (initial_state_ m)
     (accept_states_ m) (blank_symbol_ m) (num_tapes_ m) (transitions_ m).
Definition with_input_alphabet (A : gset ascii) (m : t) : t :=
  mk (states_ m) A (tape_alphabet_ m) (initial_state_ m)
     (accept_states_ m) (blank_symbol_ m) (num_tapes_ m) (transitions_ m).
Definition with_tape_alphabet (G : gset ascii) (m : t) : t :=
  mk (states_ m) (input_alphabet_ m) G (initial_state_ m)
     (accept_states_ m) (blank_symbol_ m) (num_tapes_ m) (transitions_ m).
Definition with_initial_state (q : string) (m : t) : t :=
  mk (states_ m) (input_alphabet_ m) (tape_alphabet_ m) q
     (accept_states_ m) (blank_symbol_ m) (num_tapes_ m) (transitions_ m).
Definition with_accept_states (F : gset string) (m : t) : t :=
  mk (states_ m) (input_alphabet_ m) (tape_alphabet_ m) (initial_state_ m)
     F (blank_symbol_ m) (num_tapes_ m) (transitions_ m).
Definition with_blank_symbol (b : ascii) (m : t) : t :=
  mk (states_ m) (input_alphabet_ m) (tape_alphabet_ m) (initial_state_ m)
     (accept_states_ m) b (num_tapes_ m) (transitions_ m).
Definition with_num_tapes (k : nat) (m : t) : t :=
  mk (states_ m) (input_alphabet_ m) (tape_alphabet_ m) (initial_state_ m)
     (accept_states_ m) (blank_symbol_ m) k (transitions_ m).
Definition with_transitions (d : gmap (string * list ascii) MultiTransition.t) (m : t) : t :=
  mk (states_ m) (input_alphabet_ m) (tape_alphabet_ m) (initial_state_ m)
     (accept_states_ m) (blank_symbol_ m) (num_tapes_ m) d.

(** [MultiTuringMachine::MultiTuringMachine(num_tapes, blank_symbol)] *)
Definition new (num_tapes : nat) (blank_symbol : ascii) : outcome t :=
  if decide (num_tapes = 0%nat) then Throw (invalid_argument ZeroTapes)
  else Ok (mk ∅ ∅ {[ blank_symbol ]} "" ∅ blank_symbol num_tapes ∅).

Definition add_state (state : string) (m : t) : mutated t :=
  if decide (state = "") then Thrown (invalid_argument EmptyStateName) m
  else Done (with_states ({[ state ]} ∪ states_ m) m).

Definition add_input_symbol (symbol : ascii) (m : t) : mutated t :=
  if decide (symbol = blank_symbol_ m)
  then Thrown (invalid_argument BlankInInputAlphabet) m
  else Done (with_tape_alphabet ({[ symbol ]} ∪ tape_alphabet_ m)
               (with_input_alphabet ({[ symbol ]} ∪ input_alphabet_ m) m)).

Definition add_tape_symbol (symbol : ascii) (m : t) : mutated t :=
  Done (with_tape_alphabet ({[ symbol ]} ∪ tape_alphabet_ m) m).

Definition set_initial_state (state : string) (m : t) : mutated t :=
  add_state state (with_initial_state state m).

Definition add_accept_state (state : string) (m : t) : mutated t :=
  add_state state (with_accept_states ({[ state ]} ∪ accept_states_ m) m).

(** [MultiTuringMachine::set_blank_symbol] *)
Definition set_blank_symbol (symbol : ascii) (m : t) : mutated t :=
  if decide (blank_symbol_ m <> symbol)
  then Done (with_tape_alphabet ({[ symbol ]} ∪ tape_alphabet_ m)
               (with_blank_symbol symbol m))
  else Done m.

Definition set_num_tapes (num_tapes : nat) (m : t) : mutated t :=
  if decide (num_tapes = 0%nat) then Thrown (invalid_argument ZeroTapes) m
  else Done (with_num_tapes num_tapes m).

(** [MultiTuringMachine::add_transition(const MultiTransition&)] *)
Definition add_transition (transition : MultiTransition.t) (m : t) : mutated t :=
  if decide (MultiTransition.get_num_tapes transition <> num_tapes_ m)
  then Thrown (invalid_argument TapeCountMismatch) m
  else
    add_state (MultiTransition.from_state_ transition) m
    &> add_state (MultiTransition.to_state_ transition)
    &> (fun m1 =>
          for_index (num_tapes_ m1)
            (fun i m2 =>
               with_value (MultiTransition.get_read_symbol transition i) add_tape_symbol m2
               &> with_value (MultiTransition.get_write_symbol transition i) add_tape_symbol)
            m1)
    &> (fun m1 =>
          let key := (MultiTransition.from_state_ transition,
                      MultiTransition.read_symbols_ transition) in
          match transitions_ m1 !! key with
          | Some _ =>
              Thrown (invalid_argument
                        (DuplicateTransition (MultiTransition.from_state_ transition))) m1
          | None => Done (with_transitions (<[key := transition]> (transitions_ m1)) m1)
          end).

(** [MultiTuringMachine::get_transition] *)
Definition get_transition (m : t) (state : string) (symbols : list ascii)
    : option MultiTransition.t :=
  if decide (length symbols <> num_tapes_ m) then None
  else transitions_ m !! (state, symbols).

(** [MultiTuringMachine::is_valid]; the accessors [get_read_symbol(i)]
    and [get_write_symbol(i)] are called for [i < num_tapes_] only after
    the transition was found to have [num_tapes_] read symbols. *)
Definition is_valid (m : t) : outcome bool :=
  if bool_decide (states_ m = ∅) then Ok false
  else if bool_decide (initial_state_ m = "")
          || bool_decide (initial_state_ m ∉ states_ m) then Ok false
  else if bool_decide (num_tapes_ m = 0%nat) then Ok false
  else if negb (forallb (fun q => bool_decide (q ∈ states_ m))
                        (elements (accept_states_ m))) then Ok false
  else if bool_decide (blank_symbol_ m ∉ tape_alphabet_ m) then Ok false
  else if negb (forallb (fun c => bool_decide (c ∈ tape_alphabet_ m)
                                  && negb (bool_decide (c = blank_symbol_ m)))
                        (elements (input_alphabet_ m))) then Ok false
  else
    foldr (fun (kv : string * list ascii * MultiTransition.t) (rest : outcome bool) =>
             let trans := kv.2 in
             if bool_decide (MultiTransition.get_num_tapes trans <> num_tapes_ m) then Ok false
             else if bool_decide (MultiTransition.from_state_ trans ∉ states_ m)
                     || bool_decide (MultiTransition.to_state_ trans ∉ states_ m) then Ok false
             else
               foldr (fun i (k : outcome bool) =>
                        r ← MultiTransition.get_read_symbol trans i;
                        if bool_decide (r ∉ tape_alphabet_ m) then Ok false
                        else w ← MultiTransition.get_write_symbol trans i;
                             if bool_decide (w ∉ tape_alphabet_ m) then Ok false else k)
                     rest (seq 0 (num_tapes_ m)))
          (Ok true) (map_to_list (transitions_ m)).

Definition is_accept_state (m : t) (state : string) : bool :=
  bool_decide (state ∈ accept_states_ m).

Definition is_input_symbol (m : t) (symbol : ascii) : bool :=
  bool_decide (symbol ∈ input_alphabet_ m).

Fixpoint is_valid_input_word (m : t) (word : string) : bool :=
  match word with
  | EmptyString => true
  | String symbol rest =>
      if negb (is_input_symbol m symbol) then false
      else is_valid_input_word m rest
  end.

(** [MultiTuringMachine::clear] *)
Definition clear (m : t) : t :=
  mk ∅ ∅ {[ blank_symbol_ m ]} "" ∅ (blank_symbol_ m) (num_tapes_ m) ∅.

Inductive builder_op : Type :=
  | AddState (state : string)
  | AddInputSymbol (symbol : ascii)
  | AddTapeSymbol (symbol : ascii)
  | SetInitialState (state : string)
  | AddAcceptState (state : string)
  | SetBlankSymbol (symbol : ascii)
  | SetNumTapes (num_tapes : nat)
  | AddTransition (transition : MultiTransition.t)
  | Clear.

Definition apply_op (op : builder_op) (m : t) : mutated t :=
  match op with
  | AddState q => add_state q m
  | AddInputSymbol c => add_input_symbol c m
  | AddTapeSymbol c => add_tape_symbol c m
  | SetInitialState q => set_initial_state q m
  | AddAcceptState q => add_accept_state q m
  | SetBlankSymbol c => set_blank_symbol c m
  | SetNumTapes k => set_num_tapes k m
  | AddTransition tr => add_transition tr m
  | Clear => Done (clear m)
  end.

Definition apply_ops (ops : list builder_op) (m : t) : t :=
  foldl (fun acc op => object_after acc (apply_op op acc)) m ops.

(** [MultiTuringMachine::get_all_transitions] *)
Definition get_all_transitions (m : t) : list MultiTransition.t :=
  (map_to_list (transitions_ m)).*2.

End MultiTuringMachine.

(** ** MultiTape (MultiTape.cpp) *)

Module MultiTape.

Record t : Type := mk {
  tapes_ : list Tape.t;
  num_tapes_ : nat
}.

(** [tapes_.reserve(num_tapes)] in the two constructors: it throws
    [std::length_error] when the count exceeds [max_size()] of the vector.
    That bound is chosen by the implementation and is at most
    [PTRDIFF_MAX]: above [PTRDIFF_MAX] the call throws whatever the
    implementation, and that is what is written here. A count between
    [INT_MAX] and [PTRDIFF_MAX] either fails this check or asks for more
    memory than can be allocated; the statements on constructed tapes are
    made for counts up to [INT_MAX]. *)
Definition reserve (num_tapes : nat) : outcome unit :=
  if decide (PTRDIFF_MAX < Z.of_nat num_tapes) then Throw (length_error VectorReserve)
  else Ok tt.

(** The object [MultiTape::MultiTape(num_tapes, blank_symbol)] builds,
    the call of [reserve] apart (see [construct]). *)
Definition new (num_tapes : nat) (blank_symbol : ascii) : outcome t :=
  if decide (num_tapes = 0%nat) then Throw (invalid_argument ZeroTapes)
  else Ok (mk (replicate num_tapes (Tape.new blank_symbol)) num_tapes).

(** The object [MultiTape::MultiTape(num_tapes, input_word, blank_symbol)]
    builds, the call of [reserve] apart (see [construct_with]). *)
Definition new_with (num_tapes : nat) (input_word : string) (blank_symbol : ascii) : outcome t :=
  if decide (num_tapes = 0%nat) then Throw (invalid_argument ZeroTapes)
  else Ok (mk (Tape.new_with input_word blank_symbol
                 :: replicate (num_tapes - 1) (Tape.new blank_symbol)) num_tapes).

(** [MultiTape::MultiTape(num_tapes, blank_symbol)]: the check of the
    count, [reserve], then the tapes. *)
Definition construct (num_tapes : nat) (blank_symbol : ascii) : outcome t :=
  if decide (num_tapes = 0%nat) then Throw (invalid_argument ZeroTapes)
  else _ ← reserve num_tapes; new num_tapes blank_symbol.

(** [MultiTape::MultiTape(num_tapes, input_word, blank_symbol)]: the check
    of the count, [reserve], then the tapes. *)
Definition construct_with (num_tapes : nat) (input_word : string) (blank_symbol : ascii)
    : outcome t :=
  if decide (num_tapes = 0%nat) then Throw (invalid_argument ZeroTapes)
  else _ ← reserve num_tapes; new_with num_tapes input_word blank_symbol.

(** [MultiTape::is_valid_tape_index] *)
Definition is_valid_tape_index (mt : t) (tape_index : nat) : bool :=
  bool_decide (tape_index < num_tapes_ mt)%nat.

(** A const member function on tape [tape_index]: the index check, then
    [tapes_[tape_index]]. *)
Definition on_tape {A : Type} (f : Tape.t -> A) (mt : t) (tape_index : nat) : outcome A :=
  if negb (is_valid_tape_index mt tape_index)
  then Throw (out_of_range (InvalidTapeIndex tape_index))
  else tp ← at_index (tapes_ mt) tape_index; Ok (f tp).

(** A mutating member function on tape [tape_index]. *)
Definition update_tape (f : Tape.t -> Tape.t) (tape_index : nat) (mt : t) : mutated t :=
  if negb (is_valid_tape_index mt tape_index)
  then Thrown (out_of_range (InvalidTapeIndex tape_index)) mt
  else match tapes_ mt !! tape_index with
       | Some tp => Done (mk (<[tape_index := f tp]> (tapes_ mt)) (num_tapes_ mt))
       | None => Corrupt
       end.

Definition read (mt : t) (tape_index : nat) : outcome ascii :=
  on_tape Tape.read mt tape_index.

Definition write (tape_index : nat) (symbol : ascii) (mt : t) : mutated t :=
  update_tape (Tape.write symbol) tape_index mt.

Definition move (tape_index : nat) (movement : Movement) (mt : t) : mutated t :=
  update_tape (Tape.moved movement) tape_index mt.

Definition get_num_tapes (mt : t) : nat := num_tapes_ mt.

Definition get_head_position (mt : t) (tape_index : nat) : outcome Z :=
  on_tape Tape.get_head_position mt tape_index.

Definition set_head_position (tape_index : nat) (position : Z) (mt : t) : mutated t :=
  update_tape (Tape.set_head_position position) tape_index mt.

Definition get_tape_content (mt : t) (tape_index : nat) : outcome string :=
  on_tape Tape.get_content mt tape_index.

(** [MultiTape::get_tape]: the tape the returned reference designates. *)
Definition get_tape (mt : t) (tape_index : nat) : outcome Tape.t :=
  on_tape (fun tp => tp) mt tape_index.

(** [MultiTape::reset] *)
Definition reset (input_word : string) (mt : t) : t :=
  match tapes_ mt with
  | [] => mt
  | first :: others =>
      mk (Tape.reset input_word first :: map (Tape.reset "") others) (num_tapes_ mt)
  end.

(** The class invariant the constructors establish: [num_tapes_] is the
    size of [tapes_]. *)
Definition well_formed (mt : t) : Prop := length (tapes_ mt) = num_tapes_ mt.

(** [MultiTape::read_all]: [tapes_[i].read()] for [i < num_tapes_], with
    no index check. *)
Fixpoint read_all_loop (tapes : list Tape.t) (indices : list nat) : outcome (list ascii) :=
  match indices with
  | [] => Ok []
  | i :: rest =>
      tp ← at_index tapes i;
      symbols ← read_all_loop tapes rest;
      Ok (Tape.read tp :: symbols)
  end.

Definition read_all (mt : t) : outcome (list ascii) :=
  read_all_loop (tapes_ mt) (seq 0 (num_tapes_ mt)).

End MultiTape.

(** ** MultiConfiguration (MultiConfiguration.cpp) *)

Module MultiConfiguration.

Record t : Type := mk {
  current_state_ : string;
  tapes_ : MultiTape.t;
  step_count_ : N
}.

Definition new (initial_state : string) (num_tapes : nat) (input_string : string)
    (blank_symbol : ascii) : outcome t :=
  tapes ← MultiTape.construct_with num_tapes input_string blank_symbol;
  Ok (mk initial_state tapes 0%N).

Definition set_current_state (state : string) (c : t) : t :=
  mk state (tapes_ c) (step_count_ c).

Definition set_tapes (tapes : MultiTape.t) (c : t) : t :=
  mk (current_state_ c) tapes (step_count_ c).

Definition increment_step_count (c : t) : t :=
  mk (current_state_ c) (tapes_ c) (size_t_succ (step_count_ c)).

(** The first loop of [to_compact_string]: the head positions of the
    tapes with the given indices, a comma in front of each but tape 0. *)
Fixpoint heads_loop (tapes : MultiTape.t) (indices : list nat) : outcome string :=
  match indices with
  | [] => Ok ""
  | i :: rest =>
      h ← MultiTape.get_head_position tapes i;
      s ← heads_loop tapes rest;
      Ok ((if decide (0 < i)%nat then "," else "") +:+ string_of_Z h +:+ s)
  end.

(** The second loop: the contents, a bar after each but the last. For
    [num_tapes = 0] the C++ [num_tapes - 1] wraps around, but then the
    loop body does not run. *)
Fixpoint contents_loop (tapes : MultiTape.t) (indices : list nat) : outcome string :=
  match indices with
  | [] => Ok ""
  | i :: rest =>
      c ← MultiTape.get_tape_content tapes i;
      s ← contents_loop tapes rest;
      Ok (c +:+ (if decide (i < MultiTape.get_num_tapes tapes - 1)%nat then "|" else "") +:+ s)
  end.

(** [MultiConfiguration::to_compact_string] *)
Definition to_compact_string (c : t) : outcome string :=
  let indices := seq 0 (MultiTape.get_num_tapes (tapes_ c)) in
  hs ← heads_loop (tapes_ c) indices;
  cs ← contents_loop (tapes_ c) indices;
  Ok (current_state_ c +:+ "|" +:+ hs +:+ "|" +:+ cs).

(** The loop of [is_equivalent] over the tapes with the given indices. *)
Fixpoint equivalent_loop (tapes other : MultiTape.t) (indices : list nat) : outcome bool :=
  match indices with
  | [] => Ok true
  | i :: rest =>
      h ← MultiTape.get_head_position tapes i;
      h' ← MultiTape.get_head_position other i;
      if negb (bool_decide (h = h')) then Ok false
      else
        c ← MultiTape.get_tape_content tapes i;
        c' ← MultiTape.get_tape_content other i;
        if negb (bool_decide (c = c')) then Ok false
        else equivalent_loop tapes other rest
  end.

(** [MultiConfiguration::is_equivalent] *)
Definition is_equivalent (c other : t) : outcome bool :=
  if negb (bool_decide (current_state_ c = current_state_ other)) then Ok false
  else if negb (bool_decide (MultiTape.get_num_tapes (tapes_ c)
                             = MultiTape.get_num_tapes (tapes_ other))) then Ok false
  else equivalent_loop (tapes_ c) (tapes_ other)
         (seq 0 (MultiTape.get_num_tapes (tapes_ c))).

End MultiConfiguration.

(** ** MultiSimulator (Simulator.cpp) *)

Module MultiSimulator.

Record t : Type := mk {
  machine_ : option MultiTuringMachine.t;
  current_config_ : MultiConfiguration.t;
  trace_ : list MultiConfiguration.t;
  trace_enabled_ : bool;
  max_steps_ : N;
  last_error_ : option sim_error;
  visited_configurations_ : gset string
}.

Definition with_config (c : MultiConfiguration.t) (s : t) : t :=
  mk (machine_ s) c (trace_ s) (trace_enabled_ s) (max_steps_ s)
     (last_error_ s) (visited_configurations_ s).
Definition with_last_error (e : option sim_error) (s : t) : t :=
  mk (machine_ s) (current_config_ s) (trace_ s) (trace_enabled_ s) (max_steps_ s)
     e (visited_configurations_ s).

(** The constructor of [MultiSimulator]: [current_config_] is built with
    one tape, then replaced by a configuration with the tapes of the
    machine. Both go through the constructor of [MultiTape]. *)
Definition new (machine : option MultiTuringMachine.t) : outcome t :=
  c0 ← MultiConfiguration.new "" 1 "" ".";
  match machine with
  | None => Ok (mk None c0 [] false 1000%N (Some NullMachine) ∅)
  | Some m =>
      c ← MultiConfiguration.new (MultiTuringMachine.initial_state_ m)
            (MultiTuringMachine.num_tapes_ m) "" (MultiTuringMachine.blank_symbol_ m);
      Ok (mk machine c [] false 1000%N None ∅)
  end.

(** The loop that collects [read(i)] for [i < num_tapes]. *)
Fixpoint read_symbols (tapes : MultiTape.t) (indices : list nat) : outcome (list ascii) :=
  match indices with
  | [] => Ok []
  | i :: rest =>
      c ← MultiTape.read tapes i;
      cs ← read_symbols tapes rest;
      Ok (c :: cs)
  end.

Definition current_symbols (s : t) : outcome (list ascii) :=
  let tapes := MultiConfiguration.tapes_ (current_config_ s) in
  read_symbols tapes (seq 0 (MultiTape.get_num_tapes tapes)).

(** The outcome of a mutating call as a value: an exception leaves the
    loop of [simulate], so the object it leaves behind is dropped. *)
Definition finish {S : Type} (r : mutated S) : outcome S :=
  match r with
  | Done s => Ok s
  | Thrown e _ => Throw e
  | Corrupt => Undefined
  end.

(** [MultiSimulator::step] *)
Definition step (s : t) : outcome (bool * t) :=
  match machine_ s with
  | None => Ok (false, s)
  | Some machine =>
      let tapes := MultiConfiguration.tapes_ (current_config_ s) in
      let num_tapes := MultiTape.get_num_tapes tapes in
      symbols ← current_symbols s;
      let current_state := MultiConfiguration.current_state_ (current_config_ s) in
      match MultiTuringMachine.get_transition machine current_state symbols with
      | None => Ok (false, s)
      | Some transition =>
          tapes ← finish (for_index num_tapes
                    (fun i => with_value
                                (at_index (MultiTransition.write_symbols_ transition) i)
                                (MultiTape.write i))
                    tapes);
          tapes ← finish (for_index num_tapes
                    (fun i => with_value
                                (at_index (MultiTransition.movements_ transition) i)
                                (MultiTape.move i))
                    tapes);
          let c := MultiConfiguration.set_tapes tapes (current_config_ s) in
          let c := MultiConfiguration.set_current_state
                     (MultiTransition.to_state_ transition) c in
          let c := MultiConfiguration.increment_step_count c in
          Ok (true, with_config c s)
      end
  end.

(** [MultiSimulator::reset]: a new configuration is constructed, and with
    it a new [MultiTape] with the tapes of the machine. *)
Definition reset (input_word : string) (s : t) : outcome t :=
  match machine_ s with
  | None => Ok s
  | Some machine =>
      c ← MultiConfiguration.new (MultiTuringMachine.initial_state_ machine)
            (MultiTuringMachine.num_tapes_ machine) input_word
            (MultiTuringMachine.blank_symbol_ machine);
      Ok (mk (machine_ s) c [] (trace_enabled_ s) (max_steps_ s) None ∅)
  end.

(** [MultiSimulator::is_accepting_state]: dereferences [machine_]
    without a null check. *)
Definition is_accepting_state (s : t) : outcome bool :=
  match machine_ s with
  | None => Undefined
  | Some machine =>
      Ok (MultiTuringMachine.is_accept_state machine
            (MultiConfiguration.current_state_ (current_config_ s)))
  end.

(** [MultiSimulator::has_applicable_transition] *)
Definition has_applicable_transition (s : t) : outcome bool :=
  match machine_ s with
  | None => Ok false
  | Some machine =>
      symbols ← current_symbols s;
      Ok (bool_decide (is_Some (MultiTuringMachine.get_transition machine
            (MultiConfiguration.current_state_ (current_config_ s)) symbols)))
  end.

Definition get_step_count (s : t) : N :=
  MultiConfiguration.step_count_ (current_config_ s).

Definition add_to_trace (s : t) : t :=
  if trace_enabled_ s
  then mk (machine_ s) (current_config_ s) (trace_ s ++ [current_config_ s])
          (trace_enabled_ s) (max_steps_ s) (last_error_ s) (visited_configurations_ s)
  else s.

Definition get_configuration_key (s : t) : outcome string :=
  MultiConfiguration.to_compact_string (current_config_ s).

Definition is_configuration_visited (s : t) : outcome bool :=
  key ← get_configuration_key s;
  Ok (bool_decide (key ∈ visited_configurations_ s)).

Definition mark_configuration_as_visited (s : t) : outcome t :=
  key ← get_configuration_key s;
  Ok (mk (machine_ s) (current_config_ s) (trace_ s) (trace_enabled_ s) (max_steps_ s)
         (last_error_ s) ({[ key ]} ∪ visited_configurations_ s)).

Definition is_infinite_loop_detected (s : t) : outcome bool := is_configuration_visited s.

Definition budget_exhausted (s : t) : bool :=
  (0 <? max_steps_ s)%N && (max_steps_ s <=? get_step_count s)%N.

(** One pass through the body of [while (true)] in
    [MultiSimulator::simulate], as for [Simulator.loop_body]. *)
Definition loop_body (s : t) : outcome ((SimulationResult * t) + t) :=
  if budget_exhausted s then Ok (inl (INFINITE, s))
  else
    accepting ← is_accepting_state s;
    if (accepting : bool) then Ok (inl (ACCEPTED, s))
    else
      applicable ← has_applicable_transition s;
      if negb applicable then Ok (inl (REJECTED, s))
      else
        stepped ← step s;
        match stepped with
        | (false, s1) => Ok (inl (ERROR, with_last_error (Some StepFailed) s1))
        | (true, s1) =>
            visited ← is_configuration_visited s1;
            if (visited : bool) then Ok (inl (INFINITE, s1))
            else s2 ← mark_configuration_as_visited s1; Ok (inr (add_to_trace s2))
        end.

Fixpoint main_loop (fuel : nat) (s : t) : option (outcome (SimulationResult * t)) :=
  match fuel with
  | O => None
  | S fuel' =>
      match loop_body s with
      | Ok (inl r) => Some (Ok r)
      | Ok (inr s') => main_loop fuel' s'
      | Throw e => Some (Throw e)
      | Undefined => Some Undefined
      end
  end.

Definition setup (input_word : string) (enable_trace : bool) (max_steps : N) (s : t)
    : outcome t :=
  let s := mk (machine_ s) (current_config_ s) (trace_ s) enable_trace max_steps
              (last_error_ s) (visited_configurations_ s) in
  s ← reset input_word s;
  mark_configuration_as_visited (add_to_trace s).

(** [MultiSimulator::simulate] *)
Definition simulate (fuel : nat) (input_word : string) (enable_trace : bool)
    (max_steps : N) (s : t) : option (outcome (SimulationResult * t)) :=
  match machine_ s with
  | None => Some (Ok (ERROR, with_last_error (Some NoMachineAssigned) s))
  | Some machine =>
      match MultiTuringMachine.is_valid machine with
      | Ok true =>
          if negb (MultiTuringMachine.is_valid_input_word machine input_word)
          then Some (Ok (ERROR, with_last_error (Some InvalidInputWord) s))
          else match setup input_word enable_trace max_steps s with
               | Ok s0 => main_loop fuel s0
               | Throw e => Some (Throw e)
               | Undefined => Some Undefined
               end
      | Ok false => Some (Ok (ERROR, with_last_error (Some MachineNotValid) s))
      | Throw e => Some (Throw e)
      | Undefined => Some Undefined
      end
  end.

End MultiSimulator.

(** ** The word loop of the program (main.cpp) *)

Module Main.

(** [strip_spaces]: every white-space character is removed. *)
Fixpoint strip_spaces (s : string) : string :=
  match s with
  | EmptyString => EmptyString
  | String c rest =>
      if negb (Parser.isspace c) then String c (strip_spaces rest)
      else strip_spaces rest
  end.

(** [word_in_alphabet]: the value returned, and the string left in
    [*bad] (untouched, so empty, when the word is valid). *)
Fixpoint word_in_alphabet (w : string) (machine : TuringMachine.t) : bool * string :=
  match w with
  | EmptyString => (true, "")
  | String c rest =>
      if negb (TuringMachine.is_input_symbol machine c) then (false, String c EmptyString)
      else word_in_alphabet rest machine
  end.

Fixpoint word_in_alphabet_multi (w : string) (machine : MultiTuringMachine.t) : bool * string :=
  match w with
  | EmptyString => (true, "")
  | String c rest =>
      if negb (MultiTuringMachine.is_input_symbol machine c) then (false, String c EmptyString)
      else word_in_alphabet_multi rest machine
  end.

(** What the program writes, one constructor per output statement. *)
Inductive stdout_item : Type :=
  | ResultLine (text : string)               (* the result token and a newline *)
  | FinalTape (tp : Tape.t)                  (* Cinta final: to_string(20) *)
  | FinalTapesHeader                         (* Cintas finales: *)
  | FinalTapeLine (i : nat) (tp : Tape.t)    (* Cinta i+1: to_string(20) *)
  | TraceBlock (word : string)               (* header, print_trace(true), footer *)
  | InfoLoopDetected                         (* bucle infinito detectado *)
  | InfoStepLimit (max_steps : N).           (* limite de pasos alcanzado *)

Inductive stderr_item : Type :=
  | WordError (bad_symbol word : string)     (* [Error palabra] simbolo fuera del alfabeto *)
  | SimulationError (e : option sim_error)   (* [Error simulacion] last_error *)
  | SimulationException (e : exn).           (* [Error simulacion] e.what() *)

(** The machine loaded and its simulator: the variables [is_multi_tape],
    [machine], [multi_machine], [simulator], [multi_simulator]. *)
Inductive program : Type :=
  | Mono (machine : TuringMachine.t) (simulator : Simulator.t)
  | Multi (multi_machine : MultiTuringMachine.t) (multi_simulator : MultiSimulator.t).

Record io : Type := mk_io {
  cout : list stdout_item;
  cerr : list stderr_item;
  prog : program
}.

Definition print (x : stdout_item) (s : io) : io :=
  mk_io (cout s ++ [x]) (cerr s) (prog s).
Definition eprint (x : stderr_item) (s : io) : io :=
  mk_io (cout s) (cerr s ++ [x]) (prog s).
Definition with_prog (p : program) (s : io) : io :=
  mk_io (cout s) (cerr s) p.

(** The part of the [try] block after the call of [simulate]. *)
Definition report (result : SimulationResult) (word : string) (trace : bool)
    (max_steps : N) (s : io) : mutated io :=
  let s := print (ResultLine (result_to_string result)) s in
  (match prog s with
   | Mono _ simulator =>
       Done (print (FinalTape (Configuration.tape_ (Simulator.current_config_ simulator))) s)
   | Multi _ multi_simulator =>
       let tapes := MultiConfiguration.tapes_ (MultiSimulator.current_config_ multi_simulator) in
       for_index (MultiTape.get_num_tapes tapes)
         (fun i => with_value (MultiTape.get_tape tapes i)
                     (fun tp s' => Done (print (FinalTapeLine i tp) s')))
         (print FinalTapesHeader s)
   end)
  &> (fun s => Done (if trace then print (TraceBlock word) s else s))
  &> (fun s =>
        match result with
        | INFINITE =>
            with_value
              (match prog s with
               | Mono _ simulator => Ok (Simulator.is_infinite_loop_detected simulator)
               | Multi _ multi_simulator =>
                   MultiSimulator.is_infinite_loop_detected multi_simulator
               end)
              (fun (loop_detected : bool) s' =>
                 Done (print (if loop_detected then InfoLoopDetected
                              else InfoStepLimit max_steps) s'))
              s
        | ERROR =>
            Done (eprint (SimulationError
                            (match prog s with
                             | Mono _ simulator => Simulator.last_error_ simulator
                             | Multi _ multi_simulator =>
                                 MultiSimulator.last_error_ multi_simulator
                             end)) s)
        | _ => Done s
        end).

(** The [catch] clause of the word loop. *)
Definition catch_exception (r : mutated io) : outcome io :=
  match r with
  | Done s => Ok s
  | Thrown e s => Ok (print (ResultLine "ERROR") (eprint (SimulationException e) s))
  | Corrupt => Undefined
  end.

(** The body of [while (std::getline( *in, line))] for one line; [s]
    holds what was written so far. [None] when [simulate] does not return
    within [fuel] passes of its loop. *)
Definition process_line (fuel : nat) (strict_mode trace : bool) (max_steps : N)
    (line : string) (s : io) : option (outcome io) :=
  let word := strip_spaces line in
  let '(valid_word, bad_symbol) :=
    match prog s with
    | Multi multi_machine _ => word_in_alphabet_multi word multi_machine
    | Mono machine _ => word_in_alphabet word machine
    end in
  if negb valid_word then
    if strict_mode
    then Some (Ok (print (ResultLine "REJECT") (eprint (WordError bad_symbol word) s)))
    else Some (Ok (print (ResultLine "REJECT") s))
  else
    match prog s with
    | Mono machine simulator =>
        match Simulator.simulate fuel word trace max_steps simulator with
        | None => None
        | Some (result, simulator') =>
            Some (catch_exception
                    (report result word trace max_steps
                       (with_prog (Mono machine simulator') s)))
        end
    | Multi multi_machine multi_simulator =>
        match MultiSimulator.simulate fuel word trace max_steps multi_simulator with
        | None => None
        | Some (Ok (result, multi_simulator')) =>
            Some (catch_exception
                    (report result word trace max_steps
                       (with_prog (Multi multi_machine multi_simulator') s)))
        | Some (Throw e) => Some (catch_exception (Thrown e s))
        | Some Undefined => Some Undefined
        end
    end.

(** The number of steps the simulator of the program has executed on the
    word it holds. *)
Definition steps_executed (p : program) : N :=
  match p with
  | Mono _ simulator => Simulator.get_step_count simulator
  | Multi _ multi_simulator => MultiSimulator.get_step_count multi_simulator
  end.

End Main.

(** ** Exceptions of the multi-tape loader *)

(** The messages of the exceptions thrown in the multi-tape half of
    [Parser]: those of [error_msg], and its own. *)
Inductive message : Type :=
  | Known (msg : error_msg)
  | MulticintaFormat (line : Z) (* Formato incorrecto para MULTICINTA *)
  | MulticintaExpected (line : Z)
  | MultiTransitionTokenCount (line : Z)
  | ReadSymbolCount (line : Z) (found expected : nat)
  | WriteSymbolCount (line : Z) (found expected : nat)
  | MovementCount (line : Z) (found expected : nat)
  | StoiNoConversion            (* [std::stoi]: no digits to convert *)
  | StoiOutOfRange              (* [std::stoi]: the number does not fit an [int] *)
  | InvalidMultiMachine.        (* La maquina de Turing multicinta resultante no es valida *)

Inductive raised : Type :=
  | raised_invalid_argument (what : message)
  | raised_out_of_range (what : message)
  | raised_length_error (what : message).

Definition message_of (e : raised) : message :=
  match e with
  | raised_invalid_argument w => w
  | raised_out_of_range w => w
  | raised_length_error w => w
  end.

Definition raised_of (e : exn) : raised :=
  match e with
  | invalid_argument w => raised_invalid_argument (Known w)
  | out_of_range w => raised_out_of_range (Known w)
  | length_error w => raised_length_error (Known w)
  end.

(** The outcome of a call that may throw one of these exceptions. *)
Inductive raising (A : Type) : Type :=
  | Returns (a : A)
  | Raises (e : raised)
  | Unspecified.
Arguments Returns {A} a.
Arguments Raises {A} e.
Arguments Unspecified {A}.

Definition of_outcome {A : Type} (x : outcome A) : raising A :=
  match x with
  | Ok a => Returns a
  | Throw e => Raises (raised_of e)
  | Undefined => Unspecified
  end.

Definition rbind {A B : Type} (x : raising A) (f : A -> raising B) : raising B :=
  match x with
  | Returns a => f a
  | Raises e => Raises e
  | Unspecified => Unspecified
  end.

(** The outcome of a mutating call that may throw one of them. *)
Inductive altered (S : Type) : Type :=
  | Altered (s : S)
  | Aborted (e : raised) (s : S)
  | Broken.
Arguments Altered {S} s.
Arguments Aborted {S} e s.
Arguments Broken {S}.

Definition of_mutated {S : Type} (r : mutated S) : altered S :=
  match r with
  | Done s => Altered s
  | Thrown e s => Aborted (raised_of e) s
  | Corrupt => Broken
  end.

(** ** The multi-tape half of Parser (Parser.cpp) *)

Module MultiParser.

(** The characters [std::stoi] skips before the number. *)
Fixpoint skip_space (s : string) : string :=
  match s with
  | EmptyString => EmptyString
  | String c rest => if Parser.isspace c then skip_space rest else s
  end.

Definition digit_value (c : ascii) : option Z :=
  let n := Z.of_nat (nat_of_ascii c) in
  if decide (48 <= n <= 57) then Some (n - 48) else None.

(** The longest run of decimal digits at the beginning of [s]; [value] is
    the number read so far, [None] before the first digit. *)
Fixpoint read_digits (s : string) (value : option Z) : option Z :=
  match s with
  | EmptyString => value
  | String c rest =>
      match digit_value c with
      | Some d => read_digits rest (Some (10 * default 0 value + d))
      | None => value
      end
  end.

(** [std::stoi(str)], base 10: white space, an optional sign, digits; the
    rest of the string is ignored. *)
Definition stoi (str : string) : raising Z :=
  let s := skip_space str in
  let '(negative, digits) :=
    match s with
    | String "-" rest => (true, rest)
    | String "+" rest => (false, rest)
    | _ => (false, s)
    end in
  match read_digits digits None with
  | None => Raises (raised_invalid_argument StoiNoConversion)
  | Some v =>
      let v := if (negative : bool) then - v else v in
      if decide (- 2 ^ 31 <= v <= 2 ^ 31 - 1) then Returns v
      else Raises (raised_out_of_range StoiOutOfRange)
  end.

(** The loops [for (token : tokens) symbols.push_back(string_to_char(token))]. *)
Fixpoint to_symbols (tokens : list string) : outcome (list ascii) :=
  match tokens with
  | [] => Ok []
  | token :: rest =>
      c ← Parser.string_to_char token;
      cs ← to_symbols rest;
      Ok (c :: cs)
  end.

(** The loop over the movement tokens: the exception of
    [char_to_movement] is thrown again with the line number in front. *)
Fixpoint to_movements (line_number : Z) (tokens : list string) : outcome (list Movement) :=
  match tokens with
  | [] => Ok []
  | token :: rest =>
      move_char ← Parser.string_to_char token;
      mov ← Parser.at_line line_number (Transition.char_to_movement move_char);
      movs ← to_movements line_number rest;
      Ok (mov :: movs)
  end.

(** [Parser::parse_multi_transition] *)
Definition parse_multi_transition (line : string) (line_number : Z) (num_tapes : nat)
    : raising MultiTransition.t :=
  match Parser.split line with
  | [from_state; reads; to_state; writes; moves] =>
      let read_tokens := Parser.getline_loop "," reads "" in
      if decide (length read_tokens <> num_tapes)
      then Raises (raised_invalid_argument
                     (ReadSymbolCount line_number (length read_tokens) num_tapes))
      else
        rbind (of_outcome (to_symbols read_tokens)) (fun read_symbols =>
        let write_tokens := Parser.getline_loop "," writes "" in
        if decide (length write_tokens <> num_tapes)
        then Raises (raised_invalid_argument
                       (WriteSymbolCount line_number (length write_tokens) num_tapes))
        else
          rbind (of_outcome (to_symbols write_tokens)) (fun write_symbols =>
          let move_tokens := Parser.getline_loop "," moves "" in
          if decide (length move_tokens <> num_tapes)
          then Raises (raised_invalid_argument
                         (MovementCount line_number (length move_tokens) num_tapes))
          else
            rbind (of_outcome (to_movements line_number move_tokens)) (fun movements =>
            of_outcome (MultiTransition.new from_state read_symbols to_state
                                            write_symbols movements))))
  | _ => Raises (raised_invalid_argument (MultiTransitionTokenCount line_number))
  end.

(** The [catch] around the transitions throws the exception again as
    [invalid_argument] with the same message. *)
Definition rethrown {S : Type} (r : altered S) : altered S :=
  match r with
  | Aborted e s => Aborted (raised_invalid_argument (message_of e)) s
  | other => other
  end.

(** The body of the line loop of [load_multi_from_file] for one trimmed
    line that is neither a comment nor empty; returns the next section and
    the number of tapes. *)
Definition parse_multi_section (section : Z) (num_tapes : nat) (line : string)
    (line_number : Z) (machine : MultiTuringMachine.t)
    : altered MultiTuringMachine.t * Z * nat :=
  if decide (section = -1) then
    if bool_decide (substring 0 10 line = "MULTICINTA") then
      match Parser.split line with
      | [_; count] =>
          match stoi count with
          | Returns v =>
              (* [static_cast<size_t>] of an [int] *)
              let num_tapes := Z.to_nat (v mod 2 ^ 64) in
              (of_mutated (MultiTuringMachine.set_num_tapes num_tapes machine), 0, num_tapes)
          | Raises e => (Aborted e machine, section, num_tapes)
          | Unspecified => (Broken, section, num_tapes)
          end
      | _ => (Aborted (raised_invalid_argument (MulticintaFormat line_number)) machine,
              section, num_tapes)
      end
    else (Aborted (raised_invalid_argument (MulticintaExpected line_number)) machine,
          section, num_tapes)
  else if decide (section = 0) then
    match Parser.split line with
    | [] => (Aborted (raised_invalid_argument (Known (NoStates line_number))) machine,
             section, num_tapes)
    | states =>
        (of_mutated (Parser.for_each MultiTuringMachine.add_state states machine),
         section + 1, num_tapes)
    end
  else if decide (section = 1) then
    (of_mutated
       (Parser.for_each
          (fun symbol_str =>
             with_value (Parser.string_to_char symbol_str) MultiTuringMachine.add_input_symbol)
          (Parser.split line) machine),
     section + 1, num_tapes)
  else if decide (section = 2) then
    (of_mutated
       (Parser.for_each
          (fun symbol_str =>
             with_value (Parser.string_to_char symbol_str) MultiTuringMachine.add_tape_symbol)
          (Parser.split line) machine),
     section + 1, num_tapes)
  else if decide (section = 3) then
    match Parser.split line with
    | [tok] => (of_mutated (MultiTuringMachine.set_initial_state tok machine),
                section + 1, num_tapes)
    | _ => (Aborted (raised_invalid_argument (Known (InitialStateTokenCount line_number)))
                    machine, section, num_tapes)
    end
  else if decide (section = 4) then
    match Parser.split line with
    | [tok] =>
        (of_mutated (with_value (Parser.string_to_char tok)
                                MultiTuringMachine.set_blank_symbol machine),
         section + 1, num_tapes)
    | _ => (Aborted (raised_invalid_argument (Known (BlankTokenCount line_number)))
                    machine, section, num_tapes)
    end
  else if decide (section = 5) then
    (of_mutated (Parser.for_each MultiTuringMachine.add_accept_state (Parser.split line)
                   machine),
     section + 1, num_tapes)
  else
    (rethrown
       match parse_multi_transition line line_number num_tapes with
       | Returns transition => of_mutated (MultiTuringMachine.add_transition transition machine)
       | Raises e => Aborted e machine
       | Unspecified => Broken
       end,
     section, num_tapes).

(** The [while (std::getline(file, line))] loop. *)
Fixpoint parse_multi_lines (input : list string) (line_number : Z) (section : Z)
    (num_tapes : nat) (machine : MultiTuringMachine.t)
    : altered MultiTuringMachine.t * Z :=
  match input with
  | [] => (Altered machine, section)
  | line :: rest =>
      let line_number := line_number + 1 in
      if Parser.is_comment line || Parser.is_empty_line line
      then parse_multi_lines rest line_number section num_tapes machine
      else
        match parse_multi_section section num_tapes (Parser.trim line) line_number machine with
        | (Altered machine', section', num_tapes') =>
            parse_multi_lines rest line_number section' num_tapes' machine'
        | (stopped, section', _) => (stopped, section')
        end
  end.

Record load_result : Type := mk_load_result {
  loaded : bool;                          (* the value returned *)
  machine_after : MultiTuringMachine.t;   (* the [machine] argument after the call *)
  last_error_ : option message            (* [None] is the empty string *)
}.

(** [Parser::load_multi_from_file], once the file is open; [input] is the
    list of the lines [getline] yields. *)
Definition load_multi_from_file (input : list string) (machine : MultiTuringMachine.t)
    : load_result :=
  match parse_multi_lines input 0 (-1) 1 (MultiTuringMachine.clear machine) with
  | (Aborted e machine', _) => mk_load_result false machine' (Some (message_of e))
  | (Broken, _) => mk_load_result false machine None
  | (Altered machine', section) =>
      if decide (section < 6)
      then mk_load_result false machine' (Some (Known IncompleteFile))
      else
        match MultiTuringMachine.is_valid machine' with
        | Ok true => mk_load_result true machine' None
        | Ok false => mk_load_result false machine' (Some InvalidMultiMachine)
        | Throw e => mk_load_result false machine' (Some (Known (what e)))
        | Undefined => mk_load_result false machine' None
        end
  end.

End MultiParser.

(** * Notions used in the statements *)

(** A tape on which C8 can be read off: the cells [a] at 2 and [b] at 5. *)
Definition sample_tape : Tape.t :=
  Tape.write "b" (Tape.set_head_position 5
    (Tape.write "a" (Tape.set_head_position 2 (Tape.new ".")))).

(** [P] holds of the object a mutating call leaves behind, whether the
    call returned or threw. *)
Definition holds_after {S : Type} (P : S -> Prop) (r : mutated S) : Prop :=
  match r with
  | Done s => P s
  | Thrown _ s => P s
  | Corrupt => True
  end.

Definition preserves {S : Type} (P : S -> Prop) (f : S -> mutated S) : Prop :=
  forall s, P s -> holds_after P (f s).

(** The blank symbol is a member of the tape alphabet. *)
Definition blank_in_gamma (m : TuringMachine.t) : Prop :=
  TuringMachine.blank_symbol_ m ∈ TuringMachine.tape_alphabet_ m.

Definition multi_blank_in_gamma (m : MultiTuringMachine.t) : Prop :=
  MultiTuringMachine.blank_symbol_ m ∈ MultiTuringMachine.tape_alphabet_ m.

(** Two tapes, the word [ab] on the first. *)
Definition two_tapes : MultiTape.t :=
  MultiTape.mk [Tape.new_with "ab" "."; Tape.new "."] 2.

(** The simulator [s] with another step budget. *)
Definition with_max_steps (budget : N) (s : Simulator.t) : Simulator.t :=
  Simulator.mk (Simulator.machine_ s) (Simulator.current_config_ s) (Simulator.trace_ s)
    (Simulator.trace_enabled_ s) budget (Simulator.last_error_ s)
    (Simulator.visited_configurations_ s).

(** What a pass of the loop returns or hands on, in terms of the four
    checks. *)
Inductive pass_spec (s : Simulator.t) :
    (SimulationResult * Simulator.t) + Simulator.t -> Prop :=
  | pass_budget :
      Simulator.budget_exhausted s = true ->
      pass_spec s (inl (INFINITE, s))
  | pass_accept :
      Simulator.budget_exhausted s = false ->
      Simulator.is_accepting_state s = true ->
      pass_spec s (inl (ACCEPTED, s))
  | pass_reject :
      Simulator.budget_exhausted s = false ->
      Simulator.is_accepting_state s = false ->
      Simulator.has_applicable_transition s = false ->
      pass_spec s (inl (REJECTED, s))
  | pass_loop s1 :
      Simulator.budget_exhausted s = false ->
      Simulator.is_accepting_state s = false ->
      Simulator.has_applicable_transition s = true ->
      Simulator.step s = (true, s1) ->
      Simulator.get_step_count s1 = size_t_succ (Simulator.get_step_count s) ->
      Simulator.is_configuration_visited s1 = true ->
      pass_spec s (inl (INFINITE, s1))
  | pass_continue s1 :
      Simulator.budget_exhausted s = false ->
      Simulator.is_accepting_state s = false ->
      Simulator.has_applicable_transition s = true ->
      Simulator.step s = (true, s1) ->
      Simulator.get_step_count s1 = size_t_succ (Simulator.get_step_count s) ->
      Simulator.is_configuration_visited s1 = false ->
      pass_spec s (inr (Simulator.add_to_trace (Simulator.mark_configuration_as_visited s1))).

Definition map_pass (f : Simulator.t -> Simulator.t)
    (x : (SimulationResult * Simulator.t) + Simulator.t)
    : (SimulationResult * Simulator.t) + Simulator.t :=
  match x with
  | inl (r, s) => inl (r, f s)
  | inr s => inr (f s)
  end.

(** A machine that reads one [a], moves right and accepts. *)
Definition one_step_acceptor : TuringMachine.t :=
  Parser.machine_after
    (Parser.load_from_stream ["q0 qa"; "a"; "a ."; "q0"; "."; "qa"; "q0 a qa a R"]
       (TuringMachine.new ".")).

(** A machine that moves right over blanks for ever. *)
Definition right_runner : TuringMachine.t :=
  Parser.machine_after
    (Parser.load_from_stream ["q0 qa"; "a"; "a ."; "q0"; "."; "qa"; "q0 . q0 . R"]
       (TuringMachine.new ".")).

(** The exception or undefined behaviour of a call, as the outcome of the
    caller it leaves. *)
Definition fault {A B : Type} (x : outcome A) : option (outcome B) :=
  match x with
  | Ok _ => None
  | Throw e => Some (Throw e)
  | Undefined => Some Undefined
  end.

(** What a pass of the loop of [MultiSimulator::simulate] returns or
    hands on, in terms of the four checks; the last four cases are the
    passes in which a call threw or was undefined. *)
Inductive multi_pass_spec (s : MultiSimulator.t) :
    outcome ((SimulationResult * MultiSimulator.t) + MultiSimulator.t) -> Prop :=
  | multi_pass_budget :
      MultiSimulator.budget_exhausted s = true ->
      multi_pass_spec s (Ok (inl (INFINITE, s)))
  | multi_pass_accept :
      MultiSimulator.budget_exhausted s = false ->
      MultiSimulator.is_accepting_state s = Ok true ->
      multi_pass_spec s (Ok (inl (ACCEPTED, s)))
  | multi_pass_reject :
      MultiSimulator.budget_exhausted s = false ->
      MultiSimulator.is_accepting_state s = Ok false ->
      MultiSimulator.has_applicable_transition s = Ok false ->
      multi_pass_spec s (Ok (inl (REJECTED, s)))
  | multi_pass_loop s1 :
      MultiSimulator.budget_exhausted s = false ->
      MultiSimulator.is_accepting_state s = Ok false ->
      MultiSimulator.has_applicable_transition s = Ok true ->
      MultiSimulator.step s = Ok (true, s1) ->
      MultiSimulator.is_configuration_visited s1 = Ok true ->
      multi_pass_spec s (Ok (inl (INFINITE, s1)))
  | multi_pass_continue s1 s2 :
      MultiSimulator.budget_exhausted s = false ->
      MultiSimulator.is_accepting_state s = Ok false ->
      MultiSimulator.has_applicable_transition s = Ok true ->
      MultiSimulator.step s = Ok (true, s1) ->
      MultiSimulator.is_configuration_visited s1 = Ok false ->
      MultiSimulator.mark_configuration_as_visited s1 = Ok s2 ->
      multi_pass_spec s (Ok (inr (MultiSimulator.add_to_trace s2)))
  | multi_pass_step_failed s1 :
      MultiSimulator.budget_exhausted s = false ->
      MultiSimulator.is_accepting_state s = Ok false ->
      MultiSimulator.has_applicable_transition s = Ok true ->
      MultiSimulator.step s = Ok (false, s1) ->
      multi_pass_spec s
        (Ok (inl (ERROR, MultiSimulator.with_last_error (Some StepFailed) s1)))
  | multi_pass_fault_accepting x :
      MultiSimulator.budget_exhausted s = false ->
      fault (MultiSimulator.is_accepting_state s) = Some x ->
      multi_pass_spec s x
  | multi_pass_fault_applicable x :
      MultiSimulator.budget_exhausted s = false ->
      MultiSimulator.is_accepting_state s = Ok false ->
      fault (MultiSimulator.has_applicable_transition s) = Some x ->
      multi_pass_spec s x
  | multi_pass_fault_step x :
      MultiSimulator.budget_exhausted s = false ->
      MultiSimulator.is_accepting_state s = Ok false ->
      MultiSimulator.has_applicable_transition s = Ok true ->
      fault (MultiSimulator.step s) = Some x ->
      multi_pass_spec s x
  | multi_pass_fault_key s1 x :
      MultiSimulator.budget_exhausted s = false ->
      MultiSimulator.is_accepting_state s = Ok false ->
      MultiSimulator.has_applicable_transition s = Ok true ->
      MultiSimulator.step s = Ok (true, s1) ->
      fault (MultiSimulator.get_configuration_key s1) = Some x ->
      multi_pass_spec s x.

(** The fingerprints of the configurations in the trace. *)
Definition trace_fingerprints (s : Simulator.t) : list string :=
  Configuration.to_compact_string <$> Simulator.trace_ s.

(** With the trace enabled, the trace holds the configurations produced so
    far, the current one last; their fingerprints are pairwise distinct
    and are the members of the visited set. *)
Definition trace_invariant (s : Simulator.t) : Prop :=
  NoDup (trace_fingerprints s)
  /\ (forall key, key ∈ Simulator.visited_configurations_ s <-> key ∈ trace_fingerprints s)
  /\ last (Simulator.trace_ s) = Some (Simulator.current_config_ s)
  /\ Simulator.trace_enabled_ s = true.

(** The symbol [c] occurs in the word [w]. *)
Definition occurs (c : ascii) (w : string) : Prop := In c (list_ascii_of_string w).

(** The head at position 5 over a blank tape, in the state [a|0]. *)
Definition bar_in_state : Configuration.t :=
  Configuration.set_tape (Tape.set_head_position 5 (Tape.new ".")) (Configuration.new "a|0" "" ".").

(** The head at position 0 of a tape holding a 5 and a bar, in the state [a]. *)
Definition bar_on_tape : Configuration.t := Configuration.new "a" "5|" ".".

(** Two tapes, a bar written on the first and nothing on the second. *)
Definition bar_on_first : MultiConfiguration.t :=
  MultiConfiguration.mk "q" (MultiTape.mk [Tape.new_with "|" "."; Tape.new "."] 2) 0.

(** Two tapes, nothing on the first and a bar written at the head of the
    second. *)
Definition bar_on_second : MultiConfiguration.t :=
  MultiConfiguration.mk "q" (MultiTape.mk [Tape.new "."; Tape.write "|" (Tape.new ".")] 2) 0.

(** The string [s] holds no separator bar. *)
Definition no_bar (s : string) : Prop := ~ occurs "|" s.

(** The input alphabet of the machine the program has loaded. *)
Definition input_alphabet (p : Main.program) : gset ascii :=
  match p with
  | Main.Mono machine _ => TuringMachine.input_alphabet_ machine
  | Main.Multi multi_machine _ => MultiTuringMachine.input_alphabet_ multi_machine
  end.

(** The validation of the word loop, whichever machine is loaded. *)
Definition validate (p : Main.program) (word : string) : bool * string :=
  match p with
  | Main.Multi multi_machine _ => Main.word_in_alphabet_multi word multi_machine
  | Main.Mono machine _ => Main.word_in_alphabet word machine
  end.

(** A program that has loaded [one_step_acceptor], whose input alphabet is
    the single symbol [a], before any word was read. *)
Definition acceptor_program : Main.io :=
  Main.mk_io [] []
    (Main.Mono one_step_acceptor (Simulator.new (Some one_step_acceptor))).

(** The initial state is set and is a member of the state set. *)
Definition initial_in_states (m : TuringMachine.t) : Prop :=
  TuringMachine.initial_state_ m <> ""
  /\ TuringMachine.initial_state_ m ∈ TuringMachine.states_ m.

(** What the two checks of [is_valid] on the initial state and on the
    blank symbol ask for. *)
Definition declared (m : TuringMachine.t) : Prop :=
  blank_in_gamma m /\ initial_in_states m.

(** The invariant of the line loop: the blank symbol is in the tape
    alphabet, and from section 4 on the initial state is in the state set. *)
Definition loader_invariant (section : Z) (m : TuringMachine.t) : Prop :=
  blank_in_gamma m /\ (4 <= section -> initial_in_states m).

(** A file in the format of the README whose initial state [qInicial] is
    not among the declared states. *)
Definition undeclared_initial_state_file : list string :=
  ["# estados"; "q0 q1 q2"; "0 1"; "0 1 ."; "qInicial"; "."; "q2";
   "q0 0 q1 0 R"; "q1 . q2 . R"].

(** A file whose blank symbol [Z] is not in the declared tape alphabet. *)
Definition undeclared_blank_file : list string :=
  ["q0 q1 q2"; "0 1"; "0 1"; "q0"; "Z"; "q2"; "q0 0 q1 0 R"; "q1 Z q2 Z R"].

(** The recognizer of the binary words with an odd number of zeros (the
    example file of the README). *)
Definition odd_zeros : TuringMachine.t :=
  Parser.machine_after
    (Parser.load_from_stream
       ["q0 q1 q2"; "0 1"; "0 1 ."; "q0"; "."; "q2";
        "q0 0 q1 0 R"; "q0 1 q0 1 R"; "q1 0 q0 0 R"; "q1 1 q1 1 R"; "q1 . q2 . R"]
       (TuringMachine.new ".")).

(** The result of [simulate] on a fresh simulator, with the default budget. *)
Definition result_of (machine : TuringMachine.t) (w : string) : option SimulationResult :=
  fst <$> Simulator.simulate 1001 w false 1000 (Simulator.new (Some machine)).

(** The two-tape unary adder of the README. *)
Definition unary_sum : outcome MultiTuringMachine.t :=
  m0 ← MultiTuringMachine.new 2 ".";
  Ok (MultiTuringMachine.apply_ops
        ((MultiTuringMachine.AddState <$> ["q0"; "q1"; "q2"; "q3"; "q4"])
         ++ (MultiTuringMachine.AddInputSymbol <$> ["1"; "0"]%char)
         ++ (MultiTuringMachine.AddTapeSymbol <$> ["1"; "0"; "."]%char)
         ++ [MultiTuringMachine.SetInitialState "q0";
             MultiTuringMachine.SetBlankSymbol ".";
             MultiTuringMachine.AddAcceptState "q4"]
         ++ (MultiTuringMachine.AddTransition
               <$> [MultiTransition.mk "q0" ["1"; "."]%char "q1" ["1"; "1"]%char [RIGHT; RIGHT];
                    MultiTransition.mk "q1" ["1"; "."]%char "q1" ["1"; "1"]%char [RIGHT; RIGHT];
                    MultiTransition.mk "q1" ["0"; "."]%char "q2" ["0"; "."]%char [RIGHT; STAY];
                    MultiTransition.mk "q2" ["1"; "."]%char "q2" ["."; "1"]%char [RIGHT; RIGHT];
                    MultiTransition.mk "q2" ["."; "."]%char "q3" ["."; "."]%char [LEFT; STAY];
                    MultiTransition.mk "q3" ["0"; "."]%char "q3" ["0"; "."]%char [LEFT; STAY];
                    MultiTransition.mk "q3" ["1"; "."]%char "q3" ["1"; "."]%char [LEFT; STAY];
                    MultiTransition.mk "q3" ["."; "."]%char "q4" ["."; "."]%char [STAY; STAY]]))%list
        m0).

(** A run of a multi-tape machine on a fresh simulator: the result and the
    content of the second tape. *)
Definition multi_result_of (machine : outcome MultiTuringMachine.t) (w : string)
    : option (outcome (SimulationResult * string)) :=
  match (m ← machine; MultiSimulator.new (Some m)) with
  | Ok s =>
      run ← MultiSimulator.simulate 1001 w false 1000 s;
      Some (rs ← run;
            content ← MultiTape.get_tape_content
                        (MultiConfiguration.tapes_ (MultiSimulator.current_config_ rs.2)) 1;
            Ok (rs.1, content))
  | Throw e => Some (Throw e)
  | Undefined => Some Undefined
  end.

(** A machine that erases an [a] and writes it again one cell to the
    right, coming back to its first state and head position. *)
Definition shifter : TuringMachine.t :=
  Parser.machine_after
    (Parser.load_from_stream
       ["q p f"; "a"; "a ."; "q"; "."; "f"; "q a p . R"; "p . q a L"]
       (TuringMachine.new ".")).

(** A two-tape machine that moves a bar from the first tape to the second. *)
Definition bar_mover : outcome MultiTuringMachine.t :=
  m0 ← MultiTuringMachine.new 2 ".";
  Ok (MultiTuringMachine.apply_ops
        [MultiTuringMachine.AddState "q"; MultiTuringMachine.AddInputSymbol "|";
         MultiTuringMachine.SetInitialState "q";
         MultiTuringMachine.AddTransition
           (MultiTransition.mk "q" ["|"; "."]%char "q" ["."; "|"]%char [STAY; STAY])]
        m0).

(** Every stored transition sits under the key made of its own state and
    read symbols, and was built by the checking constructor of
    [MultiTransition]. *)
Definition keyed (m : MultiTuringMachine.t) : Prop :=
  forall key tr,
    MultiTuringMachine.transitions_ m !! key = Some tr ->
    key = (MultiTransition.from_state_ tr, MultiTransition.read_symbols_ tr)
    /\ MultiTransition.is_well_formed tr = true.

(** The machine has at least one tape and keyed transitions. *)
Definition well_built (m : MultiTuringMachine.t) : Prop :=
  MultiTuringMachine.num_tapes_ m <> 0%nat /\ keyed m.

(** A transition object a caller can hold: one the checking constructor
    returned, or the default-constructed one. *)
Definition constructible (op : MultiTuringMachine.builder_op) : Prop :=
  match op with
  | MultiTuringMachine.AddTransition tr =>
      MultiTransition.is_well_formed tr = true \/ tr = MultiTransition.empty
  | _ => True
  end.

(** The simulator holds a well-built machine and a configuration with as
    many tapes as the machine has. *)
Definition ready (s : MultiSimulator.t) : Prop :=
  exists m,
    MultiSimulator.machine_ s = Some m
    /\ keyed m
    /\ MultiTape.well_formed (MultiConfiguration.tapes_ (MultiSimulator.current_config_ s))
    /\ MultiTape.num_tapes_ (MultiConfiguration.tapes_ (MultiSimulator.current_config_ s))
       = MultiTuringMachine.num_tapes_ m.

(** The configuration one call of [Simulator::step] produces from [c]
    with the machine [m], [None] when [step] returns false. *)
Definition next_configuration (m : TuringMachine.t) (c : Configuration.t)
    : option Configuration.t :=
  let '(stepped, s) := Simulator.step (Simulator.with_config c (Simulator.new (Some m))) in
  if (stepped : bool) then Some (Simulator.current_config_ s) else None.

(** The configuration [Simulator::reset] installs for the word [w]. *)
Definition initial_configuration (m : TuringMachine.t) (w : string) : Configuration.t :=
  Simulator.current_config_ (Simulator.reset w (Simulator.new (Some m))).

(** The simulator serves the machine [m], and its tape was built by the
    constructor of [Simulator], with the blank symbol '.'. *)
Definition serves (m : TuringMachine.t) (s : Simulator.t) : Prop :=
  Simulator.machine_ s = Some m
  /\ Tape.blank_symbol_ (Configuration.tape_ (Simulator.current_config_ s)) = "."%char.

(** With the trace enabled: the trace is a run of the machine [m] on [w],
    numbered from 0, and its last entry is the current configuration. *)
Definition traced_run (m : TuringMachine.t) (w : string) (s : Simulator.t) : Prop :=
  Simulator.trace_enabled_ s = true
  /\ Simulator.trace_ s !! 0%nat = Some (initial_configuration m w)
  /\ last (Simulator.trace_ s) = Some (Simulator.current_config_ s)
  /\ N.of_nat (length (Simulator.trace_ s)) = (Simulator.get_step_count s + 1)%N
  /\ (forall i c, Simulator.trace_ s !! i = Some c -> Configuration.step_count_ c = N.of_nat i)
  /\ (forall i c c',
        Simulator.trace_ s !! i = Some c -> Simulator.trace_ s !! S i = Some c' ->
        next_configuration m c = Some c').

(** A string without white space, and a token: a non-empty one. *)
Definition whitespace_free (s : string) : Prop :=
  forall c, occurs c s -> Parser.isspace c = false.

Definition token (s : string) : Prop := s <> "" /\ whitespace_free s.

(** The strings of a list one after the other. *)
Definition glued (parts : list string) : string := foldr String.append "" parts.

(** The class invariant of [TuringMachine]: what the constructor
    establishes and every member function keeps. *)
Definition class_invariant (m : TuringMachine.t) : Prop :=
  ("" ∉ TuringMachine.states_ m)
  /\ TuringMachine.blank_symbol_ m ∈ TuringMachine.tape_alphabet_ m
  /\ TuringMachine.input_alphabet_ m ⊆ TuringMachine.tape_alphabet_ m
  /\ (TuringMachine.initial_state_ m <> "" ->
      TuringMachine.initial_state_ m ∈ TuringMachine.states_ m)
  /\ (forall q, q ∈ TuringMachine.accept_states_ m -> q <> "" ->
                q ∈ TuringMachine.states_ m)
  /\ (forall key tr,
        TuringMachine.transitions_ m !! key = Some tr ->
        key = (Transition.from_state_ tr, Transition.read_symbol_ tr)
        /\ Transition.from_state_ tr ∈ TuringMachine.states_ m
        /\ Transition.to_state_ tr ∈ TuringMachine.states_ m
        /\ Transition.read_symbol_ tr ∈ TuringMachine.tape_alphabet_ m
        /\ Transition.write_symbol_ tr ∈ TuringMachine.tape_alphabet_ m).

(** A line of a machine file that the loader does not skip. *)
Definition content_line (line : string) : bool :=
  negb (Parser.is_comment line || Parser.is_empty_line line).

(** What the line loop of the loader keeps besides the class invariant:
    no empty accepting state, and an initial state once its section is
    passed. *)
Definition loading (section : Z) (m : TuringMachine.t) : Prop :=
  class_invariant m
  /\ ("" ∉ TuringMachine.accept_states_ m)
  /\ (4 <= section -> TuringMachine.initial_state_ m <> "").

(** Two outcomes of a mutating call that differ at most in the message of
    the exception. *)
Definition same_but_message {S : Type} (r r' : mutated S) : Prop :=
  match r, r' with
  | Done s, Done s' => s = s'
  | Thrown _ s, Thrown _ s' => s = s'
  | Corrupt, Corrupt => True
  | _, _ => False
  end.

(** The lists of [order] are the containers of [m] in some order. *)
Definition visits (order : Parser.visit) (m : TuringMachine.t) : Prop :=
  Parser.states_seen order ≡ₚ elements (TuringMachine.states_ m)
  /\ Parser.input_alphabet_seen order ≡ₚ elements (TuringMachine.input_alphabet_ m)
  /\ Parser.tape_alphabet_seen order ≡ₚ elements (TuringMachine.tape_alphabet_ m)
  /\ Parser.accept_states_seen order ≡ₚ elements (TuringMachine.accept_states_ m)
  /\ Parser.transitions_seen order ≡ₚ TuringMachine.get_all_transitions m.

(** The string begins with the character [c]. *)
Definition starts_with (c : ascii) (s : string) : Prop := exists rest, s = String c rest.

(** The line begins with a character that is neither white space nor
    '#': the loader reads it as content. *)
Definition content_start (line : string) : Prop :=
  exists c rest, line = String c rest /\ Parser.isspace c = false /\ c <> "#"%char.

(** What the line loop of the multi-tape loader keeps: before the
    MULTICINTA line the machine has no transition, after it the machine is
    well built. *)
Definition multi_loading (section : Z) (m : MultiTuringMachine.t) : Prop :=
  (section = -1 /\ MultiTuringMachine.transitions_ m = ∅)
  \/ (0 <= section /\ well_built m).

(** The program has written to the standard output only, and no result
    line, in going from [s] to [s']. *)
Definition appended (s s' : Main.io) : Prop :=
  Main.prog s' = Main.prog s
  /\ Main.cerr s' = Main.cerr s
  /\ exists items, Main.cout s' = (Main.cout s ++ items)%list
                   /\ forall text, Main.ResultLine text ∉ items.

(** The class invariant of [MultiTuringMachine]: what the constructor
    establishes and every member function keeps, when the transitions
    added were built by the checking constructor of [MultiTransition]. *)
Definition multi_class_invariant (m : MultiTuringMachine.t) : Prop :=
  ("" ∉ MultiTuringMachine.states_ m)
  /\ MultiTuringMachine.blank_symbol_ m ∈ MultiTuringMachine.tape_alphabet_ m
  /\ MultiTuringMachine.input_alphabet_ m ⊆ MultiTuringMachine.tape_alphabet_ m
  /\ (MultiTuringMachine.initial_state_ m <> "" ->
      MultiTuringMachine.initial_state_ m ∈ MultiTuringMachine.states_ m)
  /\ (forall q, q ∈ MultiTuringMachine.accept_states_ m -> q <> "" ->
                q ∈ MultiTuringMachine.states_ m)
  /\ MultiTuringMachine.num_tapes_ m <> 0%nat
  /\ (forall key tr,
        MultiTuringMachine.transitions_ m !! key = Some tr ->
        key = (MultiTransition.from_state_ tr, MultiTransition.read_symbols_ tr)
        /\ MultiTransition.is_well_formed tr = true
        /\ MultiTransition.from_state_ tr ∈ MultiTuringMachine.states_ m
        /\ MultiTransition.to_state_ tr ∈ MultiTuringMachine.states_ m
        /\ (forall c, c ∈ MultiTransition.read_symbols_ tr ->
                      c ∈ MultiTuringMachine.tape_alphabet_ m)
        /\ (forall c, c ∈ MultiTransition.write_symbols_ tr ->
                      c ∈ MultiTuringMachine.tape_alphabet_ m)).

(** A tape whose only cell is an [a] at the last position of [int]:
    [set_head_position(INT_MAX); write('a')]. *)
Definition last_cell_tape : Tape.t :=
  Tape.write "a" (Tape.set_head_position INT_MAX (Tape.new ".")).

(** A tape whose two cells, at [-1] and at [INT_MAX - 1], are [INT_MAX]
    positions apart: a window of [INT_MAX + 1] cells. *)
Definition wide_tape : Tape.t :=
  Tape.write "b" (Tape.set_head_position (INT_MAX - 1)
    (Tape.write "a" (Tape.set_head_position (-1) (Tape.new ".")))).

(** The words of C8: [text] is the minimal string spanning the non-blank
    cells of [tp], empty when there is none, and otherwise the symbols at
    the positions from the leftmost non-blank cell to the rightmost one,
    the blank symbol where a position in between has no entry. *)
Definition minimal_window (tp : Tape.t) (text : string) : Prop :=
  ((forall p, Tape.symbol_at tp p = Tape.blank_symbol_ tp) -> text = "")
  /\ ((exists p, Tape.symbol_at tp p <> Tape.blank_symbol_ tp) ->
      exists lo hi : Z,
        Tape.symbol_at tp lo <> Tape.blank_symbol_ tp
        /\ Tape.symbol_at tp hi <> Tape.blank_symbol_ tp
        /\ (forall q, Tape.symbol_at tp q <> Tape.blank_symbol_ tp -> lo <= q <= hi)
        /\ Z.of_nat (String.length text) = hi - lo + 1
        /\ (forall q, lo <= q <= hi ->
              String.get (Z.to_nat (q - lo)) text = Some (Tape.symbol_at tp q))
        /\ (forall q, lo <= q <= hi -> Tape.cells_ tp !! q = None ->
              String.get (Z.to_nat (q - lo)) text = Some (Tape.blank_symbol_ tp))).

(** The simulator of [one_step_acceptor] in the accepting state [qa],
    one step executed, with a budget of one step. *)
Definition capped_acceptor : Simulator.t :=
  Simulator.with_config (Configuration.mk "qa" (Tape.new ".") 1)
    (with_max_steps 1 (Simulator.new (Some one_step_acceptor))).

(** The step cap of the main loop: [max_steps > 0] and
    [step_count >= max_steps]. *)
Definition at_step_cap (max_steps step_count : N) : Prop :=
  (0 < max_steps)%N /\ (max_steps <= step_count)%N.

(** The configuration the transition [tr] leads to from [c]: its symbol
    written under the head, the head moved, its target state entered, one
    more step counted. *)
Definition after_transition (tr : Transition.t) (c : Configuration.t) : Configuration.t :=
  Configuration.mk (Transition.to_state_ tr)
    (Tape.moved (Transition.movement_ tr)
       (Tape.write (Transition.write_symbol_ tr) (Configuration.tape_ c)))
    (size_t_succ (Configuration.step_count_ c)).

(** The simulator that goes into the next pass with the configuration
    [c]: the fingerprint of [c] is in the visited set, and [c] is the last
    entry of the trace when the trace is enabled. *)
Definition going_on (c : Configuration.t) (s : Simulator.t) : Simulator.t :=
  Simulator.mk (Simulator.machine_ s) c
    (if Simulator.trace_enabled_ s then Simulator.trace_ s ++ [c] else Simulator.trace_ s)
    (Simulator.trace_enabled_ s) (Simulator.max_steps_ s) (Simulator.last_error_ s)
    ({[ Configuration.to_compact_string c ]} ∪ Simulator.visited_configurations_ s).

(** The symbols under the heads of the tapes. *)
Definition symbols_read (tapes : MultiTape.t) : list ascii :=
  Tape.read <$> MultiTape.tapes_ tapes.

(** The tapes after the transition [tr]: on tape [i] its [i]-th symbol
    written under the head, then the head moved by its [i]-th movement. *)
Definition tapes_after (tr : MultiTransition.t) (tapes : MultiTape.t) : MultiTape.t :=
  MultiTape.mk
    (zip_with (fun tp (action : ascii * Movement) =>
                 Tape.moved action.2 (Tape.write action.1 tp))
       (MultiTape.tapes_ tapes)
       (zip (MultiTransition.write_symbols_ tr) (MultiTransition.movements_ tr)))
    (MultiTape.num_tapes_ tapes).

(** The multi-tape configuration the transition [tr] leads to from [c]. *)
Definition multi_after_transition (tr : MultiTransition.t) (c : MultiConfiguration.t)
    : MultiConfiguration.t :=
  MultiConfiguration.mk (MultiTransition.to_state_ tr)
    (tapes_after tr (MultiConfiguration.tapes_ c))
    (size_t_succ (MultiConfiguration.step_count_ c)).

(** The multi-tape simulator that goes into the next pass with the
    configuration [c], whose fingerprint is [key]. *)
Definition multi_going_on (c : MultiConfiguration.t) (key : string) (s : MultiSimulator.t)
    : MultiSimulator.t :=
  MultiSimulator.mk (MultiSimulator.machine_ s) c
    (if MultiSimulator.trace_enabled_ s then MultiSimulator.trace_ s ++ [c]
     else MultiSimulator.trace_ s)
    (MultiSimulator.trace_enabled_ s) (MultiSimulator.max_steps_ s)
    (MultiSimulator.last_error_ s)
    ({[ key ]} ∪ MultiSimulator.visited_configurations_ s).

(** A number of tapes that [tapes_.reserve(num_tapes)] accepts whatever
    the implementation: a count up to [INT_MAX], which is below
    [max_size()] of a vector of tapes wherever [size_t] has 64 bits. These
    are the counts a positive number in the MULTICINTA line of a machine
    file gives; a negative number there gives a count above
    [PTRDIFF_MAX]. *)
Definition reservable (num_tapes : nat) : Prop := Z.of_nat num_tapes <= INT_MAX.

(** A run of white-space characters, possibly empty. *)
Definition blank_run (s : string) : Prop :=
  forall c, occurs c s -> Parser.isspace c = true.

(** The string ends here or goes on with a white-space character. *)
Definition at_token_end (s : string) : Prop :=
  s = "" \/ exists c rest, s = String c rest /\ Parser.isspace c = true.

(** [line] holds the tokens [tokens] and nothing else but white space:
    white space (possibly none) in front of each token, every token
    followed by white space or by the end of the line, and only white
    space after the last one. The tokens are then the maximal runs of
    characters of [line] that are not white space, in their order. *)
Inductive spaced : string -> list string -> Prop :=
  | spaced_end gap :
      blank_run gap -> spaced gap []
  | spaced_token gap t rest tokens :
      blank_run gap -> token t -> at_token_end rest -> spaced rest tokens ->
      spaced (gap +:+ t +:+ rest) (t :: tokens).

(** * Properties *)

(** ** The tape *)

Section TapeFacts.

Implicit Types (tp : Tape.t) (cells : gmap Z ascii) (p q : Z) (c s : ascii).

Lemma keys_spec cells k : k ∈ Tape.keys cells <-> is_Some (cells !! k).
Proof.
  unfold Tape.keys. rewrite list_elem_of_fmap. split.
  - intros [[k' v] [-> Hin]]. apply elem_of_map_to_list in Hin. by exists v.
  - intros [v Hv]. exists (k, v). split; [done|]. by apply elem_of_map_to_list.
Qed.

Lemma keys_nil cells : Tape.keys cells = [] <-> cells = ∅.
Proof.
  unfold Tape.keys. split.
  - intros H. apply fmap_nil_inv in H. by apply map_to_list_empty_iff.
  - intros ->. by rewrite map_to_list_empty.
Qed.

Lemma foldr_min_spec (k : Z) (ks : list Z) :
  foldr Z.min k ks ∈ k :: ks /\ forall x, x ∈ k :: ks -> foldr Z.min k ks <= x.
Proof.
  induction ks as [|a ks [IHin IHle]]; simpl.
  - split; [left|]. intros x Hx. apply list_elem_of_singleton in Hx. lia.
  - split.
    + destruct (Z.min_spec a (foldr Z.min k ks)) as [[_ ->]|[_ ->]].
      * right; left.
      * apply elem_of_cons in IHin as [Heq|Hin]; [rewrite Heq; left | right; by right].
    + intros x Hx.
      assert (x = a \/ x ∈ k :: ks) as [->|Hx'].
      { apply elem_of_cons in Hx as [->|Hx]; [right; left|].
        apply elem_of_cons in Hx as [->|Hx]; [by left|right; by right]. }
      * lia.
      * specialize (IHle x Hx'). lia.
Qed.

Lemma foldr_max_spec (k : Z) (ks : list Z) :
  foldr Z.max k ks ∈ k :: ks /\ forall x, x ∈ k :: ks -> x <= foldr Z.max k ks.
Proof.
  induction ks as [|a ks [IHin IHle]]; simpl.
  - split; [left|]. intros x Hx. apply list_elem_of_singleton in Hx. lia.
  - split.
    + destruct (Z.max_spec a (foldr Z.max k ks)) as [[_ ->]|[_ ->]].
      * apply elem_of_cons in IHin as [Heq|Hin]; [rewrite Heq; left | right; by right].
      * right; left.
    + intros x Hx.
      assert (x = a \/ x ∈ k :: ks) as [->|Hx'].
      { apply elem_of_cons in Hx as [->|Hx]; [right; left|].
        apply elem_of_cons in Hx as [->|Hx]; [by left|right; by right]. }
      * lia.
      * specialize (IHle x Hx'). lia.
Qed.

(** [min_pos] is the least key of the map. *)
Lemma min_pos_spec cells lo :
  Tape.min_pos cells = Some lo ->
  is_Some (cells !! lo) /\ forall k, is_Some (cells !! k) -> lo <= k.
Proof.
  unfold Tape.min_pos. destruct (Tape.keys cells) as [|k ks] eqn:E; [done|].
  intros [= <-]. destruct (foldr_min_spec k ks) as [Hin Hle]. split.
  - apply keys_spec. by rewrite E.
  - intros x Hx. apply Hle. rewrite <- E. by apply keys_spec.
Qed.

(** [max_pos] is the greatest key of the map. *)
Lemma max_pos_spec cells hi :
  Tape.max_pos cells = Some hi ->
  is_Some (cells !! hi) /\ forall k, is_Some (cells !! k) -> k <= hi.
Proof.
  unfold Tape.max_pos. destruct (Tape.keys cells) as [|k ks] eqn:E; [done|].
  intros [= <-]. destruct (foldr_max_spec k ks) as [Hin Hle]. split.
  - apply keys_spec. by rewrite E.
  - intros x Hx. apply Hle. rewrite <- E. by apply keys_spec.
Qed.

Lemma min_pos_None cells : Tape.min_pos cells = None <-> cells = ∅.
Proof.
  unfold Tape.min_pos. rewrite <- keys_nil. by destruct (Tape.keys cells).
Qed.

Lemma max_pos_None cells : Tape.max_pos cells = None <-> cells = ∅.
Proof.
  unfold Tape.max_pos. rewrite <- keys_nil. by destruct (Tape.keys cells).
Qed.

Lemma content_loop_length cells b pos n :
  String.length (Tape.content_loop cells b pos n) = n.
Proof. revert pos. induction n as [|n IH]; intros pos; simpl; [done|]. by rewrite IH. Qed.

Lemma content_loop_get cells b pos n (i : nat) :
  (i < n)%nat ->
  String.get i (Tape.content_loop cells b pos n)
  = Some (match cells !! (pos + Z.of_nat i) with Some c => c | None => b end).
Proof.
  revert pos i. induction n as [|n IH]; intros pos i Hi; [lia|].
  destruct i as [|i].
  - simpl. by rewrite Z.add_0_r.
  - cbn [Tape.content_loop String.get]. rewrite IH by lia.
    by replace (pos + 1 + Z.of_nat i) with (pos + Z.of_nat (S i)) by lia.
Qed.

Lemma symbol_at_eq tp p :
  Tape.symbol_at tp p
  = match Tape.cells_ tp !! p with Some c => c | None => Tape.blank_symbol_ tp end.
Proof. done. Qed.

(** On a compact tape the stored cells are exactly the non-blank ones. *)
Lemma compact_non_blank tp p :
  Tape.compact tp ->
  Tape.symbol_at tp p <> Tape.blank_symbol_ tp <-> is_Some (Tape.cells_ tp !! p).
Proof.
  intros Hc. rewrite symbol_at_eq. destruct (Tape.cells_ tp !! p) as [c|] eqn:E.
  - split; [by eexists|]. intros _. by apply (Hc p).
  - split; [done|]. by intros [? ?].
Qed.

(** Invariant I5 holds of every tape the class can build. *)
Lemma compact_new b : Tape.compact (Tape.new b).
Proof. intros p c. simpl. by rewrite lookup_empty. Qed.

Lemma compact_write tp s : Tape.compact tp -> Tape.compact (Tape.write s tp).
Proof.
  intros Hc p c. unfold Tape.write. destruct (decide (s = _)) as [->|Hs]; simpl.
  - intros H. apply lookup_delete_Some in H as [_ H]. by apply (Hc p).
  - intros H. apply lookup_insert_Some in H as [[_ <-]|[_ H]]; [done|]. by apply (Hc p).
Qed.

Lemma compact_set_head tp p : Tape.compact tp -> Tape.compact (Tape.set_head_position p tp).
Proof. done. Qed.

(** Inside the range of [int] nothing wraps, and what wraps is inside the
    range. *)
Lemma int_wrap_in_range (z : Z) : INT_MIN <= z <= INT_MAX -> int_wrap z = z.
Proof.
  unfold INT_MIN, INT_MAX, int_wrap. intros H. rewrite Z.mod_small by lia. lia.
Qed.

Lemma int_wrap_range (z : Z) : INT_MIN <= int_wrap z <= INT_MAX.
Proof.
  unfold INT_MIN, INT_MAX, int_wrap.
  pose proof (Z.mod_pos_bound (z + 2 ^ 31) (2 ^ 32)). lia.
Qed.

Lemma compact_move_left tp : Tape.compact tp -> Tape.compact (Tape.move_left tp).
Proof. done. Qed.

Lemma compact_move_right tp : Tape.compact tp -> Tape.compact (Tape.move_right tp).
Proof. done. Qed.

Lemma reset_loop_compact b input i cells :
  (forall p c, cells !! p = Some c -> c <> b) ->
  forall p c, Tape.reset_loop b input i cells !! p = Some c -> c <> b.
Proof.
  revert i cells. induction input as [|a rest IH]; intros i cells Hc; simpl; [done|].
  apply IH. destruct (decide (a = b)); [done|].
  intros p c H. apply lookup_insert_Some in H as [[_ <-]|[_ H]]; [done|]. by apply (Hc p).
Qed.

Lemma compact_reset tp input : Tape.compact (Tape.reset input tp).
Proof.
  unfold Tape.compact, Tape.reset; simpl. apply reset_loop_compact.
  intros p c. by rewrite lookup_empty.
Qed.

Lemma compact_new_with input b : Tape.compact (Tape.new_with input b).
Proof. apply compact_reset. Qed.

Lemma read_write tp s : Tape.read (Tape.write s tp) = s.
Proof.
  unfold Tape.read, Tape.write. destruct (decide (s = _)) as [->|Hs]; simpl.
  - by rewrite lookup_delete_eq.
  - by rewrite lookup_insert_eq.
Qed.

Lemma blank_write tp s : Tape.blank_symbol_ (Tape.write s tp) = Tape.blank_symbol_ tp.
Proof. unfold Tape.write. by destruct (decide _). Qed.

Lemma cells_write_blank tp :
  Tape.cells_ (Tape.write (Tape.blank_symbol_ tp) tp)
  = delete (Tape.head_position_ tp) (Tape.cells_ tp).
Proof. unfold Tape.write. by rewrite decide_True. Qed.

Lemma cells_write_non_blank tp s :
  s <> Tape.blank_symbol_ tp ->
  Tape.cells_ (Tape.write s tp) = <[Tape.head_position_ tp := s]> (Tape.cells_ tp).
Proof. intros Hs. unfold Tape.write. by rewrite decide_False. Qed.

Lemma head_write tp s : Tape.head_position_ (Tape.write s tp) = Tape.head_position_ tp.
Proof. unfold Tape.write. by destruct (decide _). Qed.

Lemma get_content_ext tp tp' :
  Tape.cells_ tp = Tape.cells_ tp' -> Tape.blank_symbol_ tp = Tape.blank_symbol_ tp' ->
  Tape.get_content tp = Tape.get_content tp'.
Proof. unfold Tape.get_content. by intros -> ->. Qed.

End TapeFacts.

(** C7. For every tape, position [p] and symbol [s]: with the head at [p],
    [read] after [write s] returns [s]; after [write] of the blank symbol
    the cell at [p] has no entry in the sparse map, and [get_content]
    returns what it returns on any tape that agrees with this one
    everywhere but was never written at [p]. *)
Theorem tape_write_read_round_trip (tp : Tape.t) (p : Z) (s : ascii) :
  let at_p := Tape.set_head_position p tp in
  let erased := Tape.write (Tape.blank_symbol_ tp) at_p in
  Tape.read (Tape.write s at_p) = s
  /\ Tape.cells_ erased !! p = None
  /\ (forall never_written : Tape.t,
        Tape.blank_symbol_ never_written = Tape.blank_symbol_ tp ->
        Tape.cells_ never_written !! p = None ->
        (forall q, q <> p -> Tape.cells_ never_written !! q = Tape.cells_ tp !! q) ->
        Tape.get_content erased = Tape.get_content never_written)
  /\ (Tape.cells_ tp !! p = None ->
        Tape.get_content (Tape.write (Tape.blank_symbol_ tp) (Tape.write s at_p))
        = Tape.get_content tp).
Proof.
  intros at_p erased. split; [apply read_write|].
  assert (Herased : Tape.cells_ erased = delete p (Tape.cells_ tp))
    by apply (cells_write_blank at_p).
  split; [by rewrite Herased, lookup_delete_eq|]. split.
  - intros nw Hb Hnone Hagree. apply get_content_ext.
    + rewrite Herased. apply map_eq. intros q. destruct (decide (q = p)) as [->|Hq].
      * by rewrite lookup_delete_eq, Hnone.
      * by rewrite lookup_delete_ne, Hagree.
    + unfold erased. by rewrite blank_write, Hb.
  - intros Hnone. apply get_content_ext; [|by rewrite !blank_write].
    replace (Tape.blank_symbol_ tp) with (Tape.blank_symbol_ (Tape.write s at_p))
      by apply (blank_write at_p s).
    rewrite cells_write_blank, head_write.
    destruct (decide (s = Tape.blank_symbol_ at_p)) as [->|Hs].
    + rewrite cells_write_blank. simpl. rewrite delete_delete_eq. by apply delete_id.
    + rewrite cells_write_non_blank by done. simpl. by apply delete_insert_id.
Qed.

(** The string [get_content] builds is the minimal window of a tape that
    satisfies invariant I5, when the positions are counted in [Z]. *)
Lemma get_content_window (tp : Tape.t) (I5 : Tape.compact tp) :
  minimal_window tp (Tape.get_content tp).
Proof.
  split.
  - intros Hblank. unfold Tape.get_content.
    destruct (Tape.min_pos (Tape.cells_ tp)) as [lo|] eqn:Elo; [|done].
    apply min_pos_spec in Elo as [Hlo _].
    apply (compact_non_blank tp lo I5) in Hlo. by destruct Hlo.
  - intros [p Hp]. apply (compact_non_blank tp p I5) in Hp.
    unfold Tape.get_content.
    destruct (Tape.min_pos (Tape.cells_ tp)) as [lo|] eqn:Elo;
      [|apply min_pos_None in Elo; rewrite Elo, lookup_empty in Hp; by destruct Hp].
    destruct (Tape.max_pos (Tape.cells_ tp)) as [hi|] eqn:Ehi;
      [|apply max_pos_None in Ehi; rewrite Ehi, lookup_empty in Hp; by destruct Hp].
    apply min_pos_spec in Elo as [Hlo Hmin]. apply max_pos_spec in Ehi as [Hhi Hmax].
    assert (lo <= hi) by (by apply Hmin).
    assert (Hget : forall q, lo <= q <= hi ->
              String.get (Z.to_nat (q - lo))
                (Tape.content_loop (Tape.cells_ tp) (Tape.blank_symbol_ tp) lo
                   (Z.to_nat (hi - lo + 1)))
              = Some (Tape.symbol_at tp q)).
    { intros q Hq. rewrite content_loop_get by lia. rewrite symbol_at_eq.
      by replace (lo + Z.of_nat (Z.to_nat (q - lo))) with q by lia. }
    exists lo, hi. repeat split.
    + by apply compact_non_blank.
    + by apply compact_non_blank.
    + apply Hmin. by apply compact_non_blank.
    + apply Hmax. by apply compact_non_blank.
    + rewrite content_loop_length. lia.
    + done.
    + intros q Hq Hnone. rewrite Hget by done. by rewrite symbol_at_eq, Hnone.
Qed.

(** Where the counters of [get_content] stay inside [int], the call
    returns the string of [Tape.get_content]. *)
Lemma get_content_int_in_range (tp : Tape.t) (I5 : Tape.compact tp) :
  (forall p, Tape.symbol_at tp p <> Tape.blank_symbol_ tp -> p < INT_MAX) ->
  (forall p q, Tape.symbol_at tp p <> Tape.blank_symbol_ tp ->
               Tape.symbol_at tp q <> Tape.blank_symbol_ tp -> q - p < INT_MAX) ->
  Tape.get_content_int tp = Ok (Tape.get_content tp).
Proof.
  intros Hlast Hspan. unfold Tape.get_content_int, Tape.get_content.
  destruct (Tape.min_pos (Tape.cells_ tp)) as [lo|] eqn:Elo; [|done].
  destruct (Tape.max_pos (Tape.cells_ tp)) as [hi|] eqn:Ehi; [|done].
  apply min_pos_spec in Elo as [Hlo _]. apply max_pos_spec in Ehi as [Hhi _].
  apply (compact_non_blank tp lo I5) in Hlo. apply (compact_non_blank tp hi I5) in Hhi.
  pose proof (Hlast hi Hhi). pose proof (Hspan lo hi Hlo Hhi).
  unfold Tape.window_in_int.
  destruct (Z.leb_spec (hi - lo + 1) INT_MAX); [|lia].
  destruct (Z.leb_spec (hi + 1) INT_MAX); [|lia]. done.
Qed.

Lemma sample_tape_cells (p : Z) :
  Tape.symbol_at sample_tape p <> "."%char -> p = 2 \/ p = 5.
Proof.
  rewrite symbol_at_eq.
  change (Tape.cells_ sample_tape) with (<[5 := "b"%char]> (<[2 := "a"%char]> (∅ : gmap Z ascii))).
  change (Tape.blank_symbol_ sample_tape) with "."%char.
  destruct (decide (p = 5)) as [|H5]; [by right|].
  destruct (decide (p = 2)) as [|H2]; [by left|].
  by rewrite lookup_insert_ne, lookup_insert_ne, lookup_empty by done.
Qed.

(** C8 as stated fails. On the tape whose only non-blank cell is at
    position [INT_MAX], built by [set_head_position(INT_MAX)] and
    [write('a')], the loop of [get_content] can only end by taking its
    counter past [INT_MAX]; on the tape with a cell at [-1] and another at
    [INT_MAX - 1], the argument [max_pos - min_pos + 1] of [reserve] is
    [INT_MAX + 1]. Both are overflows of a signed [int]: the call does not
    return the minimal string. *)
Lemma get_content_overflows :
  Tape.compact last_cell_tape
  /\ Tape.get_content_int last_cell_tape = Undefined
  /\ Tape.compact wide_tape
  /\ Tape.get_content_int wide_tape = Undefined
  /\ ~ (forall tp : Tape.t,
          Tape.compact tp ->
          exists text, Tape.get_content_int tp = Ok text /\ minimal_window tp text).
Proof.
  assert (H1 : Tape.compact last_cell_tape)
    by apply compact_write, compact_set_head, compact_new.
  assert (H2 : Tape.compact wide_tape)
    by apply compact_write, compact_set_head, compact_write, compact_set_head, compact_new.
  split; [exact H1|]. split; [by vm_compute|]. split; [exact H2|]. split; [by vm_compute|].
  intros H. destruct (H last_cell_tape H1) as (text & Hrun & _). by vm_compute in Hrun.
Qed.

(** C8, amended. On every tape that satisfies invariant I5 and whose
    non-blank cells lie below position [INT_MAX] and are less than
    [INT_MAX] positions apart (so that the counters of [get_content] stay
    inside [int]), [get_content] returns the minimal string spanning the
    non-blank cells: the empty string when no cell is non-blank, and
    otherwise exactly the symbols at the positions from the leftmost
    non-blank cell [lo] to the rightmost non-blank cell [hi], a position
    in between with no entry rendered as the blank symbol. *)
Theorem get_content_minimal_window (tp : Tape.t) (I5 : Tape.compact tp) :
  (forall p, Tape.symbol_at tp p <> Tape.blank_symbol_ tp -> p < INT_MAX) ->
  (forall p q, Tape.symbol_at tp p <> Tape.blank_symbol_ tp ->
               Tape.symbol_at tp q <> Tape.blank_symbol_ tp -> q - p < INT_MAX) ->
  exists text,
    Tape.get_content_int tp = Ok text
    /\ Tape.get_content tp = text
    /\ minimal_window tp text.
Proof.
  intros Hlast Hspan. exists (Tape.get_content tp).
  split; [by apply get_content_int_in_range|]. split; [done|].
  by apply get_content_window.
Qed.

Lemma get_content_minimal_window_witness :
  Tape.compact sample_tape
  /\ Tape.get_content_int sample_tape = Ok "a..b"
  /\ exists text,
       Tape.get_content_int sample_tape = Ok text
       /\ Tape.get_content sample_tape = text
       /\ minimal_window sample_tape text.
Proof.
  assert (H : Tape.compact sample_tape).
  { apply compact_write, compact_set_head, compact_write, compact_set_head, compact_new. }
  split; [exact H|]. split; [reflexivity|].
  apply (get_content_minimal_window sample_tape H).
  - intros p Hp. destruct (sample_tape_cells p Hp) as [-> | ->]; reflexivity.
  - intros p q Hp Hq.
    destruct (sample_tape_cells p Hp) as [-> | ->];
      destruct (sample_tape_cells q Hq) as [-> | ->]; reflexivity.
Defined.

(** ** Invariants of mutating calls *)

Section Preservation.

Context {S : Type} (P : S -> Prop).

Lemma holds_after_and_then r f :
  holds_after P r -> preserves P f -> holds_after P (r &> f).
Proof. destruct r; simpl; auto. Qed.

Lemma preserves_and_then f g :
  preserves P f -> preserves P g -> preserves P (fun s => f s &> g).
Proof. intros Hf Hg s Hs. apply holds_after_and_then; auto. Qed.

Lemma preserves_with_value {A : Type} (x : outcome A) f :
  (forall a, preserves P (f a)) -> preserves P (with_value x f).
Proof. intros Hf s Hs. destruct x; simpl; auto. by apply Hf. Qed.

Lemma holds_after_foldl {A : Type} (body : A -> S -> mutated S) (xs : list A) r :
  (forall a, preserves P (body a)) ->
  holds_after P r -> holds_after P (foldl (fun acc x => acc &> body x) r xs).
Proof.
  intros Hbody. revert r. induction xs as [|x xs IH]; intros r Hr; simpl; [done|].
  apply IH. by apply holds_after_and_then.
Qed.

Lemma preserves_for_each {A : Type} (body : A -> S -> mutated S) (xs : list A) :
  (forall a, preserves P (body a)) -> preserves P (Parser.for_each body xs).
Proof. intros Hbody s Hs. by apply holds_after_foldl. Qed.

Lemma preserves_for_index (n : nat) (body : nat -> S -> mutated S) :
  (forall i, preserves P (body i)) -> preserves P (for_index n body).
Proof. intros Hbody s Hs. by apply holds_after_foldl. Qed.

Lemma preserves_rethrow f : preserves P f -> preserves P (fun s => Parser.rethrow (f s)).
Proof. intros Hf s Hs. specialize (Hf s Hs). by destruct (f s). Qed.

Lemma holds_object_after s r : P s -> holds_after P r -> P (object_after s r).
Proof. by destruct r. Qed.

End Preservation.

(** ** The machine builders *)

Section BuilderFacts.

Lemma add_state_blank q : preserves blank_in_gamma (TuringMachine.add_state q).
Proof. intros m Hm. unfold TuringMachine.add_state. by destruct (decide _). Qed.

Lemma add_tape_symbol_blank c : preserves blank_in_gamma (TuringMachine.add_tape_symbol c).
Proof. intros m Hm. unfold blank_in_gamma in *. simpl. set_solver. Qed.

Lemma add_input_symbol_blank c : preserves blank_in_gamma (TuringMachine.add_input_symbol c).
Proof.
  intros m Hm. unfold TuringMachine.add_input_symbol, blank_in_gamma in *.
  destruct (decide _); simpl; [done|set_solver].
Qed.

Lemma set_initial_state_blank q : preserves blank_in_gamma (TuringMachine.set_initial_state q).
Proof. intros m Hm. by apply add_state_blank. Qed.

Lemma add_accept_state_blank q : preserves blank_in_gamma (TuringMachine.add_accept_state q).
Proof. intros m Hm. by apply add_state_blank. Qed.

(** [set_blank_symbol] needs no assumption: the new blank symbol is
    inserted, and an unchanged one was a member already. *)
Lemma set_blank_symbol_blank c : preserves blank_in_gamma (TuringMachine.set_blank_symbol c).
Proof.
  intros m Hm. unfold TuringMachine.set_blank_symbol, blank_in_gamma in *.
  destruct (decide _); simpl; [set_solver|done].
Qed.

Lemma add_transition_blank tr : preserves blank_in_gamma (TuringMachine.add_transition tr).
Proof.
  intros m Hm. unfold TuringMachine.add_transition.
  destruct (decide _); [done|]. destruct (decide _); [done|].
  apply holds_after_and_then.
  - apply holds_after_and_then; [by apply add_tape_symbol_blank|].
    apply add_tape_symbol_blank.
  - intros m1 Hm1. by destruct (_ !! _).
Qed.

Lemma clear_blank m : blank_in_gamma (TuringMachine.clear m).
Proof. unfold blank_in_gamma. simpl. set_solver. Qed.

Lemma new_blank b : blank_in_gamma (TuringMachine.new b).
Proof. unfold blank_in_gamma. simpl. set_solver. Qed.

Lemma apply_op_blank op : preserves blank_in_gamma (TuringMachine.apply_op op).
Proof.
  destruct op; intros m Hm; cbn [TuringMachine.apply_op];
    [ by apply add_state_blank | by apply add_input_symbol_blank
    | by apply add_tape_symbol_blank | by apply set_initial_state_blank
    | by apply add_accept_state_blank | by apply set_blank_symbol_blank
    | by apply add_transition_blank | apply clear_blank ].
Qed.

Lemma apply_ops_blank ops m :
  blank_in_gamma m -> blank_in_gamma (TuringMachine.apply_ops ops m).
Proof.
  unfold TuringMachine.apply_ops. revert m.
  induction ops as [|op ops IH]; intros m Hm; simpl; [done|].
  apply IH, holds_object_after; [done|]. by apply apply_op_blank.
Qed.

Lemma multi_add_state_blank q :
  preserves multi_blank_in_gamma (MultiTuringMachine.add_state q).
Proof. intros m Hm. unfold MultiTuringMachine.add_state. by destruct (decide _). Qed.

Lemma multi_add_tape_symbol_blank c :
  preserves multi_blank_in_gamma (MultiTuringMachine.add_tape_symbol c).
Proof. intros m Hm. unfold multi_blank_in_gamma in *. simpl. set_solver. Qed.

Lemma multi_add_input_symbol_blank c :
  preserves multi_blank_in_gamma (MultiTuringMachine.add_input_symbol c).
Proof.
  intros m Hm. unfold MultiTuringMachine.add_input_symbol, multi_blank_in_gamma in *.
  destruct (decide _); simpl; [done|set_solver].
Qed.

Lemma multi_set_blank_symbol_blank c :
  preserves multi_blank_in_gamma (MultiTuringMachine.set_blank_symbol c).
Proof.
  intros m Hm. unfold MultiTuringMachine.set_blank_symbol, multi_blank_in_gamma in *.
  destruct (decide _); simpl; [set_solver|done].
Qed.

Lemma multi_set_num_tapes_blank k :
  preserves multi_blank_in_gamma (MultiTuringMachine.set_num_tapes k).
Proof. intros m Hm. unfold MultiTuringMachine.set_num_tapes. by destruct (decide _). Qed.

Lemma multi_add_transition_blank tr :
  preserves multi_blank_in_gamma (MultiTuringMachine.add_transition tr).
Proof.
  intros m Hm. unfold MultiTuringMachine.add_transition.
  destruct (decide _); [done|].
  repeat apply holds_after_and_then.
  - by apply multi_add_state_blank.
  - apply multi_add_state_blank.
  - intros m1 Hm1. apply preserves_for_index; [|done].
    intros i. apply preserves_and_then;
      apply preserves_with_value; intros a; apply multi_add_tape_symbol_blank.
  - intros m1 Hm1. by destruct (_ !! _).
Qed.

Lemma multi_apply_op_blank op :
  preserves multi_blank_in_gamma (MultiTuringMachine.apply_op op).
Proof.
  destruct op; intros m Hm; cbn [MultiTuringMachine.apply_op];
    [ by apply multi_add_state_blank | by apply multi_add_input_symbol_blank
    | by apply multi_add_tape_symbol_blank | by apply multi_add_state_blank
    | by apply multi_add_state_blank | by apply multi_set_blank_symbol_blank
    | by apply multi_set_num_tapes_blank | by apply multi_add_transition_blank
    | unfold multi_blank_in_gamma; simpl; set_solver ].
Qed.

Lemma multi_apply_ops_blank ops m :
  multi_blank_in_gamma m -> multi_blank_in_gamma (MultiTuringMachine.apply_ops ops m).
Proof.
  unfold MultiTuringMachine.apply_ops. revert m.
  induction ops as [|op ops IH]; intros m Hm; simpl; [done|].
  apply IH, holds_object_after; [done|]. by apply multi_apply_op_blank.
Qed.

End BuilderFacts.

(** C10. After construction followed by any sequence of builder operations
    (among them [set_blank_symbol], also one that changes the blank symbol
    again, and [clear]), whether or not some of them threw, the blank symbol
    of a [TuringMachine] and of a [MultiTuringMachine] is a member of its
    tape alphabet. *)
Theorem blank_symbol_always_in_tape_alphabet :
  (forall (blank : ascii) (ops : list TuringMachine.builder_op),
     let m := TuringMachine.apply_ops ops (TuringMachine.new blank) in
     TuringMachine.blank_symbol_ m ∈ TuringMachine.tape_alphabet_ m)
  /\ (forall (k : nat) (blank : ascii) (ops : list MultiTuringMachine.builder_op),
        match MultiTuringMachine.new k blank with
        | Ok m0 =>
            let m := MultiTuringMachine.apply_ops ops m0 in
            MultiTuringMachine.blank_symbol_ m ∈ MultiTuringMachine.tape_alphabet_ m
        | Throw e => k = 0%nat /\ e = invalid_argument ZeroTapes
        | Undefined => False
        end).
Proof.
  split.
  - intros blank ops. apply apply_ops_blank, new_blank.
  - intros k blank ops. unfold MultiTuringMachine.new.
    destruct (decide (k = 0%nat)); [done|].
    apply multi_apply_ops_blank. unfold multi_blank_in_gamma. simpl. set_solver.
Qed.

(** ** The tapes of a multi-tape configuration *)

Section MultiTapeFacts.

Implicit Types (mt : MultiTape.t) (i : nat).

(** For a number of tapes within the bound, [reserve] returns and the
    constructors build their tapes; above [PTRDIFF_MAX] they throw
    [std::length_error]. *)
Lemma reserve_reservable (k : nat) : reservable k -> MultiTape.reserve k = Ok tt.
Proof.
  unfold reservable, MultiTape.reserve, INT_MAX, PTRDIFF_MAX. intros H.
  by rewrite decide_False by lia.
Qed.

Lemma construct_with_reservable (k : nat) w b :
  reservable k -> MultiTape.construct_with k w b = MultiTape.new_with k w b.
Proof.
  intros H. unfold MultiTape.construct_with, MultiTape.new_with.
  destruct (decide (k = 0%nat)); [done|]. by rewrite reserve_reservable.
Qed.

Lemma construct_reservable (k : nat) b :
  reservable k -> MultiTape.construct k b = MultiTape.new k b.
Proof.
  intros H. unfold MultiTape.construct, MultiTape.new.
  destruct (decide (k = 0%nat)); [done|]. by rewrite reserve_reservable.
Qed.

Lemma construct_with_too_many (k : nat) w b :
  PTRDIFF_MAX < Z.of_nat k ->
  MultiTape.construct_with k w b = Throw (length_error VectorReserve).
Proof.
  intros H. unfold MultiTape.construct_with, MultiTape.reserve.
  rewrite decide_False by (unfold PTRDIFF_MAX in H; lia). by rewrite decide_True.
Qed.

Lemma new_well_formed k b mt : MultiTape.new k b = Ok mt -> MultiTape.well_formed mt.
Proof.
  unfold MultiTape.new. destruct (decide _); [done|]. intros [= <-].
  unfold MultiTape.well_formed. simpl. apply length_replicate.
Qed.

Lemma new_with_well_formed k w b mt :
  MultiTape.new_with k w b = Ok mt -> MultiTape.well_formed mt.
Proof.
  unfold MultiTape.new_with. destruct (decide _); [done|]. intros [= <-].
  unfold MultiTape.well_formed. simpl. rewrite length_replicate. lia.
Qed.

Lemma construct_with_well_formed k w b mt :
  MultiTape.construct_with k w b = Ok mt -> MultiTape.well_formed mt.
Proof.
  unfold MultiTape.construct_with. destruct (decide _); [done|].
  destruct (MultiTape.reserve k); simpl; [|done..]. apply new_with_well_formed.
Qed.

Lemma reset_well_formed w mt : MultiTape.well_formed mt -> MultiTape.well_formed (MultiTape.reset w mt).
Proof.
  destruct mt as [tapes k]. unfold MultiTape.well_formed, MultiTape.reset. simpl.
  destruct tapes; simpl; [done|]. by rewrite length_map.
Qed.

Lemma update_tape_well_formed f i :
  preserves MultiTape.well_formed (MultiTape.update_tape f i).
Proof.
  intros mt Hwf. unfold MultiTape.update_tape. destruct (negb _); [done|].
  destruct (_ !! _); [|done]. unfold MultiTape.well_formed in *. simpl.
  by rewrite length_insert.
Qed.

Lemma on_tape_out_of_range {A : Type} (f : Tape.t -> A) mt i :
  (MultiTape.num_tapes_ mt <= i)%nat ->
  MultiTape.on_tape f mt i = Throw (out_of_range (InvalidTapeIndex i)).
Proof.
  intros Hi. unfold MultiTape.on_tape, MultiTape.is_valid_tape_index.
  rewrite bool_decide_false by lia. done.
Qed.

Lemma update_tape_out_of_range f mt i :
  (MultiTape.num_tapes_ mt <= i)%nat ->
  MultiTape.update_tape f i mt = Thrown (out_of_range (InvalidTapeIndex i)) mt.
Proof.
  intros Hi. unfold MultiTape.update_tape, MultiTape.is_valid_tape_index.
  rewrite bool_decide_false by lia. done.
Qed.

Lemma on_tape_in_range {A : Type} (f : Tape.t -> A) mt i tp :
  (i < MultiTape.num_tapes_ mt)%nat -> MultiTape.tapes_ mt !! i = Some tp ->
  MultiTape.on_tape f mt i = Ok (f tp).
Proof.
  intros Hi Htp. unfold MultiTape.on_tape, MultiTape.is_valid_tape_index, at_index.
  rewrite bool_decide_true by lia. simpl. by rewrite Htp.
Qed.

Lemma update_tape_in_range f mt i tp :
  (i < MultiTape.num_tapes_ mt)%nat -> MultiTape.tapes_ mt !! i = Some tp ->
  MultiTape.update_tape f i mt
  = Done (MultiTape.mk (<[i := f tp]> (MultiTape.tapes_ mt)) (MultiTape.num_tapes_ mt)).
Proof.
  intros Hi Htp. unfold MultiTape.update_tape, MultiTape.is_valid_tape_index.
  rewrite bool_decide_true by lia. simpl. by rewrite Htp.
Qed.

End MultiTapeFacts.

(** C9. On a [MultiTape] with [k] tapes, each per-tape operation called
    with an index [i >= k] throws [std::out_of_range] and leaves the tapes
    as they were; called with [i < k] it returns without throwing, the tape
    [tapes_[i]] exists, the reading operations return what that tape
    returns and the mutating ones change that tape and no other. *)
Theorem multitape_operations_check_the_index
    (mt : MultiTape.t) (WF : MultiTape.well_formed mt)
    (i : nat) (symbol : ascii) (movement : Movement) (position : Z) :
  ((MultiTape.num_tapes_ mt <= i)%nat ->
     let e := out_of_range (InvalidTapeIndex i) in
     MultiTape.read mt i = Throw e
     /\ MultiTape.write i symbol mt = Thrown e mt
     /\ MultiTape.move i movement mt = Thrown e mt
     /\ MultiTape.get_head_position mt i = Throw e
     /\ MultiTape.set_head_position i position mt = Thrown e mt
     /\ MultiTape.get_tape_content mt i = Throw e
     /\ MultiTape.get_tape mt i = Throw e)
  /\ ((i < MultiTape.num_tapes_ mt)%nat ->
      exists tp : Tape.t,
        MultiTape.tapes_ mt !! i = Some tp
        /\ MultiTape.read mt i = Ok (Tape.read tp)
        /\ MultiTape.write i symbol mt
           = Done (MultiTape.mk (<[i := Tape.write symbol tp]> (MultiTape.tapes_ mt))
                                (MultiTape.num_tapes_ mt))
        /\ MultiTape.move i movement mt
           = Done (MultiTape.mk (<[i := Tape.moved movement tp]> (MultiTape.tapes_ mt))
                                (MultiTape.num_tapes_ mt))
        /\ MultiTape.get_head_position mt i = Ok (Tape.get_head_position tp)
        /\ MultiTape.set_head_position i position mt
           = Done (MultiTape.mk
                     (<[i := Tape.set_head_position position tp]> (MultiTape.tapes_ mt))
                     (MultiTape.num_tapes_ mt))
        /\ MultiTape.get_tape_content mt i = Ok (Tape.get_content tp)
        /\ MultiTape.get_tape mt i = Ok tp).
Proof.
  split.
  - intros Hi e.
    repeat split; first [by apply on_tape_out_of_range | by apply update_tape_out_of_range].
  - intros Hi.
    destruct (lookup_lt_is_Some_2 (MultiTape.tapes_ mt) i) as [tp Htp];
      [by rewrite WF|].
    exists tp. split; [done|].
    pose proof (fun A (f : Tape.t -> A) => on_tape_in_range f mt i tp Hi Htp) as Hon.
    pose proof (fun f => update_tape_in_range f mt i tp Hi Htp) as Hup.
    unfold MultiTape.read, MultiTape.write, MultiTape.move, MultiTape.get_head_position,
      MultiTape.set_head_position, MultiTape.get_tape_content, MultiTape.get_tape.
    by rewrite !Hon, !Hup.
Qed.

Lemma multitape_operations_check_the_index_witness :
  MultiTape.new_with 2 "ab" "." = Ok two_tapes
  /\ MultiTape.well_formed two_tapes
  /\ MultiTape.read two_tapes 2 = Throw (out_of_range (InvalidTapeIndex 2))
  /\ MultiTape.write 2 "x" two_tapes = Thrown (out_of_range (InvalidTapeIndex 2)) two_tapes
  /\ exists tp : Tape.t,
       MultiTape.tapes_ two_tapes !! 0%nat = Some tp
       /\ MultiTape.read two_tapes 0 = Ok (Tape.read tp)
       /\ Tape.read tp = "a"%char.
Proof.
  assert (WF : MultiTape.well_formed two_tapes) by reflexivity.
  split; [reflexivity|]. split; [exact WF|].
  destruct (multitape_operations_check_the_index two_tapes WF 2 "x" STAY 0) as [Hout _].
  destruct (Hout ltac:(simpl; lia)) as (Hread & Hwrite & _).
  split; [exact Hread|]. split; [exact Hwrite|].
  destruct (multitape_operations_check_the_index two_tapes WF 0 "x" STAY 0) as [_ Hin].
  destruct (Hin ltac:(simpl; lia)) as (tp & Htp & Hr & _).
  exists tp. split; [exact Htp|]. split; [exact Hr|].
  simpl in Htp. injection Htp as <-. reflexivity.
Defined.

(** ** The single-tape simulator *)

Section SimulatorFacts.

Implicit Types (s : Simulator.t) (m : TuringMachine.t) (r : SimulationResult).

(** After a pass of the loop that found a transition, [step] succeeds
    and counts one step. *)
Lemma step_succeeds s :
  Simulator.has_applicable_transition s = true ->
  exists s1,
    Simulator.step s = (true, s1)
    /\ Simulator.get_step_count s1 = size_t_succ (Simulator.get_step_count s)
    /\ Simulator.machine_ s1 = Simulator.machine_ s
    /\ Simulator.max_steps_ s1 = Simulator.max_steps_ s
    /\ Simulator.trace_enabled_ s1 = Simulator.trace_enabled_ s
    /\ Simulator.visited_configurations_ s1 = Simulator.visited_configurations_ s.
Proof.
  unfold Simulator.has_applicable_transition, Simulator.step.
  destruct (Simulator.machine_ s) as [m|] eqn:Em; [|done].
  destruct (TuringMachine.get_transition _ _ _) as [tr|]; [|by rewrite bool_decide_false by (by intros [? ?])].
  intros _. eexists. split; [reflexivity|]. by simpl.
Qed.

Lemma loop_body_spec s : pass_spec s (Simulator.loop_body s).
Proof.
  unfold Simulator.loop_body.
  destruct (Simulator.budget_exhausted s) eqn:Eb; [by constructor|].
  destruct (Simulator.is_accepting_state s) eqn:Ea; [by constructor|].
  destruct (Simulator.has_applicable_transition s) eqn:Et; simpl; [|by constructor].
  destruct (step_succeeds s Et) as (s1 & Hstep & Hcount & _). rewrite Hstep.
  destruct (Simulator.is_configuration_visited s1) eqn:Ev.
  - by eapply pass_loop.
  - by eapply pass_continue.
Qed.

Lemma step_count_after_pass s1 :
  Simulator.get_step_count (Simulator.add_to_trace (Simulator.mark_configuration_as_visited s1))
  = Simulator.get_step_count s1.
Proof. unfold Simulator.add_to_trace. simpl. by destruct (Simulator.trace_enabled_ s1). Qed.

Lemma max_steps_after_pass s1 :
  Simulator.max_steps_ (Simulator.add_to_trace (Simulator.mark_configuration_as_visited s1))
  = Simulator.max_steps_ s1.
Proof. unfold Simulator.add_to_trace. simpl. by destruct (Simulator.trace_enabled_ s1). Qed.

Lemma machine_after_pass s1 :
  Simulator.machine_ (Simulator.add_to_trace (Simulator.mark_configuration_as_visited s1))
  = Simulator.machine_ s1.
Proof. unfold Simulator.add_to_trace. simpl. by destruct (Simulator.trace_enabled_ s1). Qed.

Lemma visited_after_pass s1 :
  Simulator.is_configuration_visited
    (Simulator.add_to_trace (Simulator.mark_configuration_as_visited s1)) = true.
Proof.
  unfold Simulator.add_to_trace, Simulator.is_configuration_visited,
    Simulator.get_configuration_key.
  destruct (Simulator.trace_enabled_ _); simpl; apply bool_decide_eq_true; set_solver.
Qed.

(** The simulator at the entry of the loop: no step counted, and the
    fingerprint of the initial configuration already in the visited set. *)
Lemma setup_facts w tr budget s m :
  Simulator.machine_ s = Some m ->
  let s0 := Simulator.setup w tr budget s in
  Simulator.get_step_count s0 = 0%N
  /\ Simulator.max_steps_ s0 = budget
  /\ Simulator.machine_ s0 = Some m
  /\ Simulator.is_configuration_visited s0 = true
  /\ Simulator.budget_exhausted s0 = false.
Proof.
  intros Hm s0.
  assert (Hcount : Simulator.get_step_count s0 = 0%N).
  { unfold s0, Simulator.setup, Simulator.reset, Simulator.add_to_trace,
      Simulator.get_step_count. simpl. rewrite Hm. by destruct tr. }
  assert (Hbudget : Simulator.max_steps_ s0 = budget).
  { unfold s0, Simulator.setup, Simulator.add_to_trace. simpl. by destruct tr. }
  split; [done|]. split; [done|]. split.
  { unfold s0, Simulator.setup, Simulator.add_to_trace. simpl. by destruct tr. }
  split.
  { unfold s0, Simulator.setup, Simulator.is_configuration_visited,
      Simulator.mark_configuration_as_visited.
    cbn [Simulator.visited_configurations_ Simulator.get_configuration_key
         Simulator.current_config_].
    apply bool_decide_eq_true. set_solver. }
  unfold Simulator.budget_exhausted. rewrite Hcount, Hbudget.
  destruct (N.ltb_spec 0 budget); simpl; [|done]. apply N.leb_gt. lia.
Qed.

Lemma setup_with_max_steps w tr budget budget' s :
  Simulator.setup w tr budget' s = with_max_steps budget' (Simulator.setup w tr budget s).
Proof.
  unfold Simulator.setup, Simulator.reset, Simulator.add_to_trace, with_max_steps.
  simpl. by destruct tr.
Qed.

End SimulatorFacts.

Section BudgetFacts.

Implicit Types (s : Simulator.t) (r : SimulationResult).

Lemma step_with_max_steps budget s :
  Simulator.step (with_max_steps budget s)
  = ((Simulator.step s).1, with_max_steps budget (Simulator.step s).2).
Proof.
  destruct s as [[m|] c tr en mx le vis]; unfold Simulator.step, with_max_steps; simpl;
    [|done].
  by destruct (TuringMachine.get_transition _ _ _).
Qed.

(** Apart from the budget check, a pass of the loop does not look at the
    budget. *)
Lemma loop_body_with_max_steps budget s :
  Simulator.budget_exhausted s = false ->
  Simulator.budget_exhausted (with_max_steps budget s) = false ->
  Simulator.loop_body (with_max_steps budget s)
  = map_pass (with_max_steps budget) (Simulator.loop_body s).
Proof.
  intros Hb Hb'. unfold Simulator.loop_body. rewrite Hb, Hb'.
  change (Simulator.is_accepting_state (with_max_steps budget s))
    with (Simulator.is_accepting_state s).
  change (Simulator.has_applicable_transition (with_max_steps budget s))
    with (Simulator.has_applicable_transition s).
  destruct (Simulator.is_accepting_state s); [done|].
  destruct (Simulator.has_applicable_transition s); [|done]. simpl.
  rewrite step_with_max_steps. destruct (Simulator.step s) as [[|] s1]; simpl; [|done].
  change (Simulator.is_configuration_visited (with_max_steps budget s1))
    with (Simulator.is_configuration_visited s1).
  destruct (Simulator.is_configuration_visited s1); [done|]. simpl.
  f_equal. by destruct s1 as [? ? ? [|] ? ? ?].
Qed.

Lemma budget_not_exhausted budget s :
  (budget = 0 \/ Simulator.get_step_count s < budget)%N ->
  Simulator.budget_exhausted (with_max_steps budget s) = false.
Proof.
  intros H. unfold Simulator.budget_exhausted, Simulator.get_step_count. simpl.
  destruct H as [->|H]; [done|].
  apply andb_false_iff. right. apply N.leb_gt. exact H.
Qed.

Lemma size_t_succ_small (n : N) : (n + 1 < SIZE_MAX_plus_1)%N -> size_t_succ n = (n + 1)%N.
Proof. intros H. unfold size_t_succ. by apply N.mod_small. Qed.

(** A run that halts by accepting or rejecting, in fewer than [2^64]
    passes, is reproduced under every budget larger than its step count
    (or under the unbounded budget 0). *)
Lemma main_loop_halting_budget fuel : forall s r s',
  Simulator.main_loop fuel s = Some (r, s') ->
  r = ACCEPTED \/ r = REJECTED ->
  (Simulator.get_step_count s + N.of_nat fuel <= SIZE_MAX_plus_1)%N ->
  (Simulator.get_step_count s <= Simulator.get_step_count s')%N
  /\ forall budget,
       (budget = 0 \/ Simulator.get_step_count s' < budget)%N ->
       Simulator.main_loop fuel (with_max_steps budget s)
       = Some (r, with_max_steps budget s').
Proof.
  induction fuel as [|fuel IH]; intros s r s' Hrun Hr Hfuel; [done|].
  cbn [Simulator.main_loop] in Hrun.
  destruct (loop_body_spec s) as [Hb|Hb Ha|Hb Ha Ht|s1 Hb Ha Ht Hs Hc Hv|s1 Hb Ha Ht Hs Hc Hv].
  - injection Hrun as <- <-. by destruct Hr.
  - injection Hrun as <- <-. split; [lia|]. intros budget Hbudget.
    cbn [Simulator.main_loop].
    rewrite loop_body_with_max_steps; [|done|by apply budget_not_exhausted].
    unfold Simulator.loop_body. by rewrite Hb, Ha.
  - injection Hrun as <- <-. split; [lia|]. intros budget Hbudget.
    cbn [Simulator.main_loop].
    rewrite loop_body_with_max_steps; [|done|by apply budget_not_exhausted].
    unfold Simulator.loop_body. by rewrite Hb, Ha, Ht.
  - injection Hrun as <- <-. by destruct Hr.
  - set (s2 := Simulator.add_to_trace (Simulator.mark_configuration_as_visited s1)) in *.
    assert (Hfuel' : fuel <> O) by (intros ->; done).
    assert (Hc2 : Simulator.get_step_count s2 = (Simulator.get_step_count s + 1)%N).
    { unfold s2. rewrite step_count_after_pass, Hc. apply size_t_succ_small. lia. }
    destruct (IH s2 r s' Hrun Hr) as [Hle Hsame]; [lia|].
    split; [lia|]. intros budget Hbudget. cbn [Simulator.main_loop].
    rewrite loop_body_with_max_steps; [|done|apply budget_not_exhausted; lia].
    unfold Simulator.loop_body. rewrite Hb, Ha, Ht, Hs, Hv. simpl.
    by apply Hsame.
Qed.

(** Under a budget [0 < budget < 2^64] the loop returns within
    [budget + 1] passes, and never with ERROR. *)
Lemma main_loop_terminates (n : nat) : forall s m,
  Simulator.machine_ s = Some m ->
  (0 < Simulator.max_steps_ s < SIZE_MAX_plus_1)%N ->
  (Simulator.get_step_count s <= Simulator.max_steps_ s)%N ->
  N.to_nat (Simulator.max_steps_ s - Simulator.get_step_count s) = n ->
  exists r s', Simulator.main_loop (S n) s = Some (r, s') /\ r <> ERROR.
Proof.
  induction n as [|n IH]; intros s m Hm Hbudget Hle Hn; cbn [Simulator.main_loop].
  - assert (Hb : Simulator.budget_exhausted s = true).
    { unfold Simulator.budget_exhausted. apply andb_true_iff. split.
      - apply N.ltb_lt. lia.
      - apply N.leb_le. lia. }
    unfold Simulator.loop_body. rewrite Hb. by eexists _, _.
  - destruct (loop_body_spec s) as [Hb|Hb Ha|Hb Ha Ht|s1 Hb Ha Ht Hs Hc Hv|s1 Hb Ha Ht Hs Hc Hv];
      try (by eexists _, _).
    set (s2 := Simulator.add_to_trace (Simulator.mark_configuration_as_visited s1)).
    destruct (step_succeeds s Ht) as (s1' & Hs' & _ & Hm1 & Hmax1 & _).
    rewrite Hs in Hs'. injection Hs' as <-.
    assert (Hc1 : Simulator.get_step_count s1 = (Simulator.get_step_count s + 1)%N).
    { rewrite Hc. apply size_t_succ_small. lia. }
    apply (IH s2 m).
    + unfold s2. by rewrite machine_after_pass, Hm1.
    + unfold s2. by rewrite max_steps_after_pass, Hmax1.
    + unfold s2. rewrite max_steps_after_pass, step_count_after_pass, Hmax1, Hc1. lia.
    + unfold s2. rewrite max_steps_after_pass, step_count_after_pass, Hmax1, Hc1. lia.
Qed.

(** A run is one of a machine that is present and valid on a valid word
    exactly when its result is not ERROR. *)
Lemma simulate_not_error fuel w tr budget s r s' :
  Simulator.simulate fuel w tr budget s = Some (r, s') -> r <> ERROR ->
  exists m,
    Simulator.machine_ s = Some m
    /\ TuringMachine.is_valid m = true
    /\ TuringMachine.is_valid_input_word m w = true
    /\ Simulator.main_loop fuel (Simulator.setup w tr budget s) = Some (r, s').
Proof.
  unfold Simulator.simulate. destruct (Simulator.machine_ s) as [m|]; [|by intros [= <- <-]].
  destruct (TuringMachine.is_valid m) eqn:Ev; simpl; [|by intros [= <- <-]].
  destruct (TuringMachine.is_valid_input_word m w) eqn:Ew; simpl; [|by intros [= <- <-]].
  intros Hrun _. by exists m.
Qed.

Lemma simulate_valid fuel w tr budget s m :
  Simulator.machine_ s = Some m ->
  TuringMachine.is_valid m = true ->
  TuringMachine.is_valid_input_word m w = true ->
  Simulator.simulate fuel w tr budget s
  = Simulator.main_loop fuel (Simulator.setup w tr budget s).
Proof. intros Hm Hv Hw. unfold Simulator.simulate. by rewrite Hm, Hv, Hw. Qed.

End BudgetFacts.

(** C2 as stated fails at the budget that equals the number of steps: the
    run of [one_step_acceptor] on [a] accepts after one step under the
    budget 5, and under the budget 1 the budget check, which comes first,
    returns INFINITE. *)
Lemma budget_equal_to_step_count_is_exhausted :
  ~ (forall (m : TuringMachine.t) (w : string) (budget budget' : N) (fuel : nat)
            (r : SimulationResult) (s' : Simulator.t),
       Simulator.simulate fuel w false budget (Simulator.new (Some m)) = Some (r, s') ->
       r = ACCEPTED \/ r = REJECTED ->
       (Simulator.get_step_count s' <= budget')%N ->
       exists s'', Simulator.simulate fuel w false budget' (Simulator.new (Some m))
                   = Some (r, s'')).
Proof.
  intros H.
  destruct (Simulator.simulate 10 "a" false 5 (Simulator.new (Some one_step_acceptor)))
    as [[r s']|] eqn:E; [|by vm_compute in E].
  specialize (H one_step_acceptor "a" 5%N 1%N 10%nat r s' E).
  vm_compute in E. injection E as <- <-.
  destruct H as [s'' H]; [by left|by vm_compute|].
  vm_compute in H. discriminate H.
Qed.

(** C2, amended. If [simulate] under the budget [budget] returns ACCEPTED
    or REJECTED after [n] steps (in fewer than [2^64] passes of its loop),
    then under every budget greater than [n], and under the unbounded
    budget 0, it returns the same result in the same final configuration.
    If it returns INFINITE with the budget exhausted, then under every
    larger budget (as a [size_t], so below [2^64]) it returns within
    [budget' + 1] passes and the result is not ERROR. *)
Theorem budget_monotonicity
    (s : Simulator.t) (w : string) (tr : bool) (budget budget' : N) (fuel : nat)
    (r : SimulationResult) (s' : Simulator.t) :
  Simulator.simulate fuel w tr budget s = Some (r, s') ->
  (N.of_nat fuel <= SIZE_MAX_plus_1)%N ->
  (r = ACCEPTED \/ r = REJECTED ->
   (budget' = 0 \/ Simulator.get_step_count s' < budget')%N ->
   Simulator.simulate fuel w tr budget' s = Some (r, with_max_steps budget' s'))
  /\ (r = INFINITE -> Simulator.budget_exhausted s' = true ->
      (budget < budget' < SIZE_MAX_plus_1)%N ->
      exists r' s'',
        Simulator.simulate (S (N.to_nat budget')) w tr budget' s = Some (r', s'')
        /\ r' <> ERROR).
Proof.
  intros Hrun Hfuel. split.
  - intros Hr Hbudget.
    destruct (simulate_not_error _ _ _ _ _ _ _ Hrun) as (m & Hm & Hv & Hw & Hloop);
      [by destruct Hr as [-> | ->]|].
    rewrite (simulate_valid _ _ _ _ _ m) by done.
    rewrite (setup_with_max_steps w tr budget budget').
    destruct (setup_facts w tr budget s m Hm) as (Hcount & _).
    apply (main_loop_halting_budget fuel _ r s' Hloop Hr); [|done].
    rewrite Hcount. lia.
  - intros -> _ Hbudget.
    destruct (simulate_not_error _ _ _ _ _ _ _ Hrun) as (m & Hm & Hv & Hw & _); [done|].
    rewrite (simulate_valid _ _ _ _ _ m) by done.
    destruct (setup_facts w tr budget' s m Hm) as (Hcount & Hmax & Hm0 & _).
    apply (main_loop_terminates _ _ m Hm0).
    + rewrite Hmax. lia.
    + rewrite Hcount. lia.
    + rewrite Hcount, Hmax. f_equal. lia.
Qed.

Lemma budget_monotonicity_witness :
  (exists s',
     Simulator.simulate 10 "a" false 5 (Simulator.new (Some one_step_acceptor))
       = Some (ACCEPTED, s')
     /\ Simulator.get_step_count s' = 1%N
     /\ Simulator.simulate 10 "a" false 2 (Simulator.new (Some one_step_acceptor))
        = Some (ACCEPTED, with_max_steps 2 s'))
  /\ (exists s',
        Simulator.simulate 10 "" false 3 (Simulator.new (Some right_runner))
          = Some (INFINITE, s')
        /\ exists r' s'',
             Simulator.simulate 8 "" false 7 (Simulator.new (Some right_runner))
               = Some (r', s'')
             /\ r' <> ERROR).
Proof.
  split.
  - destruct (Simulator.simulate 10 "a" false 5 (Simulator.new (Some one_step_acceptor)))
      as [[r s']|] eqn:E; [|by vm_compute in E].
    assert (Hfuel : (N.of_nat 10 <= SIZE_MAX_plus_1)%N) by (by vm_compute).
    pose proof (proj1 (budget_monotonicity _ "a" false 5 2 10 r s' E Hfuel)) as H.
    vm_compute in E. injection E as <- <-.
    eexists. split; [reflexivity|]. split; [reflexivity|].
    apply H; [by left|right; by vm_compute].
  - destruct (Simulator.simulate 10 "" false 3 (Simulator.new (Some right_runner)))
      as [[r s']|] eqn:E; [|by vm_compute in E].
    assert (Hfuel : (N.of_nat 10 <= SIZE_MAX_plus_1)%N) by (by vm_compute).
    pose proof (proj2 (budget_monotonicity _ "" false 3 7 10 r s' E Hfuel)) as H.
    vm_compute in E. injection E as <- <-.
    eexists. split; [reflexivity|].
    apply H; [done|by vm_compute|by vm_compute].
Defined.

(** ** The multi-tape simulator *)

Section MultiSimulatorFacts.

Implicit Types (s : MultiSimulator.t) (mt : MultiTape.t) (c : MultiConfiguration.t).

Lemma on_tape_ok {A : Type} (f : Tape.t -> A) mt i :
  MultiTape.well_formed mt -> (i < MultiTape.num_tapes_ mt)%nat ->
  exists tp, MultiTape.tapes_ mt !! i = Some tp /\ MultiTape.on_tape f mt i = Ok (f tp).
Proof.
  intros WF Hi. destruct (lookup_lt_is_Some_2 (MultiTape.tapes_ mt) i) as [tp Htp];
    [by rewrite WF|].
  exists tp. split; [done|]. by apply on_tape_in_range.
Qed.

Lemma heads_loop_ok mt indices :
  MultiTape.well_formed mt ->
  Forall (fun i => (i < MultiTape.num_tapes_ mt)%nat) indices ->
  exists text, MultiConfiguration.heads_loop mt indices = Ok text.
Proof.
  intros WF. induction 1 as [|i indices Hi _ [text IH]]; simpl; [by eexists|].
  destruct (on_tape_ok Tape.get_head_position mt i WF Hi) as (tp & _ & Hh).
  unfold MultiTape.get_head_position. rewrite Hh, IH. simpl. by eexists.
Qed.

Lemma contents_loop_ok mt indices :
  MultiTape.well_formed mt ->
  Forall (fun i => (i < MultiTape.num_tapes_ mt)%nat) indices ->
  exists text, MultiConfiguration.contents_loop mt indices = Ok text.
Proof.
  intros WF. induction 1 as [|i indices Hi _ [text IH]]; simpl; [by eexists|].
  destruct (on_tape_ok Tape.get_content mt i WF Hi) as (tp & _ & Hh).
  unfold MultiTape.get_tape_content. rewrite Hh, IH. simpl. by eexists.
Qed.

Lemma read_symbols_ok mt indices :
  MultiTape.well_formed mt ->
  Forall (fun i => (i < MultiTape.num_tapes_ mt)%nat) indices ->
  exists symbols,
    MultiSimulator.read_symbols mt indices = Ok symbols
    /\ length symbols = length indices.
Proof.
  intros WF. induction 1 as [|i indices Hi _ (symbols & IH & Hlen)]; simpl; [by eexists|].
  destruct (on_tape_ok Tape.read mt i WF Hi) as (tp & _ & Hh).
  unfold MultiTape.read. rewrite Hh, IH. simpl. eexists. split; [done|]. simpl. by rewrite Hlen.
Qed.

Lemma indices_in_range k : Forall (fun i => (i < k)%nat) (seq 0 k).
Proof. apply Forall_forall. intros i Hi. apply elem_of_seq in Hi. lia. Qed.

(** The fingerprint of a configuration with well-formed tapes is computed
    without an exception. *)
Lemma to_compact_string_ok c :
  MultiTape.well_formed (MultiConfiguration.tapes_ c) ->
  exists key, MultiConfiguration.to_compact_string c = Ok key.
Proof.
  intros WF. unfold MultiConfiguration.to_compact_string, MultiTape.get_num_tapes.
  destruct (heads_loop_ok _ _ WF (indices_in_range _)) as [hs ->].
  destruct (contents_loop_ok _ _ WF (indices_in_range _)) as [cs ->].
  simpl. by eexists.
Qed.

Lemma multi_loop_body_spec s : multi_pass_spec s (MultiSimulator.loop_body s).
Proof.
  unfold MultiSimulator.loop_body.
  destruct (MultiSimulator.budget_exhausted s) eqn:Eb; [by constructor|].
  destruct (MultiSimulator.is_accepting_state s) as [[|]| |] eqn:Ea; simpl;
    [by constructor| |by apply multi_pass_fault_accepting; rewrite ?Ea..].
  destruct (MultiSimulator.has_applicable_transition s) as [[|]| |] eqn:Et; simpl;
    [|by constructor|by apply multi_pass_fault_applicable; rewrite ?Et..].
  destruct (MultiSimulator.step s) as [[[|] s1]| |] eqn:Es; simpl;
    [|by eapply multi_pass_step_failed
     |by apply multi_pass_fault_step; rewrite ?Es..].
  unfold MultiSimulator.is_configuration_visited at 1.
  destruct (MultiSimulator.get_configuration_key s1) as [key| |] eqn:Ek; simpl;
    [|by eapply multi_pass_fault_key; rewrite ?Ek..].
  destruct (bool_decide (key ∈ MultiSimulator.visited_configurations_ s1)) eqn:Ev.
  - eapply multi_pass_loop; try done.
    unfold MultiSimulator.is_configuration_visited. by rewrite Ek; simpl; rewrite Ev.
  - unfold MultiSimulator.mark_configuration_as_visited. rewrite Ek. simpl.
    eapply multi_pass_continue; try done.
    + unfold MultiSimulator.is_configuration_visited. by rewrite Ek; simpl; rewrite Ev.
    + unfold MultiSimulator.mark_configuration_as_visited. by rewrite Ek.
Qed.

End MultiSimulatorFacts.

Section InitialConfiguration.

Lemma multi_is_valid_num_tapes (m : MultiTuringMachine.t) :
  MultiTuringMachine.is_valid m = Ok true -> MultiTuringMachine.num_tapes_ m <> 0%nat.
Proof.
  unfold MultiTuringMachine.is_valid.
  destruct (bool_decide (MultiTuringMachine.states_ m = ∅)); [done|].
  destruct (_ || _); [done|].
  destruct (bool_decide (MultiTuringMachine.num_tapes_ m = 0%nat)) eqn:E; [done|].
  intros _. by apply bool_decide_eq_false in E.
Qed.

Lemma multi_add_to_trace_eq (s : MultiSimulator.t) :
  exists trace,
    MultiSimulator.add_to_trace s
    = MultiSimulator.mk (MultiSimulator.machine_ s) (MultiSimulator.current_config_ s)
        trace (MultiSimulator.trace_enabled_ s) (MultiSimulator.max_steps_ s)
        (MultiSimulator.last_error_ s) (MultiSimulator.visited_configurations_ s).
Proof. destruct s as [? ? ? [|] ? ? ?]; by eexists. Qed.

(** The multi-tape simulator at the entry of the loop. *)
Lemma multi_setup_facts w tr budget (s : MultiSimulator.t) (m : MultiTuringMachine.t) :
  MultiSimulator.machine_ s = Some m ->
  MultiTuringMachine.num_tapes_ m <> 0%nat ->
  reservable (MultiTuringMachine.num_tapes_ m) ->
  exists s0,
    MultiSimulator.setup w tr budget s = Ok s0
    /\ MultiSimulator.get_step_count s0 = 0%N
    /\ MultiSimulator.max_steps_ s0 = budget
    /\ MultiSimulator.machine_ s0 = Some m
    /\ MultiTape.well_formed (MultiConfiguration.tapes_ (MultiSimulator.current_config_ s0))
    /\ MultiSimulator.is_configuration_visited s0 = Ok true
    /\ MultiSimulator.budget_exhausted s0 = false.
Proof.
  intros Hm Hk Hres. unfold MultiSimulator.setup, MultiSimulator.reset. simpl. rewrite Hm.
  unfold MultiConfiguration.new. rewrite construct_with_reservable by done.
  destruct (MultiTape.new_with (MultiTuringMachine.num_tapes_ m) w
              (MultiTuringMachine.blank_symbol_ m)) as [mt| |] eqn:Emt;
    [|unfold MultiTape.new_with in Emt; by destruct (decide _)..].
  pose proof (new_with_well_formed _ _ _ _ Emt) as WF. simpl.
  set (c := MultiConfiguration.mk (MultiTuringMachine.initial_state_ m) mt 0).
  destruct (to_compact_string_ok c WF) as [key Hkey].
  match goal with
  | |- context [MultiSimulator.add_to_trace ?x] =>
      destruct (multi_add_to_trace_eq x) as [trace ->]
  end.
  unfold MultiSimulator.mark_configuration_as_visited, MultiSimulator.get_configuration_key.
  simpl. rewrite Hkey. simpl. eexists. split; [reflexivity|].
  unfold MultiSimulator.get_step_count, MultiSimulator.is_configuration_visited,
    MultiSimulator.get_configuration_key, MultiSimulator.budget_exhausted,
    MultiSimulator.get_step_count.
  simpl. rewrite Hkey. simpl. repeat split; try done.
  - rewrite bool_decide_true by set_solver. done.
  - destruct (N.ltb_spec 0 budget); simpl; [|done]. apply N.leb_gt. lia.
Qed.

End InitialConfiguration.

(** ** The multi-tape simulator neither throws nor runs into undefined behaviour *)

Section NoFault.

Implicit Types (s : MultiSimulator.t) (mt : MultiTape.t) (m : MultiTuringMachine.t).

Lemma for_index_snoc {S : Type} (n : nat) (body : nat -> S -> mutated S) (x : S) :
  for_index (Datatypes.S n) body x = for_index n body x &> body n.
Proof. unfold for_index. by rewrite seq_S, foldl_app. Qed.

(** A loop that updates the tapes [0 .. n-1] with the values [vals[i]]
    returns, and keeps the number of tapes. *)
Lemma for_index_update_tapes {A : Type} (vals : list A) (f : A -> Tape.t -> Tape.t)
    (n : nat) mt :
  MultiTape.well_formed mt ->
  (n <= MultiTape.num_tapes_ mt)%nat -> (n <= length vals)%nat ->
  exists mt',
    for_index n (fun i => with_value (at_index vals i)
                            (fun a => MultiTape.update_tape (f a) i)) mt = Done mt'
    /\ MultiTape.well_formed mt'
    /\ MultiTape.num_tapes_ mt' = MultiTape.num_tapes_ mt.
Proof.
  intros WF. induction n as [|n IH]; intros Hn Hv.
  - by exists mt.
  - destruct IH as (mt1 & Hrun & WF1 & Hk1); [lia..|].
    rewrite for_index_snoc, Hrun. simpl.
    destruct (lookup_lt_is_Some_2 vals n) as [a Ha]; [lia|].
    unfold at_index. rewrite Ha. simpl.
    destruct (lookup_lt_is_Some_2 (MultiTape.tapes_ mt1) n) as [tp Htp];
      [rewrite WF1, Hk1; lia|].
    rewrite (update_tape_in_range _ mt1 n tp) by (rewrite ?Hk1; done || lia).
    eexists. split; [done|]. split; [|done].
    unfold MultiTape.well_formed in *. simpl. by rewrite length_insert.
Qed.

Lemma current_symbols_ok s :
  MultiTape.well_formed (MultiConfiguration.tapes_ (MultiSimulator.current_config_ s)) ->
  exists symbols,
    MultiSimulator.current_symbols s = Ok symbols
    /\ length symbols
       = MultiTape.num_tapes_ (MultiConfiguration.tapes_ (MultiSimulator.current_config_ s)).
Proof.
  intros WF. unfold MultiSimulator.current_symbols, MultiTape.get_num_tapes.
  destruct (read_symbols_ok _ _ WF (indices_in_range _)) as (symbols & -> & Hlen).
  exists symbols. split; [done|]. by rewrite Hlen, length_seq.
Qed.

Lemma well_formed_lengths (tr : MultiTransition.t) :
  MultiTransition.is_well_formed tr = true ->
  length (MultiTransition.write_symbols_ tr) = length (MultiTransition.read_symbols_ tr)
  /\ length (MultiTransition.movements_ tr) = length (MultiTransition.read_symbols_ tr).
Proof.
  unfold MultiTransition.is_well_formed. intros H.
  apply andb_true_iff in H as [H _]. apply andb_true_iff in H as [H1 H2].
  by apply bool_decide_eq_true in H1, H2.
Qed.

(** From a ready simulator [step] returns; when it has taken a transition
    the simulator is ready again. *)
Lemma step_ready s :
  ready s ->
  exists b s1, MultiSimulator.step s = Ok (b, s1) /\ (b = true -> ready s1)
               /\ (b = true ->
                   MultiSimulator.visited_configurations_ s1
                   = MultiSimulator.visited_configurations_ s).
Proof.
  intros (m & Hm & Hkeyed & WF & Hk). unfold MultiSimulator.step. rewrite Hm.
  destruct (current_symbols_ok s WF) as (symbols & -> & Hlen). simpl.
  destruct (MultiTuringMachine.get_transition m _ symbols) as [tr|] eqn:Etr;
    [|by eexists _, _].
  unfold MultiTuringMachine.get_transition in Etr.
  destruct (decide _) as [|Hsym]; [done|]. apply dec_stable in Hsym.
  destruct (Hkeyed _ _ Etr) as [[= _ Hread] Hwf].
  destruct (well_formed_lengths tr Hwf) as [Hw Hmv]. subst symbols.
  set (tapes := MultiConfiguration.tapes_ (MultiSimulator.current_config_ s)) in *.
  destruct (for_index_update_tapes (MultiTransition.write_symbols_ tr) Tape.write
              (MultiTape.get_num_tapes tapes) tapes WF)
    as (t1 & Hrun1 & WF1 & Hk1); [unfold MultiTape.get_num_tapes; lia..|].
  destruct (for_index_update_tapes (MultiTransition.movements_ tr) Tape.moved
              (MultiTape.get_num_tapes tapes) t1 WF1)
    as (t2 & Hrun2 & WF2 & Hk2); [unfold MultiTape.get_num_tapes; lia..|].
  change (fun i => with_value (at_index (MultiTransition.write_symbols_ tr) i)
                     (MultiTape.write i))
    with (fun i => with_value (at_index (MultiTransition.write_symbols_ tr) i)
                     (fun a => MultiTape.update_tape (Tape.write a) i)).
  rewrite Hrun1. simpl.
  change (fun i => with_value (at_index (MultiTransition.movements_ tr) i)
                     (MultiTape.move i))
    with (fun i => with_value (at_index (MultiTransition.movements_ tr) i)
                     (fun a => MultiTape.update_tape (Tape.moved a) i)).
  rewrite Hrun2. simpl. eexists _, _. split; [done|]. split; [|done].
  intros _. exists m. simpl. split; [done|]. split; [done|]. split; [done|].
  by rewrite Hk2, Hk1.
Qed.

(** A pass of the loop from a ready simulator returns a result other than
    ERROR, or hands on a ready simulator. *)
Lemma loop_body_ready s :
  ready s ->
  (exists r s', MultiSimulator.loop_body s = Ok (inl (r, s')) /\ r <> ERROR)
  \/ (exists s2, MultiSimulator.loop_body s = Ok (inr s2) /\ ready s2).
Proof.
  intros Hready. pose proof Hready as (m & Hm & Hkeyed & WF & Hk).
  unfold MultiSimulator.loop_body.
  destruct (MultiSimulator.budget_exhausted s); [left; by eexists _, _|].
  unfold MultiSimulator.is_accepting_state. rewrite Hm. simpl.
  destruct (MultiTuringMachine.is_accept_state m _); [left; by eexists _, _|].
  unfold MultiSimulator.has_applicable_transition. rewrite Hm.
  destruct (current_symbols_ok s WF) as (symbols & Hsym & Hlen). rewrite Hsym. simpl.
  destruct (MultiTuringMachine.get_transition m _ symbols) as [tr|] eqn:Etr;
    [|rewrite bool_decide_false by (by intros [? ?]); left; by eexists _, _].
  rewrite bool_decide_true by (by eexists). simpl.
  destruct (step_ready s Hready) as (b & s1 & Hstep & Hr1 & Hv1).
  assert (b = true) as ->.
  { unfold MultiSimulator.step in Hstep. rewrite Hm, Hsym in Hstep. simpl in Hstep.
    rewrite Etr in Hstep.
    destruct (MultiSimulator.finish _); simpl in Hstep; [|done..].
    destruct (MultiSimulator.finish _); simpl in Hstep; [|done..].
    by injection Hstep as <- _. }
  rewrite Hstep. simpl. destruct (Hr1 eq_refl) as (m1 & Hm1 & Hkeyed1 & WF1 & Hk1).
  destruct (to_compact_string_ok _ WF1) as [key Hkey].
  unfold MultiSimulator.is_configuration_visited, MultiSimulator.mark_configuration_as_visited,
    MultiSimulator.get_configuration_key. rewrite Hkey. simpl.
  destruct (bool_decide _); [left; by eexists _, _|]. right. eexists. split; [done|].
  exists m1. destruct (multi_add_to_trace_eq
    (MultiSimulator.mk (MultiSimulator.machine_ s1) (MultiSimulator.current_config_ s1)
       (MultiSimulator.trace_ s1) (MultiSimulator.trace_enabled_ s1)
       (MultiSimulator.max_steps_ s1) (MultiSimulator.last_error_ s1)
       ({[key]} ∪ MultiSimulator.visited_configurations_ s1))) as [trace ->].
  by simpl.
Qed.

Lemma main_loop_ready fuel : forall s,
  ready s ->
  MultiSimulator.main_loop fuel s = None
  \/ exists r s', MultiSimulator.main_loop fuel s = Some (Ok (r, s')) /\ r <> ERROR.
Proof.
  induction fuel as [|fuel IH]; intros s Hready; [by left|].
  cbn [MultiSimulator.main_loop].
  destruct (loop_body_ready s Hready) as [(r & s' & -> & Hr)|(s2 & -> & Hr2)].
  - right. by exists r, s'.
  - by apply IH.
Qed.

Lemma well_built_new k b m :
  MultiTuringMachine.new k b = Ok m -> well_built m.
Proof.
  unfold MultiTuringMachine.new. destruct (decide _) as [|Hk]; [done|]. intros [= <-].
  split; [done|]. intros key tr Htr. simpl in Htr. by rewrite lookup_empty in Htr.
Qed.

Lemma well_built_frame m m' :
  MultiTuringMachine.num_tapes_ m' = MultiTuringMachine.num_tapes_ m ->
  MultiTuringMachine.transitions_ m' = MultiTuringMachine.transitions_ m ->
  well_built m -> well_built m'.
Proof. unfold well_built, keyed. by intros -> ->. Qed.

Lemma add_state_well_built q : preserves well_built (MultiTuringMachine.add_state q).
Proof.
  intros m Hm. unfold MultiTuringMachine.add_state. destruct (decide _); simpl; [done|].
  by apply (well_built_frame m).
Qed.

Lemma add_tape_symbol_well_built c :
  preserves well_built (MultiTuringMachine.add_tape_symbol c).
Proof. intros m Hm. simpl. by apply (well_built_frame m). Qed.

Lemma add_input_symbol_well_built c :
  preserves well_built (MultiTuringMachine.add_input_symbol c).
Proof.
  intros m Hm. unfold MultiTuringMachine.add_input_symbol. destruct (decide _); simpl; [done|].
  by apply (well_built_frame m).
Qed.

Lemma set_blank_symbol_well_built c :
  preserves well_built (MultiTuringMachine.set_blank_symbol c).
Proof.
  intros m Hm. unfold MultiTuringMachine.set_blank_symbol. destruct (decide _); simpl; [|done].
  by apply (well_built_frame m).
Qed.

Lemma set_num_tapes_well_built k :
  preserves well_built (MultiTuringMachine.set_num_tapes k).
Proof.
  intros m [Hk Hkeyed]. unfold MultiTuringMachine.set_num_tapes.
  destruct (decide _); simpl; by split.
Qed.

Lemma add_transition_well_built tr :
  constructible (MultiTuringMachine.AddTransition tr) ->
  preserves well_built (MultiTuringMachine.add_transition tr).
Proof.
  intros Htr m Hm. unfold MultiTuringMachine.add_transition.
  destruct (decide _) as [|Hcount]; [done|]. apply dec_stable in Hcount.
  assert (Hwf : MultiTransition.is_well_formed tr = true).
  { destruct Htr as [Hwf|Hempty]; [done|]. subst tr.
    destruct Hm as [Hk _]. by rewrite <- Hcount in Hk. }
  repeat apply holds_after_and_then.
  - by apply add_state_well_built.
  - apply add_state_well_built.
  - intros m1 Hm1. apply preserves_for_index; [|done].
    intros i. apply preserves_and_then;
      apply preserves_with_value; intros a; apply add_tape_symbol_well_built.
  - intros m1 [Hk1 Hkeyed1]. destruct (_ !! _) eqn:Efree; [by split|].
    split; [done|]. intros key tr' Hin. simpl in Hin.
    apply lookup_insert_Some in Hin as [[<- <-]|[_ Hin]]; [done|by apply Hkeyed1].
Qed.

Lemma apply_op_well_built op :
  constructible op -> preserves well_built (MultiTuringMachine.apply_op op).
Proof.
  destruct op; intros Hop m Hm; cbn [MultiTuringMachine.apply_op];
    [ by apply add_state_well_built | by apply add_input_symbol_well_built
    | by apply add_tape_symbol_well_built
    | apply add_state_well_built; by apply (well_built_frame m)
    | apply add_state_well_built; by apply (well_built_frame m)
    | by apply set_blank_symbol_well_built
    | by apply set_num_tapes_well_built | by apply add_transition_well_built
    | destruct Hm as [Hk _]; split; [done|];
      intros key tr Hin; simpl in Hin; by rewrite lookup_empty in Hin ].
Qed.

Lemma apply_ops_well_built ops : forall m,
  Forall constructible ops -> well_built m ->
  well_built (MultiTuringMachine.apply_ops ops m).
Proof.
  unfold MultiTuringMachine.apply_ops.
  induction ops as [|op ops IH]; intros m Hops Hm; simpl; [done|].
  apply Forall_cons in Hops as [Hop Hops].
  apply IH; [done|]. apply holds_object_after; [done|]. by apply apply_op_well_built.
Qed.

(** [is_valid] reaches the accessors of a transition only with indices
    the transition has. *)
Lemma is_valid_returns m : keyed m -> exists b, MultiTuringMachine.is_valid m = Ok b.
Proof.
  intros Hkeyed. unfold MultiTuringMachine.is_valid.
  repeat match goal with
         | |- context [if ?c then Ok false else _] => destruct c; [by eexists|]
         end.
  assert (Hall : Forall (fun kv : string * list ascii * MultiTransition.t =>
                           MultiTransition.is_well_formed kv.2 = true)
                        (map_to_list (MultiTuringMachine.transitions_ m))).
  { apply Forall_forall. intros [key tr] Hin. apply elem_of_map_to_list in Hin.
    by apply Hkeyed in Hin as [_ ?]. }
  induction Hall as [|[key tr] rest Hwf _ [b IH]]; simpl; [by eexists|].
  rewrite IH. destruct (bool_decide _) eqn:Ecount; [by eexists|].
  apply bool_decide_eq_false, dec_stable in Ecount.
  destruct (_ || _); [by eexists|].
  destruct (well_formed_lengths tr Hwf) as [Hw _].
  unfold MultiTransition.get_num_tapes in Ecount. rewrite <- Ecount.
  generalize (indices_in_range (length (MultiTransition.read_symbols_ tr))).
  generalize (seq 0 (length (MultiTransition.read_symbols_ tr))).
  intros l Hl. induction Hl as [|i l Hi _ [b' IHl]]; simpl; [by eexists|].
  unfold MultiTransition.get_read_symbol, MultiTransition.get_write_symbol.
  destruct (lookup_lt_is_Some_2 (MultiTransition.read_symbols_ tr) i Hi) as [r ->].
  destruct (lookup_lt_is_Some_2 (MultiTransition.write_symbols_ tr) i) as [w ->]; [lia|].
  simpl. destruct (bool_decide _); [by eexists|]. simpl.
  destruct (bool_decide _); [by eexists|]. by exists b'.
Qed.

Lemma setup_ready w tr budget s m :
  MultiSimulator.machine_ s = Some m -> well_built m ->
  reservable (MultiTuringMachine.num_tapes_ m) ->
  exists s0, MultiSimulator.setup w tr budget s = Ok s0 /\ ready s0.
Proof.
  intros Hm [Hk Hkeyed] Hres.
  destruct (multi_setup_facts w tr budget s m Hm Hk Hres)
    as (s0 & Hs0 & _ & _ & Hm0 & WF & _).
  exists s0. split; [done|]. exists m. split; [done|]. split; [done|]. split; [done|].
  revert Hs0. unfold MultiSimulator.setup, MultiSimulator.reset. simpl. rewrite Hm.
  unfold MultiConfiguration.new. rewrite construct_with_reservable by done.
  unfold MultiTape.new_with.
  destruct (decide _); [done|]. simpl.
  match goal with
  | |- context [MultiSimulator.add_to_trace ?x] =>
      destruct (multi_add_to_trace_eq x) as [trace ->]
  end.
  unfold MultiSimulator.mark_configuration_as_visited. simpl.
  destruct (MultiSimulator.get_configuration_key _); simpl; [|done..].
  by intros [= <-].
Qed.

(** A run of the multi-tape simulator on a well-built machine returns one
    of the four results, or is still running when the fuel is used up: it
    raises no exception and has no undefined behaviour. *)
Lemma simulate_well_built fuel w tr budget s m :
  MultiSimulator.machine_ s = Some m -> well_built m ->
  reservable (MultiTuringMachine.num_tapes_ m) ->
  MultiSimulator.simulate fuel w tr budget s = None
  \/ exists r s', MultiSimulator.simulate fuel w tr budget s = Some (Ok (r, s')).
Proof.
  intros Hm Hbuilt Hres. unfold MultiSimulator.simulate. rewrite Hm.
  destruct (is_valid_returns m (proj2 Hbuilt)) as [[|] ->]; [|right; by eexists _, _].
  destruct (negb _); [right; by eexists _, _|].
  destruct (setup_ready w tr budget s m Hm Hbuilt Hres) as (s0 & -> & Hready).
  destruct (main_loop_ready fuel s0 Hready) as [->|(r & s' & -> & _)];
    [by left|right; by eexists _, _].
Qed.

End NoFault.

(** ** The order of the checks in the main loop *)

Section CheckOrder.

Implicit Types (s : Simulator.t) (m : TuringMachine.t).

Lemma budget_exhausted_cap s :
  Simulator.budget_exhausted s = true
  <-> at_step_cap (Simulator.max_steps_ s)
        (Configuration.step_count_ (Simulator.current_config_ s)).
Proof.
  unfold Simulator.budget_exhausted, Simulator.get_step_count, at_step_cap.
  by rewrite andb_true_iff, N.ltb_lt, N.leb_le.
Qed.

Lemma below_cap s :
  ~ at_step_cap (Simulator.max_steps_ s)
      (Configuration.step_count_ (Simulator.current_config_ s)) ->
  Simulator.budget_exhausted s = false.
Proof.
  intros H. destruct (Simulator.budget_exhausted s) eqn:E; [|done].
  by apply budget_exhausted_cap in E.
Qed.

Lemma pass_at_cap s :
  at_step_cap (Simulator.max_steps_ s)
    (Configuration.step_count_ (Simulator.current_config_ s)) ->
  Simulator.loop_body s = inl (INFINITE, s).
Proof.
  intros H. apply budget_exhausted_cap in H. unfold Simulator.loop_body. by rewrite H.
Qed.

Lemma pass_accepting s m :
  Simulator.machine_ s = Some m ->
  ~ at_step_cap (Simulator.max_steps_ s)
      (Configuration.step_count_ (Simulator.current_config_ s)) ->
  Configuration.current_state_ (Simulator.current_config_ s)
    ∈ TuringMachine.accept_states_ m ->
  Simulator.loop_body s = inl (ACCEPTED, s).
Proof.
  intros Hm Hcap Hacc. unfold Simulator.loop_body.
  rewrite (below_cap s Hcap).
  unfold Simulator.is_accepting_state, TuringMachine.is_accept_state. rewrite Hm.
  by rewrite bool_decide_true.
Qed.

Lemma pass_without_transition s m :
  Simulator.machine_ s = Some m ->
  ~ at_step_cap (Simulator.max_steps_ s)
      (Configuration.step_count_ (Simulator.current_config_ s)) ->
  Configuration.current_state_ (Simulator.current_config_ s)
    ∉ TuringMachine.accept_states_ m ->
  TuringMachine.transitions_ m
    !! (Configuration.current_state_ (Simulator.current_config_ s),
        Tape.read (Configuration.tape_ (Simulator.current_config_ s))) = None ->
  Simulator.loop_body s = inl (REJECTED, s).
Proof.
  intros Hm Hcap Hacc Hnone. unfold Simulator.loop_body.
  rewrite (below_cap s Hcap).
  unfold Simulator.is_accepting_state, TuringMachine.is_accept_state. rewrite Hm.
  rewrite bool_decide_false by done.
  unfold Simulator.has_applicable_transition, TuringMachine.get_transition.
  rewrite Hm, Hnone. by rewrite bool_decide_false by (by intros [? ?]).
Qed.

Lemma pass_with_transition s m tr :
  Simulator.machine_ s = Some m ->
  ~ at_step_cap (Simulator.max_steps_ s)
      (Configuration.step_count_ (Simulator.current_config_ s)) ->
  Configuration.current_state_ (Simulator.current_config_ s)
    ∉ TuringMachine.accept_states_ m ->
  TuringMachine.transitions_ m
    !! (Configuration.current_state_ (Simulator.current_config_ s),
        Tape.read (Configuration.tape_ (Simulator.current_config_ s))) = Some tr ->
  Simulator.loop_body s
  = if decide (Configuration.to_compact_string
                 (after_transition tr (Simulator.current_config_ s))
               ∈ Simulator.visited_configurations_ s)
    then inl (INFINITE,
              Simulator.with_config (after_transition tr (Simulator.current_config_ s)) s)
    else inr (going_on (after_transition tr (Simulator.current_config_ s)) s).
Proof.
  intros Hm Hcap Hacc Htr. unfold Simulator.loop_body.
  rewrite (below_cap s Hcap).
  unfold Simulator.is_accepting_state, TuringMachine.is_accept_state. rewrite Hm.
  rewrite bool_decide_false by done.
  unfold Simulator.has_applicable_transition, Simulator.step, TuringMachine.get_transition.
  rewrite Hm, Htr. rewrite bool_decide_true by (by eexists). cbn [negb].
  change (Configuration.increment_step_count _)
    with (after_transition tr (Simulator.current_config_ s)).
  unfold Simulator.is_configuration_visited, Simulator.get_configuration_key.
  cbn [Simulator.with_config Simulator.current_config_ Simulator.visited_configurations_].
  destruct (decide (_ ∈ _)) as [Hv|Hv].
  - by rewrite bool_decide_true.
  - rewrite bool_decide_false by done. f_equal.
    unfold Simulator.add_to_trace, going_on. clear.
    destruct s as [? ? ? [|] ? ? ?]; reflexivity.
Qed.

(** The simulator at the entry of the loop. *)
Lemma setup_entry w tr budget s m :
  Simulator.machine_ s = Some m ->
  Simulator.machine_ (Simulator.setup w tr budget s) = Some m
  /\ Simulator.max_steps_ (Simulator.setup w tr budget s) = budget
  /\ Configuration.step_count_ (Simulator.current_config_ (Simulator.setup w tr budget s))
     = 0%N
  /\ Simulator.visited_configurations_ (Simulator.setup w tr budget s)
     = {[ Configuration.to_compact_string
            (Simulator.current_config_ (Simulator.setup w tr budget s)) ]}.
Proof.
  intros Hm. unfold Simulator.setup, Simulator.reset, Simulator.add_to_trace,
    Simulator.mark_configuration_as_visited, Simulator.get_configuration_key.
  simpl. rewrite Hm. destruct tr; simpl; repeat split; by rewrite (right_id_L ∅ (∪)).
Qed.

End CheckOrder.

Section MultiCheckOrder.

Implicit Types (s : MultiSimulator.t) (m : MultiTuringMachine.t) (mt : MultiTape.t).

Lemma multi_budget_exhausted_cap s :
  MultiSimulator.budget_exhausted s = true
  <-> at_step_cap (MultiSimulator.max_steps_ s)
        (MultiConfiguration.step_count_ (MultiSimulator.current_config_ s)).
Proof.
  unfold MultiSimulator.budget_exhausted, MultiSimulator.get_step_count, at_step_cap.
  by rewrite andb_true_iff, N.ltb_lt, N.leb_le.
Qed.

Lemma multi_below_cap s :
  ~ at_step_cap (MultiSimulator.max_steps_ s)
      (MultiConfiguration.step_count_ (MultiSimulator.current_config_ s)) ->
  MultiSimulator.budget_exhausted s = false.
Proof.
  intros H. destruct (MultiSimulator.budget_exhausted s) eqn:E; [|done].
  by apply multi_budget_exhausted_cap in E.
Qed.

(** The loop that collects the symbols under the heads. *)
Lemma read_symbols_from mt : forall n j,
  MultiTape.well_formed mt ->
  (j + n <= MultiTape.num_tapes_ mt)%nat ->
  MultiSimulator.read_symbols mt (seq j n)
  = Ok (Tape.read <$> take n (drop j (MultiTape.tapes_ mt))).
Proof.
  induction n as [|n IH]; intros j WF Hj; [done|].
  cbn [seq MultiSimulator.read_symbols].
  destruct (lookup_lt_is_Some_2 (MultiTape.tapes_ mt) j) as [tp Htp]; [rewrite WF; lia|].
  unfold MultiTape.read. rewrite (on_tape_in_range Tape.read mt j tp) by (done || lia).
  simpl. rewrite IH by (done || lia). simpl.
  by rewrite (drop_S _ _ _ Htp).
Qed.

Lemma current_symbols_read s :
  MultiTape.well_formed (MultiConfiguration.tapes_ (MultiSimulator.current_config_ s)) ->
  MultiSimulator.current_symbols s
  = Ok (symbols_read (MultiConfiguration.tapes_ (MultiSimulator.current_config_ s))).
Proof.
  intros WF. unfold MultiSimulator.current_symbols, MultiTape.get_num_tapes, symbols_read.
  rewrite read_symbols_from by (done || lia). rewrite drop_0.
  by rewrite take_ge by (rewrite WF; lia).
Qed.

(** A loop that updates the tapes [0 .. n-1] with the values [vals[i]]:
    the first [n] tapes are updated, the others are as they were. *)
Lemma for_index_updates {A : Type} (vals : list A) (f : A -> Tape.t -> Tape.t) mt :
  forall n,
  MultiTape.well_formed mt ->
  (n <= MultiTape.num_tapes_ mt)%nat -> (n <= length vals)%nat ->
  for_index n (fun i => with_value (at_index vals i)
                          (fun a => MultiTape.update_tape (f a) i)) mt
  = Done (MultiTape.mk
            (zip_with (fun tp a => f a tp) (take n (MultiTape.tapes_ mt)) (take n vals)
             ++ drop n (MultiTape.tapes_ mt))
            (MultiTape.num_tapes_ mt)).
Proof.
  induction n as [|n IH]; intros WF Hn Hv.
  - unfold for_index. simpl. rewrite drop_0. by destruct mt.
  - rewrite for_index_snoc, IH by (done || lia). simpl.
    destruct (lookup_lt_is_Some_2 vals n) as [a Ha]; [lia|].
    destruct (lookup_lt_is_Some_2 (MultiTape.tapes_ mt) n) as [tp Htp]; [rewrite WF; lia|].
    unfold at_index. rewrite Ha. simpl.
    assert (Hlen : length (zip_with (fun tp0 a0 => f a0 tp0)
                             (take n (MultiTape.tapes_ mt)) (take n vals)) = n).
    { rewrite length_zip_with, !length_take. rewrite WF. lia. }
    rewrite (update_tape_in_range _ _ n tp); simpl; [|lia|].
    + f_equal. f_equal.
      rewrite (take_S_r _ _ _ Htp), (take_S_r _ _ _ Ha).
      rewrite zip_with_app by (rewrite !length_take; rewrite WF; lia).
      simpl. rewrite <- app_assoc. simpl.
      rewrite insert_app_r_alt by lia. rewrite Hlen, Nat.sub_diag.
      by rewrite (drop_S _ _ _ Htp).
    + rewrite lookup_app_r by lia. rewrite Hlen, Nat.sub_diag.
      by rewrite lookup_drop, Nat.add_0_r.
Qed.

Lemma zip_with_write_move (tapes : list Tape.t) : forall (ws : list ascii) (ms : list Movement),
  zip_with (fun tp a => Tape.moved a tp) (zip_with (fun tp a => Tape.write a tp) tapes ws) ms
  = zip_with (fun tp (action : ascii * Movement) =>
                Tape.moved action.2 (Tape.write action.1 tp)) tapes (zip ws ms).
Proof.
  induction tapes as [|tp tapes IH]; intros [|w ws] [|mv ms]; simpl; try done.
  f_equal. apply IH.
Qed.

(** [step] takes the transition stored for the state and the symbols
    under the heads. *)
Lemma step_with_transition s m tr :
  MultiSimulator.machine_ s = Some m ->
  keyed m ->
  MultiTape.well_formed (MultiConfiguration.tapes_ (MultiSimulator.current_config_ s)) ->
  MultiTape.num_tapes_ (MultiConfiguration.tapes_ (MultiSimulator.current_config_ s))
  = MultiTuringMachine.num_tapes_ m ->
  MultiTuringMachine.transitions_ m
    !! (MultiConfiguration.current_state_ (MultiSimulator.current_config_ s),
        symbols_read (MultiConfiguration.tapes_ (MultiSimulator.current_config_ s)))
  = Some tr ->
  MultiSimulator.step s
  = Ok (true, MultiSimulator.with_config
                (multi_after_transition tr (MultiSimulator.current_config_ s)) s)
  /\ MultiTape.well_formed
       (MultiConfiguration.tapes_
          (multi_after_transition tr (MultiSimulator.current_config_ s))).
Proof.
  intros Hm Hkeyed WF Hk Htr.
  set (c := MultiSimulator.current_config_ s) in *.
  set (tapes := MultiConfiguration.tapes_ c) in *.
  assert (Hsym : length (symbols_read tapes) = MultiTape.num_tapes_ tapes).
  { unfold symbols_read. by rewrite length_fmap, WF. }
  destruct (Hkeyed _ _ Htr) as [[= _ Hread] Hwf].
  destruct (well_formed_lengths tr Hwf) as [Hw Hmv].
  rewrite <- Hread, Hsym in Hw, Hmv.
  assert (WF' : MultiTape.well_formed (MultiConfiguration.tapes_ (multi_after_transition tr c))).
  { unfold MultiTape.well_formed, multi_after_transition, tapes_after. simpl.
    fold tapes. rewrite length_zip_with, length_zip. rewrite WF. lia. }
  split; [|exact WF'].
  unfold MultiSimulator.step. rewrite Hm. fold c. rewrite (current_symbols_read s WF).
  fold c tapes. simpl. unfold MultiTuringMachine.get_transition.
  rewrite decide_False by (rewrite Hsym, Hk; by intros []).
  rewrite Htr. unfold MultiTape.get_num_tapes.
  change (fun i => with_value (at_index (MultiTransition.write_symbols_ tr) i)
                     (MultiTape.write i))
    with (fun i => with_value (at_index (MultiTransition.write_symbols_ tr) i)
                     (fun a => MultiTape.update_tape (Tape.write a) i)).
  rewrite for_index_updates by (done || lia). simpl.
  rewrite (take_ge (MultiTape.tapes_ tapes)) by (rewrite WF; lia).
  rewrite (take_ge (MultiTransition.write_symbols_ tr)) by lia.
  rewrite drop_ge by (rewrite WF; lia). rewrite app_nil_r.
  change (fun i => with_value (at_index (MultiTransition.movements_ tr) i)
                     (MultiTape.move i))
    with (fun i => with_value (at_index (MultiTransition.movements_ tr) i)
                     (fun a => MultiTape.update_tape (Tape.moved a) i)).
  rewrite for_index_updates; simpl; [| |lia..].
  - rewrite (take_ge (MultiTransition.movements_ tr)) by lia.
    rewrite take_ge by (rewrite length_zip_with, WF; lia).
    rewrite drop_ge by (rewrite length_zip_with, WF; lia). rewrite app_nil_r.
    by rewrite zip_with_write_move.
  - unfold MultiTape.well_formed. simpl. rewrite length_zip_with, WF. lia.
Qed.

Lemma multi_pass_at_cap s :
  at_step_cap (MultiSimulator.max_steps_ s)
    (MultiConfiguration.step_count_ (MultiSimulator.current_config_ s)) ->
  MultiSimulator.loop_body s = Ok (inl (INFINITE, s)).
Proof.
  intros H. apply multi_budget_exhausted_cap in H. unfold MultiSimulator.loop_body.
  by rewrite H.
Qed.

Lemma multi_pass_accepting s m :
  MultiSimulator.machine_ s = Some m ->
  ~ at_step_cap (MultiSimulator.max_steps_ s)
      (MultiConfiguration.step_count_ (MultiSimulator.current_config_ s)) ->
  MultiConfiguration.current_state_ (MultiSimulator.current_config_ s)
    ∈ MultiTuringMachine.accept_states_ m ->
  MultiSimulator.loop_body s = Ok (inl (ACCEPTED, s)).
Proof.
  intros Hm Hcap Hacc. unfold MultiSimulator.loop_body.
  rewrite (multi_below_cap s Hcap).
  unfold MultiSimulator.is_accepting_state, MultiTuringMachine.is_accept_state. rewrite Hm.
  simpl. by rewrite bool_decide_true.
Qed.

Lemma multi_pass_without_transition s m :
  MultiSimulator.machine_ s = Some m ->
  MultiTape.well_formed (MultiConfiguration.tapes_ (MultiSimulator.current_config_ s)) ->
  ~ at_step_cap (MultiSimulator.max_steps_ s)
      (MultiConfiguration.step_count_ (MultiSimulator.current_config_ s)) ->
  MultiConfiguration.current_state_ (MultiSimulator.current_config_ s)
    ∉ MultiTuringMachine.accept_states_ m ->
  MultiTuringMachine.transitions_ m
    !! (MultiConfiguration.current_state_ (MultiSimulator.current_config_ s),
        symbols_read (MultiConfiguration.tapes_ (MultiSimulator.current_config_ s)))
  = None ->
  MultiSimulator.loop_body s = Ok (inl (REJECTED, s)).
Proof.
  intros Hm WF Hcap Hacc Hnone. unfold MultiSimulator.loop_body.
  rewrite (multi_below_cap s Hcap).
  unfold MultiSimulator.is_accepting_state, MultiTuringMachine.is_accept_state. rewrite Hm.
  simpl. rewrite bool_decide_false by done.
  unfold MultiSimulator.has_applicable_transition. rewrite Hm.
  rewrite (current_symbols_read s WF). simpl.
  unfold MultiTuringMachine.get_transition. rewrite Hnone.
  destruct (decide _); by rewrite bool_decide_false by (by intros [? ?]).
Qed.

Lemma multi_pass_with_transition s m tr :
  MultiSimulator.machine_ s = Some m ->
  keyed m ->
  MultiTape.well_formed (MultiConfiguration.tapes_ (MultiSimulator.current_config_ s)) ->
  MultiTape.num_tapes_ (MultiConfiguration.tapes_ (MultiSimulator.current_config_ s))
  = MultiTuringMachine.num_tapes_ m ->
  ~ at_step_cap (MultiSimulator.max_steps_ s)
      (MultiConfiguration.step_count_ (MultiSimulator.current_config_ s)) ->
  MultiConfiguration.current_state_ (MultiSimulator.current_config_ s)
    ∉ MultiTuringMachine.accept_states_ m ->
  MultiTuringMachine.transitions_ m
    !! (MultiConfiguration.current_state_ (MultiSimulator.current_config_ s),
        symbols_read (MultiConfiguration.tapes_ (MultiSimulator.current_config_ s)))
  = Some tr ->
  exists key,
    MultiConfiguration.to_compact_string
      (multi_after_transition tr (MultiSimulator.current_config_ s)) = Ok key
    /\ MultiSimulator.loop_body s
       = Ok (if decide (key ∈ MultiSimulator.visited_configurations_ s)
             then inl (INFINITE,
                       MultiSimulator.with_config
                         (multi_after_transition tr (MultiSimulator.current_config_ s)) s)
             else inr (multi_going_on
                         (multi_after_transition tr (MultiSimulator.current_config_ s))
                         key s)).
Proof.
  intros Hm Hkeyed WF Hk Hcap Hacc Htr.
  destruct (step_with_transition s m tr Hm Hkeyed WF Hk Htr) as [Hstep WF'].
  destruct (to_compact_string_ok _ WF') as [key Hkey]. exists key. split; [done|].
  unfold MultiSimulator.loop_body.
  rewrite (multi_below_cap s Hcap).
  unfold MultiSimulator.is_accepting_state, MultiTuringMachine.is_accept_state. rewrite Hm.
  simpl. rewrite bool_decide_false by done.
  unfold MultiSimulator.has_applicable_transition. rewrite Hm.
  rewrite (current_symbols_read s WF). simpl.
  assert (Hget : MultiTuringMachine.get_transition m
            (MultiConfiguration.current_state_ (MultiSimulator.current_config_ s))
            (symbols_read (MultiConfiguration.tapes_ (MultiSimulator.current_config_ s)))
          = Some tr).
  { unfold MultiTuringMachine.get_transition. rewrite decide_False; [done|].
    unfold symbols_read. rewrite length_fmap, WF, Hk. by intros []. }
  rewrite Hget. rewrite bool_decide_true by (by eexists). simpl.
  rewrite Hstep. simpl.
  unfold MultiSimulator.is_configuration_visited, MultiSimulator.mark_configuration_as_visited,
    MultiSimulator.get_configuration_key.
  cbn [MultiSimulator.with_config MultiSimulator.current_config_
       MultiSimulator.visited_configurations_].
  rewrite Hkey. simpl.
  destruct (decide (key ∈ _)) as [Hv|Hv].
  - by rewrite bool_decide_true.
  - rewrite bool_decide_false by done. do 2 f_equal.
    unfold MultiSimulator.add_to_trace, multi_going_on. clear.
    destruct s as [? ? ? [|] ? ? ?]; reflexivity.
Qed.

(** The multi-tape simulator at the entry of the loop. *)
Lemma multi_setup_entry w tr budget s m :
  MultiSimulator.machine_ s = Some m ->
  MultiTuringMachine.num_tapes_ m <> 0%nat ->
  reservable (MultiTuringMachine.num_tapes_ m) ->
  exists s0 key0,
    MultiSimulator.setup w tr budget s = Ok s0
    /\ MultiSimulator.machine_ s0 = Some m
    /\ MultiSimulator.max_steps_ s0 = budget
    /\ MultiConfiguration.step_count_ (MultiSimulator.current_config_ s0) = 0%N
    /\ MultiTape.well_formed (MultiConfiguration.tapes_ (MultiSimulator.current_config_ s0))
    /\ MultiTape.num_tapes_ (MultiConfiguration.tapes_ (MultiSimulator.current_config_ s0))
       = MultiTuringMachine.num_tapes_ m
    /\ MultiConfiguration.to_compact_string (MultiSimulator.current_config_ s0) = Ok key0
    /\ MultiSimulator.visited_configurations_ s0 = {[ key0 ]}.
Proof.
  intros Hm Hk Hres. unfold MultiSimulator.setup, MultiSimulator.reset. simpl. rewrite Hm.
  unfold MultiConfiguration.new. rewrite construct_with_reservable by done.
  destruct (MultiTape.new_with (MultiTuringMachine.num_tapes_ m) w
              (MultiTuringMachine.blank_symbol_ m)) as [mt| |] eqn:Emt;
    [|unfold MultiTape.new_with in Emt; by destruct (decide _)..].
  pose proof (new_with_well_formed _ _ _ _ Emt) as WF.
  assert (Hnum : MultiTape.num_tapes_ mt = MultiTuringMachine.num_tapes_ m).
  { unfold MultiTape.new_with in Emt. destruct (decide _); [done|]. by injection Emt as <-. }
  simpl.
  set (c := MultiConfiguration.mk (MultiTuringMachine.initial_state_ m) mt 0).
  destruct (to_compact_string_ok c WF) as [key Hkey].
  match goal with
  | |- context [MultiSimulator.add_to_trace ?x] =>
      destruct (multi_add_to_trace_eq x) as [trace ->]
  end.
  unfold MultiSimulator.mark_configuration_as_visited, MultiSimulator.get_configuration_key.
  simpl. rewrite Hkey. simpl. eexists _, key. split; [reflexivity|]. simpl.
  repeat split; try done. by rewrite (right_id_L ∅ (∪)).
Qed.

End MultiCheckOrder.

(** C1. In both simulators a pass of the main loop makes its checks in this
    order. First the budget check: at the step cap ([max_steps > 0] and
    [step_count >= max_steps]) the pass returns INFINITE, whatever the
    state. Then the accept check: below the cap, in a state of [F], it
    returns ACCEPTED, whatever the transitions. Then the halt-reject
    check: in a state outside [F] with no transition stored for the state
    and the symbol (the symbols) under the head (the heads), it returns
    REJECTED. Then the step: the stored transition is applied, and only
    then the fingerprint of the new configuration is looked up in the
    visited set: INFINITE when it is there, otherwise the loop goes on
    with the fingerprint recorded. The loop makes one pass after the
    other, and [simulate] enters it when the preconditions hold.
    Consequently a configuration at the step cap in an accepting state
    yields INFINITE, an accepting state without outgoing transition yields
    ACCEPTED, and the initial configuration, alone in the visited set when
    the loop is entered, is not reported as a repeat of itself: INFINITE
    in the first pass is returned only for the configuration after the
    first step, when that one has the fingerprint of the initial one.
    For the multi-tape simulator the tapes are as many as the machine has
    ([num_tapes_ = tapes_.size()]), the transitions were built by the
    checking constructor, and the tape count is one that [reserve]
    accepts. *)
Theorem main_loop_check_order :
  (* Simulator: one pass *)
  (forall (s : Simulator.t) (m : TuringMachine.t),
     Simulator.machine_ s = Some m ->
     let c := Simulator.current_config_ s in
     let state := Configuration.current_state_ c in
     let symbol := Tape.read (Configuration.tape_ c) in
     let capped := at_step_cap (Simulator.max_steps_ s) (Configuration.step_count_ c) in
     (capped -> Simulator.loop_body s = inl (INFINITE, s))
     /\ (~ capped -> state ∈ TuringMachine.accept_states_ m ->
         Simulator.loop_body s = inl (ACCEPTED, s))
     /\ (~ capped -> state ∉ TuringMachine.accept_states_ m ->
         TuringMachine.transitions_ m !! (state, symbol) = None ->
         Simulator.loop_body s = inl (REJECTED, s))
     /\ (forall tr,
           ~ capped -> state ∉ TuringMachine.accept_states_ m ->
           TuringMachine.transitions_ m !! (state, symbol) = Some tr ->
           Simulator.loop_body s
           = if decide (Configuration.to_compact_string (after_transition tr c)
                        ∈ Simulator.visited_configurations_ s)
             then inl (INFINITE, Simulator.with_config (after_transition tr c) s)
             else inr (going_on (after_transition tr c) s))
     (* the consequences *)
     /\ (forall fuel,
           capped -> state ∈ TuringMachine.accept_states_ m ->
           Simulator.main_loop (S fuel) s = Some (INFINITE, s))
     /\ (forall fuel,
           ~ capped -> state ∈ TuringMachine.accept_states_ m ->
           TuringMachine.transitions_ m !! (state, symbol) = None ->
           Simulator.main_loop (S fuel) s = Some (ACCEPTED, s)))
  (* Simulator: the loop and its entry *)
  /\ (forall (s : Simulator.t) (fuel : nat),
        Simulator.main_loop (S fuel) s
        = match Simulator.loop_body s with
          | inl r => Some r
          | inr s' => Simulator.main_loop fuel s'
          end)
  /\ (forall (s : Simulator.t) (m : TuringMachine.t) fuel w tr budget,
        Simulator.machine_ s = Some m ->
        TuringMachine.is_valid m = true ->
        TuringMachine.is_valid_input_word m w = true ->
        Simulator.simulate fuel w tr budget s
        = Simulator.main_loop fuel (Simulator.setup w tr budget s))
  (* Simulator: the initial configuration *)
  /\ (forall (s : Simulator.t) (m : TuringMachine.t) w tr budget,
        Simulator.machine_ s = Some m ->
        let s0 := Simulator.setup w tr budget s in
        let c0 := Simulator.current_config_ s0 in
        Simulator.machine_ s0 = Some m
        /\ Simulator.max_steps_ s0 = budget
        /\ Configuration.step_count_ c0 = 0%N
        /\ Simulator.visited_configurations_ s0 = {[ Configuration.to_compact_string c0 ]}
        /\ forall s',
             Simulator.loop_body s0 = inl (INFINITE, s') ->
             exists tr',
               TuringMachine.transitions_ m
                 !! (Configuration.current_state_ c0, Tape.read (Configuration.tape_ c0))
               = Some tr'
               /\ s' = Simulator.with_config (after_transition tr' c0) s0
               /\ Configuration.step_count_ (after_transition tr' c0) = 1%N
               /\ Configuration.to_compact_string (after_transition tr' c0)
                  = Configuration.to_compact_string c0)
  (* MultiSimulator: one pass *)
  /\ (forall (s : MultiSimulator.t) (m : MultiTuringMachine.t),
        MultiSimulator.machine_ s = Some m ->
        keyed m ->
        let c := MultiSimulator.current_config_ s in
        let state := MultiConfiguration.current_state_ c in
        let symbols := symbols_read (MultiConfiguration.tapes_ c) in
        let capped :=
          at_step_cap (MultiSimulator.max_steps_ s) (MultiConfiguration.step_count_ c) in
        MultiTape.well_formed (MultiConfiguration.tapes_ c) ->
        MultiTape.num_tapes_ (MultiConfiguration.tapes_ c) = MultiTuringMachine.num_tapes_ m ->
        (capped -> MultiSimulator.loop_body s = Ok (inl (INFINITE, s)))
        /\ (~ capped -> state ∈ MultiTuringMachine.accept_states_ m ->
            MultiSimulator.loop_body s = Ok (inl (ACCEPTED, s)))
        /\ (~ capped -> state ∉ MultiTuringMachine.accept_states_ m ->
            MultiTuringMachine.transitions_ m !! (state, symbols) = None ->
            MultiSimulator.loop_body s = Ok (inl (REJECTED, s)))
        /\ (forall tr,
              ~ capped -> state ∉ MultiTuringMachine.accept_states_ m ->
              MultiTuringMachine.transitions_ m !! (state, symbols) = Some tr ->
              exists key,
                MultiConfiguration.to_compact_string (multi_after_transition tr c) = Ok key
                /\ MultiSimulator.loop_body s
                   = Ok (if decide (key ∈ MultiSimulator.visited_configurations_ s)
                         then inl (INFINITE,
                                   MultiSimulator.with_config (multi_after_transition tr c) s)
                         else inr (multi_going_on (multi_after_transition tr c) key s)))
        (* the consequences *)
        /\ (forall fuel,
              capped -> state ∈ MultiTuringMachine.accept_states_ m ->
              MultiSimulator.main_loop (S fuel) s = Some (Ok (INFINITE, s)))
        /\ (forall fuel,
              ~ capped -> state ∈ MultiTuringMachine.accept_states_ m ->
              MultiTuringMachine.transitions_ m !! (state, symbols) = None ->
              MultiSimulator.main_loop (S fuel) s = Some (Ok (ACCEPTED, s))))
  (* MultiSimulator: the loop and its entry *)
  /\ (forall (s : MultiSimulator.t) (fuel : nat),
        MultiSimulator.main_loop (S fuel) s
        = match MultiSimulator.loop_body s with
          | Ok (inl r) => Some (Ok r)
          | Ok (inr s') => MultiSimulator.main_loop fuel s'
          | Throw e => Some (Throw e)
          | Undefined => Some Undefined
          end)
  /\ (forall (s : MultiSimulator.t) (m : MultiTuringMachine.t) fuel w tr budget,
        MultiSimulator.machine_ s = Some m ->
        MultiTuringMachine.is_valid m = Ok true ->
        MultiTuringMachine.is_valid_input_word m w = true ->
        reservable (MultiTuringMachine.num_tapes_ m) ->
        exists s0,
          MultiSimulator.setup w tr budget s = Ok s0
          /\ MultiSimulator.simulate fuel w tr budget s = MultiSimulator.main_loop fuel s0)
  (* MultiSimulator: the initial configuration *)
  /\ (forall (s : MultiSimulator.t) (m : MultiTuringMachine.t) w tr budget,
        MultiSimulator.machine_ s = Some m ->
        well_built m ->
        reservable (MultiTuringMachine.num_tapes_ m) ->
        exists s0 key0,
          MultiSimulator.setup w tr budget s = Ok s0
          /\ MultiSimulator.machine_ s0 = Some m
          /\ MultiSimulator.max_steps_ s0 = budget
          /\ MultiConfiguration.step_count_ (MultiSimulator.current_config_ s0) = 0%N
          /\ MultiConfiguration.to_compact_string (MultiSimulator.current_config_ s0)
             = Ok key0
          /\ MultiSimulator.visited_configurations_ s0 = {[ key0 ]}
          /\ forall s',
               MultiSimulator.loop_body s0 = Ok (inl (INFINITE, s')) ->
               exists tr',
                 MultiTuringMachine.transitions_ m
                   !! (MultiConfiguration.current_state_ (MultiSimulator.current_config_ s0),
                       symbols_read
                         (MultiConfiguration.tapes_ (MultiSimulator.current_config_ s0)))
                 = Some tr'
                 /\ s' = MultiSimulator.with_config
                           (multi_after_transition tr' (MultiSimulator.current_config_ s0))
                           s0
                 /\ MultiConfiguration.step_count_
                      (multi_after_transition tr' (MultiSimulator.current_config_ s0))
                    = 1%N
                 /\ MultiConfiguration.to_compact_string
                      (multi_after_transition tr' (MultiSimulator.current_config_ s0))
                    = Ok key0).
Proof.
  split.
  { intros s m Hm c state symbol capped.
    split; [apply pass_at_cap|]. split; [by apply pass_accepting|].
    split; [by apply pass_without_transition|].
    split; [intros tr; by apply pass_with_transition|].
    split.
    - intros fuel Hcap _. cbn [Simulator.main_loop]. by rewrite pass_at_cap.
    - intros fuel Hcap Hacc _. cbn [Simulator.main_loop].
      by rewrite (pass_accepting s m). }
  split; [done|].
  split.
  { intros s m fuel w tr budget Hm Hvalid Hword. unfold Simulator.simulate.
    by rewrite Hm, Hvalid, Hword. }
  split.
  { intros s m w tr budget Hm s0 c0.
    destruct (setup_entry w tr budget s m Hm) as (Hm0 & Hbudget & Hcount & Hvisited).
    fold s0 in Hm0, Hbudget, Hcount, Hvisited. fold c0 in Hcount, Hvisited.
    split; [done|]. split; [done|]. split; [done|]. split; [done|].
    intros s' Hpass.
    assert (Hcap : ~ at_step_cap (Simulator.max_steps_ s0)
                     (Configuration.step_count_ (Simulator.current_config_ s0))).
    { fold c0. rewrite Hcount. intros [? ?]. lia. }
    destruct (decide (Configuration.current_state_ c0 ∈ TuringMachine.accept_states_ m))
      as [Hacc|Hacc]; [by rewrite (pass_accepting s0 m) in Hpass|].
    destruct (TuringMachine.transitions_ m
                !! (Configuration.current_state_ c0, Tape.read (Configuration.tape_ c0)))
      as [tr'|] eqn:Htr; [|by rewrite (pass_without_transition s0 m) in Hpass].
    rewrite (pass_with_transition s0 m tr') in Hpass by done. fold c0 in Hpass.
    destruct (decide _) as [Hv|Hv]; [|done]. injection Hpass as <-.
    exists tr'. split; [done|]. split; [done|]. split.
    - unfold after_transition. simpl. by rewrite Hcount.
    - rewrite Hvisited in Hv. by apply elem_of_singleton in Hv. }
  split.
  { intros s m Hm Hkeyed c state symbols capped WF Hk.
    split; [apply multi_pass_at_cap|]. split; [by apply multi_pass_accepting|].
    split; [by apply multi_pass_without_transition|].
    split; [intros tr; by apply multi_pass_with_transition|].
    split.
    - intros fuel Hcap _. cbn [MultiSimulator.main_loop]. by rewrite multi_pass_at_cap.
    - intros fuel Hcap Hacc _. cbn [MultiSimulator.main_loop].
      by rewrite (multi_pass_accepting s m). }
  split; [done|].
  split.
  { intros s m fuel w tr budget Hm Hvalid Hword Hres.
    destruct (multi_setup_entry w tr budget s m Hm (multi_is_valid_num_tapes m Hvalid) Hres)
      as (s0 & key0 & Hsetup & _).
    exists s0. split; [done|]. unfold MultiSimulator.simulate.
    by rewrite Hm, Hvalid, Hword, Hsetup. }
  intros s m w tr budget Hm [Hnum Hkeyed] Hres.
  destruct (multi_setup_entry w tr budget s m Hm Hnum Hres)
    as (s0 & key0 & Hsetup & Hm0 & Hbudget & Hcount & WF & Hk & Hkey & Hvisited).
  exists s0, key0. split; [done|]. split; [done|]. split; [done|]. split; [done|].
  split; [done|]. split; [done|]. intros s' Hpass.
  set (c0 := MultiSimulator.current_config_ s0) in *.
  assert (Hcap : ~ at_step_cap (MultiSimulator.max_steps_ s0)
                   (MultiConfiguration.step_count_ (MultiSimulator.current_config_ s0))).
  { fold c0. rewrite Hcount. intros [? ?]. lia. }
  destruct (decide (MultiConfiguration.current_state_ c0
                    ∈ MultiTuringMachine.accept_states_ m))
    as [Hacc|Hacc]; [by rewrite (multi_pass_accepting s0 m) in Hpass|].
  destruct (MultiTuringMachine.transitions_ m
              !! (MultiConfiguration.current_state_ c0,
                  symbols_read (MultiConfiguration.tapes_ c0)))
    as [tr'|] eqn:Htr; [|by rewrite (multi_pass_without_transition s0 m) in Hpass].
  destruct (multi_pass_with_transition s0 m tr' Hm0 Hkeyed WF Hk Hcap Hacc Htr)
    as (key & Hkey' & Hbody).
  rewrite Hbody in Hpass. fold c0 in Hpass, Hkey'.
  destruct (decide _) as [Hv|Hv]; [|done]. injection Hpass as <-.
  exists tr'. split; [done|]. split; [done|]. split.
  - unfold multi_after_transition. simpl. by rewrite Hcount.
  - rewrite Hvisited in Hv. apply elem_of_singleton in Hv. by rewrite Hkey', Hv.
Qed.

(** At the step cap an accepting configuration yields INFINITE: the
    machine [one_step_acceptor] in its accepting state [qa], one step
    executed, budget 1. *)
Lemma main_loop_check_order_witness :
  "qa" ∈ TuringMachine.accept_states_ one_step_acceptor
  /\ Simulator.loop_body capped_acceptor = inl (INFINITE, capped_acceptor)
  /\ Simulator.main_loop 1 capped_acceptor = Some (INFINITE, capped_acceptor).
Proof.
  destruct (proj1 main_loop_check_order capped_acceptor one_step_acceptor eq_refl)
    as (Hcap & _ & _ & _ & Hboth & _).
  assert (Hacc : "qa" ∈ TuringMachine.accept_states_ one_step_acceptor).
  { vm_compute. reflexivity. }
  assert (Hc : at_step_cap 1 1) by (split; lia).
  split; [exact Hacc|]. split; [exact (Hcap Hc)|exact (Hboth 0%nat Hc Hacc)].
Defined.

(** ** Loop detection *)

Section LoopDetection.

Implicit Types (s : Simulator.t) (r : SimulationResult).

Lemma trace_invariant_setup w budget s m :
  Simulator.machine_ s = Some m -> trace_invariant (Simulator.setup w true budget s).
Proof.
  intros Hm. unfold trace_invariant, trace_fingerprints, Simulator.setup, Simulator.reset,
    Simulator.add_to_trace, Simulator.mark_configuration_as_visited,
    Simulator.get_configuration_key.
  cbn -[Configuration.to_compact_string]. repeat split.
  - apply NoDup_singleton.
  - set_solver.
  - set_solver.
Qed.

Lemma trace_invariant_pass s s1 :
  trace_invariant s ->
  Simulator.step s = (true, s1) ->
  Simulator.is_configuration_visited s1 = false ->
  trace_invariant (Simulator.add_to_trace (Simulator.mark_configuration_as_visited s1)).
Proof.
  intros (Hnd & Hvis & _ & Hen) Hstep Hnew.
  assert (Hsame : Simulator.trace_ s1 = Simulator.trace_ s
                  /\ Simulator.visited_configurations_ s1 = Simulator.visited_configurations_ s
                  /\ Simulator.trace_enabled_ s1 = Simulator.trace_enabled_ s).
  { unfold Simulator.step in Hstep. destruct (Simulator.machine_ s); [|done].
    destruct (TuringMachine.get_transition _ _ _); [|done]. by injection Hstep as <-. }
  destruct Hsame as (Htr & Hv & Hen1).
  unfold Simulator.is_configuration_visited, Simulator.get_configuration_key in Hnew.
  apply bool_decide_eq_false in Hnew. rewrite Hv in Hnew.
  unfold trace_invariant, trace_fingerprints, Simulator.add_to_trace.
  cbn -[Configuration.to_compact_string]. rewrite Hen1, Hen.
  cbn -[Configuration.to_compact_string]. rewrite Htr, Hv, fmap_app.
  cbn -[Configuration.to_compact_string]. repeat split.
  - apply NoDup_app. split; [done|]. split; [|apply NoDup_singleton].
    intros key Hkey Hin. apply list_elem_of_singleton in Hin as ->. by apply Hnew, Hvis.
  - intros Hin. apply elem_of_app. apply elem_of_union in Hin as [Hin|Hin].
    + right. apply elem_of_singleton in Hin as ->. left.
    + left. by apply Hvis.
  - intros Hin. apply elem_of_union. apply elem_of_app in Hin as [Hin|Hin].
    + right. by apply Hvis.
    + left. apply list_elem_of_singleton in Hin as ->. by apply elem_of_singleton.
  - by rewrite last_snoc.
Qed.

(** Where the loop returns, with the trace enabled: the fingerprints
    produced before the last pass are pairwise distinct, and INFINITE is
    returned either with the budget exhausted or for a configuration whose
    fingerprint was produced before. *)
Lemma main_loop_trace fuel : forall s r s',
  trace_invariant s ->
  Simulator.main_loop fuel s = Some (r, s') ->
  NoDup (trace_fingerprints s')
  /\ (r = ACCEPTED \/ r = REJECTED ->
      last (Simulator.trace_ s') = Some (Simulator.current_config_ s'))
  /\ (r = INFINITE ->
      (Simulator.budget_exhausted s' = true
       /\ last (Simulator.trace_ s') = Some (Simulator.current_config_ s'))
      \/ Configuration.to_compact_string (Simulator.current_config_ s')
         ∈ trace_fingerprints s').
Proof.
  induction fuel as [|fuel IH]; intros s r s' Hinv Hrun; [done|].
  cbn [Simulator.main_loop] in Hrun.
  pose proof Hinv as (Hnd & Hvis & Hlast & Hen).
  destruct (loop_body_spec s) as [Hb|Hb Ha|Hb Ha Ht|s1 Hb Ha Ht Hs Hc Hv|s1 Hb Ha Ht Hs Hc Hv].
  - injection Hrun as <- <-. split; [done|]. split; [by intros [|]|]. intros _. by left.
  - injection Hrun as <- <-. split; [done|]. split; [done|]. done.
  - injection Hrun as <- <-. split; [done|]. split; [done|]. done.
  - injection Hrun as <- <-.
    assert (Hsame : Simulator.trace_ s1 = Simulator.trace_ s
                    /\ Simulator.visited_configurations_ s1
                       = Simulator.visited_configurations_ s).
    { unfold Simulator.step in Hs. destruct (Simulator.machine_ s); [|done].
      destruct (TuringMachine.get_transition _ _ _); [|done]. by injection Hs as <-. }
    destruct Hsame as (Htr & Hvs).
    unfold trace_fingerprints. rewrite Htr. split; [done|]. split; [by intros [|]|].
    intros _. right. apply Hvis. rewrite <- Hvs.
    unfold Simulator.is_configuration_visited in Hv. by apply bool_decide_eq_true in Hv.
  - apply (IH (Simulator.add_to_trace (Simulator.mark_configuration_as_visited s1)) r s');
      [|done].
    by apply (trace_invariant_pass s s1).
Qed.

(** After [simulate] has returned a result other than ERROR, the
    fingerprint of the current configuration is in the visited set, so
    [is_infinite_loop_detected] answers true whatever ended the run. *)
Lemma main_loop_marks_current fuel : forall s r s',
  Simulator.is_configuration_visited s = true ->
  Simulator.main_loop fuel s = Some (r, s') ->
  r <> ERROR ->
  Simulator.is_infinite_loop_detected s' = true.
Proof.
  induction fuel as [|fuel IH]; intros s r s' Hvis Hrun Hr; [done|].
  cbn [Simulator.main_loop] in Hrun.
  destruct (loop_body_spec s) as [Hb|Hb Ha|Hb Ha Ht|s1 Hb Ha Ht Hs Hc Hv|s1 Hb Ha Ht Hs Hc Hv].
  - by injection Hrun as <- <-.
  - by injection Hrun as <- <-.
  - by injection Hrun as <- <-.
  - by injection Hrun as <- <-.
  - apply (IH (Simulator.add_to_trace (Simulator.mark_configuration_as_visited s1)) r s');
      [apply visited_after_pass|done|done].
Qed.

Lemma loop_detected_after_every_run fuel w tr budget s r s' :
  Simulator.simulate fuel w tr budget s = Some (r, s') ->
  r <> ERROR ->
  Simulator.is_infinite_loop_detected s' = true.
Proof.
  intros Hrun Hr.
  destruct (simulate_not_error _ _ _ _ _ _ _ Hrun Hr) as (m & Hm & _ & _ & Hloop).
  destruct (setup_facts w tr budget s m Hm) as (_ & _ & _ & Hvis & _).
  by apply (main_loop_marks_current fuel _ r s' Hvis).
Qed.

End LoopDetection.

(** C4, the code at a failing input. [right_runner] on the empty word under
    the budget 3 never repeats a configuration: the run ends with the
    budget exhausted, the four fingerprints it produced are pairwise
    distinct, and yet [is_infinite_loop_detected] answers true. *)
Theorem loop_detected_reported_on_budget_exhaustion :
  exists s',
    Simulator.simulate 10 "" true 3 (Simulator.new (Some right_runner)) = Some (INFINITE, s')
    /\ Simulator.budget_exhausted s' = true
    /\ Simulator.is_infinite_loop_detected s' = true
    /\ trace_fingerprints s' = ["q0|0|"; "q0|1|"; "q0|2|"; "q0|3|"]
    /\ NoDup (trace_fingerprints s').
Proof.
  eexists. split; [by vm_compute|]. split; [by vm_compute|]. split; [by vm_compute|].
  split; [by vm_compute|].
  apply (bool_decide_unpack _). by vm_compute.
Qed.

(** ** Fingerprints *)

Section FingerprintFacts.

(** The fingerprint is a function of the state, the head position and the
    content: configurations that agree on the three have one fingerprint. *)
Lemma to_compact_string_agree (c1 c2 : Configuration.t) :
  Configuration.current_state_ c1 = Configuration.current_state_ c2 ->
  Tape.get_head_position (Configuration.tape_ c1)
  = Tape.get_head_position (Configuration.tape_ c2) ->
  Tape.get_content (Configuration.tape_ c1) = Tape.get_content (Configuration.tape_ c2) ->
  Configuration.to_compact_string c1 = Configuration.to_compact_string c2.
Proof. unfold Configuration.to_compact_string. by intros -> -> ->. Qed.




Lemma no_bar_cons c s : no_bar (String c s) <-> c <> "|"%char /\ no_bar s.
Proof.
  unfold no_bar, occurs. simpl. split.
  - intros H. split; [intros ->; apply H; by left|intros Hs; apply H; by right].
  - intros [Hc Hs] [Heq|Hin]; [by apply Hc|by apply Hs].
Qed.

Lemma append_cons (c : ascii) (s r : string) : String c s +:+ r = String c (s +:+ r).
Proof. done. Qed.

Lemma append_nil (r : string) : "" +:+ r = r.
Proof. done. Qed.

(** Two strings without bar, each followed by a bar, are read back
    unambiguously. *)
Lemma split_at_bar (s1 : string) : forall (s2 r1 r2 : string),
  no_bar s1 -> no_bar s2 ->
  s1 +:+ "|" +:+ r1 = s2 +:+ "|" +:+ r2 -> s1 = s2 /\ r1 = r2.
Proof.
  induction s1 as [|c s1 IH]; intros [|d s2] r1 r2 H1 H2;
    rewrite ?append_cons, ?append_nil, ?append_cons.
  - by intros [= ->].
  - intros [= <- _]. apply no_bar_cons in H2 as [Hd _]. done.
  - intros [= -> _]. apply no_bar_cons in H1 as [Hc _]. done.
  - intros [= <- Heq]. apply no_bar_cons in H1 as [_ H1]. apply no_bar_cons in H2 as [_ H2].
    destruct (IH s2 r1 r2 H1 H2 Heq) as [-> ->]. done.
Qed.

Lemma digits_no_bar (d : Decimal.uint) : no_bar (NilEmpty.string_of_uint d).
Proof.
  induction d; simpl; [by intros []|..]; apply no_bar_cons; by split.
Qed.

(** A decimal numeral holds digits and at most a minus sign. *)
Lemma string_of_Z_no_bar (z : Z) : no_bar (string_of_Z z).
Proof.
  assert (H : forall d, no_bar (NilZero.string_of_uint d)).
  { intros d. pose proof (digits_no_bar d) as Hd.
    destruct d; try exact Hd. simpl. apply no_bar_cons. split; [done|by intros []]. }
  unfold string_of_Z, NilZero.string_of_int. destruct (Z.to_int z); [apply H|].
  apply no_bar_cons. split; [done|apply H].
Qed.

Lemma string_of_Z_injective (z1 z2 : Z) : string_of_Z z1 = string_of_Z z2 -> z1 = z2.
Proof.
  assert (Hnil : forall z, Z.to_int z <> Decimal.Pos Decimal.Nil
                           /\ Z.to_int z <> Decimal.Neg Decimal.Nil).
  { intros z. split; intros H;
      (assert (Hz : z = 0) by (by rewrite <- (of_to z), H)); subst z; discriminate H. }
  unfold string_of_Z. intros H. apply (f_equal NilZero.int_of_string) in H.
  rewrite !NilZero.isi in H by apply Hnil. injection H as H.
  apply (f_equal Z.of_int) in H. by rewrite !of_to in H.
Qed.

(** On configurations whose state names hold no bar, the single-tape
    fingerprint determines the state, the head position and the content. *)
Lemma to_compact_string_injective_without_bar (c1 c2 : Configuration.t) :
  no_bar (Configuration.current_state_ c1) ->
  no_bar (Configuration.current_state_ c2) ->
  Configuration.to_compact_string c1 = Configuration.to_compact_string c2 ->
  Configuration.current_state_ c1 = Configuration.current_state_ c2
  /\ Tape.get_head_position (Configuration.tape_ c1)
     = Tape.get_head_position (Configuration.tape_ c2)
  /\ Tape.get_content (Configuration.tape_ c1) = Tape.get_content (Configuration.tape_ c2).
Proof.
  unfold Configuration.to_compact_string. intros H1 H2 Heq.
  destruct (split_at_bar _ _ _ _ H1 H2 Heq) as [Hs Hrest]. split; [done|].
  destruct (split_at_bar _ _ _ _ (string_of_Z_no_bar _) (string_of_Z_no_bar _) Hrest)
    as [Hh Hc].
  split; [by apply string_of_Z_injective|done].
Qed.

End FingerprintFacts.

(** C3, the code at a failing input. The separator is not escaped: a bar in
    a state name (single tape), or a bar as a tape symbol (several tapes),
    gives one fingerprint to configurations that differ in state, head
    position and content, and that [is_equivalent] tells apart. *)
Theorem fingerprint_collision :
  (Configuration.current_state_ bar_in_state <> Configuration.current_state_ bar_on_tape
   /\ Tape.get_head_position (Configuration.tape_ bar_in_state)
      <> Tape.get_head_position (Configuration.tape_ bar_on_tape)
   /\ Tape.get_content (Configuration.tape_ bar_in_state)
      <> Tape.get_content (Configuration.tape_ bar_on_tape)
   /\ Configuration.is_equivalent bar_in_state bar_on_tape = false
   /\ Configuration.to_compact_string bar_in_state = "a|0|5|"
   /\ Configuration.to_compact_string bar_on_tape = "a|0|5|")
  /\ (MultiTape.get_tape_content (MultiConfiguration.tapes_ bar_on_first) 0 = Ok "|"
      /\ MultiTape.get_tape_content (MultiConfiguration.tapes_ bar_on_second) 0 = Ok ""
      /\ MultiTape.get_tape_content (MultiConfiguration.tapes_ bar_on_first) 1 = Ok ""
      /\ MultiTape.get_tape_content (MultiConfiguration.tapes_ bar_on_second) 1 = Ok "|"
      /\ MultiConfiguration.to_compact_string bar_on_first = Ok "q|0,0|||"
      /\ MultiConfiguration.to_compact_string bar_on_second = Ok "q|0,0|||").
Proof. by vm_compute. Qed.

(** ** The alphabet gate of the word loop *)

Section AlphabetGate.

(** [word_in_alphabet] stops at the first symbol outside the input
    alphabet and leaves it in [*bad]. *)
Lemma word_in_alphabet_rejects w machine c :
  occurs c w -> c ∉ TuringMachine.input_alphabet_ machine ->
  exists valid_prefix bad rest,
    w = valid_prefix +:+ String bad rest
    /\ (forall a, occurs a valid_prefix -> a ∈ TuringMachine.input_alphabet_ machine)
    /\ (bad ∉ TuringMachine.input_alphabet_ machine)
    /\ Main.word_in_alphabet w machine = (false, String bad EmptyString).
Proof.
  unfold occurs. induction w as [|a w IH]; simpl; [done|]. intros Hin Hc.
  unfold TuringMachine.is_input_symbol.
  destruct (decide (a ∈ TuringMachine.input_alphabet_ machine)) as [Ha|Ha].
  - rewrite bool_decide_true by done. simpl.
    destruct Hin as [->|Hin]; [done|].
    destruct (IH Hin Hc) as (pre & bad & rest & -> & Hpre & Hbad & Hrun).
    exists (String a pre), bad, rest. split; [done|]. split; [|done].
    intros x [<-|Hx]; [done|by apply Hpre].
  - rewrite bool_decide_false by done. simpl. exists "", a, w. by repeat split.
Qed.

Lemma word_in_alphabet_multi_rejects w machine c :
  occurs c w -> c ∉ MultiTuringMachine.input_alphabet_ machine ->
  exists valid_prefix bad rest,
    w = valid_prefix +:+ String bad rest
    /\ (forall a, occurs a valid_prefix -> a ∈ MultiTuringMachine.input_alphabet_ machine)
    /\ (bad ∉ MultiTuringMachine.input_alphabet_ machine)
    /\ Main.word_in_alphabet_multi w machine = (false, String bad EmptyString).
Proof.
  unfold occurs. induction w as [|a w IH]; simpl; [done|]. intros Hin Hc.
  unfold MultiTuringMachine.is_input_symbol.
  destruct (decide (a ∈ MultiTuringMachine.input_alphabet_ machine)) as [Ha|Ha].
  - rewrite bool_decide_true by done. simpl.
    destruct Hin as [->|Hin]; [done|].
    destruct (IH Hin Hc) as (pre & bad & rest & -> & Hpre & Hbad & Hrun).
    exists (String a pre), bad, rest. split; [done|]. split; [|done].
    intros x [<-|Hx]; [done|by apply Hpre].
  - rewrite bool_decide_false by done. simpl. exists "", a, w. by repeat split.
Qed.

Lemma validate_rejects p w c :
  occurs c w -> c ∉ input_alphabet p ->
  exists valid_prefix bad rest,
    w = valid_prefix +:+ String bad rest
    /\ (forall a, occurs a valid_prefix -> a ∈ input_alphabet p)
    /\ (bad ∉ input_alphabet p)
    /\ validate p w = (false, String bad EmptyString).
Proof.
  destruct p; simpl; [apply word_in_alphabet_rejects|apply word_in_alphabet_multi_rejects].
Qed.

End AlphabetGate.

(** C5 as stated fails in strict mode: for the word [b], outside the input
    alphabet of [one_step_acceptor], the program prints REJECT, not ERROR. *)
Lemma strict_mode_prints_reject :
  ~ (forall (fuel : nat) (trace : bool) (max_steps : N) (line : string) (s : Main.io)
            (c : ascii),
       occurs c (Main.strip_spaces line) -> c ∉ input_alphabet (Main.prog s) ->
       exists s', Main.process_line fuel true trace max_steps line s = Some (Ok s')
                  /\ Main.cout s' = (Main.cout s ++ [Main.ResultLine "ERROR"])%list).
Proof.
  intros H.
  destruct (H 0%nat false 1000%N "b" acceptor_program "b"%char) as (s' & Hrun & Hout).
  - by left.
  - by vm_compute.
  - vm_compute in Hrun. injection Hrun as <-. by vm_compute in Hout.
Qed.

(** C5, amended. For every line whose word (the line without white space)
    contains a symbol outside the input alphabet, the program prints REJECT
    on the standard output in both modes; in strict mode it also writes a
    diagnostic naming the first such symbol to the standard error, in
    non-strict mode it writes none. The first such symbol is [bad]: the
    word is [valid_prefix], every symbol of which is in the input
    alphabet, then [bad], then the rest. [simulate] is not called: the
    result needs no fuel and the simulator is left as it was, so no step
    is executed on the word. *)
Theorem alphabet_gate
    (fuel : nat) (strict_mode trace : bool) (max_steps : N) (line : string)
    (s : Main.io) (c : ascii) :
  occurs c (Main.strip_spaces line) ->
  c ∉ input_alphabet (Main.prog s) ->
  exists (valid_prefix : string) (bad : ascii) (rest : string) (s' : Main.io),
    Main.strip_spaces line = valid_prefix +:+ String bad rest
    /\ (forall a, occurs a valid_prefix -> a ∈ input_alphabet (Main.prog s))
    /\ (bad ∉ input_alphabet (Main.prog s))
    /\ Main.process_line fuel strict_mode trace max_steps line s = Some (Ok s')
    /\ Main.cout s' = (Main.cout s ++ [Main.ResultLine (result_to_string REJECTED)])%list
    /\ Main.cerr s'
       = (Main.cerr s
          ++ (if strict_mode
              then [Main.WordError (String bad EmptyString) (Main.strip_spaces line)]
              else []))%list
    /\ Main.prog s' = Main.prog s
    /\ Main.steps_executed (Main.prog s') = Main.steps_executed (Main.prog s).
Proof.
  intros Hocc Hc.
  destruct (validate_rejects _ _ _ Hocc Hc) as (pre & bad & rest & Hword & Hpre & Hbad & Hv).
  exists pre, bad, rest. unfold Main.process_line.
  fold (validate (Main.prog s) (Main.strip_spaces line)).
  rewrite Hv. simpl. destruct strict_mode; eexists; (split; [exact Hword|]);
    (split; [exact Hpre|]); (split; [exact Hbad|]); (split; [reflexivity|]); simpl;
    by rewrite ?app_nil_r.
Qed.

Lemma alphabet_gate_witness :
  exists (valid_prefix : string) (bad : ascii) (rest : string) (s' : Main.io),
    Main.strip_spaces " a b ac" = valid_prefix +:+ String bad rest
    /\ (forall a, occurs a valid_prefix -> a ∈ input_alphabet (Main.prog acceptor_program))
    /\ (bad ∉ input_alphabet (Main.prog acceptor_program))
    /\ Main.process_line 0 true false 1000 " a b ac" acceptor_program = Some (Ok s')
    /\ Main.cout s' = [Main.ResultLine "REJECT"]
    /\ Main.cerr s' = [Main.WordError (String bad EmptyString) "abac"]
    /\ Main.prog s' = Main.prog acceptor_program
    /\ Main.steps_executed (Main.prog s') = Main.steps_executed (Main.prog acceptor_program).
Proof.
  apply (alphabet_gate 0 true false 1000 " a b ac" acceptor_program "c").
  - right. right. right. left. reflexivity.
  - vm_compute. discriminate.
Defined.

(** ** Loading a machine file *)

Section LoaderFacts.

Implicit Types (m machine : TuringMachine.t).

Lemma add_state_declared q : preserves declared (TuringMachine.add_state q).
Proof.
  intros m [Hb [Hne Hin]]. unfold TuringMachine.add_state.
  destruct (decide _); simpl; [done|]. repeat split; [done..|]. simpl. set_solver.
Qed.

Lemma add_tape_symbol_declared c : preserves declared (TuringMachine.add_tape_symbol c).
Proof.
  intros m [Hb Hi]. split; [by apply add_tape_symbol_blank|done].
Qed.

Lemma add_accept_state_declared q : preserves declared (TuringMachine.add_accept_state q).
Proof. intros m Hm. by apply add_state_declared. Qed.

Lemma set_blank_symbol_declared c : preserves declared (TuringMachine.set_blank_symbol c).
Proof.
  intros m [Hb Hi]. pose proof (set_blank_symbol_blank c m Hb) as H.
  unfold TuringMachine.set_blank_symbol in *. by destruct (decide _).
Qed.

Lemma add_transition_declared tr : preserves declared (TuringMachine.add_transition tr).
Proof.
  intros m Hm. unfold TuringMachine.add_transition.
  destruct (decide _); [done|]. destruct (decide _); [done|].
  apply holds_after_and_then.
  - apply holds_after_and_then; [by apply add_tape_symbol_declared|].
    apply add_tape_symbol_declared.
  - intros m1 Hm1. by destruct (_ !! _).
Qed.

(** [set_initial_state] establishes membership when it returns. *)
Lemma set_initial_state_declared q m m' :
  blank_in_gamma m -> TuringMachine.set_initial_state q m = Done m' -> declared m'.
Proof.
  intros Hb. unfold TuringMachine.set_initial_state, TuringMachine.add_state.
  destruct (decide (q = "")); [done|]. intros [= <-].
  split; [done|]. split; [done|]. simpl. set_solver.
Qed.

Lemma parse_section_invariant section line line_number m r section' m' :
  loader_invariant section m ->
  Parser.parse_section section line line_number m = (r, section') ->
  r = Done m' ->
  loader_invariant section' m'.
Proof.
  intros [Hb Hi] Hparse ->. unfold Parser.parse_section in Hparse.
  assert (Hweak : forall (f : TuringMachine.t -> mutated TuringMachine.t) k,
            preserves blank_in_gamma f -> f m = Done m' -> k < 4 -> loader_invariant k m').
  { intros f k Hf Hdone Hk. specialize (Hf m Hb). rewrite Hdone in Hf.
    split; [done|lia]. }
  assert (Hstrong : forall (f : TuringMachine.t -> mutated TuringMachine.t) k,
            4 <= section -> preserves declared f -> f m = Done m' -> loader_invariant k m').
  { intros f k Hs Hf Hdone. specialize (Hf m (conj Hb (Hi Hs))). rewrite Hdone in Hf.
    by destruct Hf. }
  repeat case_decide; subst.
  - destruct (Parser.split line) eqn:E; [by injection Hparse|].
    injection Hparse as Hr <-.
    apply (Hweak (Parser.for_each TuringMachine.add_state (s :: l))); [|done|lia].
    apply preserves_for_each. intros q. apply add_state_blank.
  - injection Hparse as Hr <-.
    eapply (Hweak (Parser.for_each _ _)); [|exact Hr|lia].
    apply preserves_for_each. intros tok. apply preserves_with_value.
    intros c. apply add_input_symbol_blank.
  - injection Hparse as Hr <-.
    eapply (Hweak (Parser.for_each _ _)); [|exact Hr|lia].
    apply preserves_for_each. intros tok. apply preserves_with_value.
    intros c. apply add_tape_symbol_blank.
  - destruct (Parser.split line) as [|tok [|? ?]]; try (by injection Hparse).
    injection Hparse as Hr <-.
    destruct (set_initial_state_declared tok m m' Hb Hr). by split.
  - destruct (Parser.split line) as [|tok [|? ?]]; try (by injection Hparse).
    injection Hparse as Hr <-.
    eapply (Hstrong (with_value _ _)); [lia| |exact Hr].
    apply preserves_with_value. intros c. apply set_blank_symbol_declared.
  - injection Hparse as Hr <-.
    eapply (Hstrong (Parser.for_each _ _)); [lia| |exact Hr].
    apply preserves_for_each. intros q. apply add_accept_state_declared.
  - injection Hparse as Hr <-.
    eapply (Hstrong (fun m => Parser.rethrow (with_value _ _ m))); [lia| |exact Hr].
    apply preserves_rethrow, preserves_with_value. intros tr. apply add_transition_declared.
  - injection Hparse as Hr <-.
    eapply (Hstrong (fun m => Parser.rethrow (with_value _ _ m))); [lia| |exact Hr].
    apply preserves_rethrow, preserves_with_value. intros tr. apply add_transition_declared.
  - injection Hparse as <- <-. split; [done|lia].
Qed.

Lemma parse_lines_invariant input : forall line_number section m section' m',
  loader_invariant section m ->
  Parser.parse_lines input line_number section m = (Done m', section') ->
  loader_invariant section' m'.
Proof.
  induction input as [|line rest IH]; intros n section m section' m' Hinv; simpl.
  - by intros [= <- <-].
  - destruct (_ || _); [by apply IH|].
    destruct (Parser.parse_section section (Parser.trim line) (n + 1) m)
      as [[m1|e m1|] section1] eqn:E; [|done..].
    apply IH. by apply (parse_section_invariant _ _ _ _ _ _ _ Hinv E).
Qed.

(** Whenever the loader gets as far as the validation, the initial state is
    in the state set and the blank symbol is in the tape alphabet: the two
    checks of [is_valid] on them cannot fail, whatever the file declares. *)
Lemma validation_never_blames_initial_state_or_blank input machine section m' :
  Parser.parse_lines input 0 0 (TuringMachine.clear machine) = (Done m', section) ->
  6 <= section ->
  TuringMachine.initial_state_ m' <> ""
  /\ TuringMachine.initial_state_ m' ∈ TuringMachine.states_ m'
  /\ TuringMachine.blank_symbol_ m' ∈ TuringMachine.tape_alphabet_ m'.
Proof.
  intros Hparse Hsection.
  destruct (parse_lines_invariant input 0 0 (TuringMachine.clear machine) section m')
    as [Hb Hi]; [|done|].
  - split; [apply clear_blank|lia].
  - destruct Hi as [? ?]; [lia|]. by repeat split.
Qed.

End LoaderFacts.

(** C6, the code at a failing input. Both files load: the initial state is
    inserted into the state set and the blank symbol into the tape alphabet
    before [is_valid] is called, which then finds nothing to reject. *)
Theorem undeclared_initial_state_and_blank_load :
  (let r := Parser.load_from_stream undeclared_initial_state_file (TuringMachine.new ".") in
   ("qInicial" ∉ Parser.split "q0 q1 q2")
   /\ Parser.loaded r = true
   /\ Parser.last_error_ r = None
   /\ TuringMachine.initial_state_ (Parser.machine_after r) = "qInicial"
   /\ TuringMachine.is_valid (Parser.machine_after r) = true)
  /\ (let r := Parser.load_from_stream undeclared_blank_file (TuringMachine.new ".") in
      ("Z" ∉ Parser.split "0 1")
      /\ Parser.loaded r = true
      /\ Parser.last_error_ r = None
      /\ TuringMachine.blank_symbol_ (Parser.machine_after r) = "Z"%char
      /\ TuringMachine.is_valid (Parser.machine_after r) = true).
Proof.
  split.
  - split; [|by vm_compute]. apply (bool_decide_unpack _). by vm_compute.
  - split; [|by vm_compute]. apply (bool_decide_unpack _). by vm_compute.
Qed.

(** ** The scenarios of the specification, run on the model *)

Lemma odd_zeros_scenarios :
  result_of odd_zeros "0" = Some ACCEPTED
  /\ result_of odd_zeros "00" = Some REJECTED
  /\ result_of odd_zeros "000" = Some ACCEPTED
  /\ result_of odd_zeros "" = Some REJECTED
  /\ result_of odd_zeros "10101" = Some REJECTED.
Proof. by vm_compute. Qed.

Lemma unary_sum_scenario :
  multi_result_of unary_sum "1110111" = Some (Ok (ACCEPTED, "111111")).
Proof. by vm_compute. Qed.

(** ** Configurations that loop detection confuses *)

(** [get_content] drops the position of the window: after two steps the
    tape of [shifter] holds its [a] at position 1 instead of 0, the
    fingerprint is that of the initial configuration, and [simulate]
    returns INFINITE although the machine has no transition left (it reads
    a blank in [q]) and would reject. *)
Lemma shifted_content_reported_as_loop :
  exists s',
    Simulator.simulate 10 "a" true 1000 (Simulator.new (Some shifter)) = Some (INFINITE, s')
    /\ Simulator.get_step_count s' = 2%N
    /\ trace_fingerprints s' = ["q|0|a"; "p|1|"]
    /\ Simulator.get_configuration_key s' = "q|0|a"
    /\ Tape.symbol_at (Configuration.tape_ (Simulator.current_config_ s')) 0 = "."%char
    /\ Tape.symbol_at (Configuration.tape_ (Simulator.current_config_ s')) 1 = "a"%char
    /\ Simulator.is_accepting_state s' = false
    /\ Simulator.has_applicable_transition s' = false.
Proof. eexists. split; [by vm_compute|]. by vm_compute. Qed.

(** The collision of C3 in a run: after its only step [bar_mover] is in a
    configuration with another tape content than the initial one and with
    no transition left, and [simulate] returns INFINITE for it. *)
Lemma collision_reported_as_loop :
  exists m s s',
    bar_mover = Ok m
    /\ MultiSimulator.new (Some m) = Ok s
    /\ MultiSimulator.simulate 10 "|" false 1000 s = Some (Ok (INFINITE, s'))
    /\ MultiSimulator.get_step_count s' = 1%N
    /\ MultiSimulator.get_configuration_key s' = Ok "q|0,0|||"
    /\ MultiSimulator.is_accepting_state s' = Ok false
    /\ MultiSimulator.has_applicable_transition s' = Ok false.
Proof.
  do 3 eexists. split; [by vm_compute|]. split; [by vm_compute|].
  split; [by vm_compute|]. by vm_compute.
Qed.

(** ** What the program prints for a simulated word *)

(** For a single-tape machine, the lines printed for a word that passes the
    alphabet gate: the result, the final tape, the trace if asked for, and
    for INFINITE always the loop message; the step-limit message of
    [main] is never printed, since [is_infinite_loop_detected] answers
    true after every run. *)
Lemma mono_word_output fuel strict_mode trace max_steps line machine simulator
    (s s' : Main.io) :
  Main.prog s = Main.Mono machine simulator ->
  (Main.word_in_alphabet (Main.strip_spaces line) machine).1 = true ->
  Main.process_line fuel strict_mode trace max_steps line s = Some (Ok s') ->
  exists result simulator',
    Simulator.simulate fuel (Main.strip_spaces line) trace max_steps simulator
    = Some (result, simulator')
    /\ Main.prog s' = Main.Mono machine simulator'
    /\ Main.cout s'
       = (Main.cout s
          ++ [Main.ResultLine (result_to_string result);
              Main.FinalTape (Configuration.tape_ (Simulator.current_config_ simulator'))]
          ++ (if trace then [Main.TraceBlock (Main.strip_spaces line)] else [])
          ++ (match result with INFINITE => [Main.InfoLoopDetected] | _ => [] end))%list.
Proof.
  intros Hprog Hvalid. unfold Main.process_line. rewrite Hprog.
  destruct (Main.word_in_alphabet (Main.strip_spaces line) machine) as [valid bad].
  simpl in Hvalid. subst valid. simpl.
  destruct (Simulator.simulate fuel (Main.strip_spaces line) trace max_steps simulator)
    as [[result simulator']|] eqn:Erun; [|done].
  intros Hout. exists result, simulator'. split; [done|].
  assert (Hloop : result = INFINITE -> Simulator.is_infinite_loop_detected simulator' = true).
  { intros ->. by apply (loop_detected_after_every_run _ _ _ _ _ _ _ Erun). }
  unfold Main.report, Main.print, Main.with_prog in Hout. simpl in Hout.
  destruct trace, result; simpl in Hout; rewrite ?Hloop in Hout by done; simpl in Hout;
    injection Hout as <-; simpl; rewrite <- ?app_assoc; by split.
Qed.

(** * Further properties of the code *)

(** ** Runs of the single-tape simulator *)

Section Runs.

Implicit Types (s : Simulator.t) (m : TuringMachine.t) (r : SimulationResult).

Lemma main_loop_more_fuel fuel : forall fuel' s x,
  Simulator.main_loop fuel s = Some x -> (fuel <= fuel')%nat ->
  Simulator.main_loop fuel' s = Some x.
Proof.
  induction fuel as [|fuel IH]; intros fuel' s x Hrun Hle; [done|].
  destruct fuel' as [|fuel']; [lia|]. cbn [Simulator.main_loop] in *.
  destruct (Simulator.loop_body s) as [y|s2]; [done|]. apply IH; [done|lia].
Qed.

Lemma main_loop_never_error fuel : forall s r s',
  Simulator.main_loop fuel s = Some (r, s') -> r <> ERROR.
Proof.
  induction fuel as [|fuel IH]; intros s r s' Hrun; [done|].
  cbn [Simulator.main_loop] in Hrun.
  destruct (loop_body_spec s) as [Hb|Hb Ha|Hb Ha Ht|s1 Hb Ha Ht Hs Hc Hv|s1 Hb Ha Ht Hs Hc Hv];
    try (by injection Hrun as <- <-).
  by apply (IH _ _ _ Hrun).
Qed.

Lemma budget_open s :
  Simulator.budget_exhausted s = false -> (0 < Simulator.max_steps_ s)%N ->
  (Simulator.get_step_count s < Simulator.max_steps_ s)%N.
Proof.
  unfold Simulator.budget_exhausted. intros Hb Hpos.
  apply andb_false_iff in Hb as [Hb|Hb].
  - apply N.ltb_ge in Hb. lia.
  - by apply N.leb_gt in Hb.
Qed.

Lemma step_keeps s s1 :
  Simulator.step s = (true, s1) ->
  Simulator.machine_ s1 = Simulator.machine_ s
  /\ Simulator.max_steps_ s1 = Simulator.max_steps_ s
  /\ Simulator.trace_enabled_ s1 = Simulator.trace_enabled_ s
  /\ Simulator.trace_ s1 = Simulator.trace_ s
  /\ Simulator.visited_configurations_ s1 = Simulator.visited_configurations_ s
  /\ Tape.blank_symbol_ (Configuration.tape_ (Simulator.current_config_ s1))
     = Tape.blank_symbol_ (Configuration.tape_ (Simulator.current_config_ s)).
Proof.
  unfold Simulator.step. destruct (Simulator.machine_ s) eqn:Em; [|done].
  destruct (TuringMachine.get_transition _ _ _) as [tr|]; [|done].
  intros [= <-]. simpl. split; [done|]. repeat split.
  unfold Tape.write, Tape.moved.
  by destruct (decide (_ = _)), (Transition.movement_ tr).
Qed.

Lemma pass_keeps s1 :
  let s2 := Simulator.add_to_trace (Simulator.mark_configuration_as_visited s1) in
  Simulator.machine_ s2 = Simulator.machine_ s1
  /\ Simulator.max_steps_ s2 = Simulator.max_steps_ s1
  /\ Simulator.current_config_ s2 = Simulator.current_config_ s1.
Proof. unfold Simulator.add_to_trace. simpl. by destruct (Simulator.trace_enabled_ s1). Qed.

(** Where the loop returns under a positive budget, the step counter has
    not passed the budget. *)
Lemma main_loop_count_bound fuel : forall s r s',
  Simulator.main_loop fuel s = Some (r, s') ->
  (0 < Simulator.max_steps_ s < SIZE_MAX_plus_1)%N ->
  (Simulator.get_step_count s <= Simulator.max_steps_ s)%N ->
  (Simulator.get_step_count s' <= Simulator.max_steps_ s)%N
  /\ Simulator.max_steps_ s' = Simulator.max_steps_ s.
Proof.
  induction fuel as [|fuel IH]; intros s r s' Hrun Hmax Hle; [done|].
  cbn [Simulator.main_loop] in Hrun.
  destruct (loop_body_spec s) as [Hb|Hb Ha|Hb Ha Ht|s1 Hb Ha Ht Hs Hc Hv|s1 Hb Ha Ht Hs Hc Hv];
    try (by injection Hrun as <- <-).
  - injection Hrun as <- <-. destruct (step_keeps s s1 Hs) as (_ & Hmax1 & _).
    pose proof (budget_open s Hb ltac:(lia)) as Hlt.
    rewrite Hc, size_t_succ_small by lia. split; [lia|done].
  - destruct (step_keeps s s1 Hs) as (_ & Hmax1 & _).
    destruct (pass_keeps s1) as (_ & Hmax2 & Hc2).
    pose proof (budget_open s Hb ltac:(lia)) as Hlt.
    assert (Hcount : Simulator.get_step_count
                       (Simulator.add_to_trace (Simulator.mark_configuration_as_visited s1))
                     = (Simulator.get_step_count s + 1)%N).
    { rewrite step_count_after_pass, Hc. apply size_t_succ_small. lia. }
    destruct (IH _ _ _ Hrun) as [Hle' Hmax']; [rewrite Hmax2, Hmax1; lia|
      rewrite Hmax2, Hmax1, Hcount; lia|].
    rewrite Hmax2, Hmax1 in Hle', Hmax'. done.
Qed.

End Runs.

(** X1. Under a step budget [0 < budget < 2^64], [Simulator::simulate]
    returns after at most [budget + 1] passes through its loop, whatever
    the machine, the word and the state of the simulator; unless the
    result is ERROR, the number of steps executed is at most the budget. *)
Theorem simulate_returns_within_budget
    (fuel : nat) (w : string) (tr : bool) (budget : N) (s : Simulator.t) :
  (0 < budget < SIZE_MAX_plus_1)%N ->
  (N.to_nat budget < fuel)%nat ->
  exists r s',
    Simulator.simulate fuel w tr budget s = Some (r, s')
    /\ (r <> ERROR -> (Simulator.get_step_count s' <= budget)%N).
Proof.
  intros Hbudget Hfuel. unfold Simulator.simulate.
  destruct (Simulator.machine_ s) as [m|] eqn:Hm; [|by eexists _, _].
  destruct (negb (TuringMachine.is_valid m)); [by eexists _, _|].
  destruct (negb (TuringMachine.is_valid_input_word m w)); [by eexists _, _|].
  destruct (setup_facts w tr budget s m Hm) as (Hcount & Hmax & Hm0 & _).
  destruct (main_loop_terminates (N.to_nat budget) (Simulator.setup w tr budget s) m Hm0)
    as (r & s' & Hrun & _); [rewrite Hmax; lia|rewrite Hcount; lia|
      rewrite Hcount, Hmax; f_equal; lia|].
  exists r, s'. split.
  - apply (main_loop_more_fuel (S (N.to_nat budget))); [done|lia].
  - intros _. destruct (main_loop_count_bound _ _ _ _ Hrun) as [Hle _];
      [rewrite Hmax; lia|rewrite Hcount; lia|]. by rewrite Hmax in Hle.
Qed.

Lemma simulate_returns_within_budget_witness :
  exists r s',
    Simulator.simulate 4 "" false 3 (Simulator.new (Some right_runner)) = Some (r, s')
    /\ (r <> ERROR -> (Simulator.get_step_count s' <= 3)%N).
Proof.
  apply (simulate_returns_within_budget 4 "" false 3 (Simulator.new (Some right_runner))).
  - by vm_compute.
  - by vm_compute.
Defined.

(** X2. [Simulator::simulate] returns ERROR exactly when the simulator
    holds no machine, the machine is not valid, or the word is not over
    the input alphabet; the loop itself never returns ERROR (after
    [has_applicable_transition], [step] cannot fail). A call that returns
    ERROR leaves the configuration and the trace of the previous run in
    place. *)
Theorem simulate_error_iff
    (fuel : nat) (w : string) (tr : bool) (budget : N) (s s' : Simulator.t)
    (r : SimulationResult) :
  Simulator.simulate fuel w tr budget s = Some (r, s') ->
  (r = ERROR <->
   match Simulator.machine_ s with
   | None => True
   | Some m =>
       TuringMachine.is_valid m = false \/ TuringMachine.is_valid_input_word m w = false
   end)
  /\ (r = ERROR ->
      Simulator.current_config_ s' = Simulator.current_config_ s
      /\ Simulator.trace_ s' = Simulator.trace_ s
      /\ Simulator.last_error_ s' <> None).
Proof.
  unfold Simulator.simulate. destruct (Simulator.machine_ s) as [m|].
  - destruct (TuringMachine.is_valid m); simpl.
    + destruct (TuringMachine.is_valid_input_word m w); simpl.
      * intros Hrun. pose proof (main_loop_never_error _ _ _ _ Hrun) as Hr.
        split; [|done]. split; [done|]. by intros [|].
      * intros [= <- <-]. split; [|done]. split; [by right|done].
    + intros [= <- <-]. split; [|done]. split; [by left|done].
  - intros [= <- <-]. done.
Qed.

Lemma simulate_error_iff_witness :
  exists s',
    Simulator.simulate 0 "b" false 10 (Simulator.new (Some one_step_acceptor))
      = Some (ERROR, s')
    /\ Simulator.current_config_ s' = Configuration.new "" "" "."
    /\ Simulator.last_error_ s' <> None.
Proof.
  destruct (Simulator.simulate 0 "b" false 10 (Simulator.new (Some one_step_acceptor)))
    as [[r s']|] eqn:E; [|by vm_compute in E].
  pose proof (simulate_error_iff 0 "b" false 10 _ s' r E) as [_ H].
  vm_compute in E. injection E as <- <-.
  eexists. split; [reflexivity|]. destruct (H eq_refl) as (Hc & _ & He). by split.
Defined.

Section Independence.

Implicit Types (s : Simulator.t) (m : TuringMachine.t) (r : SimulationResult).

Lemma serves_new m : serves m (Simulator.new (Some m)).
Proof. by split. Qed.

(** What [simulate] installs before its loop depends on the simulator
    only through the machine and the blank symbol of its tape. *)
Lemma setup_serves w tr budget m s1 s2 :
  serves m s1 -> serves m s2 ->
  Simulator.setup w tr budget s1 = Simulator.setup w tr budget s2.
Proof.
  intros [Hm1 Hb1] [Hm2 Hb2].
  unfold Simulator.setup, Simulator.reset, Simulator.add_to_trace,
    Simulator.mark_configuration_as_visited, Simulator.get_configuration_key,
    Configuration.reset, Tape.reset.
  cbn -[Configuration.to_compact_string Tape.reset_loop].
  rewrite Hm1, Hm2, Hb1, Hb2. by destruct tr.
Qed.

Lemma serves_setup w tr budget m s :
  serves m s -> serves m (Simulator.setup w tr budget s).
Proof.
  intros [Hm Hb]. unfold serves, Simulator.setup, Simulator.reset, Simulator.add_to_trace.
  cbn -[Configuration.to_compact_string Tape.reset_loop]. rewrite Hm.
  destruct tr; by cbn -[Configuration.to_compact_string Tape.reset_loop].
Qed.

Lemma serves_main_loop fuel m : forall s r s',
  serves m s -> Simulator.main_loop fuel s = Some (r, s') -> serves m s'.
Proof.
  induction fuel as [|fuel IH]; intros s r s' Hs Hrun; [done|].
  cbn [Simulator.main_loop] in Hrun. destruct Hs as [Hm Hblank].
  destruct (loop_body_spec s) as [Hb|Hb Ha|Hb Ha Ht|s1 Hb Ha Ht Hs Hc Hv|s1 Hb Ha Ht Hs Hc Hv];
    try (by injection Hrun as <- <-).
  - injection Hrun as <- <-. destruct (step_keeps s s1 Hs) as (Hm1 & _ & _ & _ & _ & Hb1).
    split; congruence.
  - destruct (step_keeps s s1 Hs) as (Hm1 & _ & _ & _ & _ & Hb1).
    destruct (pass_keeps s1) as (Hm2 & _ & Hc2).
    apply (IH _ _ _ ltac:(split; [by rewrite Hm2, Hm1|by rewrite Hc2, Hb1]) Hrun).
Qed.

Lemma serves_simulate fuel w tr budget m s r s' :
  serves m s -> Simulator.simulate fuel w tr budget s = Some (r, s') -> serves m s'.
Proof.
  intros Hs. pose proof Hs as [Hm Hb]. unfold Simulator.simulate. rewrite Hm.
  destruct (negb (TuringMachine.is_valid m)); [by intros [= <- <-]|].
  destruct (negb (TuringMachine.is_valid_input_word m w)); [by intros [= <- <-]|].
  apply serves_main_loop. by apply serves_setup.
Qed.

End Independence.

(** X3. A run does not depend on the runs made before it with the same
    [Simulator] object: for a word over the input alphabet, [simulate] on
    the simulator a previous call left behind returns what it returns on a
    freshly constructed simulator, with the same final state of the
    object. *)
Theorem simulate_forgets_previous_run
    (m : TuringMachine.t) (fuel0 fuel : nat) (w0 w : string) (tr0 tr : bool)
    (budget0 budget : N) (r0 : SimulationResult) (s0 : Simulator.t) :
  Simulator.simulate fuel0 w0 tr0 budget0 (Simulator.new (Some m)) = Some (r0, s0) ->
  TuringMachine.is_valid_input_word m w = true ->
  Simulator.simulate fuel w tr budget s0
  = Simulator.simulate fuel w tr budget (Simulator.new (Some m)).
Proof.
  intros Hrun Hw.
  pose proof (serves_simulate _ _ _ _ m _ _ _ (serves_new m) Hrun) as Hs0.
  destruct (TuringMachine.is_valid m) eqn:Hv.
  - rewrite !(simulate_valid _ _ _ _ _ m) by (done || apply Hs0).
    by rewrite (setup_serves w tr budget m s0 (Simulator.new (Some m)) Hs0 (serves_new m)).
  - revert Hrun. unfold Simulator.simulate at 1. simpl. rewrite Hv. simpl.
    intros [= <- <-]. unfold Simulator.simulate. simpl. by rewrite Hv.
Qed.

Lemma simulate_forgets_previous_run_witness :
  exists s0,
    Simulator.simulate 5 "a" true 10 (Simulator.new (Some one_step_acceptor))
      = Some (ACCEPTED, s0)
    /\ Simulator.simulate 5 "aa" false 3 s0
       = Simulator.simulate 5 "aa" false 3 (Simulator.new (Some one_step_acceptor)).
Proof.
  destruct (Simulator.simulate 5 "a" true 10 (Simulator.new (Some one_step_acceptor)))
    as [[r s0]|] eqn:E; [|by vm_compute in E].
  pose proof (simulate_forgets_previous_run one_step_acceptor 5 5 "a" "aa" true false 10 3
                r s0 E eq_refl) as H.
  vm_compute in E. injection E as <- <-.
  eexists. split; [reflexivity|exact H].
Defined.

Section Traces.

Implicit Types (s : Simulator.t) (m : TuringMachine.t) (r : SimulationResult).

Lemma next_configuration_step m s s1 :
  Simulator.machine_ s = Some m ->
  Simulator.step s = (true, s1) ->
  next_configuration m (Simulator.current_config_ s) = Some (Simulator.current_config_ s1).
Proof.
  unfold next_configuration, Simulator.step. simpl. intros ->.
  destruct (TuringMachine.get_transition _ _ _); [|done]. by intros [= <-].
Qed.

Lemma traced_run_setup w budget m s :
  serves m s -> traced_run m w (Simulator.setup w true budget s).
Proof.
  intros Hs.
  rewrite (setup_serves w true budget m s (Simulator.new (Some m)) Hs (serves_new m)).
  unfold traced_run, initial_configuration. repeat split.
  - by intros [|[|i]] c [= <-].
  - by intros [|i] c c' Hc Hc'.
Qed.

Lemma traced_run_pass w m s s1 :
  traced_run m w s ->
  Simulator.machine_ s = Some m ->
  Simulator.step s = (true, s1) ->
  Simulator.get_step_count s1 = (Simulator.get_step_count s + 1)%N ->
  traced_run m w (Simulator.add_to_trace (Simulator.mark_configuration_as_visited s1)).
Proof.
  intros (Hen & Hfirst & Hlast & Hlen & Hnum & Hlink) Hm Hstep Hcount.
  destruct (step_keeps s s1 Hstep) as (_ & _ & Hen1 & Htr1 & _).
  pose proof (next_configuration_step m s s1 Hm Hstep) as Hnext.
  rewrite last_lookup in Hlast.
  assert (Hpos : (0 < length (Simulator.trace_ s))%nat) by lia.
  unfold traced_run, Simulator.add_to_trace, Simulator.get_step_count in *.
  cbn -[Configuration.to_compact_string]. rewrite Hen1, Hen.
  cbn -[Configuration.to_compact_string]. rewrite Htr1.
  split; [done|]. split; [by rewrite lookup_app_l|].
  split; [by rewrite last_snoc|].
  split; [rewrite length_app; simpl; lia|]. split.
  - intros i c Hi. apply lookup_app_Some in Hi as [Hi|[Hge Hi]]; [by apply Hnum|].
    apply list_lookup_singleton_Some in Hi as [Hi <-]. lia.
  - intros i c c' Hi Hi'. apply lookup_app_Some in Hi' as [Hi'|[Hge Hi']].
    + apply (Hlink i c c'); [|done]. apply lookup_lt_Some in Hi'.
      by rewrite lookup_app_l in Hi by lia.
    + apply list_lookup_singleton_Some in Hi' as [Hi' <-].
      rewrite lookup_app_l in Hi by lia.
      replace i with (pred (length (Simulator.trace_ s))) in Hi by lia.
      rewrite Hlast in Hi. by injection Hi as <-.
Qed.

(** Where the loop returns: the trace is still a run with pairwise
    distinct fingerprints, and either ends with the current configuration
    (a run that returns INFINITE then has used up its budget), or the
    result is INFINITE and the current configuration follows the last
    entry and repeats the fingerprint of an entry. *)
Lemma main_loop_traced fuel w m : forall s r s',
  traced_run m w s ->
  trace_invariant s ->
  Simulator.machine_ s = Some m ->
  Simulator.main_loop fuel s = Some (r, s') ->
  (Simulator.get_step_count s + N.of_nat fuel < SIZE_MAX_plus_1)%N ->
  (traced_run m w s' /\ trace_invariant s'
   /\ (r = INFINITE -> Simulator.budget_exhausted s' = true))
  \/ (r = INFINITE
      /\ exists s1,
           traced_run m w s1 /\ trace_invariant s1
           /\ Simulator.trace_ s' = Simulator.trace_ s1
           /\ next_configuration m (Simulator.current_config_ s1)
              = Some (Simulator.current_config_ s')
           /\ Simulator.get_step_count s' = (Simulator.get_step_count s1 + 1)%N
           /\ Configuration.to_compact_string (Simulator.current_config_ s')
              ∈ trace_fingerprints s1).
Proof.
  induction fuel as [|fuel IH]; intros s r s' Hrun_inv Hinv Hm Hrun Hfuel; [done|].
  cbn [Simulator.main_loop] in Hrun.
  assert (Hsucc : size_t_succ (Simulator.get_step_count s)
                  = (Simulator.get_step_count s + 1)%N)
    by (apply size_t_succ_small; lia).
  destruct (loop_body_spec s) as [Hb|Hb Ha|Hb Ha Ht|s1 Hb Ha Ht Hs Hc Hv|s1 Hb Ha Ht Hs Hc Hv];
    try (injection Hrun as <- <-; by left).
  - injection Hrun as <- <-. right. split; [done|]. exists s.
    destruct (step_keeps s s1 Hs) as (_ & _ & _ & Htr1 & Hvis1 & _).
    split; [done|]. split; [done|]. split; [done|].
    split; [by apply next_configuration_step|]. split; [by rewrite Hc|].
    destruct Hinv as (_ & Hvis & _). apply Hvis. rewrite <- Hvis1.
    unfold Simulator.is_configuration_visited in Hv. by apply bool_decide_eq_true in Hv.
  - destruct (step_keeps s s1 Hs) as (Hm1 & _).
    destruct (pass_keeps s1) as (Hm2 & _ & Hc2).
    rewrite Hsucc in Hc.
    apply (IH _ _ _ (traced_run_pass w m s s1 Hrun_inv Hm Hs Hc)
              (trace_invariant_pass s s1 Hinv Hs Hv)); [congruence|done|].
    rewrite step_count_after_pass, Hc. lia.
Qed.

Lemma simulate_traced fuel w budget m s r s' :
  serves m s ->
  Simulator.simulate fuel w true budget s = Some (r, s') ->
  r <> ERROR ->
  (N.of_nat fuel < SIZE_MAX_plus_1)%N ->
  (traced_run m w s' /\ trace_invariant s'
   /\ (r = INFINITE -> Simulator.budget_exhausted s' = true))
  \/ (r = INFINITE
      /\ exists s1,
           traced_run m w s1 /\ trace_invariant s1
           /\ Simulator.trace_ s' = Simulator.trace_ s1
           /\ next_configuration m (Simulator.current_config_ s1)
              = Some (Simulator.current_config_ s')
           /\ Simulator.get_step_count s' = (Simulator.get_step_count s1 + 1)%N
           /\ Configuration.to_compact_string (Simulator.current_config_ s')
              ∈ trace_fingerprints s1).
Proof.
  intros Hs Hrun Hr Hfuel.
  destruct (simulate_not_error _ _ _ _ _ _ _ Hrun Hr) as (m' & Hm' & _ & _ & Hloop).
  assert (m' = m) as -> by (destruct Hs as [Hm _]; congruence).
  destruct (setup_facts w true budget s m Hm') as (Hcount & _ & Hm0 & _).
  apply (main_loop_traced fuel w m (Simulator.setup w true budget s));
    [by apply traced_run_setup|by apply (trace_invariant_setup _ _ _ m)|done|done|].
  rewrite Hcount. lia.
Qed.

End Traces.

(** X4. With the trace enabled, the trace a run leaves behind is a run of
    the machine: its first entry is the initial configuration for the
    word, entry [i] has step count [i], and each entry is what one call of
    [step] makes of the entry before it. The final configuration is the
    last entry, except when the run ends on a repeated fingerprint: then
    the result is INFINITE and the final configuration is the successor
    of the last entry and is not in the trace. *)
Theorem trace_is_a_run
    (fuel : nat) (w : string) (budget : N) (m : TuringMachine.t) (s s' : Simulator.t)
    (r : SimulationResult) :
  serves m s ->
  Simulator.simulate fuel w true budget s = Some (r, s') ->
  r <> ERROR ->
  (N.of_nat fuel < SIZE_MAX_plus_1)%N ->
  Simulator.trace_ s' !! 0%nat = Some (initial_configuration m w)
  /\ (forall i c, Simulator.trace_ s' !! i = Some c ->
                  Configuration.step_count_ c = N.of_nat i)
  /\ (forall i c c',
        Simulator.trace_ s' !! i = Some c -> Simulator.trace_ s' !! S i = Some c' ->
        next_configuration m c = Some c')
  /\ ((last (Simulator.trace_ s') = Some (Simulator.current_config_ s')
       /\ N.of_nat (length (Simulator.trace_ s')) = (Simulator.get_step_count s' + 1)%N)
      \/ (r = INFINITE
          /\ (exists c, last (Simulator.trace_ s') = Some c
                        /\ next_configuration m c = Some (Simulator.current_config_ s'))
          /\ N.of_nat (length (Simulator.trace_ s')) = Simulator.get_step_count s')).
Proof.
  intros Hs Hrun Hr Hfuel.
  destruct (simulate_traced fuel w budget m s r s' Hs Hrun Hr Hfuel)
    as [(Hfin & _)|(-> & s1 & Hfin & _ & Htr & Hnext & Hc & _)].
  - destruct Hfin as (_ & Hfirst & Hlast & Hlen & Hnum & Hlink).
    split; [done|]. split; [done|]. split; [done|]. by left.
  - destruct Hfin as (_ & Hfirst & Hlast & Hlen & Hnum & Hlink). rewrite Htr.
    split; [done|]. split; [done|]. split; [done|]. right. split; [done|].
    split; [by eexists|]. lia.
Qed.

Lemma trace_is_a_run_witness :
  exists s',
    Simulator.simulate 5 "a" true 10 (Simulator.new (Some one_step_acceptor))
      = Some (ACCEPTED, s')
    /\ Simulator.trace_ s' !! 0%nat = Some (initial_configuration one_step_acceptor "a")
    /\ last (Simulator.trace_ s') = Some (Simulator.current_config_ s').
Proof.
  destruct (Simulator.simulate 5 "a" true 10 (Simulator.new (Some one_step_acceptor)))
    as [[r s']|] eqn:E; [|by vm_compute in E].
  assert (Hr : r = ACCEPTED) by (vm_compute in E; by injection E).
  subst r.
  destruct (trace_is_a_run 5 "a" 10 one_step_acceptor _ s' ACCEPTED
              (serves_new one_step_acceptor) E) as (Hfirst & _ & _ & Hlast);
    [discriminate|by vm_compute|].
  exists s'. split; [reflexivity|]. split; [exact Hfirst|].
  destruct Hlast as [[Hlast _]|[Hinf _]]; [exact Hlast|discriminate Hinf].
Defined.

(** X5. With the trace enabled, the fingerprints of the traced
    configurations are pairwise distinct, and a run that returns INFINITE
    either has used up its budget or has reached a configuration with the
    fingerprint of an earlier configuration of the run, which the trace
    holds. *)
Theorem infinite_means_budget_or_repetition
    (fuel : nat) (w : string) (budget : N) (m : TuringMachine.t) (s s' : Simulator.t)
    (r : SimulationResult) :
  serves m s ->
  Simulator.simulate fuel w true budget s = Some (r, s') ->
  r <> ERROR ->
  (N.of_nat fuel < SIZE_MAX_plus_1)%N ->
  NoDup (trace_fingerprints s')
  /\ (r = INFINITE ->
      Simulator.budget_exhausted s' = true
      \/ exists i c,
           Simulator.trace_ s' !! i = Some c
           /\ (Configuration.step_count_ c < Simulator.get_step_count s')%N
           /\ Configuration.to_compact_string c
              = Configuration.to_compact_string (Simulator.current_config_ s')).
Proof.
  intros Hs Hrun Hr Hfuel.
  destruct (simulate_traced fuel w budget m s r s' Hs Hrun Hr Hfuel)
    as [(_ & Hinv & Hb)|(-> & s1 & Hfin & Hinv & Htr & _ & Hc & Hin)].
  - split; [apply Hinv|]. intros Hinf. left. by apply Hb.
  - unfold trace_fingerprints in *. rewrite Htr. split; [apply Hinv|]. intros _. right.
    apply list_elem_of_fmap in Hin as (c & Hkey & Hin).
    apply list_elem_of_lookup in Hin as [i Hi]. exists i, c.
    destruct Hfin as (_ & _ & _ & Hlen & Hnum & _).
    split; [done|]. split; [|done].
    rewrite (Hnum i c Hi). apply lookup_lt_Some in Hi. lia.
Qed.

Lemma infinite_means_budget_or_repetition_witness :
  exists s',
    Simulator.simulate 10 "" true 3 (Simulator.new (Some right_runner)) = Some (INFINITE, s')
    /\ NoDup (trace_fingerprints s')
    /\ Simulator.budget_exhausted s' = true.
Proof.
  destruct (Simulator.simulate 10 "" true 3 (Simulator.new (Some right_runner)))
    as [[r s']|] eqn:E; [|by vm_compute in E].
  assert (Hr : r = INFINITE) by (vm_compute in E; by injection E).
  subst r.
  destruct (infinite_means_budget_or_repetition 10 "" 3 right_runner _ s' INFINITE
              (serves_new right_runner) E) as (Hnd & Hinf);
    [discriminate|by vm_compute|].
  exists s'. split; [reflexivity|]. split; [exact Hnd|].
  vm_compute in E. injection E as <-. reflexivity.
Defined.

(** ** Runs of the multi-tape simulator *)

Section MultiRuns.

Implicit Types (s : MultiSimulator.t) (m : MultiTuringMachine.t).

Lemma multi_step_counts s s1 :
  MultiSimulator.step s = Ok (true, s1) ->
  MultiSimulator.get_step_count s1 = size_t_succ (MultiSimulator.get_step_count s)
  /\ MultiSimulator.max_steps_ s1 = MultiSimulator.max_steps_ s.
Proof.
  unfold MultiSimulator.step. destruct (MultiSimulator.machine_ s); [|done].
  destruct (MultiSimulator.current_symbols s); simpl; [|done..].
  destruct (MultiTuringMachine.get_transition _ _ _); [|done].
  destruct (MultiSimulator.finish _); simpl; [|done..].
  destruct (MultiSimulator.finish _); simpl; [|done..].
  by intros [= <-].
Qed.

Lemma multi_pass_counts s s2 :
  MultiSimulator.loop_body s = Ok (inr s2) ->
  MultiSimulator.budget_exhausted s = false
  /\ MultiSimulator.get_step_count s2 = size_t_succ (MultiSimulator.get_step_count s)
  /\ MultiSimulator.max_steps_ s2 = MultiSimulator.max_steps_ s.
Proof.
  unfold MultiSimulator.loop_body.
  destruct (MultiSimulator.budget_exhausted s); [done|].
  destruct (MultiSimulator.is_accepting_state s) as [[|]| |]; simpl; [done| |done..].
  destruct (MultiSimulator.has_applicable_transition s) as [[|]| |]; simpl; [|done..].
  destruct (MultiSimulator.step s) as [[[|] s1]| |] eqn:Hstep; simpl; [|done..].
  destruct (multi_step_counts s s1 Hstep) as [Hc Hmax].
  unfold MultiSimulator.is_configuration_visited, MultiSimulator.mark_configuration_as_visited.
  destruct (MultiSimulator.get_configuration_key s1); simpl; [|done..].
  destruct (bool_decide _); [done|]. intros [= <-]. split; [done|].
  unfold MultiSimulator.add_to_trace, MultiSimulator.get_step_count in *. simpl.
  by destruct (MultiSimulator.trace_enabled_ s1).
Qed.

(** Under a budget [0 < budget < 2^64] the loop of the multi-tape
    simulator returns within [budget + 1] passes, by a [return]. *)
Lemma multi_main_loop_terminates (n : nat) : forall s,
  ready s ->
  (0 < MultiSimulator.max_steps_ s < SIZE_MAX_plus_1)%N ->
  (MultiSimulator.get_step_count s <= MultiSimulator.max_steps_ s)%N ->
  N.to_nat (MultiSimulator.max_steps_ s - MultiSimulator.get_step_count s) = n ->
  exists r s', MultiSimulator.main_loop (S n) s = Some (Ok (r, s')) /\ r <> ERROR.
Proof.
  induction n as [|n IH]; intros s Hready Hbudget Hle Hn; cbn [MultiSimulator.main_loop].
  - assert (Hb : MultiSimulator.budget_exhausted s = true).
    { unfold MultiSimulator.budget_exhausted. apply andb_true_iff. split.
      - apply N.ltb_lt. lia.
      - apply N.leb_le. lia. }
    unfold MultiSimulator.loop_body. rewrite Hb. by eexists _, _.
  - destruct (loop_body_ready s Hready) as [(r & s' & -> & Hr)|(s2 & Hpass & Hr2)];
      [by eexists _, _|].
    rewrite Hpass. destruct (multi_pass_counts s s2 Hpass) as (Hb & Hc & Hmax).
    assert (Hlt : (MultiSimulator.get_step_count s < MultiSimulator.max_steps_ s)%N).
    { unfold MultiSimulator.budget_exhausted in Hb.
      apply andb_false_iff in Hb as [Hb|Hb]; [apply N.ltb_ge in Hb; lia|].
      by apply N.leb_gt in Hb. }
    rewrite size_t_succ_small in Hc by lia.
    apply (IH s2 Hr2); rewrite ?Hmax, ?Hc; lia.
Qed.

Lemma multi_main_loop_more_fuel fuel : forall fuel' s x,
  MultiSimulator.main_loop fuel s = Some x -> (fuel <= fuel')%nat ->
  MultiSimulator.main_loop fuel' s = Some x.
Proof.
  induction fuel as [|fuel IH]; intros fuel' s x Hrun Hle; [done|].
  destruct fuel' as [|fuel']; [lia|]. cbn [MultiSimulator.main_loop] in *.
  destruct (MultiSimulator.loop_body s) as [[y|s2]| |]; [done| |done..].
  apply IH; [done|lia].
Qed.

Lemma simulate_well_built_returns fuel w tr budget s m :
  MultiSimulator.machine_ s = Some m -> well_built m ->
  reservable (MultiTuringMachine.num_tapes_ m) ->
  (0 < budget < SIZE_MAX_plus_1)%N ->
  (N.to_nat budget < fuel)%nat ->
  exists r s', MultiSimulator.simulate fuel w tr budget s = Some (Ok (r, s')).
Proof.
  intros Hm Hbuilt Hres Hbudget Hfuel. unfold MultiSimulator.simulate. rewrite Hm.
  destruct (is_valid_returns m (proj2 Hbuilt)) as [[|] ->]; [|by eexists _, _].
  destruct (negb _); [by eexists _, _|].
  destruct (setup_ready w tr budget s m Hm Hbuilt Hres) as (s0 & Hsetup & Hready).
  destruct (multi_setup_facts w tr budget s m Hm (proj1 Hbuilt) Hres)
    as (s0' & Hsetup' & Hcount & Hmax & _).
  rewrite Hsetup in Hsetup'. injection Hsetup' as <-. rewrite Hsetup.
  destruct (multi_main_loop_terminates (N.to_nat budget) s0 Hready)
    as (r & s' & Hrun & _); [rewrite Hmax; lia|rewrite Hcount; lia|
      rewrite Hcount, Hmax; f_equal; lia|].
  exists r, s'. apply (multi_main_loop_more_fuel (S (N.to_nat budget))); [done|lia].
Qed.

(** The constructor of [MultiSimulator] returns for a machine with a
    number of tapes, other than 0, that [reserve] accepts. *)
Lemma multi_new_returns m :
  MultiTuringMachine.num_tapes_ m <> 0%nat ->
  reservable (MultiTuringMachine.num_tapes_ m) ->
  exists s, MultiSimulator.new (Some m) = Ok s /\ MultiSimulator.machine_ s = Some m.
Proof.
  intros Hk Hres. unfold MultiSimulator.new, MultiConfiguration.new.
  rewrite (construct_with_reservable 1) by (by vm_compute).
  rewrite construct_with_reservable by done. unfold MultiTape.new_with. simpl.
  rewrite decide_False by done. simpl. by eexists.
Qed.

(** The number of tapes the loader makes of the [int] in the MULTICINTA
    line, by conversion to [size_t]: a positive number gives a count
    within the bound, a negative number a count above [PTRDIFF_MAX]. *)
Lemma count_of_positive_int (v : Z) :
  0 < v <= INT_MAX -> reservable (Z.to_nat (v mod 2 ^ 64)).
Proof.
  unfold reservable, INT_MAX. intros H. rewrite Z.mod_small by lia. lia.
Qed.

Lemma count_of_negative_int (v : Z) :
  INT_MIN <= v < 0 -> PTRDIFF_MAX < Z.of_nat (Z.to_nat (v mod 2 ^ 64)).
Proof.
  unfold INT_MIN, PTRDIFF_MAX. intros H.
  rewrite <- (Z.mod_add v 1 (2 ^ 64)) by lia. rewrite Z.mod_small by lia. lia.
Qed.

(** For a number of tapes above [PTRDIFF_MAX], such as the [2^64 - 1] a
    machine file with the line [MULTICINTA -1] gives, the constructor of
    [MultiSimulator] throws [std::length_error]. *)
Lemma multi_new_too_many m :
  PTRDIFF_MAX < Z.of_nat (MultiTuringMachine.num_tapes_ m) ->
  MultiSimulator.new (Some m) = Throw (length_error VectorReserve).
Proof.
  intros Hk. unfold MultiSimulator.new, MultiConfiguration.new.
  rewrite (construct_with_reservable 1) by (by vm_compute).
  by rewrite (construct_with_too_many _ _ _ Hk).
Qed.

End MultiRuns.

(** X6. A machine assembled with the public builders of
    [MultiTuringMachine], from transitions the checking constructor of
    [MultiTransition] returned (or default-constructed ones, which are
    refused), and left with a number of tapes that [reserve] accepts (at
    most [INT_MAX]), is simulated without an exception and without an
    unchecked access past the end of a vector: the constructor of
    [MultiSimulator] returns, and within any number of passes
    [MultiSimulator::simulate] is still running or has returned one of the
    four results. (Failure to allocate the tapes is outside the model.) *)
Theorem multi_simulator_never_throws
    (k : nat) (b : ascii) (ops : list MultiTuringMachine.builder_op)
    (m0 : MultiTuringMachine.t) :
  MultiTuringMachine.new k b = Ok m0 ->
  Forall constructible ops ->
  reservable (MultiTuringMachine.num_tapes_ (MultiTuringMachine.apply_ops ops m0)) ->
  exists s,
    MultiSimulator.new (Some (MultiTuringMachine.apply_ops ops m0)) = Ok s
    /\ forall fuel w tr budget,
         MultiSimulator.simulate fuel w tr budget s = None
         \/ exists r s', MultiSimulator.simulate fuel w tr budget s = Some (Ok (r, s')).
Proof.
  intros Hnew Hops Hres.
  pose proof (apply_ops_well_built ops m0 Hops (well_built_new k b m0 Hnew)) as Hbuilt.
  set (m := MultiTuringMachine.apply_ops ops m0) in *.
  destruct (multi_new_returns m (proj1 Hbuilt) Hres) as (s & Hs & Hm).
  exists s. split; [done|]. intros fuel w tr budget.
  by apply (simulate_well_built fuel w tr budget _ m).
Qed.

Lemma multi_simulator_never_throws_witness :
  exists s,
    MultiSimulator.new
      (Some (MultiTuringMachine.apply_ops
               [MultiTuringMachine.SetInitialState "q";
                MultiTuringMachine.AddTransition
                  (MultiTransition.mk "q" ["."; "."]%char "q" ["a"; "."]%char [RIGHT; STAY]);
                MultiTuringMachine.AddTransition MultiTransition.empty]
               (MultiTuringMachine.mk ∅ ∅ {[ "."%char ]} "" ∅ "." 2 ∅))) = Ok s
    /\ forall fuel w tr budget,
         MultiSimulator.simulate fuel w tr budget s = None
         \/ exists r s', MultiSimulator.simulate fuel w tr budget s = Some (Ok (r, s')).
Proof.
  apply (multi_simulator_never_throws 2 ".").
  - reflexivity.
  - apply Forall_cons. split; [exact I|].
    apply Forall_cons. split; [by left|].
    apply Forall_cons. split; [by right|]. by apply Forall_nil.
  - by vm_compute.
Defined.

(** X7. For such a machine (assembled with the builders from checked
    transitions, with a number of tapes that [reserve] accepts) and a step
    budget [0 < budget < 2^64], [MultiSimulator::simulate] returns one of
    the four results after at most [budget + 1] passes through its
    loop. *)
Theorem multi_simulate_returns_within_budget
    (k : nat) (b : ascii) (ops : list MultiTuringMachine.builder_op)
    (m0 : MultiTuringMachine.t) (fuel : nat) (w : string) (tr : bool) (budget : N) :
  MultiTuringMachine.new k b = Ok m0 ->
  Forall constructible ops ->
  reservable (MultiTuringMachine.num_tapes_ (MultiTuringMachine.apply_ops ops m0)) ->
  (0 < budget < SIZE_MAX_plus_1)%N ->
  (N.to_nat budget < fuel)%nat ->
  exists s r s',
    MultiSimulator.new (Some (MultiTuringMachine.apply_ops ops m0)) = Ok s
    /\ MultiSimulator.simulate fuel w tr budget s = Some (Ok (r, s')).
Proof.
  intros Hnew Hops Hres Hbudget Hfuel.
  pose proof (apply_ops_well_built ops m0 Hops (well_built_new k b m0 Hnew)) as Hbuilt.
  set (m := MultiTuringMachine.apply_ops ops m0) in *.
  destruct (multi_new_returns m (proj1 Hbuilt) Hres) as (s & Hs & Hm).
  destruct (simulate_well_built_returns fuel w tr budget s m Hm Hbuilt Hres Hbudget Hfuel)
    as (r & s' & Hrun).
  by exists s, r, s'.
Qed.

Lemma multi_simulate_returns_within_budget_witness :
  exists s r s',
    MultiSimulator.new
      (Some (MultiTuringMachine.apply_ops
               [MultiTuringMachine.SetInitialState "q";
                MultiTuringMachine.AddTransition
                  (MultiTransition.mk "q" ["."; "."]%char "q" ["a"; "."]%char [RIGHT; STAY])]
               (MultiTuringMachine.mk ∅ ∅ {[ "."%char ]} "" ∅ "." 2 ∅))) = Ok s
    /\ MultiSimulator.simulate 4 "" false 3 s = Some (Ok (r, s')).
Proof.
  apply (multi_simulate_returns_within_budget 2 "." _ _ 4 "" false 3).
  - reflexivity.
  - apply Forall_cons. split; [exact I|].
    apply Forall_cons. split; [by left|]. by apply Forall_nil.
  - by vm_compute.
  - by vm_compute.
  - by vm_compute.
Defined.

(** ** The tape as a display of the input word *)

Section TapeContents.

Implicit Types (tp : Tape.t) (cells : gmap Z ascii) (w : string) (b c : ascii).

(** The cells the loop of [Tape::reset] leaves: the characters of the
    input at their indices, the blank ones left out. *)
Lemma reset_loop_lookup b w : forall (i : Z) cells (p : Z),
  (forall k, i <= k -> cells !! k = None) ->
  Tape.reset_loop b w i cells !! p
  = if decide (i <= p < i + Z.of_nat (String.length w))
    then match String.get (Z.to_nat (p - i)) w with
         | Some c => if decide (c = b) then None else Some c
         | None => None
         end
    else cells !! p.
Proof.
  induction w as [|a rest IH]; intros i cells p Hfree.
  - simpl. by destruct (decide _) as [Hin|_]; [lia|].
  - cbn [Tape.reset_loop String.length]. rewrite IH.
    + destruct (decide (i + 1 <= p < i + 1 + Z.of_nat (String.length rest))) as [Hin|Hout];
        destruct (decide (i <= p < i + Z.of_nat (S (String.length rest)))) as [Hin'|Hout'];
        try lia.
      * replace (Z.to_nat (p - i)) with (S (Z.to_nat (p - (i + 1)))) by lia. done.
      * assert (p = i) as -> by lia. replace (i - i) with 0 by lia. simpl.
        destruct (decide (a = b)); [apply Hfree; lia|by rewrite lookup_insert_eq].
      * destruct (decide (a = b)); [done|]. rewrite lookup_insert_ne by lia. done.
    + intros k Hk. destruct (decide (a = b)); [apply Hfree; lia|].
      rewrite lookup_insert_ne by lia. apply Hfree. lia.
Qed.

Lemma new_with_lookup w b (p : Z) :
  Tape.cells_ (Tape.new_with w b) !! p
  = if decide (0 <= p < Z.of_nat (String.length w))
    then match String.get (Z.to_nat p) w with
         | Some c => if decide (c = b) then None else Some c
         | None => None
         end
    else None.
Proof.
  unfold Tape.new_with, Tape.reset. simpl. rewrite reset_loop_lookup by done.
  rewrite Z.sub_0_r, Z.add_0_l. by destruct (decide _).
Qed.

Lemma get_in_range w (i : nat) : (i < String.length w)%nat -> is_Some (String.get i w).
Proof.
  revert i. induction w as [|a rest IH]; intros i Hi; simpl in Hi; [lia|].
  destruct i as [|i]; simpl; [by eexists|]. apply IH. lia.
Qed.

Lemma get_out_of_range w (i : nat) : (String.length w <= i)%nat -> String.get i w = None.
Proof.
  revert i. induction w as [|a rest IH]; intros i Hi; [by destruct i|].
  simpl in Hi. destruct i as [|i]; [lia|]. simpl. apply IH. lia.
Qed.

End TapeContents.

(** X8. A tape constructed from a word shows the word: the cell at
    position [p] holds the character [p] of the word for
    [0 <= p < length], and the blank symbol everywhere else; the head is
    at position 0 and reads the first character (the blank symbol on the
    empty word). *)
Theorem new_with_shows_the_word (w : string) (b : ascii) :
  (forall p : Z,
     Tape.symbol_at (Tape.new_with w b) p
     = match String.get (Z.to_nat p) w with
       | Some c => if decide (0 <= p) then c else b
       | None => b
       end)
  /\ Tape.get_head_position (Tape.new_with w b) = 0
  /\ Tape.read (Tape.new_with w b)
     = match w with EmptyString => b | String c _ => c end.
Proof.
  assert (Hshow : forall p : Z,
            Tape.symbol_at (Tape.new_with w b) p
            = match String.get (Z.to_nat p) w with
              | Some c => if decide (0 <= p) then c else b
              | None => b
              end).
  { intros p. rewrite symbol_at_eq, new_with_lookup.
    change (Tape.blank_symbol_ (Tape.new_with w b)) with b.
    destruct (decide (0 <= p < Z.of_nat (String.length w))) as [Hin|Hout].
    - destruct (get_in_range w (Z.to_nat p)) as [c ->]; [lia|].
      destruct (decide (0 <= p)); [|lia]. by destruct (decide (c = b)) as [->|].
    - destruct (decide (0 <= p)); [|by destruct (String.get _ _)].
      by rewrite get_out_of_range by lia. }
  split; [exact Hshow|]. split; [done|].
  change (Tape.read (Tape.new_with w b)) with (Tape.symbol_at (Tape.new_with w b) 0).
  rewrite Hshow. by destruct w.
Qed.

(** X9. For a word that neither begins nor ends with the blank symbol,
    [get_content] of the tape constructed from it returns the word (blank
    symbols inside the word included). *)
Theorem get_content_of_new_with (w : string) (b : ascii) :
  String.get 0 w <> Some b ->
  String.get (pred (String.length w)) w <> Some b ->
  Tape.get_content (Tape.new_with w b) = w.
Proof.
  intros Hfirst Hlast. set (n := String.length w).
  destruct (decide (n = 0%nat)) as [Hn|Hn].
  { destruct w; [done|by simpl in Hn]. }
  assert (Hkeys : forall k, is_Some (Tape.cells_ (Tape.new_with w b) !! k) ->
                            0 <= k < Z.of_nat n).
  { intros k. rewrite new_with_lookup. fold n.
    destruct (decide (0 <= k < Z.of_nat n)); [done|by intros [? ?]]. }
  assert (H0 : is_Some (Tape.cells_ (Tape.new_with w b) !! 0)).
  { rewrite new_with_lookup. fold n. rewrite decide_True by lia.
    destruct (get_in_range w 0) as [c Hc]; [fold n; lia|].
    change (Z.to_nat 0) with 0%nat. rewrite Hc.
    destruct (decide (c = b)) as [->|]; [done|by eexists]. }
  assert (Hn1 : is_Some (Tape.cells_ (Tape.new_with w b) !! (Z.of_nat n - 1))).
  { rewrite new_with_lookup. fold n. rewrite decide_True by lia.
    replace (Z.to_nat (Z.of_nat n - 1)) with (pred n) by lia.
    destruct (get_in_range w (pred n)) as [c Hc]; [fold n; lia|]. rewrite Hc.
    destruct (decide (c = b)) as [->|]; [done|by eexists]. }
  unfold Tape.get_content.
  destruct (Tape.min_pos _) as [lo|] eqn:Hlo;
    [|apply min_pos_None in Hlo; rewrite Hlo, lookup_empty in H0; by destruct H0].
  destruct (Tape.max_pos _) as [hi|] eqn:Hhi;
    [|apply max_pos_None in Hhi; rewrite Hhi, lookup_empty in H0; by destruct H0].
  destruct (min_pos_spec _ _ Hlo) as [Hlo_in Hlo_le].
  destruct (max_pos_spec _ _ Hhi) as [Hhi_in Hhi_ge].
  assert (lo = 0) as -> by (specialize (Hlo_le 0 H0); specialize (Hkeys lo Hlo_in); lia).
  assert (hi = Z.of_nat n - 1) as ->
    by (specialize (Hhi_ge _ Hn1); specialize (Hkeys hi Hhi_in); lia).
  replace (Z.to_nat (Z.of_nat n - 1 - 0 + 1)) with n by lia.
  apply String.get_correct. intros i.
  destruct (decide (i < n)%nat) as [Hi|Hi].
  - rewrite content_loop_get by done. rewrite Z.add_0_l, new_with_lookup. fold n.
    rewrite decide_True by lia. rewrite Nat2Z.id.
    destruct (get_in_range w i Hi) as [c ->].
    change (Tape.blank_symbol_ (Tape.new_with w b)) with b.
    by destruct (decide (c = b)) as [->|].
  - rewrite !get_out_of_range; [done|fold n; lia|rewrite content_loop_length; lia].
Qed.

Lemma get_content_of_new_with_witness :
  Tape.get_content (Tape.new_with "a.b" ".") = "a.b".
Proof. apply (get_content_of_new_with "a.b" "."); discriminate. Defined.

Section TapeDisplay.

Implicit Types (tp : Tape.t) (pos : Z).

Lemma to_string_loop_unfold tp pos count :
  Tape.to_string_loop tp pos (S count)
  = String (if decide (pos = Tape.head_position_ tp) then "[" else " ")%char
      (String (Tape.symbol_at tp pos)
         (String (if decide (pos = Tape.head_position_ tp) then "]" else " ")%char
            (Tape.to_string_loop tp (pos + 1) count))).
Proof.
  cbn [Tape.to_string_loop]. rewrite symbol_at_eq.
  by destruct (decide (pos = Tape.head_position_ tp)).
Qed.

Lemma to_string_loop_length tp count : forall pos,
  String.length (Tape.to_string_loop tp pos count) = (3 * count)%nat.
Proof.
  induction count as [|count IH]; intros pos; [done|].
  rewrite to_string_loop_unfold. cbn [String.length]. rewrite IH. lia.
Qed.

Lemma to_string_loop_get tp count : forall pos (j : nat),
  (j < count)%nat ->
  String.get (3 * j) (Tape.to_string_loop tp pos count)
  = Some (if decide (pos + Z.of_nat j = Tape.head_position_ tp) then "[" else " ")%char
  /\ String.get (3 * j + 1) (Tape.to_string_loop tp pos count)
     = Some (Tape.symbol_at tp (pos + Z.of_nat j))
  /\ String.get (3 * j + 2) (Tape.to_string_loop tp pos count)
     = Some (if decide (pos + Z.of_nat j = Tape.head_position_ tp) then "]" else " ")%char.
Proof.
  induction count as [|count IH]; intros pos j Hj; [lia|].
  rewrite to_string_loop_unfold. destruct j as [|j].
  - rewrite Z.add_0_r. done.
  - replace (3 * S j)%nat with (S (S (S (3 * j)))) by lia.
    replace (pos + Z.of_nat (S j)) with (pos + 1 + Z.of_nat j) by lia.
    cbn [String.get Nat.add]. apply IH. lia.
Qed.

End TapeDisplay.

(** X10. [Tape::to_string(window_size)], for a window that lies inside
    [int] ([window_size >= 0], [head - window_size >= INT_MIN] and
    [head + window_size < INT_MAX], so that neither bound nor the counter
    of the loop overflows), shows the [2 * window_size + 1] cells around
    the head, three characters for each: the cell at offset [j] of the
    window between two spaces, the cell under the head (the middle one)
    between brackets. *)
Theorem to_string_shows_the_window (window_size : Z) (tp : Tape.t) :
  0 <= window_size ->
  INT_MIN <= Tape.get_head_position tp - window_size ->
  Tape.get_head_position tp + window_size < INT_MAX ->
  exists text,
    Tape.to_string window_size tp = Ok text
    /\ String.length text = Z.to_nat (3 * (2 * window_size + 1))
    /\ forall j : nat,
         Z.of_nat j <= 2 * window_size ->
         String.get (3 * j) text
         = Some (if decide (Z.of_nat j = window_size) then "[" else " ")%char
         /\ String.get (3 * j + 1) text
            = Some (Tape.symbol_at tp
                      (Tape.get_head_position tp - window_size + Z.of_nat j))
         /\ String.get (3 * j + 2) text
            = Some (if decide (Z.of_nat j = window_size) then "]" else " ")%char.
Proof.
  unfold Tape.get_head_position. intros Hw Hlo Hhi. unfold Tape.to_string.
  destruct (Z.leb_spec INT_MIN (Tape.head_position_ tp - window_size)); [|lia].
  destruct (Z.leb_spec (Tape.head_position_ tp - window_size) INT_MAX); [|lia].
  destruct (Z.leb_spec INT_MIN (Tape.head_position_ tp + window_size)); [|lia].
  destruct (Z.leb_spec (Tape.head_position_ tp + window_size) INT_MAX); [|lia].
  destruct (Z.leb_spec INT_MAX (Tape.head_position_ tp + window_size)); [lia|].
  rewrite andb_false_r. cbn [andb negb]. eexists. split; [reflexivity|]. split.
  - rewrite to_string_loop_length. lia.
  - intros j Hj.
    destruct (to_string_loop_get tp
                (Z.to_nat (Tape.head_position_ tp + window_size
                           - (Tape.head_position_ tp - window_size) + 1))
                (Tape.head_position_ tp - window_size) j) as (Ha & Hb & Hc); [lia|].
    rewrite Ha, Hb, Hc.
    destruct (decide (Z.of_nat j = window_size)) as [Heq|Hne];
      destruct (decide (Tape.head_position_ tp - window_size + Z.of_nat j
                        = Tape.head_position_ tp)) as [Heq'|Hne']; try lia.
    + done.
    + done.
Qed.

Lemma to_string_shows_the_window_witness :
  exists text,
    Tape.to_string 1 sample_tape = Ok text
    /\ String.length text = 9%nat
    /\ String.get 4 text = Some (Tape.read sample_tape).
Proof.
  destruct (to_string_shows_the_window 1 sample_tape) as (text & Hrun & Hlen & Hget);
    [lia|by vm_compute..|].
  exists text. split; [exact Hrun|]. split; [exact Hlen|].
  destruct (Hget 1%nat) as (_ & Hmid & _); [lia|]. exact Hmid.
Defined.

(** ** Operations on one tape of several *)

Section MultiTapeLocality.

Implicit Types (mt : MultiTape.t) (i j : nat).

Lemma update_tape_frame (f : Tape.t -> Tape.t) mt i :
  MultiTape.well_formed mt -> (i < MultiTape.num_tapes_ mt)%nat ->
  exists tp mt',
    MultiTape.get_tape mt i = Ok tp
    /\ MultiTape.update_tape f i mt = Done mt'
    /\ MultiTape.well_formed mt'
    /\ MultiTape.num_tapes_ mt' = MultiTape.num_tapes_ mt
    /\ MultiTape.get_tape mt' i = Ok (f tp)
    /\ forall j, j <> i -> MultiTape.get_tape mt' j = MultiTape.get_tape mt j.
Proof.
  intros WF Hi.
  destruct (lookup_lt_is_Some_2 (MultiTape.tapes_ mt) i) as [tp Htp]; [rewrite WF; lia|].
  exists tp. eexists. unfold MultiTape.get_tape.
  split; [by apply (on_tape_in_range (fun tp0 => tp0) mt i tp)|].
  split; [by apply update_tape_in_range|].
  split; [unfold MultiTape.well_formed in *; simpl; by rewrite length_insert|].
  split; [done|]. split.
  - apply (on_tape_in_range (fun tp0 => tp0)); [done|]. simpl.
    apply list_lookup_insert_eq. rewrite WF. lia.
  - intros j Hj. unfold MultiTape.on_tape, MultiTape.is_valid_tape_index, at_index. simpl.
    by rewrite list_lookup_insert_ne by done.
Qed.

End MultiTapeLocality.

(** X11. On a [MultiTape] whose [num_tapes_] is the size of [tapes_], an
    operation on the tape with a valid index [i] acts on that tape alone:
    after [write(i, c)], [read(i)] returns [c] and the head of tape [i]
    has not moved; after [move(i, movement)] the head of tape [i] has
    moved by one cell (or not at all for STAY) and its content is
    unchanged; in both cases every other tape is as it was. The head
    position is an [int]: it moves from [h] to [h - 1] or [h + 1] when
    that is a value of [int], and the 32-bit register wraps round from
    [INT_MAX] to [INT_MIN] and back. *)
Theorem multitape_operations_are_local
    (mt : MultiTape.t) (i : nat) (c : ascii) (movement : Movement) :
  MultiTape.well_formed mt ->
  (i < MultiTape.num_tapes_ mt)%nat ->
  exists tp,
    MultiTape.get_tape mt i = Ok tp
    /\ (exists mt',
          MultiTape.write i c mt = Done mt'
          /\ MultiTape.read mt' i = Ok c
          /\ MultiTape.get_head_position mt' i = Ok (Tape.get_head_position tp)
          /\ forall j, j <> i -> MultiTape.get_tape mt' j = MultiTape.get_tape mt j)
    /\ (exists mt',
          MultiTape.move i movement mt = Done mt'
          /\ MultiTape.get_head_position mt' i
             = Ok (match movement with
                   | LEFT => int_wrap (Tape.get_head_position tp - 1)
                   | RIGHT => int_wrap (Tape.get_head_position tp + 1)
                   | STAY => Tape.get_head_position tp
                   end)
          /\ (let target :=
                Tape.get_head_position tp
                + match movement with LEFT => -1 | RIGHT => 1 | STAY => 0 end in
              INT_MIN <= target <= INT_MAX ->
              MultiTape.get_head_position mt' i = Ok target)
          /\ MultiTape.get_tape_content mt' i = Ok (Tape.get_content tp)
          /\ forall j, j <> i -> MultiTape.get_tape mt' j = MultiTape.get_tape mt j).
Proof.
  intros WF Hi.
  destruct (update_tape_frame (Tape.write c) mt i WF Hi)
    as (tp & mt1 & Htp & Hw & WF1 & Hk1 & Hget1 & Hrest1).
  destruct (update_tape_frame (Tape.moved movement) mt i WF Hi)
    as (tp' & mt2 & Htp' & Hm & WF2 & Hk2 & Hget2 & Hrest2).
  rewrite Htp in Htp'. injection Htp' as <-.
  assert (Hon : forall (A : Type) (g : Tape.t -> A) mt0 tp0,
            MultiTape.get_tape mt0 i = Ok tp0 -> MultiTape.on_tape g mt0 i = Ok (g tp0)).
  { intros A g mt0 tp0. unfold MultiTape.get_tape, MultiTape.on_tape.
    destruct (negb _); [done|]. destruct (at_index _ _); simpl; [|done..].
    by intros [= ->]. }
  exists tp. split; [done|]. split.
  - exists mt1. split; [exact Hw|].
    unfold MultiTape.read, MultiTape.get_head_position.
    rewrite !(Hon _ _ mt1 _ Hget1). split; [by rewrite read_write|].
    split; [by rewrite head_write|done].
  - exists mt2. split; [exact Hm|].
    unfold MultiTape.get_head_position, MultiTape.get_tape_content.
    rewrite !(Hon _ _ mt2 _ Hget2). split; [|split; [|split; [|done]]].
    + f_equal. unfold Tape.get_head_position. by destruct movement.
    + intros Hrange. f_equal. unfold Tape.get_head_position in *.
      destruct movement; simpl.
      * rewrite int_wrap_in_range by lia. lia.
      * rewrite int_wrap_in_range by lia. lia.
      * lia.
    + f_equal. apply get_content_ext; by destruct movement.
Qed.

Lemma multitape_operations_are_local_witness :
  exists tp,
    MultiTape.get_tape two_tapes 1 = Ok tp
    /\ (exists mt',
          MultiTape.write 1 "x" two_tapes = Done mt'
          /\ MultiTape.read mt' 1 = Ok "x"%char
          /\ MultiTape.get_tape mt' 0 = MultiTape.get_tape two_tapes 0)
    /\ (exists mt',
          MultiTape.move 1 RIGHT two_tapes = Done mt'
          /\ MultiTape.get_head_position mt' 1 = Ok 1
          /\ MultiTape.get_tape mt' 0 = MultiTape.get_tape two_tapes 0).
Proof.
  destruct (multitape_operations_are_local two_tapes 1 "x" RIGHT)
    as (tp & Htp & (mt1 & Hw & Hr & _ & Hrest1) & (mt2 & Hm & _ & Hhead & _ & Hrest2));
    [reflexivity|simpl; lia|].
  exists tp. split; [exact Htp|].
  change (MultiTape.get_tape two_tapes 1) with (Ok (Tape.new ".")) in Htp.
  injection Htp as <-. split.
  - exists mt1. split; [exact Hw|]. split; [exact Hr|]. by apply Hrest1.
  - exists mt2. split; [exact Hm|]. split; [|by apply Hrest2].
    apply Hhead. by vm_compute.
Defined.

(** X12. [MultiTape::reset(word)] puts the object into the state the
    constructor [MultiTape(num_tapes, word, blank)] builds, provided the
    object has [num_tapes_ = tapes_.size() > 0] and all its tapes share the
    blank symbol [blank]. *)
Theorem multitape_reset_is_reconstruction (mt : MultiTape.t) (w : string) (b : ascii) :
  MultiTape.well_formed mt ->
  MultiTape.num_tapes_ mt <> 0%nat ->
  Forall (fun tp => Tape.blank_symbol_ tp = b) (MultiTape.tapes_ mt) ->
  MultiTape.new_with (MultiTape.num_tapes_ mt) w b = Ok (MultiTape.reset w mt).
Proof.
  destruct mt as [tapes k]. unfold MultiTape.well_formed, MultiTape.new_with,
    MultiTape.reset. simpl. intros <- Hk Hblank.
  destruct (decide _) as [|_]; [done|].
  destruct tapes as [|first others]; [done|].
  apply Forall_cons in Hblank as [Hfirst Hothers]. simpl. rewrite Nat.sub_0_r.
  do 2 f_equal. f_equal.
  - unfold Tape.new_with, Tape.reset. simpl. by rewrite Hfirst.
  - clear Hk Hfirst. induction Hothers as [|tp others Htp _ IH]; [done|].
    simpl. rewrite <- IH. f_equal. unfold Tape.reset, Tape.new. simpl. by rewrite Htp.
Qed.

Lemma multitape_reset_is_reconstruction_witness :
  MultiTape.new_with 2 "ba" "." = Ok (MultiTape.reset "ba" two_tapes).
Proof.
  apply (multitape_reset_is_reconstruction two_tapes "ba" ".").
  - reflexivity.
  - discriminate.
  - by repeat constructor.
Defined.

(** ** The class invariant of [TuringMachine] and what [is_valid] checks *)

Section ClassInvariant.

Implicit Types (m : TuringMachine.t).

Lemma class_invariant_new b : class_invariant (TuringMachine.new b).
Proof.
  unfold class_invariant. simpl.
  split; [set_solver|]. split; [set_solver|]. split; [set_solver|].
  split; [done|]. split; [set_solver|]. intros key tr H. by rewrite lookup_empty in H.
Qed.

Lemma class_invariant_clear m : class_invariant (TuringMachine.clear m).
Proof.
  unfold class_invariant. simpl.
  split; [set_solver|]. split; [set_solver|]. split; [set_solver|].
  split; [done|]. split; [set_solver|]. intros key tr H. by rewrite lookup_empty in H.
Qed.

(** A machine that has grown, with the transitions it had. *)
Lemma class_invariant_extend m m' :
  class_invariant m ->
  TuringMachine.states_ m ⊆ TuringMachine.states_ m' ->
  ("" ∉ TuringMachine.states_ m') ->
  TuringMachine.tape_alphabet_ m ⊆ TuringMachine.tape_alphabet_ m' ->
  TuringMachine.blank_symbol_ m' ∈ TuringMachine.tape_alphabet_ m' ->
  TuringMachine.input_alphabet_ m' ⊆ TuringMachine.tape_alphabet_ m' ->
  (TuringMachine.initial_state_ m' <> "" ->
   TuringMachine.initial_state_ m' ∈ TuringMachine.states_ m') ->
  (forall q, q ∈ TuringMachine.accept_states_ m' -> q <> "" ->
             q ∈ TuringMachine.states_ m') ->
  TuringMachine.transitions_ m' = TuringMachine.transitions_ m ->
  class_invariant m'.
Proof.
  intros (_ & _ & _ & _ & _ & Htr) Hq Hne Hg Hb Hi Hinit Hacc Hsame.
  repeat (split; [done|]). rewrite Hsame. intros key tr Hk.
  destruct (Htr key tr Hk) as (Hkey & Hf & Ht & Hr & Hw).
  split; [done|]. split; [by apply Hq|]. split; [by apply Hq|]. split; by apply Hg.
Qed.

Lemma add_state_invariant q : preserves class_invariant (TuringMachine.add_state q).
Proof.
  intros m Hm. pose proof Hm as (H1 & H2 & H3 & H4 & H5 & _).
  unfold TuringMachine.add_state. destruct (decide _) as [|Hq]; simpl; [done|].
  apply (class_invariant_extend m); simpl; try done.
  - set_solver.
  - intros Hin. apply elem_of_union in Hin as [Hin|Hin]; [|done].
    by apply elem_of_singleton in Hin.
  - intros Hinit. apply elem_of_union_r. by apply H4.
  - intros q' Hq' Hne. apply elem_of_union_r. by apply H5.
Qed.

Lemma add_tape_symbol_invariant c :
  preserves class_invariant (TuringMachine.add_tape_symbol c).
Proof.
  intros m Hm. pose proof Hm as (H1 & H2 & H3 & H4 & H5 & _). simpl.
  apply (class_invariant_extend m); simpl; try done.
  - set_solver.
  - by apply elem_of_union_r.
  - intros x Hx. by apply elem_of_union_r, H3.
Qed.

Lemma add_input_symbol_invariant c :
  preserves class_invariant (TuringMachine.add_input_symbol c).
Proof.
  intros m Hm. pose proof Hm as (H1 & H2 & H3 & H4 & H5 & _).
  unfold TuringMachine.add_input_symbol. destruct (decide _); simpl; [done|].
  apply (class_invariant_extend m); simpl; try done.
  - set_solver.
  - by apply elem_of_union_r.
  - intros x Hx. apply elem_of_union in Hx as [Hx|Hx];
      [by apply elem_of_union_l|by apply elem_of_union_r, H3].
Qed.

Lemma set_blank_symbol_invariant c :
  preserves class_invariant (TuringMachine.set_blank_symbol c).
Proof.
  intros m Hm. pose proof Hm as (H1 & H2 & H3 & H4 & H5 & _).
  unfold TuringMachine.set_blank_symbol. destruct (decide _); simpl; [|done].
  apply (class_invariant_extend m); simpl; try done.
  - set_solver.
  - apply elem_of_union_l. by apply elem_of_singleton.
  - intros x Hx. by apply elem_of_union_r, H3.
Qed.

Lemma set_initial_state_invariant q :
  preserves class_invariant (TuringMachine.set_initial_state q).
Proof.
  intros m Hm. pose proof Hm as (H1 & H2 & H3 & H4 & H5 & _).
  unfold TuringMachine.set_initial_state, TuringMachine.add_state.
  destruct (decide _) as [->|Hq]; simpl.
  - by apply (class_invariant_extend m).
  - apply (class_invariant_extend m); simpl; try done.
    + set_solver.
    + intros Hin. apply elem_of_union in Hin as [Hin|Hin]; [|done].
      by apply elem_of_singleton in Hin.
    + intros _. apply elem_of_union_l. by apply elem_of_singleton.
    + intros q' Hq' Hne. apply elem_of_union_r. by apply H5.
Qed.

Lemma add_accept_state_invariant q :
  preserves class_invariant (TuringMachine.add_accept_state q).
Proof.
  intros m Hm. pose proof Hm as (H1 & H2 & H3 & H4 & H5 & _).
  unfold TuringMachine.add_accept_state, TuringMachine.add_state.
  destruct (decide _) as [->|Hq]; simpl.
  - apply (class_invariant_extend m); simpl; try done.
    intros q' Hq' Hne. apply elem_of_union in Hq' as [Hq'|Hq']; [|by apply H5].
    by apply elem_of_singleton in Hq'.
  - apply (class_invariant_extend m); simpl; try done.
    + set_solver.
    + intros Hin. apply elem_of_union in Hin as [Hin|Hin]; [|done].
      by apply elem_of_singleton in Hin.
    + intros Hinit. apply elem_of_union_r. by apply H4.
    + intros q' Hq' Hne. apply elem_of_union in Hq' as [Hq'|Hq'].
      * by apply elem_of_union_l.
      * apply elem_of_union_r. by apply H5.
Qed.

Lemma add_transition_invariant tr :
  preserves class_invariant (TuringMachine.add_transition tr).
Proof.
  intros m Hm. unfold TuringMachine.add_transition.
  destruct (decide _) as [|Hfrom]; [done|]. destruct (decide _) as [|Hto]; [done|].
  apply dec_stable in Hfrom. apply dec_stable in Hto.
  pose proof (add_tape_symbol_invariant (Transition.read_symbol_ tr) m Hm) as Hm1.
  simpl in Hm1.
  pose proof (add_tape_symbol_invariant (Transition.write_symbol_ tr) _ Hm1) as Hm2.
  simpl in *. destruct (_ !! _) eqn:Hfree; [done|]. simpl.
  destruct Hm2 as (H1 & H2 & H3 & H4 & H5 & H6).
  repeat (split; [done|]). simpl. intros key tr' Hk.
  apply lookup_insert_Some in Hk as [[<- <-]|[_ Hk]]; [|by apply H6].
  simpl. split; [done|]. split; [done|]. split; [done|].
  split; [apply elem_of_union_r|]; apply elem_of_union_l; by apply elem_of_singleton.
Qed.

Lemma apply_op_invariant op : preserves class_invariant (TuringMachine.apply_op op).
Proof.
  destruct op; intros m Hm; cbn [TuringMachine.apply_op];
    [ by apply add_state_invariant | by apply add_input_symbol_invariant
    | by apply add_tape_symbol_invariant | by apply set_initial_state_invariant
    | by apply add_accept_state_invariant | by apply set_blank_symbol_invariant
    | by apply add_transition_invariant | apply class_invariant_clear ].
Qed.

Lemma apply_ops_invariant ops : forall m,
  class_invariant m -> class_invariant (TuringMachine.apply_ops ops m).
Proof.
  unfold TuringMachine.apply_ops.
  induction ops as [|op ops IH]; intros m Hm; simpl; [done|].
  apply IH, holds_object_after; [done|]. by apply apply_op_invariant.
Qed.

Lemma forallb_elements `{Countable A} (f : A -> bool) (X : gset A) :
  forallb f (elements X) = true <-> forall x, x ∈ X -> f x = true.
Proof.
  rewrite forallb_forall. split.
  - intros Hall x Hx. apply Hall, list_elem_of_In. by apply elem_of_elements.
  - intros Hall x Hx. apply Hall. apply list_elem_of_In in Hx. by apply elem_of_elements in Hx.
Qed.

(** Under the class invariant, [is_valid] depends on three things only. *)
Lemma is_valid_under_invariant m :
  class_invariant m ->
  TuringMachine.is_valid m = true
  <-> TuringMachine.initial_state_ m <> ""
      /\ ("" ∉ TuringMachine.accept_states_ m)
      /\ (TuringMachine.blank_symbol_ m ∉ TuringMachine.input_alphabet_ m).
Proof.
  intros (H1 & H2 & H3 & H4 & H5 & H6). unfold TuringMachine.is_valid.
  destruct (decide (TuringMachine.initial_state_ m = "")) as [Hinit|Hinit].
  { rewrite (bool_decide_true (TuringMachine.initial_state_ m = "")) by done.
    destruct (bool_decide (TuringMachine.states_ m = ∅)); simpl; by split; [|intros [? _]]. }
  specialize (H4 Hinit).
  rewrite (bool_decide_false (TuringMachine.states_ m = ∅))
    by (intros Hempty; rewrite Hempty in H4; by apply not_elem_of_empty in H4).
  rewrite (bool_decide_false (TuringMachine.initial_state_ m = "")) by done.
  rewrite (bool_decide_false (TuringMachine.initial_state_ m ∉ _)) by (by intros Hn; apply Hn).
  simpl. rewrite (bool_decide_false (TuringMachine.blank_symbol_ m ∉ _))
    by (by intros Hn; apply Hn).
  destruct (forallb _ (elements (TuringMachine.accept_states_ m))) eqn:Hacc; simpl.
  - pose proof (proj1 (forallb_elements _ _) Hacc) as Hall.
    assert (Hne : "" ∉ TuringMachine.accept_states_ m).
    { intros Hin. specialize (Hall "" Hin). apply bool_decide_eq_true in Hall. done. }
    destruct (forallb _ (elements (TuringMachine.input_alphabet_ m))) eqn:Hin; simpl.
    + pose proof (proj1 (forallb_elements _ _) Hin) as Hall'.
      assert (Hb : TuringMachine.blank_symbol_ m ∉ TuringMachine.input_alphabet_ m).
      { intros Hb. specialize (Hall' _ Hb). apply andb_true_iff in Hall' as [_ Hall'].
        apply negb_true_iff, bool_decide_eq_false in Hall'. done. }
      split; [done|]. intros _. apply forallb_forall. intros [key tr] Hk.
      apply list_elem_of_In, elem_of_map_to_list in Hk.
      destruct (H6 key tr Hk) as (_ & ? & ? & ? & ?). simpl.
      by rewrite !bool_decide_true by done.
    + split; [done|]. intros (_ & _ & Hb). exfalso.
      assert (Hall' : forallb (fun c => bool_decide (c ∈ TuringMachine.tape_alphabet_ m)
                         && negb (bool_decide (c = TuringMachine.blank_symbol_ m)))
                        (elements (TuringMachine.input_alphabet_ m)) = true); [|congruence].
      apply forallb_elements. intros c Hc. apply andb_true_iff. split.
      * apply bool_decide_eq_true. by apply H3.
      * apply negb_true_iff, bool_decide_eq_false. by intros ->.
  - split; [done|]. intros (_ & Hne & _). exfalso.
    assert (Hall : forallb (fun q => bool_decide (q ∈ TuringMachine.states_ m))
                     (elements (TuringMachine.accept_states_ m)) = true); [|congruence].
    apply forallb_elements. intros q Hq. apply bool_decide_eq_true.
    apply H5; [done|]. by intros ->.
Qed.

End ClassInvariant.

(** X13. For every [TuringMachine] object, however it was built from the
    constructor by calls of its member functions (throwing calls
    included), [is_valid] answers true exactly when an initial state has
    been set, the empty name is not among the accepting states and the
    blank symbol is not in the input alphabet: its checks on the state set,
    on the tape alphabet and on the transitions can never fail. *)
Theorem is_valid_fails_for_three_reasons_only
    (b : ascii) (ops : list TuringMachine.builder_op) :
  let m := TuringMachine.apply_ops ops (TuringMachine.new b) in
  TuringMachine.is_valid m = true
  <-> TuringMachine.initial_state_ m <> ""
      /\ ("" ∉ TuringMachine.accept_states_ m)
      /\ (TuringMachine.blank_symbol_ m ∉ TuringMachine.input_alphabet_ m).
Proof.
  intros m. apply is_valid_under_invariant, apply_ops_invariant, class_invariant_new.
Qed.

(** ** Tokens *)

Section Tokens.

Implicit Types (s t acc rest gap line : string) (c : ascii) (tokens : list string).

Lemma append_associative s t rest : (s +:+ t) +:+ rest = s +:+ (t +:+ rest).
Proof. induction s as [|c s IH]; [done|]. by rewrite !append_cons, IH. Qed.

Lemma append_empty_r s : s +:+ "" = s.
Proof. induction s as [|c s IH]; [done|]. by rewrite append_cons, IH. Qed.

Lemma occurs_append c s t : occurs c (s +:+ t) <-> occurs c s \/ occurs c t.
Proof.
  unfold occurs. induction s as [|a s IH]; simpl.
  - rewrite append_nil. split; [by right|by intros [[]|]].
  - rewrite IH. split.
    + intros [->|[H|H]]; [left; by left|left; by right|by right].
    + intros [[->|H]|H]; [by left|right; by left|right; by right].
Qed.

Lemma whitespace_free_empty : whitespace_free "".
Proof. by intros c []. Qed.

Lemma whitespace_free_cons c s :
  whitespace_free (String c s) <-> Parser.isspace c = false /\ whitespace_free s.
Proof.
  unfold whitespace_free, occurs. simpl. split.
  - intros H. split; [apply H; by left|intros a Ha; apply H; by right].
  - intros [Hc Hs] a [<-|Ha]; [done|by apply Hs].
Qed.

Lemma whitespace_free_append s t :
  whitespace_free (s +:+ t) <-> whitespace_free s /\ whitespace_free t.
Proof.
  unfold whitespace_free. split.
  - intros H. split; intros c Hc; apply H, occurs_append; [by left|by right].
  - intros [Hs Ht] c Hc. apply occurs_append in Hc as [Hc|Hc]; [by apply Hs|by apply Ht].
Qed.

Lemma snoc_not_empty acc c : acc +:+ String c "" <> "".
Proof. by destruct acc. Qed.

(** What [split] returns are tokens. *)
Lemma split_loop_tokens s : forall acc,
  whitespace_free acc -> Forall token (Parser.split_loop s acc).
Proof.
  induction s as [|c s IH]; intros acc Hacc; cbn [Parser.split_loop].
  - destruct (decide (acc = "")); [by apply Forall_nil|]. by apply Forall_singleton.
  - destruct (Parser.isspace c) eqn:Hc.
    + destruct (decide (acc = "")); [apply IH, whitespace_free_empty|].
      apply Forall_cons. split; [done|]. apply IH, whitespace_free_empty.
    + apply IH. apply whitespace_free_append. split; [done|].
      apply whitespace_free_cons. split; [done|apply whitespace_free_empty].
Qed.

(** The tokens of a line, glued together, are the line without its white
    space. *)
Lemma split_loop_glued s : forall acc,
  glued (Parser.split_loop s acc) = acc +:+ Main.strip_spaces s.
Proof.
  induction s as [|c s IH]; intros acc; cbn [Parser.split_loop Main.strip_spaces].
  - destruct (decide (acc = "")) as [->|]; [done|]. done.
  - destruct (Parser.isspace c) eqn:Hc; simpl.
    + destruct (decide (acc = "")) as [->|]; [by rewrite IH|].
      unfold glued in *. simpl. by rewrite IH.
    + by rewrite IH, append_associative.
Qed.

(** Reading a word without white space extends the token being read. *)
Lemma split_loop_word t : forall rest acc,
  whitespace_free t ->
  Parser.split_loop (t +:+ rest) acc = Parser.split_loop rest (acc +:+ t).
Proof.
  induction t as [|c t IH]; intros rest acc Ht.
  - by rewrite append_nil, append_empty_r.
  - apply whitespace_free_cons in Ht as [Hc Ht].
    rewrite append_cons. cbn [Parser.split_loop]. rewrite Hc, IH by done.
    by rewrite append_associative.
Qed.

Lemma split_loop_token_then_space t rest :
  token t ->
  Parser.split_loop (t +:+ " " +:+ rest) "" = t :: Parser.split_loop rest "".
Proof.
  intros [Hne Ht]. rewrite split_loop_word by done. rewrite append_nil.
  change (" " +:+ rest) with (String " " rest).
  cbn [Parser.split_loop]. change (Parser.isspace " ") with true.
  by destruct (decide (t = "")).
Qed.

Lemma split_loop_last_token t :
  token t -> Parser.split_loop t "" = [t].
Proof.
  intros [Hne Ht]. rewrite <- (append_empty_r t) at 1.
  rewrite split_loop_word by done. rewrite append_nil.
  cbn [Parser.split_loop]. by destruct (decide (t = "")).
Qed.

Lemma token_char c : Parser.isspace c = false -> token (String c "").
Proof.
  intros Hc. split; [done|]. apply whitespace_free_cons. split; [done|].
  apply whitespace_free_empty.
Qed.

Lemma blank_run_empty : blank_run "".
Proof. by intros c []. Qed.

Lemma blank_run_cons c s :
  blank_run (String c s) <-> Parser.isspace c = true /\ blank_run s.
Proof.
  unfold blank_run, occurs. simpl. split.
  - intros H. split; [apply H; by left|intros a Ha; apply H; by right].
  - intros [Hc Hs] a [<-|Ha]; [done|by apply Hs].
Qed.

(** White space in front of a line does not change its tokens. *)
Lemma spaced_after_space c line tokens :
  Parser.isspace c = true -> spaced line tokens -> spaced (String c line) tokens.
Proof.
  intros Hc Hline. destruct Hline as [gap Hgap|gap t rest tokens Hgap Ht Hend Hrest].
  - apply spaced_end. by apply blank_run_cons.
  - change (String c (gap +:+ t +:+ rest)) with (String c gap +:+ t +:+ rest).
    apply spaced_token; [by apply blank_run_cons|done..].
Qed.

(** The line loop of [split], with the token being read in [acc]: what it
    returns are the tokens of the line that begins with [acc]. *)
Lemma split_loop_spaced s : forall acc,
  whitespace_free acc -> spaced (acc +:+ s) (Parser.split_loop s acc).
Proof.
  induction s as [|c s IH]; intros acc Hacc; cbn [Parser.split_loop].
  - rewrite append_empty_r. destruct (decide (acc = "")) as [->|Hne].
    + apply spaced_end, blank_run_empty.
    + rewrite <- (append_empty_r acc) at 1. change (acc +:+ "") with ("" +:+ acc +:+ "").
      apply spaced_token; [apply blank_run_empty|done|by left|].
      apply spaced_end, blank_run_empty.
  - destruct (Parser.isspace c) eqn:Hc.
    + destruct (decide (acc = "")) as [->|Hne].
      * rewrite append_nil. apply spaced_after_space; [done|].
        rewrite <- (append_nil s) at 1. apply IH, whitespace_free_empty.
      * change (acc +:+ String c s) with ("" +:+ acc +:+ String c s).
        apply spaced_token; [apply blank_run_empty|done|right; by exists c, s|].
        apply spaced_after_space; [done|].
        rewrite <- (append_nil s) at 1. apply IH, whitespace_free_empty.
    + replace (acc +:+ String c s) with ((acc +:+ String c "") +:+ s)
        by (by rewrite append_associative).
      apply IH. apply whitespace_free_append. split; [done|].
      apply whitespace_free_cons. split; [done|apply whitespace_free_empty].
Qed.

(** [split] skips the white space in front of a line. *)
Lemma split_loop_gap gap : forall rest,
  blank_run gap -> Parser.split_loop (gap +:+ rest) "" = Parser.split_loop rest "".
Proof.
  induction gap as [|c gap IH]; intros rest Hgap; [by rewrite append_nil|].
  apply blank_run_cons in Hgap as [Hc Hgap].
  rewrite append_cons. cbn [Parser.split_loop]. rewrite Hc.
  rewrite decide_True by done. by apply IH.
Qed.

(** The tokens of a line are determined by the line. *)
Lemma spaced_split line tokens :
  spaced line tokens -> Parser.split_loop line "" = tokens.
Proof.
  induction 1 as [gap Hgap|gap t rest tokens Hgap Ht Hend _ IH].
  - rewrite <- (append_empty_r gap). by rewrite split_loop_gap.
  - rewrite split_loop_gap by done. destruct Ht as [Hne Hfree].
    rewrite split_loop_word by done. rewrite append_nil.
    destruct Hend as [->|(c & rest' & -> & Hc)].
    + cbn [Parser.split_loop] in *. rewrite decide_False by done.
      rewrite decide_True in IH by done. by rewrite <- IH.
    + cbn [Parser.split_loop] in *. rewrite Hc in *. rewrite decide_False by done.
      rewrite decide_True in IH by done. by rewrite IH.
Qed.

End Tokens.

(** X14. [Parser::split] returns the maximal runs of characters that are
    not white space. The line is made of the tokens returned, in their
    order, and of white space: white space (possibly none) in front of
    each token, each token followed by white space or by the end of the
    line, and nothing but white space after the last token; and the tokens
    returned are the only list of tokens of which that is true. So every
    token is non-empty and holds no white-space character, and the tokens
    glued together are the line with all white space removed, which is
    what [strip_spaces] of [main] computes. *)
Theorem split_yields_tokens (line : string) :
  spaced line (Parser.split line)
  /\ (forall tokens, spaced line tokens -> tokens = Parser.split line)
  /\ Forall token (Parser.split line)
  /\ glued (Parser.split line) = Main.strip_spaces line
  /\ whitespace_free (Main.strip_spaces line).
Proof.
  split.
  { unfold Parser.split. rewrite <- (append_nil line) at 1.
    apply split_loop_spaced, whitespace_free_empty. }
  split; [intros tokens Htokens; symmetry; by apply spaced_split|].
  split; [apply split_loop_tokens, whitespace_free_empty|].
  assert (Hglued : glued (Parser.split line) = Main.strip_spaces line)
    by (unfold Parser.split; by rewrite split_loop_glued, append_nil).
  split; [done|]. rewrite <- Hglued. clear Hglued.
  pose proof (split_loop_tokens line "" whitespace_free_empty) as Htok.
  fold (Parser.split line) in Htok.
  induction Htok as [|t toks [_ Ht] _ IH]; [apply whitespace_free_empty|].
  unfold glued in *. simpl. apply whitespace_free_append. by split.
Qed.

(** X15. A transition written by [Transition::to_string] is read back by
    [Parser::parse_transition] as the same transition, whatever the line
    number, provided its two state names are non-empty and hold no white
    space and its two symbols are not white-space characters. *)
Theorem parse_transition_reads_to_string (tr : Transition.t) (line_number : Z) :
  token (Transition.from_state_ tr) ->
  token (Transition.to_state_ tr) ->
  Parser.isspace (Transition.read_symbol_ tr) = false ->
  Parser.isspace (Transition.write_symbol_ tr) = false ->
  Parser.parse_transition (Transition.to_string tr) line_number = Ok tr.
Proof.
  intros Hfrom Hto Hread Hwrite. unfold Parser.parse_transition, Parser.split,
    Transition.to_string.
  rewrite (split_loop_token_then_space _ _ Hfrom).
  rewrite (split_loop_token_then_space _ _ (token_char _ Hread)).
  rewrite (split_loop_token_then_space _ _ Hto).
  rewrite (split_loop_token_then_space _ _ (token_char _ Hwrite)).
  rewrite split_loop_last_token
    by (apply token_char; unfold Transition.movement_to_char;
        by destruct (Transition.movement_ tr)).
  destruct tr as [from r to w mov]. by destruct mov.
Qed.

Lemma parse_transition_reads_to_string_witness :
  Parser.parse_transition (Transition.to_string (Transition.mk "q0" "a" "q1" "b" LEFT)) 7
  = Ok (Transition.mk "q0" "a" "q1" "b" LEFT).
Proof.
  apply (parse_transition_reads_to_string (Transition.mk "q0" "a" "q1" "b" LEFT) 7).
  - split; [done|]. intros c Hc. vm_compute in Hc.
    by destruct Hc as [<-|[<-|[]]].
  - split; [done|]. intros c Hc. vm_compute in Hc.
    by destruct Hc as [<-|[<-|[]]].
  - reflexivity.
  - reflexivity.
Defined.

(** ** What the loader accepts *)

Section Loading.

Implicit Types (m machine : TuringMachine.t) (section : Z).

(** A builder that touches neither the accepting states nor the initial
    state keeps the invariant of the line loop. *)
Lemma loading_frame section (f : TuringMachine.t -> mutated TuringMachine.t) :
  preserves class_invariant f ->
  (forall m, holds_after (fun m' =>
               TuringMachine.accept_states_ m' = TuringMachine.accept_states_ m
               /\ TuringMachine.initial_state_ m' = TuringMachine.initial_state_ m) (f m)) ->
  preserves (loading section) f.
Proof.
  intros Hinv Hsame m (Hc & Ha & Hi). specialize (Hinv m Hc). specialize (Hsame m).
  destruct (f m) as [m'|e m'|]; simpl in *; [| |done];
    destruct Hsame as [Hacc Hinit]; (split; [done|]); by rewrite Hacc, Hinit.
Qed.

Lemma add_state_loading section q :
  preserves (loading section) (TuringMachine.add_state q).
Proof.
  apply loading_frame; [apply add_state_invariant|]. intros m.
  unfold TuringMachine.add_state. by destruct (decide _).
Qed.

Lemma add_input_symbol_loading section c :
  preserves (loading section) (TuringMachine.add_input_symbol c).
Proof.
  apply loading_frame; [apply add_input_symbol_invariant|]. intros m.
  unfold TuringMachine.add_input_symbol. by destruct (decide _).
Qed.

Lemma add_tape_symbol_loading section c :
  preserves (loading section) (TuringMachine.add_tape_symbol c).
Proof. apply loading_frame; [apply add_tape_symbol_invariant|]. by intros m. Qed.

Lemma set_blank_symbol_loading section c :
  preserves (loading section) (TuringMachine.set_blank_symbol c).
Proof.
  apply loading_frame; [apply set_blank_symbol_invariant|]. intros m.
  unfold TuringMachine.set_blank_symbol. by destruct (decide _).
Qed.

Lemma add_transition_loading section tr :
  preserves (loading section) (TuringMachine.add_transition tr).
Proof.
  apply loading_frame; [apply add_transition_invariant|]. intros m.
  unfold TuringMachine.add_transition.
  destruct (decide _); [done|]. destruct (decide _); [done|]. simpl.
  by destruct (_ !! _).
Qed.

Lemma add_accept_state_loading section q :
  q <> "" -> preserves (loading section) (TuringMachine.add_accept_state q).
Proof.
  intros Hq m (Hc & Ha & Hi). pose proof (add_accept_state_invariant q m Hc) as Hc'.
  unfold TuringMachine.add_accept_state, TuringMachine.add_state in *.
  rewrite decide_False in * by done. simpl in *. split; [done|]. split; [|done].
  simpl. intros Hin. apply elem_of_union in Hin as [Hin|Hin]; [|done].
  by apply elem_of_singleton in Hin.
Qed.

(** A loop over tokens, with a body that keeps the invariant on tokens. *)
Lemma for_each_tokens {S : Type} (P : S -> Prop) (body : string -> S -> mutated S) toks :
  Forall token toks ->
  (forall t, token t -> preserves P (body t)) ->
  preserves P (Parser.for_each body toks).
Proof.
  intros Htoks Hbody s Hs. unfold Parser.for_each.
  assert (Hgen : forall r, holds_after P r ->
            holds_after P (foldl (fun acc x => acc &> body x) r toks)); [|by apply Hgen].
  induction Htoks as [|t toks Ht _ IH]; intros r Hr; simpl; [done|].
  apply IH. apply holds_after_and_then; [done|]. by apply Hbody.
Qed.

Lemma parse_section_loading section line line_number m r section' m' :
  loading section m ->
  Parser.parse_section section line line_number m = (r, section') ->
  r = Done m' ->
  loading section' m'.
Proof.
  intros Hm Hparse ->. unfold Parser.parse_section in Hparse.
  pose proof (split_loop_tokens line "" whitespace_free_empty) as Htoks.
  fold (Parser.split line) in Htoks.
  assert (Hkeep : forall (f : TuringMachine.t -> mutated TuringMachine.t) k,
            (4 <= k -> 4 <= section) -> preserves (loading section) f -> f m = Done m' ->
            loading k m').
  { intros f k Hk Hf Hdone. specialize (Hf m Hm). rewrite Hdone in Hf.
    destruct Hf as (Hc & Ha & Hi). split; [done|]. split; [done|]. intros H4. by apply Hi, Hk. }
  repeat case_decide; subst.
  - destruct (Parser.split line) eqn:E; [by injection Hparse|].
    injection Hparse as Hr <-.
    apply (Hkeep (Parser.for_each TuringMachine.add_state (s :: l))); [lia| |done].
    apply preserves_for_each. intros q. apply add_state_loading.
  - injection Hparse as Hr <-.
    eapply (Hkeep (Parser.for_each _ _)); [lia| |exact Hr].
    apply preserves_for_each. intros tok. apply preserves_with_value.
    intros c. apply add_input_symbol_loading.
  - injection Hparse as Hr <-.
    eapply (Hkeep (Parser.for_each _ _)); [lia| |exact Hr].
    apply preserves_for_each. intros tok. apply preserves_with_value.
    intros c. apply add_tape_symbol_loading.
  - destruct (Parser.split line) as [|tok [|? ?]]; try (by injection Hparse).
    injection Hparse as Hr <-. destruct Hm as (Hc & Ha & _).
    pose proof (set_initial_state_invariant tok m Hc) as Hc'. rewrite Hr in Hc'.
    revert Hr. unfold TuringMachine.set_initial_state, TuringMachine.add_state.
    destruct (decide (tok = "")) as [|Hne]; [done|]. intros [= <-]. by split.
  - destruct (Parser.split line) as [|tok [|? ?]]; try (by injection Hparse).
    injection Hparse as Hr <-.
    eapply (Hkeep (with_value _ _)); [lia| |exact Hr].
    apply preserves_with_value. intros c. apply set_blank_symbol_loading.
  - injection Hparse as Hr <-.
    eapply (Hkeep (Parser.for_each _ _)); [lia| |exact Hr].
    apply for_each_tokens; [done|]. intros q [Hq _]. by apply add_accept_state_loading.
  - injection Hparse as Hr <-.
    eapply (Hkeep (fun m => Parser.rethrow (with_value _ _ m))); [lia| |exact Hr].
    apply preserves_rethrow, preserves_with_value. intros tr. apply add_transition_loading.
  - injection Hparse as Hr <-.
    eapply (Hkeep (fun m => Parser.rethrow (with_value _ _ m))); [lia| |exact Hr].
    apply preserves_rethrow, preserves_with_value. intros tr. apply add_transition_loading.
  - by injection Hparse as <- <-.
Qed.

Lemma parse_lines_loading input : forall line_number section m section' m',
  loading section m ->
  Parser.parse_lines input line_number section m = (Done m', section') ->
  loading section' m'.
Proof.
  induction input as [|line rest IH]; intros n section m section' m' Hinv; simpl.
  - by intros [= <- <-].
  - destruct (_ || _); [by apply IH|].
    destruct (Parser.parse_section section (Parser.trim line) (n + 1) m)
      as [[m1|e m1|] section1] eqn:E; [|done..].
    apply IH. by apply (parse_section_loading _ _ _ _ _ _ _ Hinv E).
Qed.

Lemma loading_clear machine : loading 0 (TuringMachine.clear machine).
Proof.
  split; [apply class_invariant_clear|]. split; [|lia]. simpl. set_solver.
Qed.

End Loading.

(** X16. When the lines of a file have all been read without an exception
    and the six sections were present, the final validation of
    [load_from_stream] can only fail because the blank symbol is in the
    input alphabet (declared there before the blank-symbol line changed
    the blank symbol): the load succeeds exactly when it is not. *)
Theorem load_fails_validation_only_for_blank_input
    (input : list string) (machine m' : TuringMachine.t) (section : Z) :
  Parser.parse_lines input 0 0 (TuringMachine.clear machine) = (Done m', section) ->
  6 <= section ->
  (Parser.loaded (Parser.load_from_stream input machine) = true
   <-> TuringMachine.blank_symbol_ m' ∉ TuringMachine.input_alphabet_ m')
  /\ Parser.machine_after (Parser.load_from_stream input machine) = m'.
Proof.
  intros Hparse Hsection.
  destruct (parse_lines_loading input 0 0 _ section m' (loading_clear machine) Hparse)
    as (Hc & Ha & Hi).
  unfold Parser.load_from_stream. rewrite Hparse.
  destruct (decide (section < 6)); [lia|].
  destruct (TuringMachine.is_valid m') eqn:Hv; simpl.
  - split; [|done]. split; [|done]. intros _.
    by apply (is_valid_under_invariant m' Hc) in Hv as (_ & _ & Hb).
  - split; [|done]. split; [done|]. intros Hb.
    assert (TuringMachine.is_valid m' = true); [|congruence].
    apply (is_valid_under_invariant m' Hc). split; [apply Hi; lia|done].
Qed.

Lemma load_fails_validation_only_for_blank_input_witness :
  Parser.loaded (Parser.load_from_stream ["q0"; "a"; "a"; "q0"; "a"; "q0"]
                   (TuringMachine.new ".")) = false.
Proof.
  destruct (Parser.parse_lines ["q0"; "a"; "a"; "q0"; "a"; "q0"] 0 0
              (TuringMachine.clear (TuringMachine.new "."))) as [r section] eqn:E.
  assert (Hs : section = 6) by (vm_compute in E; by injection E).
  destruct r as [m'|e m'|]; [|by vm_compute in E..].
  destruct (load_fails_validation_only_for_blank_input _ _ m' section E) as [Hiff _]; [lia|].
  apply not_true_is_false. intros Hloaded. apply Hiff in Hloaded. apply Hloaded.
  vm_compute in E. injection E as <- _. apply (bool_decide_unpack _). by vm_compute.
Defined.

Section ContentLines.

Implicit Types (m machine : TuringMachine.t) (section : Z) (input : list string).

Lemma parse_section_advance section line line_number m r section' :
  Parser.parse_section section line line_number m = (r, section') ->
  section <= section' <= section + 1.
Proof.
  unfold Parser.parse_section.
  repeat case_decide; try (intros [= _ <-]; lia);
    destruct (Parser.split line) as [|? [|? ?]]; intros [= _ <-]; lia.
Qed.

Lemma parse_lines_advance input : forall line_number section m r section',
  Parser.parse_lines input line_number section m = (r, section') ->
  section <= section' <= section + Z.of_nat (length (List.filter content_line input)).
Proof.
  induction input as [|line rest IH]; intros n section m r section'.
  - intros [= _ <-]. simpl. lia.
  - cbn [List.filter Parser.parse_lines].
    destruct (content_line line) eqn:Hc; unfold content_line in Hc.
    + apply negb_true_iff in Hc. rewrite Hc.
      destruct (Parser.parse_section section (Parser.trim line) (n + 1) m)
        as [[m1|e m1|] section1] eqn:E;
        pose proof (parse_section_advance _ _ _ _ _ _ E) as Hadv.
      * intros Hrest. apply IH in Hrest. cbn [length]. lia.
      * intros [= _ <-]. cbn [length]. lia.
      * intros [= _ <-]. cbn [length]. lia.
    + apply negb_false_iff in Hc. rewrite Hc. intros Hrest. by apply IH in Hrest.
Qed.

(** The line number reaches the messages only. *)
Lemma parse_transition_line_number line (n n' : Z) :
  match Parser.parse_transition line n, Parser.parse_transition line n' with
  | Ok tr, Ok tr' => tr = tr'
  | Throw _, Throw _ => True
  | Undefined, Undefined => True
  | _, _ => False
  end.
Proof.
  unfold Parser.parse_transition.
  destruct (Parser.split line) as [|t0 [|t1 [|t2 [|t3 [|t4 [|? ?]]]]]]; try done.
  destruct (Parser.string_to_char t1); simpl; [|done..].
  destruct (Parser.string_to_char t3); simpl; [|done..].
  destruct (Parser.string_to_char t4) as [c| |]; simpl; [|done..].
  by destruct (Transition.char_to_movement c).
Qed.

Lemma parse_section_line_number section line (n n' : Z) m :
  same_but_message (Parser.parse_section section line n m).1
                   (Parser.parse_section section line n' m).1
  /\ (Parser.parse_section section line n m).2 = (Parser.parse_section section line n' m).2.
Proof.
  assert (Hrefl : forall r : mutated TuringMachine.t, same_but_message r r)
    by (by intros [?|? ?|]).
  assert (Htr : same_but_message
            (Parser.rethrow (with_value (Parser.parse_transition line n)
                               TuringMachine.add_transition m))
            (Parser.rethrow (with_value (Parser.parse_transition line n')
                               TuringMachine.add_transition m))).
  { pose proof (parse_transition_line_number line n n') as H.
    destruct (Parser.parse_transition line n), (Parser.parse_transition line n');
      try done. subst. apply Hrefl. }
  unfold Parser.parse_section. repeat case_decide; simpl; try done;
    destruct (Parser.split line) as [|? [|? ?]]; simpl; by try split.
Qed.

Lemma parse_lines_skips input : forall (n n' : Z) section m,
  same_but_message (Parser.parse_lines (List.filter content_line input) n section m).1
                   (Parser.parse_lines input n' section m).1
  /\ (Parser.parse_lines (List.filter content_line input) n section m).2
     = (Parser.parse_lines input n' section m).2.
Proof.
  induction input as [|line rest IH]; intros n n' section m; [done|].
  cbn [List.filter]. destruct (content_line line) eqn:Hc; unfold content_line in Hc.
  - apply negb_true_iff in Hc. cbn [Parser.parse_lines]. rewrite Hc.
    destruct (parse_section_line_number section (Parser.trim line) (n + 1) (n' + 1) m)
      as [Hsame Hsec].
    destruct (Parser.parse_section section (Parser.trim line) (n + 1) m)
      as [[m1|e m1|] section1],
      (Parser.parse_section section (Parser.trim line) (n' + 1) m)
      as [[m1'|e' m1'|] section1']; simpl in *; try done; subst.
    apply IH.
  - apply negb_false_iff in Hc. cbn [Parser.parse_lines]. rewrite Hc. apply IH.
Qed.

End ContentLines.

(** X17. A machine file with fewer than six lines that are neither
    comments nor blank is never loaded: [load_from_stream] returns false
    on it, whatever the lines hold. *)
Theorem load_needs_six_content_lines (input : list string) (machine : TuringMachine.t) :
  (length (List.filter content_line input) < 6)%nat ->
  Parser.loaded (Parser.load_from_stream input machine) = false.
Proof.
  intros Hfew. unfold Parser.load_from_stream.
  destruct (Parser.parse_lines input 0 0 (TuringMachine.clear machine))
    as [[m'|e m'|] section] eqn:E; [|done..].
  apply parse_lines_advance in E. destruct (decide (section < 6)); [done|lia].
Qed.

Lemma load_needs_six_content_lines_witness :
  Parser.loaded
    (Parser.load_from_stream ["# a machine"; "q0 q1"; "a"; "a ."; ""; "q0"; "."]
       (TuringMachine.new ".")) = false.
Proof.
  apply (load_needs_six_content_lines _ (TuringMachine.new ".")). vm_compute. lia.
Defined.

(** X18. Comment lines and blank lines do not matter to the loader: the
    file without them is loaded, or refused, as the file with them is, and
    leaves the same machine in the object (the line numbers in the
    messages aside). *)
Theorem load_ignores_comments_and_blank_lines
    (input : list string) (machine : TuringMachine.t) :
  Parser.loaded (Parser.load_from_stream (List.filter content_line input) machine)
  = Parser.loaded (Parser.load_from_stream input machine)
  /\ Parser.machine_after (Parser.load_from_stream (List.filter content_line input) machine)
     = Parser.machine_after (Parser.load_from_stream input machine).
Proof.
  unfold Parser.load_from_stream.
  destruct (parse_lines_skips input 0 0 0 (TuringMachine.clear machine)) as [Hsame Hsec].
  destruct (Parser.parse_lines (List.filter content_line input) 0 0
              (TuringMachine.clear machine)) as [[m1|e1 m1|] section1],
    (Parser.parse_lines input 0 0 (TuringMachine.clear machine))
    as [[m2|e2 m2|] section2]; simpl in *; try done; by subst.
Qed.

(** ** Fingerprints and equivalence *)

(** X19. For single-tape configurations whose state names hold no bar,
    [to_compact_string] and [is_equivalent] agree: two configurations have
    the same fingerprint exactly when [is_equivalent] answers true, that
    is when they have the same state, head position and tape content. *)
Theorem fingerprint_agrees_with_is_equivalent (c1 c2 : Configuration.t) :
  no_bar (Configuration.current_state_ c1) ->
  no_bar (Configuration.current_state_ c2) ->
  Configuration.to_compact_string c1 = Configuration.to_compact_string c2
  <-> Configuration.is_equivalent c1 c2 = true.
Proof.
  intros H1 H2. unfold Configuration.is_equivalent. split.
  - intros Heq.
    destruct (to_compact_string_injective_without_bar c1 c2 H1 H2 Heq) as (Hs & Hh & Hc).
    rewrite !bool_decide_true by done. done.
  - destruct (bool_decide (Configuration.current_state_ c1 = _)) eqn:Hs; [|done].
    destruct (bool_decide (Tape.get_head_position _ = _)) eqn:Hh; [|done]. simpl.
    intros Hc. apply bool_decide_eq_true in Hs, Hh, Hc. by apply to_compact_string_agree.
Qed.

Lemma fingerprint_agrees_with_is_equivalent_witness :
  Configuration.to_compact_string (Configuration.new "q0" "ab" ".")
  = Configuration.to_compact_string
      (Configuration.set_tape (Tape.write "a" (Tape.new_with ".b" "."))
         (Configuration.new "q0" "" "."))
  <-> Configuration.is_equivalent (Configuration.new "q0" "ab" ".")
        (Configuration.set_tape (Tape.write "a" (Tape.new_with ".b" "."))
           (Configuration.new "q0" "" ".")) = true.
Proof.
  apply fingerprint_agrees_with_is_equivalent; intros Hbar; vm_compute in Hbar;
    by destruct Hbar as [|[|[]]].
Defined.

(** ** Determinism *)

(** X20. A [TuringMachine] is deterministic by construction: however the
    object was built, a stored transition is applicable to a state and a
    symbol exactly when it is the transition [get_transition] returns for
    them, so at most one stored transition is applicable. *)
Theorem stored_transitions_are_deterministic
    (b : ascii) (ops : list TuringMachine.builder_op) (tr : Transition.t)
    (state : string) (symbol : ascii) :
  let m := TuringMachine.apply_ops ops (TuringMachine.new b) in
  tr ∈ TuringMachine.get_all_transitions m ->
  Transition.is_applicable tr state symbol = true
  <-> TuringMachine.get_transition m state symbol = Some tr.
Proof.
  intros m Hin.
  destruct (apply_ops_invariant ops _ (class_invariant_new b)) as (_ & _ & _ & _ & _ & Htr).
  fold m in Htr. unfold TuringMachine.get_all_transitions in Hin.
  apply list_elem_of_fmap in Hin as ([key tr'] & -> & Hin).
  apply elem_of_map_to_list in Hin. simpl.
  destruct (Htr key tr' Hin) as (-> & _).
  unfold Transition.is_applicable, TuringMachine.get_transition. split.
  - intros Happ. apply andb_true_iff in Happ as [Hs Hc].
    apply bool_decide_eq_true in Hs, Hc. by rewrite <- Hs, <- Hc.
  - intros Hget. destruct (Htr _ _ Hget) as ([= -> ->] & _).
    by rewrite !bool_decide_true.
Qed.

Lemma stored_transitions_are_deterministic_witness :
  Transition.is_applicable (Transition.mk "q" "a" "p" "b" RIGHT) "q" "a" = true
  <-> TuringMachine.get_transition
        (TuringMachine.apply_ops
           [TuringMachine.AddState "q"; TuringMachine.AddState "p";
            TuringMachine.AddTransition (Transition.mk "q" "a" "p" "b" RIGHT)]
           (TuringMachine.new ".")) "q" "a"
      = Some (Transition.mk "q" "a" "p" "b" RIGHT).
Proof.
  apply (stored_transitions_are_deterministic "."
           [TuringMachine.AddState "q"; TuringMachine.AddState "p";
            TuringMachine.AddTransition (Transition.mk "q" "a" "p" "b" RIGHT)]).
  unfold TuringMachine.get_all_transitions. apply list_elem_of_fmap.
  exists ("q", "a"%char, Transition.mk "q" "a" "p" "b" RIGHT). split; [done|].
  apply elem_of_map_to_list. by vm_compute.
Defined.

(** ** The word loop of the program *)

Section WordLoop.

Lemma word_in_alphabet_accepts w machine :
  (Main.word_in_alphabet w machine).1 = true ->
  TuringMachine.is_valid_input_word machine w = true.
Proof.
  induction w as [|c w IH]; [done|]. simpl.
  destruct (negb (TuringMachine.is_input_symbol machine c)); [done|]. exact IH.
Qed.

Lemma main_loop_machine fuel : forall s r s',
  Simulator.main_loop fuel s = Some (r, s') ->
  Simulator.machine_ s' = Simulator.machine_ s.
Proof.
  induction fuel as [|fuel IH]; intros s r s' Hrun; [done|].
  cbn [Simulator.main_loop] in Hrun.
  destruct (loop_body_spec s) as [Hb|Hb Ha|Hb Ha Ht|s1 Hb Ha Ht Hs Hc Hv|s1 Hb Ha Ht Hs Hc Hv];
    try (by injection Hrun as <- <-).
  - injection Hrun as <- <-. by destruct (step_keeps s s1 Hs) as (Hm1 & _).
  - destruct (step_keeps s s1 Hs) as (Hm1 & _). destruct (pass_keeps s1) as (Hm2 & _).
    rewrite (IH _ _ _ Hrun). congruence.
Qed.

(** What [simulate] returns for a valid machine and a word the alphabet
    gate of [main] has let through. *)
Lemma simulate_after_the_gate fuel w tr budget machine simulator result simulator' :
  Simulator.machine_ simulator = Some machine ->
  TuringMachine.is_valid machine = true ->
  (Main.word_in_alphabet w machine).1 = true ->
  Simulator.simulate fuel w tr budget simulator = Some (result, simulator') ->
  result <> ERROR
  /\ Simulator.machine_ simulator' = Some machine
  /\ (result = INFINITE -> Simulator.is_infinite_loop_detected simulator' = true).
Proof.
  intros Hm Hvalid Hword Hrun.
  pose proof (word_in_alphabet_accepts w machine Hword) as Hw.
  pose proof Hrun as Hloop. rewrite (simulate_valid _ _ _ _ _ machine) in Hloop by done.
  pose proof (main_loop_never_error _ _ _ _ Hloop) as Hr.
  split; [done|]. split.
  - rewrite (main_loop_machine _ _ _ _ Hloop).
    by destruct (setup_facts w tr budget simulator machine Hm) as (_ & _ & ? & _).
  - intros _. by apply (loop_detected_after_every_run _ _ _ _ _ _ _ Hrun).
Qed.

End WordLoop.

(** X21. With a valid single-tape machine loaded, the word loop of [main]
    never prints ERROR: for every input line, once [simulate] has
    returned, the line printed on the standard output is ACCEPT, REJECT or
    INFINITE, nothing is written to the standard error outside strict
    mode, and the message about the step limit is never printed (after
    INFINITE the program always reports a detected loop). The simulator
    keeps serving the same machine, so this holds line after line. *)
Theorem valid_program_prints_no_error
    (fuel : nat) (strict_mode trace : bool) (max_steps : N) (line : string)
    (machine : TuringMachine.t) (simulator : Simulator.t) (s : Main.io) :
  Main.prog s = Main.Mono machine simulator ->
  Simulator.machine_ simulator = Some machine ->
  TuringMachine.is_valid machine = true ->
  Main.process_line fuel strict_mode trace max_steps line s = None
  \/ exists s' result simulator' rest,
       Main.process_line fuel strict_mode trace max_steps line s = Some (Ok s')
       /\ result <> ERROR
       /\ Main.prog s' = Main.Mono machine simulator'
       /\ Simulator.machine_ simulator' = Some machine
       /\ Main.cout s' = (Main.cout s ++ Main.ResultLine (result_to_string result) :: rest)%list
       /\ (forall n, Main.InfoStepLimit n ∉ rest)
       /\ (forall text, Main.ResultLine text ∉ rest)
       /\ (strict_mode = false -> Main.cerr s' = Main.cerr s).
Proof.
  intros Hprog Hm Hvalid. unfold Main.process_line. rewrite Hprog.
  destruct (Main.word_in_alphabet (Main.strip_spaces line) machine) as [valid bad] eqn:Hword.
  destruct valid; simpl.
  - destruct (Simulator.simulate fuel (Main.strip_spaces line) trace max_steps simulator)
      as [[result simulator']|] eqn:Hrun; [|by left].
    right.
    destruct (simulate_after_the_gate _ _ _ _ machine _ _ _ Hm Hvalid
                ltac:(by rewrite Hword) Hrun) as (Hr & Hm' & Hloop).
    unfold Main.report, Main.print, Main.with_prog. simpl.
    assert (Hno : forall (x : Main.stdout_item) (l : list Main.stdout_item),
              x ∈ l -> l = [] -> False) by (intros x l Hx ->; by apply elem_of_nil in Hx).
    destruct trace, result; simpl; rewrite ?Hloop by done; simpl; try done;
      eexists _, _, simulator', _; (split; [reflexivity|]); simpl;
      rewrite <- ?app_assoc; simpl;
      (split; [done|]); (split; [done|]); (split; [done|]); (split; [reflexivity|]);
      (split; [|split; [|done]]); intros x Hx;
      repeat (apply elem_of_cons in Hx as [Hx|Hx]; [discriminate Hx|]);
      by apply elem_of_nil in Hx.
  - right. exists (if strict_mode
                   then Main.print (Main.ResultLine "REJECT")
                          (Main.eprint (Main.WordError bad (Main.strip_spaces line)) s)
                   else Main.print (Main.ResultLine "REJECT") s), REJECTED, simulator, [].
    destruct strict_mode; simpl; repeat split; try done; by intros ? ?%elem_of_nil.
Qed.

Lemma valid_program_prints_no_error_witness :
  Main.process_line 5 false false 1000 "a a" acceptor_program = None
  \/ exists s' result simulator' rest,
       Main.process_line 5 false false 1000 "a a" acceptor_program = Some (Ok s')
       /\ result <> ERROR
       /\ Main.prog s' = Main.Mono one_step_acceptor simulator'
       /\ Simulator.machine_ simulator' = Some one_step_acceptor
       /\ Main.cout s' = (Main.cout acceptor_program
                           ++ Main.ResultLine (result_to_string result) :: rest)%list
       /\ (forall n, Main.InfoStepLimit n ∉ rest)
       /\ (forall text, Main.ResultLine text ∉ rest)
       /\ (false = false -> Main.cerr s' = Main.cerr acceptor_program).
Proof.
  apply (valid_program_prints_no_error 5 false false 1000 "a a" one_step_acceptor
           (Simulator.new (Some one_step_acceptor)) acceptor_program).
  - reflexivity.
  - reflexivity.
  - by vm_compute.
Defined.

(** ** Multi-tape transitions *)

Section MultiTransitions.

Implicit Types (tr : MultiTransition.t) (m : MultiTuringMachine.t).

Lemma symbols_match (current read : list ascii) :
  length current = length read ->
  forallb (fun i => bool_decide (current !! i = read !! i)) (seq 0 (length read)) = true
  <-> current = read.
Proof.
  intros Hlen. split.
  - intros Hall. apply list_eq. intros i.
    destruct (decide (i < length read)%nat) as [Hi|Hi].
    + rewrite forallb_forall in Hall. specialize (Hall i).
      eapply bool_decide_eq_true_1, Hall, list_elem_of_In, elem_of_seq. lia.
    + rewrite !lookup_ge_None_2 by lia. done.
  - intros ->. apply forallb_forall. intros i _. by apply bool_decide_eq_true.
Qed.

(** [is_applicable] compares the state and the whole tuple of symbols. *)
Lemma is_applicable_spec tr state symbols :
  MultiTransition.is_applicable tr state symbols = true
  <-> MultiTransition.from_state_ tr = state /\ MultiTransition.read_symbols_ tr = symbols.
Proof.
  unfold MultiTransition.is_applicable.
  destruct (decide (MultiTransition.from_state_ tr = state)) as [Hs|Hs].
  - rewrite (bool_decide_true _ Hs). simpl.
    destruct (decide (length symbols = length (MultiTransition.read_symbols_ tr)))
      as [Hlen|Hlen].
    + rewrite (bool_decide_true _ Hlen). simpl. rewrite (symbols_match _ _ Hlen).
      split; [by intros ->|by intros [_ ->]].
    + rewrite (bool_decide_false _ Hlen). simpl. split; [done|]. intros [_ <-]. done.
  - rewrite (bool_decide_false _ Hs). simpl. split; [done|]. by intros [? _].
Qed.

End MultiTransitions.

(** X22. [MultiTransition::movements_to_chars] and
    [MultiTransition::chars_to_movements] are inverse to each other on
    movements: the letters written for a vector of movements are read back
    as that vector; and when [chars_to_movements] returns at all, it
    returns one movement for each character. *)
Theorem chars_to_movements_reads_movements_to_chars :
  (forall movements : list Movement,
     MultiTransition.chars_to_movements (MultiTransition.movements_to_chars movements)
     = Ok movements)
  /\ (forall (chars : list ascii) (movements : list Movement),
        MultiTransition.chars_to_movements chars = Ok movements ->
        length movements = length chars).
Proof.
  assert (Hround : forall movements : list Movement,
            MultiTransition.chars_to_movements (MultiTransition.movements_to_chars movements)
            = Ok movements).
  { induction movements as [|mov movements IH]; [done|].
    unfold MultiTransition.movements_to_chars in *. cbn [fmap list_fmap].
    cbn [MultiTransition.chars_to_movements]. rewrite IH. by destruct mov. }
  split; [exact Hround|]. clear Hround. intros chars.
  induction chars as [|c chars IH]; intros movements; simpl.
  - by intros [= <-].
  - destruct (Transition.char_to_movement c); simpl; [|done..].
    destruct (MultiTransition.chars_to_movements chars) as [movs| |]; simpl; [|done..].
    intros [= <-]. simpl. by rewrite (IH movs).
Qed.

(** X23. A [MultiTuringMachine] built with its builders is deterministic:
    a stored transition is the one [get_transition] returns for a state
    and a tuple of symbols exactly when [is_applicable] answers true for
    them and the tuple has as many symbols as the machine has tapes. *)
Theorem stored_multi_transitions_are_deterministic
    (k : nat) (b : ascii) (ops : list MultiTuringMachine.builder_op)
    (m0 : MultiTuringMachine.t) (tr : MultiTransition.t)
    (state : string) (symbols : list ascii) :
  MultiTuringMachine.new k b = Ok m0 ->
  Forall constructible ops ->
  let m := MultiTuringMachine.apply_ops ops m0 in
  tr ∈ MultiTuringMachine.get_all_transitions m ->
  MultiTuringMachine.get_transition m state symbols = Some tr
  <-> MultiTransition.is_applicable tr state symbols = true
      /\ length symbols = MultiTuringMachine.num_tapes_ m.
Proof.
  intros Hnew Hops m Hin.
  destruct (apply_ops_well_built ops m0 Hops (well_built_new k b m0 Hnew)) as [_ Hkeyed].
  fold m in Hkeyed. unfold MultiTuringMachine.get_all_transitions in Hin.
  apply list_elem_of_fmap in Hin as ([key tr'] & -> & Hin).
  apply elem_of_map_to_list in Hin. simpl.
  destruct (Hkeyed key tr' Hin) as [-> _].
  rewrite is_applicable_spec. unfold MultiTuringMachine.get_transition. split.
  - destruct (decide _) as [|Hlen]; [done|]. apply dec_stable in Hlen. intros Hget.
    by destruct (Hkeyed _ _ Hget) as [[= -> ->] _].
  - intros [[<- <-] Hlen]. by rewrite decide_False by (by intros Hne; apply Hne).
Qed.

Lemma stored_multi_transitions_are_deterministic_witness :
  MultiTuringMachine.get_transition
    (MultiTuringMachine.apply_ops
       [MultiTuringMachine.AddTransition
          (MultiTransition.mk "q" ["a"; "."]%char "p" ["b"; "."]%char [RIGHT; STAY])]
       (MultiTuringMachine.mk ∅ ∅ {[ "."%char ]} "" ∅ "." 2 ∅))
    "q" ["a"; "."]%char
  = Some (MultiTransition.mk "q" ["a"; "."]%char "p" ["b"; "."]%char [RIGHT; STAY])
  <-> MultiTransition.is_applicable
        (MultiTransition.mk "q" ["a"; "."]%char "p" ["b"; "."]%char [RIGHT; STAY])
        "q" ["a"; "."]%char = true
      /\ length ["a"; "."]%char
         = MultiTuringMachine.num_tapes_
             (MultiTuringMachine.apply_ops
                [MultiTuringMachine.AddTransition
                   (MultiTransition.mk "q" ["a"; "."]%char "p" ["b"; "."]%char
                      [RIGHT; STAY])]
                (MultiTuringMachine.mk ∅ ∅ {[ "."%char ]} "" ∅ "." 2 ∅)).
Proof.
  apply (stored_multi_transitions_are_deterministic 2 ".").
  - reflexivity.
  - apply Forall_cons. split; [by left|]. by apply Forall_nil.
  - unfold MultiTuringMachine.get_all_transitions. apply list_elem_of_fmap.
    exists ("q", ["a"; "."]%char,
            MultiTransition.mk "q" ["a"; "."]%char "p" ["b"; "."]%char [RIGHT; STAY]).
    split; [done|]. apply elem_of_map_to_list. by vm_compute.
Defined.

(** ** Saving a machine and loading it again *)

Section SavedFiles.

Implicit Types (s t acc rest line : string) (c : ascii) (m machine : TuringMachine.t).

(** [getline] gives back the pieces that were written. *)
Lemma getline_loop_piece (delim : ascii) piece : forall rest acc,
  ~ occurs delim piece ->
  Parser.getline_loop delim (piece +:+ String delim rest) acc
  = (acc +:+ piece) :: Parser.getline_loop delim rest "".
Proof.
  induction piece as [|c piece IH]; intros rest acc Hpiece.
  - rewrite append_nil, append_empty_r. cbn [Parser.getline_loop].
    by destruct (decide (delim = delim)).
  - rewrite append_cons. cbn [Parser.getline_loop].
    destruct (decide (c = delim)) as [->|_]; [exfalso; apply Hpiece; by left|].
    rewrite IH by (intros H; apply Hpiece; by right).
    by rewrite append_associative.
Qed.

Lemma getlines_written (lines : list string) :
  Forall (fun line => ~ occurs Parser.LF line) lines ->
  Parser.getlines (foldr (fun line text => line +:+ String Parser.LF text) "" lines) = lines.
Proof.
  unfold Parser.getlines. induction 1 as [|line lines Hline _ IH]; [done|].
  cbn [foldr]. by rewrite getline_loop_piece, append_nil, IH.
Qed.

(** [trim] removes white space only, which [split] skips anyway. *)
Lemma split_loop_drop_trailing s : forall acc,
  Parser.split_loop (Parser.drop_trailing s) acc = Parser.split_loop s acc.
Proof.
  induction s as [|c s IH]; intros acc; [done|]. cbn [Parser.drop_trailing].
  destruct (Parser.drop_trailing s) as [|c' s'] eqn:E.
  - cbn [Parser.split_loop]. rewrite <- !IH. cbn [Parser.split_loop].
    destruct (Parser.is_trim_char c) eqn:Htrim; [|done].
    assert (Parser.isspace c = true) as ->.
    { unfold Parser.is_trim_char, Parser.isspace in *.
      repeat (apply orb_true_iff in Htrim as [Htrim|Htrim]);
        apply bool_decide_eq_true in Htrim; by subst. }
    cbn [Parser.split_loop]. by destruct (decide (acc = "")).
  - rewrite <- E in IH. rewrite <- E. cbn [Parser.split_loop]. by rewrite !IH.
Qed.

Lemma split_loop_drop_leading s :
  Parser.split_loop (Parser.drop_leading s) "" = Parser.split_loop s "".
Proof.
  induction s as [|c s IH]; [done|]. cbn [Parser.drop_leading].
  destruct (Parser.is_trim_char c) eqn:Htrim; [|done].
  assert (Parser.isspace c = true) as Hspace.
  { unfold Parser.is_trim_char, Parser.isspace in *.
    repeat (apply orb_true_iff in Htrim as [Htrim|Htrim]);
      apply bool_decide_eq_true in Htrim; by subst. }
  cbn [Parser.split_loop]. by rewrite Hspace, IH.
Qed.

Lemma split_trim s : Parser.split (Parser.trim s) = Parser.split s.
Proof.
  unfold Parser.split, Parser.trim.
  by rewrite split_loop_drop_trailing, split_loop_drop_leading.
Qed.

Lemma parse_section_trim section line line_number m :
  Parser.parse_section section (Parser.trim line) line_number m
  = Parser.parse_section section line line_number m.
Proof. unfold Parser.parse_section, Parser.parse_transition. by rewrite split_trim. Qed.

(** A line that begins with a character other than white space and '#'
    is neither empty nor a comment. *)
Lemma content_line_start c rest :
  Parser.isspace c = false -> c <> "#"%char ->
  Parser.is_comment (String c rest) = false /\ Parser.is_empty_line (String c rest) = false.
Proof.
  intros Hspace Hhash.
  assert (Htrim : Parser.is_trim_char c = false).
  { unfold Parser.is_trim_char, Parser.isspace in *.
    repeat (apply orb_false_iff in Hspace as [Hspace ?]).
    repeat (apply orb_false_iff; split); done. }
  assert (Hform : exists rest', Parser.trim (String c rest) = String c rest').
  { unfold Parser.trim. cbn [Parser.drop_leading]. rewrite Htrim.
    cbn [Parser.drop_trailing]. rewrite Htrim.
    destruct (Parser.drop_trailing rest); eauto. }
  destruct Hform as [rest' Hform]. unfold Parser.is_comment, Parser.is_empty_line.
  rewrite Hform. split; [by apply bool_decide_eq_false|by apply bool_decide_eq_false].
Qed.

(** The lines of [save_to_file] are split into the items written. *)
Lemma split_separated (items : list string) :
  Forall token items -> Parser.split (Parser.separated items) = items.
Proof.
  unfold Parser.split. induction 1 as [|x items Hx Hitems IH]; [done|].
  destruct items as [|y items]; [by apply split_loop_last_token|].
  change (Parser.separated (x :: y :: items))
    with (x +:+ " " +:+ Parser.separated (y :: items)).
  by rewrite split_loop_token_then_space, IH.
Qed.

Lemma separated_start c rest (items : list string) :
  exists rest', Parser.separated (String c rest :: items) = String c rest'.
Proof. destruct items; simpl; eauto. Qed.

Lemma whitespace_free_no_newline s : whitespace_free s -> ~ occurs Parser.LF s.
Proof. intros Hs Hin. by apply Hs in Hin. Qed.

Lemma separated_no_newline (items : list string) :
  Forall token items -> ~ occurs Parser.LF (Parser.separated items).
Proof.
  induction 1 as [|x items [_ Hx] Hitems IH]; [by intros []|].
  destruct items as [|y items]; [by apply whitespace_free_no_newline|].
  change (Parser.separated (x :: y :: items))
    with (x +:+ " " +:+ Parser.separated (y :: items)).
  rewrite !occurs_append. intros [Hin|[Hin|Hin]]; [|by destruct Hin as [|[]]|done].
  by apply whitespace_free_no_newline in Hin.
Qed.

Lemma to_string_no_newline (tr : Transition.t) :
  whitespace_free (Transition.from_state_ tr) ->
  whitespace_free (Transition.to_state_ tr) ->
  Parser.isspace (Transition.read_symbol_ tr) = false ->
  Parser.isspace (Transition.write_symbol_ tr) = false ->
  ~ occurs Parser.LF (Transition.to_string tr).
Proof.
  intros Hfrom Hto Hread Hwrite. unfold Transition.to_string.
  rewrite !occurs_append. unfold occurs. simpl.
  intros [Hin|[Hin|[Hin|[Hin|[Hin|[Hin|[Hin|[Hin|Hin]]]]]]]];
    try (by apply whitespace_free_no_newline in Hin);
    try (by destruct Hin as [|[]]).
  - destruct Hin as [Heq|[]]. by rewrite Heq in Hread.
  - destruct Hin as [Heq|[]]. by rewrite Heq in Hwrite.
  - destruct Hin as [Heq|[]]. revert Heq. unfold Transition.movement_to_char.
    by destruct (Transition.movement_ tr).
Qed.

(** Two steps with sets of items. *)
Lemma items_start `{Countable A} (X : gset A) : ∅ ∪ X = X.
Proof. by rewrite (left_id_L ∅ (∪)). Qed.

Lemma items_step `{Countable A} (x : A) (xs : list A) (X : gset A) :
  list_to_set xs ∪ ({[ x ]} ∪ X) = {[ x ]} ∪ list_to_set xs ∪ X.
Proof. rewrite (assoc_L (∪)). by rewrite (comm_L (∪) (list_to_set xs) {[ x ]}). Qed.

(** The loops of the loader over the items of a line. *)
Lemma for_each_cons {A S : Type} (body : A -> S -> mutated S) x xs (s s' : S) :
  body x s = Done s' ->
  Parser.for_each body (x :: xs) s = Parser.for_each body xs s'.
Proof. intros Hbody. unfold Parser.for_each. simpl. by rewrite Hbody. Qed.

Lemma for_each_add_state (items : list string) : forall m,
  Forall (fun q => q <> "") items ->
  Parser.for_each TuringMachine.add_state items m
  = Done (TuringMachine.with_states (list_to_set items ∪ TuringMachine.states_ m) m).
Proof.
  induction items as [|q items IH]; intros m Hitems.
  - unfold Parser.for_each, TuringMachine.with_states. simpl. destruct m. simpl.
    by rewrite ?items_start, ?items_step.
  - apply Forall_cons in Hitems as [Hq Hitems].
    rewrite (for_each_cons _ _ _ _
               (TuringMachine.with_states ({[ q ]} ∪ TuringMachine.states_ m) m))
      by (unfold TuringMachine.add_state; by rewrite decide_False).
    rewrite IH by done. unfold TuringMachine.with_states. simpl. by rewrite ?items_start, ?items_step.
Qed.

Lemma for_each_add_input_symbol (symbols : list ascii) : forall m,
  Forall (fun c => c <> TuringMachine.blank_symbol_ m) symbols ->
  Parser.for_each (fun symbol_str =>
                     with_value (Parser.string_to_char symbol_str)
                                TuringMachine.add_input_symbol)
                  (Parser.put <$> symbols) m
  = Done (TuringMachine.with_tape_alphabet
            (list_to_set symbols ∪ TuringMachine.tape_alphabet_ m)
            (TuringMachine.with_input_alphabet
               (list_to_set symbols ∪ TuringMachine.input_alphabet_ m) m)).
Proof.
  induction symbols as [|c symbols IH]; intros m Hsymbols.
  - unfold Parser.for_each, TuringMachine.with_tape_alphabet,
      TuringMachine.with_input_alphabet. simpl. destruct m. simpl.
    by rewrite ?items_start, ?items_step.
  - apply Forall_cons in Hsymbols as [Hc Hsymbols]. cbn [fmap list_fmap].
    rewrite (for_each_cons _ _ _ _
               (TuringMachine.with_tape_alphabet ({[ c ]} ∪ TuringMachine.tape_alphabet_ m)
                  (TuringMachine.with_input_alphabet
                     ({[ c ]} ∪ TuringMachine.input_alphabet_ m) m)))
      by (simpl; unfold TuringMachine.add_input_symbol; by rewrite decide_False).
    rewrite IH by done. unfold TuringMachine.with_tape_alphabet,
      TuringMachine.with_input_alphabet. simpl. by rewrite ?items_start, ?items_step.
Qed.

Lemma for_each_add_tape_symbol (symbols : list ascii) : forall m,
  Parser.for_each (fun symbol_str =>
                     with_value (Parser.string_to_char symbol_str)
                                TuringMachine.add_tape_symbol)
                  (Parser.put <$> symbols) m
  = Done (TuringMachine.with_tape_alphabet
            (list_to_set symbols ∪ TuringMachine.tape_alphabet_ m) m).
Proof.
  induction symbols as [|c symbols IH]; intros m.
  - unfold Parser.for_each, TuringMachine.with_tape_alphabet. simpl. destruct m. simpl.
    by rewrite ?items_start, ?items_step.
  - cbn [fmap list_fmap].
    rewrite (for_each_cons _ _ _ _
               (TuringMachine.with_tape_alphabet ({[ c ]} ∪ TuringMachine.tape_alphabet_ m) m))
      by done.
    rewrite IH. unfold TuringMachine.with_tape_alphabet. simpl. by rewrite ?items_start, ?items_step.
Qed.

Lemma for_each_add_accept_state (items : list string) : forall m,
  Forall (fun q => q <> "") items ->
  Parser.for_each TuringMachine.add_accept_state items m
  = Done (TuringMachine.with_states (list_to_set items ∪ TuringMachine.states_ m)
            (TuringMachine.with_accept_states
               (list_to_set items ∪ TuringMachine.accept_states_ m) m)).
Proof.
  induction items as [|q items IH]; intros m Hitems.
  - unfold Parser.for_each, TuringMachine.with_states, TuringMachine.with_accept_states.
    simpl. destruct m. simpl. by rewrite ?items_start, ?items_step.
  - apply Forall_cons in Hitems as [Hq Hitems].
    rewrite (for_each_cons _ _ _ _
               (TuringMachine.with_states ({[ q ]} ∪ TuringMachine.states_ m)
                  (TuringMachine.with_accept_states
                     ({[ q ]} ∪ TuringMachine.accept_states_ m) m)))
      by (unfold TuringMachine.add_accept_state, TuringMachine.add_state;
          by rewrite decide_False).
    rewrite IH by done. unfold TuringMachine.with_states, TuringMachine.with_accept_states.
    simpl. by rewrite ?items_start, ?items_step.
Qed.

(** One line of the file at a time. *)
Lemma parse_lines_skip line (input : list string) (n section : Z) m :
  Parser.is_comment line = true ->
  Parser.parse_lines (line :: input) n section m
  = Parser.parse_lines input (n + 1) section m.
Proof. intros Hcomment. cbn [Parser.parse_lines]. by rewrite Hcomment. Qed.

Lemma parse_lines_read line (input : list string) (n section section' : Z) m m' :
  content_start line ->
  Parser.parse_section section line (n + 1) m = (Done m', section') ->
  Parser.parse_lines (line :: input) n section m
  = Parser.parse_lines input (n + 1) section' m'.
Proof.
  intros (c & rest & -> & Hspace & Hhash) Hsection.
  destruct (content_line_start c rest Hspace Hhash) as [Hcomment Hempty].
  cbn [Parser.parse_lines]. rewrite Hcomment, Hempty. simpl.
  by rewrite parse_section_trim, Hsection.
Qed.

Lemma content_start_token s :
  token s -> ~ starts_with "#" s -> content_start s.
Proof.
  intros [Hne Hs] Hhash. destruct s as [|c rest]; [done|].
  apply whitespace_free_cons in Hs as [Hc _]. exists c, rest.
  split; [done|]. split; [done|]. intros ->. apply Hhash. by exists rest.
Qed.

Lemma content_start_put c :
  Parser.isspace c = false -> c <> "#"%char -> content_start (Parser.put c).
Proof. intros Hspace Hhash. by exists c, "". Qed.

Lemma content_start_separated (items : list string) :
  items <> [] -> Forall content_start items -> content_start (Parser.separated items).
Proof.
  intros Hne Hitems. destruct items as [|x items]; [done|].
  apply Forall_cons in Hitems as [(c & rest & -> & Hspace & Hhash) _].
  destruct (separated_start c rest items) as [rest' ->]. by exists c, rest'.
Qed.

Ltac section_case :=
  unfold Parser.parse_section; repeat (destruct (decide _) as [?|?]; try lia).

Lemma read_states (items : list string) (n : Z) m :
  Forall token items -> items <> [] ->
  Parser.parse_section 0 (Parser.separated items) n m
  = (Done (TuringMachine.with_states (list_to_set items ∪ TuringMachine.states_ m) m), 1).
Proof.
  intros Hitems Hne. section_case. rewrite split_separated by done.
  destruct items as [|q items]; [done|]. rewrite for_each_add_state; [done|].
  eapply Forall_impl; [exact Hitems|]. by intros ? [? _].
Qed.

Lemma read_input_alphabet (symbols : list ascii) (n : Z) m :
  Forall (fun c => Parser.isspace c = false) symbols ->
  Forall (fun c => c <> TuringMachine.blank_symbol_ m) symbols ->
  Parser.parse_section 1 (Parser.separated (Parser.put <$> symbols)) n m
  = (Done (TuringMachine.with_tape_alphabet
             (list_to_set symbols ∪ TuringMachine.tape_alphabet_ m)
             (TuringMachine.with_input_alphabet
                (list_to_set symbols ∪ TuringMachine.input_alphabet_ m) m)), 2).
Proof.
  intros Hsymbols Hblank. section_case.
  rewrite split_separated by (apply Forall_fmap; eapply Forall_impl;
                              [exact Hsymbols|apply token_char]).
  by rewrite for_each_add_input_symbol.
Qed.

Lemma read_tape_alphabet (symbols : list ascii) (n : Z) m :
  Forall (fun c => Parser.isspace c = false) symbols ->
  Parser.parse_section 2 (Parser.separated (Parser.put <$> symbols)) n m
  = (Done (TuringMachine.with_tape_alphabet
             (list_to_set symbols ∪ TuringMachine.tape_alphabet_ m) m), 3).
Proof.
  intros Hsymbols. section_case.
  rewrite split_separated by (apply Forall_fmap; eapply Forall_impl;
                              [exact Hsymbols|apply token_char]).
  by rewrite for_each_add_tape_symbol.
Qed.

Lemma read_initial_state q (n : Z) m :
  token q ->
  Parser.parse_section 3 q n m
  = (Done (TuringMachine.with_states ({[ q ]} ∪ TuringMachine.states_ m)
             (TuringMachine.with_initial_state q m)), 4).
Proof.
  intros Hq. section_case. unfold Parser.split. rewrite split_loop_last_token by done.
  unfold TuringMachine.set_initial_state, TuringMachine.add_state.
  destruct Hq as [Hq _]. by rewrite decide_False.
Qed.

Lemma read_blank_symbol c (n : Z) m :
  Parser.isspace c = false ->
  Parser.parse_section 4 (Parser.put c) n m
  = (Done (if decide (TuringMachine.blank_symbol_ m <> c)
           then TuringMachine.with_tape_alphabet ({[ c ]} ∪ TuringMachine.tape_alphabet_ m)
                  (TuringMachine.with_blank_symbol c m)
           else m), 5).
Proof.
  intros Hc. unfold Parser.parse_section.
  destruct (decide (4 = 0)); [lia|]. destruct (decide (4 = 1)); [lia|].
  destruct (decide (4 = 2)); [lia|]. destruct (decide (4 = 3)); [lia|].
  destruct (decide (4 = 4)); [|lia]. unfold Parser.split, Parser.put.
  rewrite (split_loop_last_token _ (token_char c Hc)). simpl.
  unfold TuringMachine.set_blank_symbol.
  by destruct (decide (TuringMachine.blank_symbol_ m <> c)).
Qed.

Lemma read_accept_states (items : list string) (n : Z) m :
  Forall token items ->
  Parser.parse_section 5 (Parser.separated items) n m
  = (Done (TuringMachine.with_states (list_to_set items ∪ TuringMachine.states_ m)
             (TuringMachine.with_accept_states
                (list_to_set items ∪ TuringMachine.accept_states_ m) m)), 6).
Proof.
  intros Hitems. section_case. rewrite split_separated by done.
  rewrite for_each_add_accept_state; [done|].
  eapply Forall_impl; [exact Hitems|]. by intros ? [? _].
Qed.

Lemma split_to_string (tr : Transition.t) :
  token (Transition.from_state_ tr) ->
  token (Transition.to_state_ tr) ->
  Parser.isspace (Transition.read_symbol_ tr) = false ->
  Parser.isspace (Transition.write_symbol_ tr) = false ->
  Parser.split (Transition.to_string tr)
  = [ Transition.from_state_ tr; Parser.put (Transition.read_symbol_ tr);
      Transition.to_state_ tr; Parser.put (Transition.write_symbol_ tr);
      Parser.put (Transition.movement_to_char tr) ].
Proof.
  intros Hfrom Hto Hread Hwrite. unfold Parser.split, Transition.to_string.
  rewrite (split_loop_token_then_space _ _ Hfrom).
  rewrite (split_loop_token_then_space _ _ (token_char _ Hread)).
  rewrite (split_loop_token_then_space _ _ Hto).
  rewrite (split_loop_token_then_space _ _ (token_char _ Hwrite)).
  rewrite split_loop_last_token; [done|].
  apply token_char. unfold Transition.movement_to_char.
  by destruct (Transition.movement_ tr).
Qed.

Lemma read_transition (tr : Transition.t) (n : Z) m :
  token (Transition.from_state_ tr) ->
  token (Transition.to_state_ tr) ->
  Parser.isspace (Transition.read_symbol_ tr) = false ->
  Parser.isspace (Transition.write_symbol_ tr) = false ->
  Parser.parse_section 6 (Transition.to_string tr) n m
  = (Parser.rethrow (TuringMachine.add_transition tr m), 6).
Proof.
  intros Hfrom Hto Hread Hwrite. section_case. unfold Parser.parse_transition.
  rewrite split_to_string by done. destruct tr as [from r to w mov]. by destruct mov.
Qed.

Lemma singleton_absorbed `{Countable A} (x : A) (X : gset A) : x ∈ X -> {[ x ]} ∪ X = X.
Proof. intros Hx. apply subseteq_union_1_L. by apply singleton_subseteq_l. Qed.

(** The transition lines: every transition is stored under its key. *)
Lemma parse_lines_transitions (transitions : list Transition.t) : forall (n : Z) m,
  (forall tr, tr ∈ transitions ->
     (token (Transition.from_state_ tr) /\ ~ starts_with "#" (Transition.from_state_ tr))
     /\ token (Transition.to_state_ tr)
     /\ Parser.isspace (Transition.read_symbol_ tr) = false
     /\ Parser.isspace (Transition.write_symbol_ tr) = false
     /\ Transition.from_state_ tr ∈ TuringMachine.states_ m
     /\ Transition.to_state_ tr ∈ TuringMachine.states_ m
     /\ Transition.read_symbol_ tr ∈ TuringMachine.tape_alphabet_ m
     /\ Transition.write_symbol_ tr ∈ TuringMachine.tape_alphabet_ m
     /\ TuringMachine.transitions_ m
          !! (Transition.from_state_ tr, Transition.read_symbol_ tr) = None) ->
  NoDup ((fun tr => (Transition.from_state_ tr, Transition.read_symbol_ tr)) <$> transitions) ->
  Parser.parse_lines (Transition.to_string <$> transitions) n 6 m
  = (Done (TuringMachine.with_transitions
             (foldl (fun d tr =>
                       <[(Transition.from_state_ tr, Transition.read_symbol_ tr) := tr]> d)
                    (TuringMachine.transitions_ m) transitions) m), 6).
Proof.
  induction transitions as [|tr transitions IH]; intros n m Hall Hkeys.
  - simpl. by destruct m.
  - apply NoDup_cons in Hkeys as [Hfresh Hkeys].
    destruct (Hall tr) as ([Hfrom Hhash] & Hto & Hread & Hwrite & Hq & Hp & Hr & Hw & Hnew);
      [by left|].
    set (m' := TuringMachine.with_transitions
                 (<[(Transition.from_state_ tr, Transition.read_symbol_ tr) := tr]>
                    (TuringMachine.transitions_ m)) m).
    cbn [fmap list_fmap]. rewrite (parse_lines_read _ _ _ _ 6 _ m').
    + rewrite IH; [done| |done]. intros tr' Hin.
      destruct (Hall tr') as (? & ? & ? & ? & ? & ? & ? & ? & Hnew'); [by right|].
      repeat (split; [done|]). subst m'. simpl. rewrite lookup_insert_ne; [done|].
      intros Heq. apply Hfresh. rewrite Heq. apply list_elem_of_fmap. by exists tr'.
    + destruct (content_start_token _ Hfrom Hhash) as (c & rest & Heq & Hspace & Hc).
      exists c. unfold Transition.to_string. rewrite Heq. simpl. eauto.
    + rewrite read_transition by done. unfold TuringMachine.add_transition.
      rewrite decide_False by (by intros Hno; apply Hno).
      rewrite decide_False by (by intros Hno; apply Hno).
      unfold TuringMachine.add_tape_symbol. simpl.
      rewrite (singleton_absorbed _ _ Hr), (singleton_absorbed _ _ Hw), Hnew.
      subst m'. simpl. by destruct m.
Qed.

(** Inserting the stored transitions under their keys rebuilds the map. *)
Lemma transitions_rebuilt (d : gmap (string * ascii) Transition.t)
    (transitions : list Transition.t) :
  (forall (key : string * ascii) tr,
     d !! key = Some tr ->
     key = (Transition.from_state_ tr, Transition.read_symbol_ tr)) ->
  transitions ≡ₚ (map_to_list d).*2 ->
  NoDup ((fun tr => (Transition.from_state_ tr, Transition.read_symbol_ tr)) <$> transitions)
  /\ foldl (fun stored tr =>
              <[(Transition.from_state_ tr, Transition.read_symbol_ tr) := tr]> stored)
           ∅ transitions = d.
Proof.
  intros Hkeyed Hperm.
  set (key := fun tr => (Transition.from_state_ tr, Transition.read_symbol_ tr)).
  assert (Hstored : Forall (fun p => p.1 = key p.2) (map_to_list d)).
  { apply Forall_forall. intros [k tr] Hin. apply elem_of_map_to_list in Hin.
    by apply Hkeyed. }
  assert (Hpairs : (fun tr => (key tr, tr)) <$> (map_to_list d).*2 = map_to_list d).
  { rewrite <- list_fmap_compose. rewrite <- (list_fmap_id (map_to_list d)) at 2.
    apply Forall_fmap_ext_1. eapply Forall_impl; [exact Hstored|].
    intros [k tr] Hk. simpl in *. by rewrite Hk. }
  assert (Hkeys : key <$> (map_to_list d).*2 = (map_to_list d).*1).
  { rewrite <- list_fmap_compose. apply Forall_fmap_ext_1.
    eapply Forall_impl; [exact Hstored|]. by intros [k tr] Hk. }
  split.
  - rewrite Hperm, Hkeys. apply NoDup_fst_map_to_list.
  - assert (Hfold : foldl (fun stored tr => <[key tr := tr]> stored) ∅ transitions
                    = (list_to_map ((fun tr => (key tr, tr)) <$> reverse transitions)
                       : gmap (string * ascii) Transition.t)).
    { clear Hperm. induction transitions as [|tr transitions IH] using rev_ind; [done|].
      rewrite foldl_app, reverse_snoc. simpl. by rewrite IH. }
    etrans; [exact Hfold|]. symmetry. apply list_to_map_flip.
    by rewrite reverse_Permutation, Hperm, Hpairs.
Qed.

Lemma no_newline_checked line :
  forallb (fun c => negb (bool_decide (c = Parser.LF))) (list_ascii_of_string line) = true ->
  ~ occurs Parser.LF line.
Proof.
  intros Hall Hin. rewrite forallb_forall in Hall. apply Hall in Hin.
  by rewrite bool_decide_true in Hin.
Qed.

Lemma seen_elements `{Countable A} (seen : list A) (X : gset A) :
  seen ≡ₚ elements X ->
  (forall x, x ∈ seen <-> x ∈ X) /\ list_to_set seen = X.
Proof.
  intros Hseen.
  assert (Hin : forall x, x ∈ seen <-> x ∈ X)
    by (intros x; rewrite Hseen; apply elem_of_elements).
  split; [done|]. apply set_eq. intros x. by rewrite elem_of_list_to_set.
Qed.

End SavedFiles.

Ltac flat_machine :=
  unfold TuringMachine.with_states, TuringMachine.with_accept_states,
    TuringMachine.with_tape_alphabet, TuringMachine.with_input_alphabet,
    TuringMachine.with_initial_state, TuringMachine.with_blank_symbol,
    TuringMachine.with_transitions;
  cbn [TuringMachine.states_ TuringMachine.input_alphabet_ TuringMachine.tape_alphabet_
       TuringMachine.initial_state_ TuringMachine.accept_states_
       TuringMachine.blank_symbol_ TuringMachine.transitions_].

(** X24. A valid machine written by [Parser::save_to_file] is read back by
    [Parser::load_from_stream] as the same machine, in whatever order the
    sets and the map were written, provided that no state name holds white
    space or begins with '#', no tape symbol is white space or '#', the
    input alphabet and the set of accepting states are not empty, and the
    blank symbol of the object loaded into is a tape symbol of the machine
    outside its input alphabet. *)
Theorem load_reads_what_save_wrote
    (b : ascii) (ops : list TuringMachine.builder_op) (order : Parser.visit)
    (target : TuringMachine.t) :
  let m := TuringMachine.apply_ops ops (TuringMachine.new b) in
  visits order m ->
  TuringMachine.is_valid m = true ->
  (forall q, q ∈ TuringMachine.states_ m -> whitespace_free q /\ ~ starts_with "#" q) ->
  (forall c, c ∈ TuringMachine.tape_alphabet_ m ->
             Parser.isspace c = false /\ c <> "#"%char) ->
  TuringMachine.input_alphabet_ m <> ∅ ->
  TuringMachine.accept_states_ m <> ∅ ->
  TuringMachine.blank_symbol_ target ∈ TuringMachine.tape_alphabet_ m ->
  TuringMachine.blank_symbol_ target ∉ TuringMachine.input_alphabet_ m ->
  Parser.load_from_stream (Parser.getlines (Parser.save_to_file order m)) target
  = Parser.mk_load_result true m None.
Proof.
  intros m. pose proof (apply_ops_invariant ops _ (class_invariant_new b)) as Hinv.
  fold m in Hinv. clearbody m.
  intros (HQ & HI & HG & HF & HT) Hvalid Hstates Hsymbols Hinput Haccept Htarget Htarget'.
  pose proof Hvalid as Hvalid'.
  apply (is_valid_under_invariant m Hinv) in Hvalid' as (Hq0 & Hno_empty & Hblank_input).
  destruct Hinv as (Hempty & Hblank & Hsub & Hinit & Hacc & Hkeyed).
  specialize (Hinit Hq0).
  destruct order as [Q I G F trs]. simpl in HQ, HI, HG, HF, HT.
  apply seen_elements in HQ as [HQ EQ]. apply seen_elements in HI as [HI EI].
  apply seen_elements in HG as [HG EG]. apply seen_elements in HF as [HF EF].
  assert (Hstate : forall q, q ∈ TuringMachine.states_ m -> token q /\ content_start q).
  { intros q Hq. destruct (Hstates q Hq) as [Hfree Hhash].
    assert (token q) by (split; [by intros ->|done]).
    split; [done|]. by apply content_start_token. }
  assert (Hsymbol : forall c, c ∈ TuringMachine.tape_alphabet_ m ->
                              content_start (Parser.put c)).
  { intros c Hc. destruct (Hsymbols c Hc). by apply content_start_put. }
  assert (Haccepting : forall q, q ∈ F -> q ∈ TuringMachine.states_ m).
  { intros q Hq. apply HF in Hq. apply Hacc; [done|]. by intros ->. }
  assert (Hstored : forall tr, tr ∈ trs ->
            exists key, TuringMachine.transitions_ m !! key = Some tr).
  { intros tr Hin. rewrite HT in Hin. unfold TuringMachine.get_all_transitions in Hin.
    apply list_elem_of_fmap in Hin as ([key tr'] & -> & Hin).
    apply elem_of_map_to_list in Hin. by exists key. }
  assert (TQ : Forall token Q /\ Forall content_start Q /\ Q <> []).
  { split; [|split].
    - apply Forall_forall. intros q Hq. by apply Hstate, HQ.
    - apply Forall_forall. intros q Hq. by apply Hstate, HQ.
    - intros ->. apply HQ in Hinit. by apply not_elem_of_nil in Hinit. }
  destruct TQ as (TQ & CQ & NQ).
  assert (TI : Forall (fun c => Parser.isspace c = false) I
               /\ Forall content_start (Parser.put <$> I)
               /\ Forall (fun c => c <> TuringMachine.blank_symbol_ target) I
               /\ I <> []).
  { split; [|split; [|split]].
    - apply Forall_forall. intros c Hc. by apply Hsymbols, Hsub, HI.
    - apply Forall_fmap, Forall_forall. intros c Hc. by apply Hsymbol, Hsub, HI.
    - apply Forall_forall. intros c Hc ->. by apply Htarget', HI.
    - intros ->. by apply Hinput. }
  destruct TI as (SI & CI & BI & NI).
  assert (TG : Forall (fun c => Parser.isspace c = false) G
               /\ Forall content_start (Parser.put <$> G) /\ G <> []).
  { split; [|split].
    - apply Forall_forall. intros c Hc. by apply Hsymbols, HG.
    - apply Forall_fmap, Forall_forall. intros c Hc. by apply Hsymbol, HG.
    - intros ->. apply HG in Hblank. by apply not_elem_of_nil in Hblank. }
  destruct TG as (SG & CG & NG).
  assert (TF : Forall token F /\ Forall content_start F /\ F <> []).
  { split; [|split].
    - apply Forall_forall. intros q Hq. by apply Hstate, Haccepting.
    - apply Forall_forall. intros q Hq. by apply Hstate, Haccepting.
    - intros ->. by apply Haccept. }
  destruct TF as (TF & CF & NF).
  assert (Htr : forall tr, tr ∈ trs ->
            (token (Transition.from_state_ tr)
             /\ ~ starts_with "#" (Transition.from_state_ tr))
            /\ token (Transition.to_state_ tr)
            /\ Parser.isspace (Transition.read_symbol_ tr) = false
            /\ Parser.isspace (Transition.write_symbol_ tr) = false
            /\ Transition.from_state_ tr ∈ TuringMachine.states_ m
            /\ Transition.to_state_ tr ∈ TuringMachine.states_ m
            /\ Transition.read_symbol_ tr ∈ TuringMachine.tape_alphabet_ m
            /\ Transition.write_symbol_ tr ∈ TuringMachine.tape_alphabet_ m).
  { intros tr Hin. destruct (Hstored tr Hin) as [key Hkey].
    destruct (Hkeyed key tr Hkey) as (_ & Hfrom & Hto & Hread & Hwrite).
    split; [split; [by apply Hstate|by apply Hstates]|].
    split; [by apply Hstate|]. split; [by apply Hsymbols|]. split; [by apply Hsymbols|].
    done. }
  unfold Parser.load_from_stream, Parser.save_to_file. rewrite getlines_written.
  2: { unfold Parser.saved_lines.
       cbn [Parser.states_seen Parser.input_alphabet_seen Parser.tape_alphabet_seen
            Parser.accept_states_seen Parser.transitions_seen].
       apply Forall_app. split.
       - repeat (apply Forall_cons; split); try (by apply no_newline_checked);
           try (by apply separated_no_newline).
         + apply separated_no_newline, Forall_fmap.
           eapply Forall_impl; [exact SI|apply token_char].
         + apply separated_no_newline, Forall_fmap.
           eapply Forall_impl; [exact SG|apply token_char].
         + by apply whitespace_free_no_newline, Hstates.
         + apply whitespace_free_no_newline, token_char. by apply Hsymbols.
         + by apply Forall_nil.
       - apply Forall_fmap, Forall_forall. intros tr Hin.
         destruct (Htr tr Hin) as ([[_ Hfrom] _] & [_ Hto] & Hread & Hwrite & _).
         by apply to_string_no_newline. }
  unfold Parser.saved_lines, TuringMachine.clear.
  cbn [Parser.states_seen Parser.input_alphabet_seen Parser.tape_alphabet_seen
       Parser.accept_states_seen Parser.transitions_seen app].
  rewrite parse_lines_skip by (by vm_compute).
  rewrite parse_lines_skip by (by vm_compute).
  erewrite parse_lines_read;
    [|by apply content_start_separated|by apply read_states].
  flat_machine.
  rewrite parse_lines_skip by (by vm_compute).
  erewrite parse_lines_read;
    [|apply content_start_separated; [by intros ?%fmap_nil_inv|exact CI]
     |apply read_input_alphabet; [exact SI|exact BI]].
  flat_machine.
  rewrite parse_lines_skip by (by vm_compute).
  erewrite parse_lines_read;
    [|apply content_start_separated; [by intros ?%fmap_nil_inv|exact CG]
     |apply read_tape_alphabet; exact SG].
  flat_machine.
  rewrite parse_lines_skip by (by vm_compute).
  erewrite parse_lines_read;
    [|by apply Hstate|by apply read_initial_state, Hstate].
  flat_machine.
  rewrite parse_lines_skip by (by vm_compute).
  erewrite parse_lines_read;
    [|by apply Hsymbol|by apply read_blank_symbol, Hsymbols].
  flat_machine.
  assert (ET : list_to_set G ∪ (list_to_set I ∪ {[ TuringMachine.blank_symbol_ target ]})
               = TuringMachine.tape_alphabet_ m).
  { rewrite EG, EI. apply set_eq. intros x. rewrite !elem_of_union, elem_of_singleton.
    split; [intros [?|[?| ->]]; auto|auto]. }
  assert (EA : TuringMachine.accept_states_ m ∪ TuringMachine.states_ m
               = TuringMachine.states_ m).
  { apply subseteq_union_1_L. intros q Hq. apply Hacc; [done|]. by intros ->. }
  rewrite ET, EQ, EI, !(right_id_L ∅ (∪)).
  rewrite (singleton_absorbed _ _ Hinit), (singleton_absorbed _ _ Hblank).
  destruct (decide (TuringMachine.blank_symbol_ target <> TuringMachine.blank_symbol_ m))
    as [_|Hsame%dec_stable]; [|rewrite Hsame];
    (rewrite parse_lines_skip by (by vm_compute);
     erewrite parse_lines_read;
       [|by apply content_start_separated|by apply read_accept_states];
     flat_machine; rewrite EF, (right_id_L ∅ (∪)), EA;
     rewrite parse_lines_skip by (by vm_compute)).
  all: assert (Hrebuilt := transitions_rebuilt (TuringMachine.transitions_ m) trs
                             (fun key tr Hkey => proj1 (Hkeyed key tr Hkey)) HT).
  all: destruct Hrebuilt as [Hkeys Hrebuilt].
  all: rewrite parse_lines_transitions;
         [|intros tr Hin; destruct (Htr tr Hin) as (?&?&?&?&?&?&?&?);
           by repeat (split; [done|])
          |exact Hkeys].
  all: flat_machine; rewrite Hrebuilt.
  all: destruct (decide (6 < 6)); [lia|].
  all: replace (TuringMachine.mk (TuringMachine.states_ m) (TuringMachine.input_alphabet_ m)
                  (TuringMachine.tape_alphabet_ m) (TuringMachine.initial_state_ m)
                  (TuringMachine.accept_states_ m) (TuringMachine.blank_symbol_ m)
                  (TuringMachine.transitions_ m)) with m by (by destruct m).
  all: by rewrite Hvalid.
Qed.

Lemma load_reads_what_save_wrote_witness :
  Parser.load_from_stream
    (Parser.getlines
       (Parser.save_to_file
          (Parser.mk_visit ["q0"; "q1"] ["a"%char] ["."; "a"]%char ["q1"]
             [Transition.mk "q0" "a" "q1" "a" RIGHT])
          (TuringMachine.apply_ops
             [TuringMachine.AddState "q0"; TuringMachine.AddState "q1";
              TuringMachine.AddInputSymbol "a"; TuringMachine.SetInitialState "q0";
              TuringMachine.AddAcceptState "q1";
              TuringMachine.AddTransition (Transition.mk "q0" "a" "q1" "a" RIGHT)]
             (TuringMachine.new "."))))
    (TuringMachine.new ".")
  = Parser.mk_load_result true
      (TuringMachine.apply_ops
         [TuringMachine.AddState "q0"; TuringMachine.AddState "q1";
          TuringMachine.AddInputSymbol "a"; TuringMachine.SetInitialState "q0";
          TuringMachine.AddAcceptState "q1";
          TuringMachine.AddTransition (Transition.mk "q0" "a" "q1" "a" RIGHT)]
         (TuringMachine.new "."))
      None.
Proof.
  apply (load_reads_what_save_wrote "."
           [TuringMachine.AddState "q0"; TuringMachine.AddState "q1";
            TuringMachine.AddInputSymbol "a"; TuringMachine.SetInitialState "q0";
            TuringMachine.AddAcceptState "q1";
            TuringMachine.AddTransition (Transition.mk "q0" "a" "q1" "a" RIGHT)]).
  - unfold visits. cbn [Parser.states_seen Parser.input_alphabet_seen
      Parser.tape_alphabet_seen Parser.accept_states_seen Parser.transitions_seen].
    split; [|split; [|split; [|split]]].
    + match goal with |- _ ≡ₚ ?l => assert (l = ["q1"; "q0"]) as -> by (by vm_compute) end.
      apply perm_swap.
    + match goal with |- _ ≡ₚ ?l => assert (l = ["a"%char]) as -> by (by vm_compute) end.
      done.
    + match goal with |- _ ≡ₚ ?l => assert (l = ["a"; "."]%char) as -> by (by vm_compute) end.
      apply perm_swap.
    + match goal with |- _ ≡ₚ ?l => assert (l = ["q1"]) as -> by (by vm_compute) end.
      done.
    + match goal with
      | |- _ ≡ₚ ?l =>
          assert (l = [Transition.mk "q0" "a" "q1" "a" RIGHT]) as -> by (by vm_compute)
      end.
      done.
  - by vm_compute.
  - intros q Hq. apply elem_of_elements in Hq.
    match type of Hq with
    | _ ∈ ?l => assert (l = ["q1"; "q0"]) as E by (by vm_compute); rewrite E in Hq
    end.
    assert (Hcases : q = "q1" \/ q = "q0")
      by (apply elem_of_cons in Hq as [|Hq]; [by left|];
          apply elem_of_cons in Hq as [|Hq]; [by right|];
          by apply not_elem_of_nil in Hq).
    split.
    + intros c Hc. destruct Hcases as [-> | ->]; vm_compute in Hc;
        by destruct Hc as [<-|[<-|[]]].
    + intros [rest Hrest]. by destruct Hcases as [-> | ->].
  - intros c Hc. apply elem_of_elements in Hc.
    match type of Hc with
    | _ ∈ ?l => assert (l = ["a"; "."]%char) as E by (by vm_compute); rewrite E in Hc
    end.
    apply elem_of_cons in Hc as [->|Hc]; [done|].
    apply elem_of_cons in Hc as [->|Hc]; [done|].
    by apply not_elem_of_nil in Hc.
  - apply (bool_decide_unpack _). by vm_compute.
  - apply (bool_decide_unpack _). by vm_compute.
  - apply (bool_decide_unpack _). by vm_compute.
  - apply (bool_decide_unpack _). by vm_compute.
Defined.

(** ** The multi-tape loader *)

Section MultiTransitionLines.

Implicit Types (s t acc rest line : string) (c : ascii) (cs : list ascii).

(** The items after the first all have a comma in front. *)
Lemma comma_separated_later cs : forall i j,
  (0 < i)%nat -> (0 < j)%nat ->
  MultiTransition.comma_separated cs i = MultiTransition.comma_separated cs j.
Proof.
  induction cs as [|c cs IH]; intros i j Hi Hj; [done|].
  cbn [MultiTransition.comma_separated].
  destruct (decide (0 < i)%nat); [|lia]. destruct (decide (0 < j)%nat); [|lia].
  by rewrite (IH (S i) (S j)) by lia.
Qed.

Lemma getline_loop_commas cs : forall acc,
  acc <> "" -> Forall (fun c => c <> ","%char) cs ->
  Parser.getline_loop "," (MultiTransition.comma_separated cs 1) acc
  = acc :: (Parser.put <$> cs).
Proof.
  induction cs as [|c cs IH]; intros acc Hacc Hcs.
  - simpl. by destruct (decide (acc = "")).
  - apply Forall_cons in Hcs as [Hc Hcs]. cbn [MultiTransition.comma_separated].
    destruct (decide (0 < 1)%nat); [|lia]. simpl.
    destruct (decide (c = ","%char)); [done|].
    rewrite (comma_separated_later cs 2 1) by lia. by rewrite IH.
Qed.

(** The pieces of a list written with commas are its items. *)
Lemma getline_loop_comma_separated cs :
  Forall (fun c => c <> ","%char) cs ->
  Parser.getline_loop "," (MultiTransition.comma_separated cs 0) "" = Parser.put <$> cs.
Proof.
  destruct cs as [|c cs]; [done|]. intros [Hc Hcs]%Forall_cons.
  cbn [MultiTransition.comma_separated]. destruct (decide (0 < 0)%nat); [lia|]. simpl.
  destruct (decide (c = ","%char)); [done|]. by rewrite getline_loop_commas.
Qed.

Lemma whitespace_free_comma_separated cs : forall i,
  Forall (fun c => Parser.isspace c = false) cs ->
  whitespace_free (MultiTransition.comma_separated cs i).
Proof.
  induction cs as [|c cs IH]; intros i Hcs; [apply whitespace_free_empty|].
  apply Forall_cons in Hcs as [Hc Hcs]. cbn [MultiTransition.comma_separated].
  apply whitespace_free_append. split.
  - destruct (decide _); [|apply whitespace_free_empty].
    apply whitespace_free_cons. split; [done|apply whitespace_free_empty].
  - apply whitespace_free_cons. split; [done|]. by apply IH.
Qed.

Lemma token_comma_separated cs :
  cs <> [] -> Forall (fun c => Parser.isspace c = false) cs ->
  token (MultiTransition.comma_separated cs 0).
Proof.
  intros Hne Hcs. split; [|by apply whitespace_free_comma_separated].
  destruct cs as [|c cs]; [done|]. cbn [MultiTransition.comma_separated].
  by destruct (decide (0 < 0)%nat).
Qed.

Lemma to_symbols_put cs : MultiParser.to_symbols (Parser.put <$> cs) = Ok cs.
Proof.
  induction cs as [|c cs IH]; [done|]. cbn [fmap list_fmap MultiParser.to_symbols].
  fold (Parser.put <$> cs). by rewrite IH.
Qed.

Lemma to_movements_put (n : Z) (movements : list Movement) :
  MultiParser.to_movements n (Parser.put <$> (MultiTransition.movement_letter <$> movements))
  = Ok movements.
Proof.
  induction movements as [|mov movements IH]; [done|].
  cbn [fmap list_fmap MultiParser.to_movements].
  fold (MultiTransition.movement_letter <$> movements).
  fold (Parser.put <$> (MultiTransition.movement_letter <$> movements)).
  rewrite IH. by destruct mov.
Qed.

End MultiTransitionLines.

(** X25. A multi-tape transition written by [MultiTransition::to_string]
    is read back by [Parser::parse_multi_transition] as the same
    transition, whatever the line number, provided its two state names are
    non-empty and hold no white space and none of its symbols is a
    white-space character or a comma. *)
Theorem parse_multi_transition_reads_to_string (tr : MultiTransition.t) (line_number : Z) :
  MultiTransition.is_well_formed tr = true ->
  token (MultiTransition.from_state_ tr) ->
  token (MultiTransition.to_state_ tr) ->
  Forall (fun c => Parser.isspace c = false /\ c <> ","%char)
         (MultiTransition.read_symbols_ tr ++ MultiTransition.write_symbols_ tr) ->
  MultiParser.parse_multi_transition (MultiTransition.to_string tr) line_number
    (MultiTransition.get_num_tapes tr)
  = Returns tr.
Proof.
  intros Hwf Hfrom Hto Hsymbols. destruct tr as [from reads to writes moves].
  unfold MultiTransition.is_well_formed in Hwf. simpl in *.
  apply andb_true_iff in Hwf as [Hwf Hpos%bool_decide_eq_true].
  apply andb_true_iff in Hwf as [Hwrites%bool_decide_eq_true Hmoves%bool_decide_eq_true].
  apply Forall_app in Hsymbols as [Hreads_ok Hwrites_ok].
  assert (Hsplit : forall cs, Forall (fun c => Parser.isspace c = false /\ c <> ","%char) cs ->
            Forall (fun c => Parser.isspace c = false) cs
            /\ Forall (fun c => c <> ","%char) cs).
  { intros cs Hcs. split; (eapply Forall_impl; [exact Hcs|]); by intros c [? ?]. }
  destruct (Hsplit _ Hreads_ok) as [Hreads_space Hreads_comma].
  destruct (Hsplit _ Hwrites_ok) as [Hwrites_space Hwrites_comma].
  assert (Hletters : Forall (fun c => Parser.isspace c = false)
                            (MultiTransition.movement_letter <$> moves)
                     /\ Forall (fun c => c <> ","%char)
                               (MultiTransition.movement_letter <$> moves)).
  { split; apply Forall_fmap, Forall_forall; by intros []. }
  destruct Hletters as [Hletters_space Hletters_comma].
  unfold MultiParser.parse_multi_transition, Parser.split, MultiTransition.to_string.
  cbn [MultiTransition.from_state_ MultiTransition.read_symbols_ MultiTransition.to_state_
       MultiTransition.write_symbols_ MultiTransition.movements_
       MultiTransition.get_num_tapes].
  rewrite (split_loop_token_then_space _ _ Hfrom).
  rewrite split_loop_token_then_space
    by (apply token_comma_separated; [by destruct reads; simpl in *; [lia|]|done]).
  rewrite (split_loop_token_then_space _ _ Hto).
  rewrite split_loop_token_then_space
    by (apply token_comma_separated; [by destruct writes; simpl in *; [lia|]|done]).
  rewrite split_loop_last_token
    by (apply token_comma_separated; [by destruct moves; simpl in *; [lia|]|done]).
  rewrite !getline_loop_comma_separated by done.
  rewrite !length_fmap, to_symbols_put, to_movements_put.
  repeat (destruct (decide _) as [Hno|_]; [by exfalso; apply Hno|]). simpl.
  rewrite to_symbols_put. simpl. unfold MultiTransition.new, MultiTransition.is_well_formed.
  simpl. by rewrite !bool_decide_true by (done || lia).
Qed.

Lemma parse_multi_transition_reads_to_string_witness :
  MultiParser.parse_multi_transition
    (MultiTransition.to_string
       (MultiTransition.mk "q0" ["a"; "."]%char "q1" ["b"; "."]%char [RIGHT; STAY]))
    7 2
  = Returns (MultiTransition.mk "q0" ["a"; "."]%char "q1" ["b"; "."]%char [RIGHT; STAY]).
Proof.
  apply (parse_multi_transition_reads_to_string
           (MultiTransition.mk "q0" ["a"; "."]%char "q1" ["b"; "."]%char [RIGHT; STAY]) 7).
  - reflexivity.
  - split; [done|]. intros c Hc. vm_compute in Hc.
    by destruct Hc as [<-|[<-|[]]].
  - split; [done|]. intros c Hc. vm_compute in Hc.
    by destruct Hc as [<-|[<-|[]]].
  - simpl. repeat (apply Forall_cons; split; [by split|]). by apply Forall_nil.
Defined.

Section MultiLoading.

Implicit Types (m machine : MultiTuringMachine.t) (section : Z) (input : list string).

Lemma parse_multi_transition_well_formed line (n : Z) (k : nat) tr :
  MultiParser.parse_multi_transition line n k = Returns tr ->
  MultiTransition.is_well_formed tr = true.
Proof.
  unfold MultiParser.parse_multi_transition.
  destruct (Parser.split line) as [|t0 [|t1 [|t2 [|t3 [|t4 [|? ?]]]]]]; try done.
  destruct (decide _); [done|].
  destruct (MultiParser.to_symbols _) as [reads| |]; simpl; [|done..].
  destruct (decide _); [done|].
  destruct (MultiParser.to_symbols _) as [writes| |]; simpl; [|done..].
  destruct (decide _); [done|].
  destruct (MultiParser.to_movements _ _) as [moves| |]; simpl; [|done..].
  unfold MultiTransition.new. destruct (MultiTransition.is_well_formed _) eqn:Hwf; simpl; [|done].
  by intros [= <-].
Qed.

Lemma of_mutated_altered {S : Type} (P : S -> Prop) (r : mutated S) (s' : S) :
  holds_after P r -> of_mutated r = Altered s' -> P s'.
Proof. destruct r; simpl; [|done..]. by intros HP [= <-]. Qed.

Lemma parse_multi_section_loading section (k k' : nat) line (n : Z) m m' section' :
  multi_loading section m ->
  MultiParser.parse_multi_section section k line n m = (Altered m', section', k') ->
  multi_loading section' m' /\ 0 <= section'.
Proof.
  intros Hm. unfold MultiParser.parse_multi_section.
  destruct (decide (section = -1)) as [->|Hstarted].
  { destruct Hm as [[_ Hnone]|[? _]]; [|lia].
    destruct (bool_decide _); [|done].
    destruct (Parser.split line) as [|? [|count [|? ?]]]; try done.
    destruct (MultiParser.stoi count) as [v| |]; [|done..].
    unfold MultiTuringMachine.set_num_tapes. destruct (decide _) as [|Hk]; [done|].
    simpl. intros [= <- <- <-]. split; [|done]. right. split; [done|]. split; [done|].
    intros key tr Hin. simpl in Hin. by rewrite Hnone, lookup_empty in Hin. }
  destruct Hm as [[? _]|[Hsection Hm]]; [done|].
  assert (Hkeep : forall (f : MultiTuringMachine.t -> mutated MultiTuringMachine.t) s,
            0 <= s -> preserves well_built f -> of_mutated (f m) = Altered m' ->
            multi_loading s m' /\ 0 <= s).
  { intros f s Hs Hf Hdone. split; [|done]. right. split; [done|].
    by apply (of_mutated_altered well_built (f m)); [apply Hf|]. }
  repeat case_decide; subst.
  - destruct (Parser.split line) eqn:E; [done|]. intros [= Hr <- <-].
    apply (Hkeep (Parser.for_each MultiTuringMachine.add_state (s :: l))); [lia| |done].
    apply preserves_for_each. intros q. apply add_state_well_built.
  - intros [= Hr <- <-]. eapply (Hkeep (Parser.for_each _ _)); [lia| |exact Hr].
    apply preserves_for_each. intros tok. apply preserves_with_value.
    intros c. apply add_input_symbol_well_built.
  - intros [= Hr <- <-]. eapply (Hkeep (Parser.for_each _ _)); [lia| |exact Hr].
    apply preserves_for_each. intros tok. apply preserves_with_value.
    intros c. apply add_tape_symbol_well_built.
  - destruct (Parser.split line) as [|tok [|? ?]]; try done. intros [= Hr <- <-].
    apply (Hkeep (MultiTuringMachine.set_initial_state tok)); [lia| |done].
    intros m0 Hm0. apply add_state_well_built. by apply (well_built_frame m0).
  - destruct (Parser.split line) as [|tok [|? ?]]; try done. intros [= Hr <- <-].
    eapply (Hkeep (with_value _ _)); [lia| |exact Hr].
    apply preserves_with_value. intros c. apply set_blank_symbol_well_built.
  - intros [= Hr <- <-]. eapply (Hkeep (Parser.for_each _ _)); [lia| |exact Hr].
    apply preserves_for_each. intros q m0 Hm0. apply add_state_well_built.
    by apply (well_built_frame m0).
  - destruct (MultiParser.parse_multi_transition line n k) as [tr| |] eqn:Etr; [|done..].
    intros [= Hr <- <-].
    apply (Hkeep (MultiTuringMachine.add_transition tr)); [lia| |].
    + apply add_transition_well_built. left.
      by apply (parse_multi_transition_well_formed _ _ _ _ Etr).
    + by destruct (MultiTuringMachine.add_transition tr m).
Qed.

Lemma parse_multi_lines_loading input : forall (n : Z) section (k : nat) m m' section',
  multi_loading section m ->
  MultiParser.parse_multi_lines input n section k m = (Altered m', section') ->
  multi_loading section' m'.
Proof.
  induction input as [|line rest IH]; intros n section k m m' section' Hm; simpl.
  - by intros [= <- <-].
  - destruct (_ || _); [by apply IH|].
    destruct (MultiParser.parse_multi_section section k (Parser.trim line) (n + 1) m)
      as [[[m1|e m1|] section1] k1] eqn:E; [|done..].
    apply IH. by apply (parse_multi_section_loading _ _ _ _ _ _ _ _ Hm E).
Qed.

End MultiLoading.

(** X26. A machine that [Parser::load_multi_from_file] accepted, with a
    number of tapes that [reserve] accepts (at most [INT_MAX]), can be
    simulated: it is valid, the constructor of [MultiSimulator] accepts
    it, and for a step budget [0 < max_steps < 2^64]
    [MultiSimulator::simulate] returns one of the four results within
    [max_steps + 1] passes of its loop, without an exception and without
    an unchecked access past the end of a vector, whatever the word and
    whatever the machine object held before the load. (Failure to
    allocate the tapes is outside the model.) *)
Theorem loaded_multi_machine_is_simulated
    (input : list string) (machine : MultiTuringMachine.t)
    (fuel : nat) (w : string) (trace : bool) (max_steps : N) :
  MultiParser.loaded (MultiParser.load_multi_from_file input machine) = true ->
  reservable
    (MultiTuringMachine.num_tapes_
       (MultiParser.machine_after (MultiParser.load_multi_from_file input machine))) ->
  (0 < max_steps < SIZE_MAX_plus_1)%N ->
  (N.to_nat max_steps < fuel)%nat ->
  MultiTuringMachine.is_valid
    (MultiParser.machine_after (MultiParser.load_multi_from_file input machine)) = Ok true
  /\ MultiParser.last_error_ (MultiParser.load_multi_from_file input machine) = None
  /\ exists s result s',
       MultiSimulator.new
         (Some (MultiParser.machine_after (MultiParser.load_multi_from_file input machine)))
       = Ok s
       /\ MultiSimulator.simulate fuel w trace max_steps s = Some (Ok (result, s')).
Proof.
  unfold MultiParser.load_multi_from_file.
  destruct (MultiParser.parse_multi_lines input 0 (-1) 1 (MultiTuringMachine.clear machine))
    as [[m'|e m'|] section] eqn:Hlines; [|done..].
  destruct (decide (section < 6)) as [|Hsection]; [done|].
  destruct (MultiTuringMachine.is_valid m') as [[|]| |] eqn:Hvalid; [|done..].
  simpl. intros _ Hres Hbudget Hfuel. split; [done|]. split; [done|].
  assert (Hbuilt : well_built m').
  { destruct (parse_multi_lines_loading input 0 (-1) 1 (MultiTuringMachine.clear machine)
                m' section (or_introl (conj eq_refl eq_refl)) Hlines) as [[? _]|[_ ?]];
      [lia|done]. }
  destruct (multi_new_returns m' (proj1 Hbuilt) Hres) as (s & Hs & Hm).
  destruct (simulate_well_built_returns fuel w trace max_steps s m' Hm Hbuilt Hres
              Hbudget Hfuel) as (r & s' & Hrun).
  by exists s, r, s'.
Qed.

Lemma loaded_multi_machine_is_simulated_witness :
  exists s result s',
    MultiSimulator.new
      (Some (MultiParser.machine_after
               (MultiParser.load_multi_from_file
                  ["# copy"; "MULTICINTA 2"; "q0 q1"; "a"; "a ."; "q0"; "."; "q1";
                   "q0 a,. q0 a,a R,R"; "q0 .,. q1 .,. S,S"]
                  (MultiTuringMachine.mk ∅ ∅ {[ "."%char ]} "" ∅ "." 1 ∅))))
    = Ok s
    /\ MultiSimulator.simulate 12 "aa" false 10 s = Some (Ok (result, s')).
Proof.
  apply (loaded_multi_machine_is_simulated
           ["# copy"; "MULTICINTA 2"; "q0 q1"; "a"; "a ."; "q0"; "."; "q1";
            "q0 a,. q0 a,a R,R"; "q0 .,. q1 .,. S,S"]
           (MultiTuringMachine.mk ∅ ∅ {[ "."%char ]} "" ∅ "." 1 ∅) 12 "aa" false 10).
  - by vm_compute.
  - by vm_compute.
  - by vm_compute.
  - lia.
Defined.

(** ** Equivalent multi-tape configurations *)

Section MultiFingerprint.

Implicit Types (indices : list nat).


End MultiFingerprint.



(** ** Reading all the tapes *)

Section ReadAll.

Lemma read_all_loop_spec (tapes : list Tape.t) (indices : list nat) :
  Forall (fun i => (i < length tapes)%nat) indices ->
  exists symbols,
    MultiTape.read_all_loop tapes indices = Ok symbols
    /\ length symbols = length indices
    /\ forall j i, indices !! j = Some i ->
         exists tp, tapes !! i = Some tp /\ symbols !! j = Some (Tape.read tp).
Proof.
  induction 1 as [|i indices Hi _ IH].
  - exists []. by repeat split.
  - destruct IH as (symbols & Hloop & Hlen & Hall).
    destruct (lookup_lt_is_Some_2 tapes i Hi) as [tp Htp].
    exists (Tape.read tp :: symbols). cbn [MultiTape.read_all_loop]. unfold at_index.
    rewrite Htp, Hloop. simpl. split; [done|]. split; [by rewrite Hlen|].
    intros [|j] i'; simpl; [|by apply Hall]. intros [= <-]. by exists tp.
Qed.

End ReadAll.

(** X28. On a [MultiTape] that holds as many tapes as it counts,
    [read_all] returns one symbol per tape, and the symbol at index [i] is
    the one [read(i)] returns: the symbol under the head of tape [i]. *)
Theorem read_all_reads_every_tape (mt : MultiTape.t) :
  MultiTape.well_formed mt ->
  exists symbols,
    MultiTape.read_all mt = Ok symbols
    /\ length symbols = MultiTape.get_num_tapes mt
    /\ forall i, (i < MultiTape.get_num_tapes mt)%nat ->
         exists c, symbols !! i = Some c /\ MultiTape.read mt i = Ok c.
Proof.
  intros WF. unfold MultiTape.read_all, MultiTape.get_num_tapes.
  destruct (read_all_loop_spec (MultiTape.tapes_ mt) (seq 0 (MultiTape.num_tapes_ mt)))
    as (symbols & -> & Hlen & Hall).
  { apply Forall_forall. intros i Hi. apply elem_of_seq in Hi. rewrite WF. lia. }
  exists symbols. split; [done|]. split; [by rewrite Hlen, length_seq|].
  intros i Hi. destruct (Hall i i) as (tp & Htp & Hsym); [by apply lookup_seq_lt|].
  exists (Tape.read tp). split; [done|]. unfold MultiTape.read.
  by apply on_tape_in_range.
Qed.

Lemma read_all_reads_every_tape_witness :
  exists symbols,
    MultiTape.read_all two_tapes = Ok symbols
    /\ length symbols = MultiTape.get_num_tapes two_tapes
    /\ forall i, (i < MultiTape.get_num_tapes two_tapes)%nat ->
         exists c, symbols !! i = Some c /\ MultiTape.read two_tapes i = Ok c.
Proof. apply (read_all_reads_every_tape two_tapes). reflexivity. Defined.

(** ** The word loop with a multi-tape machine *)

Section MultiWordLoop.

Implicit Types (s sim : MultiSimulator.t) (m : MultiTuringMachine.t).

Lemma word_in_alphabet_multi_accepts w m :
  (Main.word_in_alphabet_multi w m).1 = true ->
  MultiTuringMachine.is_valid_input_word m w = true.
Proof.
  induction w as [|c w IH]; [done|]. simpl.
  destruct (negb (MultiTuringMachine.is_input_symbol m c)); [done|]. exact IH.
Qed.

Lemma multi_step_machine s b s1 :
  MultiSimulator.step s = Ok (b, s1) ->
  MultiSimulator.machine_ s1 = MultiSimulator.machine_ s.
Proof.
  unfold MultiSimulator.step. destruct (MultiSimulator.machine_ s) eqn:Hm;
    [|by intros [= <- <-]].
  destruct (MultiSimulator.current_symbols s); simpl; [|done..].
  destruct (MultiTuringMachine.get_transition _ _ _); [|by intros [= <- <-]].
  destruct (MultiSimulator.finish _); simpl; [|done..].
  destruct (MultiSimulator.finish _); simpl; [|done..].
  by intros [= <- <-].
Qed.

(** The simulator a pass of the loop ends the run with still serves its
    machine, with well-formed tapes. *)
Lemma multi_terminal_ready s r s' :
  ready s ->
  MultiSimulator.loop_body s = Ok (inl (r, s')) ->
  r <> ERROR /\ ready s' /\ MultiSimulator.machine_ s' = MultiSimulator.machine_ s.
Proof.
  intros Hready Hbody.
  assert (Hr : r <> ERROR).
  { destruct (loop_body_ready s Hready) as [(r0 & s0 & Hb & Hr0)|(s2 & Hb & _)];
      rewrite Hb in Hbody; [by injection Hbody as <- <-|done]. }
  split; [done|]. revert Hbody. unfold MultiSimulator.loop_body.
  destruct (MultiSimulator.budget_exhausted s); [by intros [= <- <-]|].
  destruct (MultiSimulator.is_accepting_state s) as [[|]| |]; simpl;
    [by intros [= <- <-]| |done..].
  destruct (MultiSimulator.has_applicable_transition s) as [[|]| |]; simpl;
    [|by intros [= <- <-]|done..].
  destruct (step_ready s Hready) as (b & s1 & Hstep & Hready1 & _). rewrite Hstep. simpl.
  destruct b; [|by intros [= <- _]].
  destruct (MultiSimulator.is_configuration_visited s1) as [[|]| |]; simpl; [| |done..].
  - intros [= <- <-]. split; [by apply Hready1|]. by apply (multi_step_machine s true).
  - by destruct (MultiSimulator.mark_configuration_as_visited s1).
Qed.

Lemma multi_pass_machine s s2 :
  MultiSimulator.loop_body s = Ok (inr s2) ->
  MultiSimulator.machine_ s2 = MultiSimulator.machine_ s.
Proof.
  unfold MultiSimulator.loop_body.
  destruct (MultiSimulator.budget_exhausted s); [done|].
  destruct (MultiSimulator.is_accepting_state s) as [[|]| |]; simpl; [done| |done..].
  destruct (MultiSimulator.has_applicable_transition s) as [[|]| |]; simpl; [|done..].
  destruct (MultiSimulator.step s) as [[[|] s1]| |] eqn:Hstep; simpl; [|done..].
  destruct (MultiSimulator.is_configuration_visited s1) as [[|]| |]; simpl; [done| |done..].
  unfold MultiSimulator.mark_configuration_as_visited.
  destruct (MultiSimulator.get_configuration_key s1); simpl; [|done..].
  intros [= <-]. unfold MultiSimulator.add_to_trace. simpl.
  rewrite <- (multi_step_machine s true s1 Hstep). by destruct (MultiSimulator.trace_enabled_ s1).
Qed.

Lemma multi_main_loop_final fuel : forall s r s',
  ready s ->
  MultiSimulator.main_loop fuel s = Some (Ok (r, s')) ->
  r <> ERROR /\ ready s' /\ MultiSimulator.machine_ s' = MultiSimulator.machine_ s.
Proof.
  induction fuel as [|fuel IH]; intros s r s' Hready Hrun; [done|].
  cbn [MultiSimulator.main_loop] in Hrun.
  destruct (loop_body_ready s Hready) as [(r0 & s0 & Hb & _)|(s2 & Hb & Hready2)];
    rewrite Hb in Hrun.
  - injection Hrun as <- <-. by apply multi_terminal_ready.
  - destruct (IH _ _ _ Hready2 Hrun) as (Hr & Hready' & Hm). split; [done|].
    split; [done|]. rewrite Hm. by apply multi_pass_machine.
Qed.

(** What [simulate] returns for a well-built, valid machine and a word
    the alphabet gate of [main] has let through. *)
Lemma multi_simulate_after_the_gate fuel w tr budget m sim :
  MultiSimulator.machine_ sim = Some m ->
  well_built m ->
  reservable (MultiTuringMachine.num_tapes_ m) ->
  MultiTuringMachine.is_valid m = Ok true ->
  (Main.word_in_alphabet_multi w m).1 = true ->
  MultiSimulator.simulate fuel w tr budget sim = None
  \/ exists r sim',
       MultiSimulator.simulate fuel w tr budget sim = Some (Ok (r, sim'))
       /\ r <> ERROR /\ ready sim' /\ MultiSimulator.machine_ sim' = Some m.
Proof.
  intros Hm Hbuilt Hres Hvalid Hword. unfold MultiSimulator.simulate.
  rewrite Hm, Hvalid, (word_in_alphabet_multi_accepts w m Hword). simpl.
  destruct (setup_ready w tr budget sim m Hm Hbuilt Hres) as (s0 & Hsetup & Hready).
  destruct (multi_setup_facts w tr budget sim m Hm (proj1 Hbuilt) Hres)
    as (s0' & Hsetup' & _ & _ & Hm0 & _).
  rewrite Hsetup in Hsetup'. injection Hsetup' as <-. rewrite Hsetup.
  destruct (main_loop_ready fuel s0 Hready) as [->|(r & s' & Hrun & _)]; [by left|].
  right. exists r, s'. split; [done|].
  destruct (multi_main_loop_final fuel s0 r s' Hready Hrun) as (Hr & Hready' & Hm').
  by rewrite Hm', Hm0.
Qed.

End MultiWordLoop.

Section MultiReport.

Lemma appended_refl (s : Main.io) : appended s s.
Proof.
  split; [done|]. split; [done|]. exists []. split; [by rewrite app_nil_r|].
  intros text Hin. by apply elem_of_nil in Hin.
Qed.

Lemma appended_print (x : Main.stdout_item) (s s' : Main.io) :
  (forall text, x <> Main.ResultLine text) ->
  appended s s' -> appended s (Main.print x s').
Proof.
  intros Hx (Hp & He & items & Hout & Hno). split; [done|]. split; [done|].
  exists (items ++ [x])%list. split; [simpl; by rewrite Hout, app_assoc|].
  intros text Hin. apply elem_of_app in Hin as [Hin|Hin]; [by apply (Hno text)|].
  apply list_elem_of_singleton in Hin. by apply (Hx text).
Qed.

(** The loop that prints the final tapes. *)
Lemma print_tapes (tapes : MultiTape.t) (indices : list nat) : forall (s0 s : Main.io),
  MultiTape.well_formed tapes ->
  Forall (fun i => (i < MultiTape.num_tapes_ tapes)%nat) indices ->
  appended s0 s ->
  exists s',
    foldl (fun acc i =>
             acc &> with_value (MultiTape.get_tape tapes i)
                      (fun tp s' => Done (Main.print (Main.FinalTapeLine i tp) s')))
          (Done s) indices = Done s'
    /\ appended s0 s'.
Proof.
  induction indices as [|i indices IH]; intros s0 s WF Hall Hs; simpl; [by exists s|].
  apply Forall_cons in Hall as [Hi Hall].
  destruct (on_tape_ok (fun tp => tp) tapes i WF Hi) as (tp & _ & Hget).
  unfold MultiTape.get_tape. rewrite Hget. simpl.
  apply IH; [done|done|]. by apply appended_print.
Qed.

End MultiReport.

Section LoadedProgram.

Lemma loaded_multi_machine_facts (input : list string) (machine : MultiTuringMachine.t) :
  MultiParser.loaded (MultiParser.load_multi_from_file input machine) = true ->
  well_built (MultiParser.machine_after (MultiParser.load_multi_from_file input machine))
  /\ MultiTuringMachine.is_valid
       (MultiParser.machine_after (MultiParser.load_multi_from_file input machine))
     = Ok true.
Proof.
  unfold MultiParser.load_multi_from_file.
  destruct (MultiParser.parse_multi_lines input 0 (-1) 1 (MultiTuringMachine.clear machine))
    as [[m'|e m'|] section] eqn:Hlines; [|done..].
  destruct (decide (section < 6)) as [|Hsection]; [done|].
  destruct (MultiTuringMachine.is_valid m') as [[|]| |] eqn:Hvalid; [|done..].
  simpl. intros _. split; [|done].
  destruct (parse_multi_lines_loading input 0 (-1) 1 (MultiTuringMachine.clear machine)
              m' section (or_introl (conj eq_refl eq_refl)) Hlines) as [[? _]|[_ ?]];
    [lia|done].
Qed.

(** The part of the [try] block after [simulate], for a multi-tape
    simulator that is ready and a result other than ERROR. *)
Lemma report_multi (result : SimulationResult) (word : string) (trace : bool)
    (max_steps : N) (m : MultiTuringMachine.t) (sim : MultiSimulator.t) (s : Main.io) :
  ready sim -> result <> ERROR ->
  exists s',
    Main.report result word trace max_steps (Main.with_prog (Main.Multi m sim) s) = Done s'
    /\ appended (Main.print (Main.ResultLine (result_to_string result))
                   (Main.with_prog (Main.Multi m sim) s)) s'.
Proof.
  intros (m' & _ & _ & WF & _) Hresult. unfold Main.report.
  set (s1 := Main.print (Main.ResultLine (result_to_string result))
               (Main.with_prog (Main.Multi m sim) s)).
  change (Main.prog s1) with (Main.Multi m sim). cbv beta iota. unfold for_index.
  destruct (print_tapes (MultiConfiguration.tapes_ (MultiSimulator.current_config_ sim))
              (seq 0 (MultiTape.get_num_tapes
                        (MultiConfiguration.tapes_ (MultiSimulator.current_config_ sim))))
              s1 (Main.print Main.FinalTapesHeader s1) WF (indices_in_range _))
    as (sA & -> & HA); [by apply appended_print; [|apply appended_refl]|].
  simpl.
  assert (HB : appended s1 (if trace then Main.print (Main.TraceBlock word) sA else sA))
    by (destruct trace; [by apply appended_print|done]).
  set (sB := if trace then Main.print (Main.TraceBlock word) sA else sA) in *.
  destruct result; [by exists sB|by exists sB| |done].
  destruct HB as (Hprog & Herr & Hout). rewrite Hprog.
  change (Main.prog s1) with (Main.Multi m sim). cbv beta iota.
  unfold MultiSimulator.is_infinite_loop_detected, MultiSimulator.is_configuration_visited,
    MultiSimulator.get_configuration_key.
  destruct (to_compact_string_ok (MultiSimulator.current_config_ sim) WF) as [key ->].
  simpl. eexists. split; [done|].
  apply appended_print; [by destruct (bool_decide _)|done].
Qed.

Lemma multi_new_machine (m : MultiTuringMachine.t) (sim : MultiSimulator.t) :
  MultiSimulator.new (Some m) = Ok sim -> MultiSimulator.machine_ sim = Some m.
Proof.
  unfold MultiSimulator.new.
  destruct (MultiConfiguration.new "" 1 "" "."); simpl; [|done..].
  destruct (MultiConfiguration.new _ _ _ _); simpl; [|done..]. by intros [= <-].
Qed.

End LoadedProgram.

(** X29. With a multi-tape machine that [load_multi_from_file] accepted,
    whose number of tapes [reserve] accepts (at most [INT_MAX], so that
    the constructor of [MultiSimulator] has returned and each [reset]
    can build its tapes), the word loop of [main] never prints ERROR: for
    every input line, once [simulate] has returned, exactly one result
    line is printed and it is ACCEPT, REJECT or INFINITE, no exception
    reaches the [catch] clause, and nothing is written to the standard
    error outside strict mode. The simulator keeps serving the same
    machine, so this holds line after line. (Failure to allocate is
    outside the model.) *)
Theorem loaded_multi_program_prints_no_error
    (input : list string) (machine : MultiTuringMachine.t)
    (fuel : nat) (strict_mode trace : bool) (max_steps : N) (line : string)
    (multi_simulator : MultiSimulator.t) (s : Main.io) :
  let loaded := MultiParser.load_multi_from_file input machine in
  MultiParser.loaded loaded = true ->
  reservable (MultiTuringMachine.num_tapes_ (MultiParser.machine_after loaded)) ->
  Main.prog s = Main.Multi (MultiParser.machine_after loaded) multi_simulator ->
  MultiSimulator.machine_ multi_simulator = Some (MultiParser.machine_after loaded) ->
  Main.process_line fuel strict_mode trace max_steps line s = None
  \/ exists s' result multi_simulator' rest,
       Main.process_line fuel strict_mode trace max_steps line s = Some (Ok s')
       /\ result <> ERROR
       /\ Main.prog s' = Main.Multi (MultiParser.machine_after loaded) multi_simulator'
       /\ MultiSimulator.machine_ multi_simulator' = Some (MultiParser.machine_after loaded)
       /\ Main.cout s' = (Main.cout s ++ Main.ResultLine (result_to_string result) :: rest)%list
       /\ (forall text, Main.ResultLine text ∉ rest)
       /\ (strict_mode = false -> Main.cerr s' = Main.cerr s).
Proof.
  intros loaded Hloaded Hres Hprog Hm.
  destruct (loaded_multi_machine_facts input machine Hloaded) as [Hbuilt Hvalid].
  fold loaded in Hbuilt, Hvalid. set (m := MultiParser.machine_after loaded) in *.
  unfold Main.process_line. rewrite Hprog.
  destruct (Main.word_in_alphabet_multi (Main.strip_spaces line) m) as [valid bad] eqn:Hword.
  destruct valid; simpl.
  - destruct (multi_simulate_after_the_gate fuel (Main.strip_spaces line) trace max_steps
                m multi_simulator Hm Hbuilt Hres Hvalid ltac:(by rewrite Hword))
      as [->|(result & sim' & -> & Hresult & Hready & Hm')]; [by left|].
    right.
    destruct (report_multi result (Main.strip_spaces line) trace max_steps m sim' s
                Hready Hresult) as (s' & -> & Hp & He & items & Hout & Hno).
    exists s', result, sim', items. simpl in *.
    split; [done|]. split; [done|]. split; [done|]. split; [done|].
    split; [by rewrite Hout, <- app_assoc|]. split; [done|]. by intros _.
  - right. exists (if strict_mode
                   then Main.print (Main.ResultLine "REJECT")
                          (Main.eprint (Main.WordError bad (Main.strip_spaces line)) s)
                   else Main.print (Main.ResultLine "REJECT") s), REJECTED, multi_simulator, [].
    destruct strict_mode; simpl; repeat split; try done; by intros ? ?%elem_of_nil.
Qed.

Lemma loaded_multi_program_prints_no_error_witness :
  exists sim,
    MultiSimulator.new
      (Some (MultiParser.machine_after
               (MultiParser.load_multi_from_file
                  ["MULTICINTA 2"; "q0 q1"; "a"; "a ."; "q0"; "."; "q1";
                   "q0 a,. q0 a,a R,R"; "q0 .,. q1 .,. S,S"]
                  (MultiTuringMachine.mk ∅ ∅ {[ "."%char ]} "" ∅ "." 1 ∅))))
    = Ok sim
    /\ (Main.process_line 12 false true 10 "a a"
          (Main.mk_io [] []
             (Main.Multi
                (MultiParser.machine_after
                   (MultiParser.load_multi_from_file
                      ["MULTICINTA 2"; "q0 q1"; "a"; "a ."; "q0"; "."; "q1";
                       "q0 a,. q0 a,a R,R"; "q0 .,. q1 .,. S,S"]
                      (MultiTuringMachine.mk ∅ ∅ {[ "."%char ]} "" ∅ "." 1 ∅)))
                sim))
        = None
        \/ exists s' result sim' rest,
             Main.process_line 12 false true 10 "a a"
               (Main.mk_io [] []
                  (Main.Multi
                     (MultiParser.machine_after
                        (MultiParser.load_multi_from_file
                           ["MULTICINTA 2"; "q0 q1"; "a"; "a ."; "q0"; "."; "q1";
                            "q0 a,. q0 a,a R,R"; "q0 .,. q1 .,. S,S"]
                           (MultiTuringMachine.mk ∅ ∅ {[ "."%char ]} "" ∅ "." 1 ∅)))
                     sim))
             = Some (Ok s')
             /\ result <> ERROR
             /\ Main.prog s'
                = Main.Multi
                    (MultiParser.machine_after
                       (MultiParser.load_multi_from_file
                          ["MULTICINTA 2"; "q0 q1"; "a"; "a ."; "q0"; "."; "q1";
                           "q0 a,. q0 a,a R,R"; "q0 .,. q1 .,. S,S"]
                          (MultiTuringMachine.mk ∅ ∅ {[ "."%char ]} "" ∅ "." 1 ∅)))
                    sim'
             /\ MultiSimulator.machine_ sim'
                = Some (MultiParser.machine_after
                          (MultiParser.load_multi_from_file
                             ["MULTICINTA 2"; "q0 q1"; "a"; "a ."; "q0"; "."; "q1";
                              "q0 a,. q0 a,a R,R"; "q0 .,. q1 .,. S,S"]
                             (MultiTuringMachine.mk ∅ ∅ {[ "."%char ]} "" ∅ "." 1 ∅)))
             /\ Main.cout s' = ([] ++ Main.ResultLine (result_to_string result) :: rest)%list
             /\ (forall text, Main.ResultLine text ∉ rest)
             /\ (false = false -> Main.cerr s' = [])).
Proof.
  destruct (MultiSimulator.new
              (Some (MultiParser.machine_after
                       (MultiParser.load_multi_from_file
                          ["MULTICINTA 2"; "q0 q1"; "a"; "a ."; "q0"; "."; "q1";
                           "q0 a,. q0 a,a R,R"; "q0 .,. q1 .,. S,S"]
                          (MultiTuringMachine.mk ∅ ∅ {[ "."%char ]} "" ∅ "." 1 ∅)))))
    as [sim| |] eqn:Hnew; [|by vm_compute in Hnew..].
  exists sim. split; [done|].
  apply (loaded_multi_program_prints_no_error
           ["MULTICINTA 2"; "q0 q1"; "a"; "a ."; "q0"; "."; "q1";
            "q0 a,. q0 a,a R,R"; "q0 .,. q1 .,. S,S"]
           (MultiTuringMachine.mk ∅ ∅ {[ "."%char ]} "" ∅ "." 1 ∅)
           12 false true 10 "a a" sim).
  - by vm_compute.
  - by vm_compute.
  - reflexivity.
  - by apply multi_new_machine.
Defined.

(** ** The class invariant of MultiTuringMachine *)

Section MultiClassInvariant.

Implicit Types (m : MultiTuringMachine.t) (tr : MultiTransition.t).

Lemma multi_class_invariant_new k b m :
  MultiTuringMachine.new k b = Ok m -> multi_class_invariant m.
Proof.
  unfold MultiTuringMachine.new. destruct (decide _) as [|Hk]; [done|]. intros [= <-].
  unfold multi_class_invariant. simpl.
  split; [apply not_elem_of_empty|]. split; [by apply elem_of_singleton|].
  split; [apply empty_subseteq|]. split; [done|].
  split; [by intros q Hq%not_elem_of_empty|]. split; [done|].
  intros key tr H. by rewrite lookup_empty in H.
Qed.

Lemma multi_class_invariant_clear m :
  multi_class_invariant m -> multi_class_invariant (MultiTuringMachine.clear m).
Proof.
  intros (_ & _ & _ & _ & _ & Hk & _). unfold multi_class_invariant. simpl.
  split; [apply not_elem_of_empty|]. split; [by apply elem_of_singleton|].
  split; [apply empty_subseteq|]. split; [done|].
  split; [by intros q Hq%not_elem_of_empty|]. split; [done|].
  intros key tr H. by rewrite lookup_empty in H.
Qed.

(** A machine that has grown, with the transitions it had. *)
Lemma multi_class_invariant_extend m m' :
  multi_class_invariant m ->
  MultiTuringMachine.states_ m ⊆ MultiTuringMachine.states_ m' ->
  ("" ∉ MultiTuringMachine.states_ m') ->
  MultiTuringMachine.tape_alphabet_ m ⊆ MultiTuringMachine.tape_alphabet_ m' ->
  MultiTuringMachine.blank_symbol_ m' ∈ MultiTuringMachine.tape_alphabet_ m' ->
  MultiTuringMachine.input_alphabet_ m' ⊆ MultiTuringMachine.tape_alphabet_ m' ->
  (MultiTuringMachine.initial_state_ m' <> "" ->
   MultiTuringMachine.initial_state_ m' ∈ MultiTuringMachine.states_ m') ->
  (forall q, q ∈ MultiTuringMachine.accept_states_ m' -> q <> "" ->
             q ∈ MultiTuringMachine.states_ m') ->
  MultiTuringMachine.num_tapes_ m' <> 0%nat ->
  MultiTuringMachine.transitions_ m' = MultiTuringMachine.transitions_ m ->
  multi_class_invariant m'.
Proof.
  intros (_ & _ & _ & _ & _ & _ & Htr) Hq Hne Hg Hb Hi Hinit Hacc Hk Hsame.
  repeat (split; [done|]). rewrite Hsame. intros key tr Hin.
  destruct (Htr key tr Hin) as (Hkey & Hwf & Hf & Ht & Hr & Hw).
  split; [done|]. split; [done|]. split; [by apply Hq|]. split; [by apply Hq|].
  split; intros c Hc; [by apply Hg, Hr|by apply Hg, Hw].
Qed.

Lemma multi_add_state_invariant q :
  preserves multi_class_invariant (MultiTuringMachine.add_state q).
Proof.
  intros m Hm. pose proof Hm as (H1 & H2 & H3 & H4 & H5 & H6 & _).
  unfold MultiTuringMachine.add_state. destruct (decide _) as [|Hq]; simpl; [done|].
  apply (multi_class_invariant_extend m); simpl; try done.
  - apply union_subseteq_r.
  - intros Hin. apply elem_of_union in Hin as [Hin|Hin]; [|done].
    by apply elem_of_singleton in Hin.
  - intros Hinit. apply elem_of_union_r. by apply H4.
  - intros q' Hq' Hne. apply elem_of_union_r. by apply H5.
Qed.

Lemma multi_add_tape_symbol_invariant c :
  preserves multi_class_invariant (MultiTuringMachine.add_tape_symbol c).
Proof.
  intros m Hm. pose proof Hm as (H1 & H2 & H3 & H4 & H5 & H6 & _). simpl.
  apply (multi_class_invariant_extend m); simpl; try done.
  - apply union_subseteq_r.
  - by apply elem_of_union_r.
  - intros x Hx. by apply elem_of_union_r, H3.
Qed.

Lemma multi_add_input_symbol_invariant c :
  preserves multi_class_invariant (MultiTuringMachine.add_input_symbol c).
Proof.
  intros m Hm. pose proof Hm as (H1 & H2 & H3 & H4 & H5 & H6 & _).
  unfold MultiTuringMachine.add_input_symbol. destruct (decide _); simpl; [done|].
  apply (multi_class_invariant_extend m); simpl; try done.
  - apply union_subseteq_r.
  - by apply elem_of_union_r.
  - intros x Hx. apply elem_of_union in Hx as [Hx|Hx];
      [by apply elem_of_union_l|by apply elem_of_union_r, H3].
Qed.

Lemma multi_set_blank_symbol_invariant c :
  preserves multi_class_invariant (MultiTuringMachine.set_blank_symbol c).
Proof.
  intros m Hm. pose proof Hm as (H1 & H2 & H3 & H4 & H5 & H6 & _).
  unfold MultiTuringMachine.set_blank_symbol. destruct (decide _); simpl; [|done].
  apply (multi_class_invariant_extend m); simpl; try done.
  - apply union_subseteq_r.
  - apply elem_of_union_l. by apply elem_of_singleton.
  - intros x Hx. by apply elem_of_union_r, H3.
Qed.

Lemma multi_set_initial_state_invariant q :
  preserves multi_class_invariant (MultiTuringMachine.set_initial_state q).
Proof.
  intros m Hm. pose proof Hm as (H1 & H2 & H3 & H4 & H5 & H6 & _).
  unfold MultiTuringMachine.set_initial_state, MultiTuringMachine.add_state.
  destruct (decide _) as [->|Hq]; simpl.
  - by apply (multi_class_invariant_extend m).
  - apply (multi_class_invariant_extend m); simpl; try done.
    + apply union_subseteq_r.
    + intros Hin. apply elem_of_union in Hin as [Hin|Hin]; [|done].
      by apply elem_of_singleton in Hin.
    + intros _. apply elem_of_union_l. by apply elem_of_singleton.
    + intros q' Hq' Hne. apply elem_of_union_r. by apply H5.
Qed.

Lemma multi_add_accept_state_invariant q :
  preserves multi_class_invariant (MultiTuringMachine.add_accept_state q).
Proof.
  intros m Hm. pose proof Hm as (H1 & H2 & H3 & H4 & H5 & H6 & _).
  unfold MultiTuringMachine.add_accept_state, MultiTuringMachine.add_state.
  destruct (decide _) as [->|Hq]; simpl.
  - apply (multi_class_invariant_extend m); simpl; try done.
    intros q' Hq' Hne. apply elem_of_union in Hq' as [Hq'|Hq']; [|by apply H5].
    by apply elem_of_singleton in Hq'.
  - apply (multi_class_invariant_extend m); simpl; try done.
    + apply union_subseteq_r.
    + intros Hin. apply elem_of_union in Hin as [Hin|Hin]; [|done].
      by apply elem_of_singleton in Hin.
    + intros Hinit. apply elem_of_union_r. by apply H4.
    + intros q' Hq' Hne. apply elem_of_union in Hq' as [Hq'|Hq'].
      * by apply elem_of_union_l.
      * apply elem_of_union_r. by apply H5.
Qed.

Lemma multi_set_num_tapes_invariant k :
  preserves multi_class_invariant (MultiTuringMachine.set_num_tapes k).
Proof.
  intros m Hm. pose proof Hm as (H1 & H2 & H3 & H4 & H5 & H6 & _).
  unfold MultiTuringMachine.set_num_tapes.
  destruct (decide _) as [|Hk]; simpl; [done|].
  by apply (multi_class_invariant_extend m).
Qed.

(** The loop of [add_transition] that declares the symbols of the
    transition. *)
Lemma add_symbols_loop tr (n : nat) m :
  multi_class_invariant m ->
  (n <= length (MultiTransition.read_symbols_ tr))%nat ->
  (n <= length (MultiTransition.write_symbols_ tr))%nat ->
  exists m',
    for_index n
      (fun i m2 =>
         with_value (MultiTransition.get_read_symbol tr i)
                    MultiTuringMachine.add_tape_symbol m2
         &> with_value (MultiTransition.get_write_symbol tr i)
                       MultiTuringMachine.add_tape_symbol)
      m = Done m'
    /\ multi_class_invariant m'
    /\ MultiTuringMachine.states_ m' = MultiTuringMachine.states_ m
    /\ MultiTuringMachine.num_tapes_ m' = MultiTuringMachine.num_tapes_ m
    /\ MultiTuringMachine.transitions_ m' = MultiTuringMachine.transitions_ m
    /\ (forall i c, (i < n)%nat -> MultiTransition.read_symbols_ tr !! i = Some c ->
                    c ∈ MultiTuringMachine.tape_alphabet_ m')
    /\ (forall i c, (i < n)%nat -> MultiTransition.write_symbols_ tr !! i = Some c ->
                    c ∈ MultiTuringMachine.tape_alphabet_ m').
Proof.
  intros Hm. unfold for_index. induction n as [|n IH]; intros Hr Hw.
  - exists m. simpl. repeat (split; [done|]). split; intros; lia.
  - destruct IH as (m1 & Hloop & Hm1 & Hs1 & Hk1 & Ht1 & Hr1 & Hw1); [lia|lia|].
    rewrite seq_S, foldl_app, Hloop. simpl.
    destruct (lookup_lt_is_Some_2 (MultiTransition.read_symbols_ tr) n) as [r Hread]; [lia|].
    destruct (lookup_lt_is_Some_2 (MultiTransition.write_symbols_ tr) n) as [w Hwrite]; [lia|].
    unfold MultiTransition.get_read_symbol, MultiTransition.get_write_symbol.
    rewrite Hread, Hwrite. simpl.
    pose proof (multi_add_tape_symbol_invariant r m1 Hm1) as Hm2. simpl in Hm2.
    pose proof (multi_add_tape_symbol_invariant w _ Hm2) as Hm3. simpl in Hm3.
    eexists. split; [done|]. split; [exact Hm3|]. simpl.
    split; [done|]. split; [done|]. split; [done|]. split.
    + intros i c Hi Hc. destruct (decide (i = n)) as [->|Hne].
      * rewrite Hread in Hc. injection Hc as <-.
        apply elem_of_union_r, elem_of_union_l. by apply elem_of_singleton.
      * apply elem_of_union_r, elem_of_union_r. apply (Hr1 i); [lia|done].
    + intros i c Hi Hc. destruct (decide (i = n)) as [->|Hne].
      * rewrite Hwrite in Hc. injection Hc as <-.
        apply elem_of_union_l. by apply elem_of_singleton.
      * apply elem_of_union_r, elem_of_union_r. apply (Hw1 i); [lia|done].
Qed.

Lemma multi_add_transition_invariant tr :
  constructible (MultiTuringMachine.AddTransition tr) ->
  preserves multi_class_invariant (MultiTuringMachine.add_transition tr).
Proof.
  intros Htr m Hm. unfold MultiTuringMachine.add_transition.
  destruct (decide _) as [|Hcount]; [done|]. apply dec_stable in Hcount.
  assert (Hwf : MultiTransition.is_well_formed tr = true).
  { destruct Htr as [Hwf|Hempty]; [done|]. subst tr.
    destruct Hm as (_ & _ & _ & _ & _ & Hk & _). by rewrite <- Hcount in Hk. }
  pose proof Hwf as Hlen. unfold MultiTransition.is_well_formed in Hlen.
  apply andb_true_iff in Hlen as [Hlen _].
  apply andb_true_iff in Hlen as [Hlen%bool_decide_eq_true _].
  unfold MultiTransition.get_num_tapes in Hcount.
  pose proof (multi_add_state_invariant (MultiTransition.from_state_ tr) m Hm) as Hm1.
  unfold MultiTuringMachine.add_state in *.
  destruct (decide (MultiTransition.from_state_ tr = "")) as [|Hfrom]; [done|].
  cbn [and_then holds_after] in *.
  pose proof (multi_add_state_invariant (MultiTransition.to_state_ tr) _ Hm1) as Hm2.
  unfold MultiTuringMachine.add_state in *.
  destruct (decide (MultiTransition.to_state_ tr = "")) as [|Hto]; [done|].
  cbn [and_then holds_after] in *.
  match type of Hm2 with
  | multi_class_invariant ?x => set (m2 := x) in *
  end.
  destruct (add_symbols_loop tr (MultiTuringMachine.num_tapes_ m2) m2 Hm2)
    as (m3 & -> & Hm3 & Hs3 & Hk3 & Ht3 & Hr3 & Hw3);
    [subst m2; simpl; lia|subst m2; simpl; lia|].
  cbn [and_then].
  destruct (MultiTuringMachine.transitions_ m3 !! _) eqn:Hfree; [done|].
  cbn [holds_after]. destruct Hm3 as (H1 & H2 & H3 & H4 & H5 & H6 & H7).
  repeat (split; [done|]). intros key tr' Hin. cbn in Hin.
  apply lookup_insert_Some in Hin as [[<- <-]|[_ Hin]]; [|by apply H7].
  cbn. split; [done|]. split; [done|]. rewrite Hs3. subst m2. cbn.
  split; [apply elem_of_union_r, elem_of_union_l; by apply elem_of_singleton|].
  split; [apply elem_of_union_l; by apply elem_of_singleton|].
  split; intros c Hc; apply list_elem_of_lookup in Hc as [i Hi].
  - apply (Hr3 i); [|done]. apply lookup_lt_Some in Hi. cbn. lia.
  - apply (Hw3 i); [|done]. apply lookup_lt_Some in Hi. cbn. lia.
Qed.

Lemma multi_apply_op_invariant op :
  constructible op -> preserves multi_class_invariant (MultiTuringMachine.apply_op op).
Proof.
  destruct op; intros Hop m Hm; cbn [MultiTuringMachine.apply_op];
    [ by apply multi_add_state_invariant | by apply multi_add_input_symbol_invariant
    | by apply multi_add_tape_symbol_invariant | by apply multi_set_initial_state_invariant
    | by apply multi_add_accept_state_invariant | by apply multi_set_blank_symbol_invariant
    | by apply multi_set_num_tapes_invariant | by apply multi_add_transition_invariant
    | by apply multi_class_invariant_clear ].
Qed.

Lemma multi_apply_ops_invariant ops : forall m,
  Forall constructible ops -> multi_class_invariant m ->
  multi_class_invariant (MultiTuringMachine.apply_ops ops m).
Proof.
  unfold MultiTuringMachine.apply_ops.
  induction ops as [|op ops IH]; intros m Hops Hm; simpl; [done|].
  apply Forall_cons in Hops as [Hop Hops].
  apply IH; [done|]. apply holds_object_after; [done|]. by apply multi_apply_op_invariant.
Qed.

(** The inner loop of [is_valid] finds nothing to object to in a
    transition whose symbols are declared. *)
Lemma multi_symbols_checked m tr (rest : outcome bool) (indices : list nat) :
  (forall c, c ∈ MultiTransition.read_symbols_ tr -> c ∈ MultiTuringMachine.tape_alphabet_ m) ->
  (forall c, c ∈ MultiTransition.write_symbols_ tr -> c ∈ MultiTuringMachine.tape_alphabet_ m) ->
  Forall (fun i => (i < length (MultiTransition.read_symbols_ tr))%nat
                   /\ (i < length (MultiTransition.write_symbols_ tr))%nat) indices ->
  foldr (fun i (k : outcome bool) =>
           r ← MultiTransition.get_read_symbol tr i;
           if bool_decide (r ∉ MultiTuringMachine.tape_alphabet_ m) then Ok false
           else w ← MultiTransition.get_write_symbol tr i;
                if bool_decide (w ∉ MultiTuringMachine.tape_alphabet_ m) then Ok false else k)
        rest indices = rest.
Proof.
  intros Hreads Hwrites. induction 1 as [|i indices [Hr Hw] _ IH]; [done|].
  cbn [foldr]. rewrite IH.
  destruct (lookup_lt_is_Some_2 _ _ Hr) as [r Hread].
  destruct (lookup_lt_is_Some_2 _ _ Hw) as [w Hwrite].
  unfold MultiTransition.get_read_symbol, MultiTransition.get_write_symbol.
  rewrite Hread, Hwrite. simpl.
  rewrite bool_decide_false
    by (intros Hno; apply Hno, Hreads; by apply list_elem_of_lookup; exists i).
  rewrite bool_decide_false
    by (intros Hno; apply Hno, Hwrites; by apply list_elem_of_lookup; exists i).
  done.
Qed.

(** The loop of [is_valid] over the transitions objects to the number of
    tapes only. *)
Lemma multi_transitions_checked m (l : list (string * list ascii * MultiTransition.t)) :
  Forall (fun kv =>
            MultiTransition.is_well_formed kv.2 = true
            /\ MultiTransition.from_state_ kv.2 ∈ MultiTuringMachine.states_ m
            /\ MultiTransition.to_state_ kv.2 ∈ MultiTuringMachine.states_ m
            /\ (forall c, c ∈ MultiTransition.read_symbols_ kv.2 ->
                          c ∈ MultiTuringMachine.tape_alphabet_ m)
            /\ (forall c, c ∈ MultiTransition.write_symbols_ kv.2 ->
                          c ∈ MultiTuringMachine.tape_alphabet_ m)) l ->
  exists b,
    foldr (fun (kv : string * list ascii * MultiTransition.t) (rest : outcome bool) =>
             let trans := kv.2 in
             if bool_decide (MultiTransition.get_num_tapes trans
                             <> MultiTuringMachine.num_tapes_ m) then Ok false
             else if bool_decide (MultiTransition.from_state_ trans
                                  ∉ MultiTuringMachine.states_ m)
                     || bool_decide (MultiTransition.to_state_ trans
                                     ∉ MultiTuringMachine.states_ m) then Ok false
             else
               foldr (fun i (k : outcome bool) =>
                        r ← MultiTransition.get_read_symbol trans i;
                        if bool_decide (r ∉ MultiTuringMachine.tape_alphabet_ m) then Ok false
                        else w ← MultiTransition.get_write_symbol trans i;
                             if bool_decide (w ∉ MultiTuringMachine.tape_alphabet_ m)
                             then Ok false else k)
                     rest (seq 0 (MultiTuringMachine.num_tapes_ m)))
          (Ok true) l = Ok b
    /\ (b = true <->
        Forall (fun kv => MultiTransition.get_num_tapes kv.2 = MultiTuringMachine.num_tapes_ m)
               l).
Proof.
  induction 1 as [|[key tr] l (Hwf & Hfrom & Hto & Hreads & Hwrites) _ (b & IH & Hb)].
  - exists true. split; [done|]. split; [by intros _; apply Forall_nil|done].
  - match goal with
    | |- context [foldr ?f ?a ((key, tr) :: l)] =>
        change (foldr f a ((key, tr) :: l)) with (f (key, tr) (foldr f a l))
    end.
    rewrite IH. cbv beta zeta. cbn [snd] in *.
    destruct (decide (MultiTransition.get_num_tapes tr = MultiTuringMachine.num_tapes_ m))
      as [Hcount|Hcount].
    + rewrite bool_decide_false by (by intros Hno; apply Hno).
      rewrite !bool_decide_false by (by intros Hno; apply Hno). simpl.
      rewrite multi_symbols_checked; [|done|done|].
      * exists b. split; [done|]. rewrite Hb. split.
        -- intros Hall. apply Forall_cons. by split.
        -- by intros [_ Hall]%Forall_cons.
      * unfold MultiTransition.is_well_formed in Hwf.
        apply andb_true_iff in Hwf as [Hwf _].
        apply andb_true_iff in Hwf as [Hlen%bool_decide_eq_true _].
        unfold MultiTransition.get_num_tapes in Hcount.
        apply Forall_forall. intros i Hi. apply elem_of_seq in Hi. lia.
    + rewrite bool_decide_true by done. exists false. split; [done|].
      split; [done|]. by intros [? _]%Forall_cons.
Qed.

(** Under the class invariant, [is_valid] depends on four things only. *)
Lemma multi_is_valid_under_invariant m :
  multi_class_invariant m ->
  exists v,
    MultiTuringMachine.is_valid m = Ok v
    /\ (v = true <->
        MultiTuringMachine.initial_state_ m <> ""
        /\ ("" ∉ MultiTuringMachine.accept_states_ m)
        /\ (MultiTuringMachine.blank_symbol_ m ∉ MultiTuringMachine.input_alphabet_ m)
        /\ Forall (fun kv : string * list ascii * MultiTransition.t =>
                     MultiTransition.get_num_tapes kv.2 = MultiTuringMachine.num_tapes_ m)
                  (map_to_list (MultiTuringMachine.transitions_ m))).
Proof.
  intros (H1 & H2 & H3 & H4 & H5 & H6 & H7).
  destruct (multi_transitions_checked m (map_to_list (MultiTuringMachine.transitions_ m)))
    as (b & Hfold & Hb').
  { apply Forall_forall. intros [key tr] Hk. apply elem_of_map_to_list in Hk.
    by destruct (H7 key tr Hk) as (_ & ? & ? & ? & ? & ?). }
  unfold MultiTuringMachine.is_valid.
  match goal with
  | |- context [foldr ?f (Ok true) ?l] =>
      replace (foldr f (Ok true) l) with (Ok b : outcome bool) by (symmetry; exact Hfold)
  end.
  clear Hfold.
  destruct (decide (MultiTuringMachine.initial_state_ m = "")) as [Hinit|Hinit].
  { rewrite (bool_decide_true (MultiTuringMachine.initial_state_ m = "")) by done.
    exists false. destruct (bool_decide (MultiTuringMachine.states_ m = ∅)); simpl;
      (split; [done|]); by split; [|intros [? _]]. }
  specialize (H4 Hinit).
  rewrite (bool_decide_false (MultiTuringMachine.states_ m = ∅))
    by (intros Hempty; rewrite Hempty in H4; by apply not_elem_of_empty in H4).
  rewrite (bool_decide_false (MultiTuringMachine.initial_state_ m = "")) by done.
  rewrite (bool_decide_false (MultiTuringMachine.initial_state_ m ∉ _))
    by (by intros Hn; apply Hn).
  simpl. rewrite (bool_decide_false (MultiTuringMachine.num_tapes_ m = 0%nat)) by done.
  rewrite (bool_decide_false (MultiTuringMachine.blank_symbol_ m ∉ _))
    by (by intros Hn; apply Hn).
  destruct (forallb _ (elements (MultiTuringMachine.accept_states_ m))) eqn:Hacc; simpl.
  - pose proof (proj1 (forallb_elements _ _) Hacc) as Hall.
    assert (Hne : "" ∉ MultiTuringMachine.accept_states_ m).
    { intros Hin. specialize (Hall "" Hin). apply bool_decide_eq_true in Hall. done. }
    destruct (forallb _ (elements (MultiTuringMachine.input_alphabet_ m))) eqn:Hin; simpl.
    + pose proof (proj1 (forallb_elements _ _) Hin) as Hall'.
      assert (Hb : MultiTuringMachine.blank_symbol_ m ∉ MultiTuringMachine.input_alphabet_ m).
      { intros Hb. specialize (Hall' _ Hb). apply andb_true_iff in Hall' as [_ Hall'].
        apply negb_true_iff, bool_decide_eq_false in Hall'. done. }
      exists b. split; [done|]. rewrite Hb'. split; [done|by intros (_ & _ & _ & ?)].
    + exists false. split; [done|]. split; [done|]. intros (_ & _ & Hb & _). exfalso.
      assert (Hall' : forallb (fun c => bool_decide (c ∈ MultiTuringMachine.tape_alphabet_ m)
                         && negb (bool_decide (c = MultiTuringMachine.blank_symbol_ m)))
                        (elements (MultiTuringMachine.input_alphabet_ m)) = true);
        [|congruence].
      apply forallb_elements. intros c Hc. apply andb_true_iff. split.
      * apply bool_decide_eq_true. by apply H3.
      * apply negb_true_iff, bool_decide_eq_false. by intros ->.
  - exists false. split; [done|]. split; [done|]. intros (_ & Hne & _). exfalso.
    assert (Hall : forallb (fun q => bool_decide (q ∈ MultiTuringMachine.states_ m))
                     (elements (MultiTuringMachine.accept_states_ m)) = true); [|congruence].
    apply forallb_elements. intros q Hq. apply bool_decide_eq_true.
    apply H5; [done|]. by intros ->.
Qed.

End MultiClassInvariant.

(** X30. For a [MultiTuringMachine] assembled from its constructor by its
    builder calls (throwing calls included), with transitions made by the
    checking [MultiTransition] constructor, [is_valid] returns without an
    exception, and it can answer false for four reasons only: no initial
    state was set, the empty string was given as an accepting state, the
    blank symbol is in the input alphabet, or a stored transition has a
    number of tapes other than the machine's (after [set_num_tapes]).
    Every other check of [is_valid] holds by construction. *)
Theorem multi_is_valid_fails_for_four_reasons_only
    (k : nat) (b : ascii) (ops : list MultiTuringMachine.builder_op)
    (m0 : MultiTuringMachine.t) :
  MultiTuringMachine.new k b = Ok m0 ->
  Forall constructible ops ->
  let m := MultiTuringMachine.apply_ops ops m0 in
  exists v,
    MultiTuringMachine.is_valid m = Ok v
    /\ (v = true <->
        MultiTuringMachine.initial_state_ m <> ""
        /\ ("" ∉ MultiTuringMachine.accept_states_ m)
        /\ (MultiTuringMachine.blank_symbol_ m ∉ MultiTuringMachine.input_alphabet_ m)
        /\ forall tr, tr ∈ MultiTuringMachine.get_all_transitions m ->
                      MultiTransition.get_num_tapes tr = MultiTuringMachine.num_tapes_ m).
Proof.
  intros Hnew Hops m.
  pose proof (multi_apply_ops_invariant ops m0 Hops (multi_class_invariant_new k b m0 Hnew))
    as Hinv. fold m in Hinv.
  destruct (multi_is_valid_under_invariant m Hinv) as (v & Hv & Hiff).
  exists v. split; [done|]. rewrite Hiff.
  assert (Hsame : Forall (fun kv : string * list ascii * MultiTransition.t =>
                            MultiTransition.get_num_tapes kv.2
                            = MultiTuringMachine.num_tapes_ m)
                         (map_to_list (MultiTuringMachine.transitions_ m))
                  <-> forall tr, tr ∈ MultiTuringMachine.get_all_transitions m ->
                        MultiTransition.get_num_tapes tr = MultiTuringMachine.num_tapes_ m).
  { unfold MultiTuringMachine.get_all_transitions. rewrite Forall_forall. split.
    - intros Hall tr Hin. apply list_elem_of_fmap in Hin as (kv & -> & Hin). by apply Hall.
    - intros Hall kv Hin. apply Hall. apply list_elem_of_fmap. by exists kv. }
  by rewrite Hsame.
Qed.

Lemma multi_is_valid_fails_for_four_reasons_only_witness :
  exists v,
    MultiTuringMachine.is_valid
      (MultiTuringMachine.apply_ops
         [MultiTuringMachine.SetInitialState "q";
          MultiTuringMachine.AddTransition
            (MultiTransition.mk "q" ["a"; "."]%char "q" ["a"; "."]%char [RIGHT; STAY]);
          MultiTuringMachine.SetNumTapes 3]
         (MultiTuringMachine.mk ∅ ∅ {[ "."%char ]} "" ∅ "." 2 ∅)) = Ok v
    /\ v = false.
Proof.
  destruct (multi_is_valid_fails_for_four_reasons_only 2 "."
              [MultiTuringMachine.SetInitialState "q";
               MultiTuringMachine.AddTransition
                 (MultiTransition.mk "q" ["a"; "."]%char "q" ["a"; "."]%char [RIGHT; STAY]);
               MultiTuringMachine.SetNumTapes 3]
              (MultiTuringMachine.mk ∅ ∅ {[ "."%char ]} "" ∅ "." 2 ∅))
    as (v & Hv & Hiff).
  - reflexivity.
  - apply Forall_cons. split; [exact I|]. apply Forall_cons. split; [by left|].
    apply Forall_cons. split; [exact I|]. by apply Forall_nil.
  - exists v. split; [done|]. vm_compute in Hv. by injection Hv.
Defined.
